(* ===== verification/_CoqProject ===== *)
-Q . S2P
Prelude.v
Timeout.v
DistCoord.v
GroupLead.v
Election.v
Cluster.v
Consensus.v
Ports.v
Frames.v
Queries.v
Group.v
Disco.v
MsgHandler.v
DiscoFacts.v
DhtNet.v
Ownership.v
Utils.v
Lmdb.v
Restart.v
Timers.v
TimerThreads.v
Ini.v
Validator.v
DhtTracker.v
Framework.v
Service.v
Discoveryd.v
DiscoApi.v
Component.v
Handlers.v
PortObjects.v
GroupNet.v
Voting.v
Delivery.v
Lifecycle.v
Actor.v
PortSetup.v
EndToEnd.v
Device.v
Params.v
Config.v
