(* ===== verification/Prelude.v ===== *)
(** * riaps-core: a verification development

    riaps-core is the C++ run-time of the RIAPS platform: actors made of
    components that talk through ZeroMQ ports, a discovery service that finds
    the partner of a port on other nodes through a distributed hash table
    (OpenDHT), and groups of components that elect a leader and vote.  The
    development models the core of the program and proves what makes it
    correct; where the code does not do what it means to, a theorem states
    what it does.

    ** Parts of the program and files of the development

    Generic
    - [Prelude.v] (this file): machine integers, the result type [Res] of code
      that may throw or be undefined, state commands [Cmd] with their output,
      strings ([std::stoi], [std::to_string], [find]), ordered maps.
    - [Timeout.v]: [utils/r_timeout.h], [r_expirable.h], [r_expirablelist.h].
    - [Utils.v]: [utils/r_utils.cc].  [Timers.v]: the timer thread
      ([ports/r_periodictimer.cc]) and the wake-up computations of
      [r_componentbase.cc].  [TimerThreads.v]: the one-shot and the callback
      timer ([r_oneshottimer.cc], [r_callbacktimer.cc]), which no other code uses:
      an owner and a thread that share a flag.  [Params.v]: [r_parameter.cc].
    - [Ini.v]: [INIReader.h], the parser of configuration files.
      [Framework.v]: [framework/rfw_*.cc].
    - [Frames.v]: the conversions between frames and Cap'n Proto messages
      ([utils/r_utils.cc]) and the readers that own a frame
      ([r_messagereader.h]), over a heap of frames.

    Groups (one object per group a component has joined)
    - [DistCoord.v]: the messages of [distcoord.capnp].
    - [GroupLead.v]: [groups/r_grouplead.cc], over the interface [GroupApi] to
      the group that owns the object, with its laws [GroupApiLaws].
    - [Election.v]: an abstract election and the refinement of the code to it.
    - [Cluster.v]: members that exchange election messages over a network that
      loses, delays, reorders and repeats them; safety and progress.
    - [Consensus.v]: proposals, votes, expiry, and the object store they share.
    - [Group.v]: [groups/r_group.cc], which implements [GroupApi]: membership,
      sending, dispatch of what is received, start-up.

    Ports and components
    - [Ports.v]: [componentmodel/ports], [r_configuration.h]: messages, time
      stamps, errors.  [PortSetup.v]: how the ports come up: binding,
      securing, registering and connecting.  [Queries.v]: query and answer
      ports and the parameters of their messages ([r_payload.cc]).
    - [Component.v]: [r_componentbase.cc]: the thread's loop, ports by name,
      groups, scheduled actions.  It keeps the ports by value; [PortObjects.v]
      has the objects, their classes and the pointers to them, and shows that
      the two agree.  [Handlers.v] cuts a turn of the thread into its acts and has
      the loop over the groups with the calls that handlers make from inside it.
      [Lifecycle.v]: configuration, activation and
      termination, with owner and thread interleaved.
    - [Config.v]: [r_pyconfigconverter.h], from the Python model to the
      configuration of a component.  [Actor.v]: [r_pyactor.cc].
    - [Device.v]: [r_devicethread.cc], the thread of a device and its owner.

    Discovery
    - [Disco.v]: the messages of [disco.capnp], the keys of services, the data
      that is stored ([r_dhtdata.cc]).
    - [MsgHandler.v]: [discoveryd/r_msghandler.cc], all handlers, the loop and
      the callbacks; [DiscoFacts.v]: its theorems.  It keeps the table of actors
      by value; [Ownership.v] has the counted pointers, the objects and the
      sockets they own, and the destructor of the handler.
    - [Service.v]: [discoveryd/r_riaps_actor.cc], the thread around it.
    - [Lmdb.v]: [utils/r_lmdb.cc] over an abstract LMDB, the classes [Mdb] and
      [MdbLaws]; [Restart.v]: the handler on this data base across restarts.
    - [DiscoApi.v]: the client side, [r_discoverdapi.cc].
    - [Validator.v], [DhtTracker.v], [Discoveryd.v]: the rest of
      [src/discoveryd].

    Compositions
    - [GroupNet.v]: components, each with its thread, ports and groups, that
      share a group over a network; the steps are the acts of [Handlers.v]: the
      event of a turn, the round of one group, a call of the user's code, also
      from a handler, joining and leaving included.
    - [Voting.v]: a vote in such a network, from the call of [SendVote] to the
      announcement, with the history of what was read and called.
    - [Delivery.v]: what handlers are called with, in such a network, traced back
      to the call of the user's code that it comes from.
    - [DhtNet.v]: discovery services on several nodes that share one DHT, as a
      step relation [net_step] with its reachable states; a node's rounds are
      those of [MsgHandler.v], its searches push messages to its channel by
      the callbacks of the code.  The DHT may show a search any values that
      were put under its key, in any order, repeatedly, late or never.
    - [EndToEnd.v]: from the constructor of a server port on one node, through
      the two discovery services and the DHT, to the connection of a client
      port of a component on another.

    ** How the model reads the code

    The members of a class are the fields of a record; a method is a function
    on it that returns the new state and the list of its effects (messages
    sent, calls of ZeroMQ, of OpenDHT and of the component).  Each reading of
    a clock, each random number, each result of a library call is an argument,
    so a theorem holds for every behaviour of the environment.  A null
    dereference is [UB], an exception that the code does not catch is [Throw].
    Hash maps are [gmap]; where their iteration order matters it is an
    argument.  Integers are [Z], wrapped at their width where the code can
    leave it.  OpenDHT, its cryptography and MessagePack are section variables,
    with named hypotheses where a theorem relies on them; the witnesses
    instantiate them.

    ** What the theorems show

    - Election: one vote per member and term, at most one leader per term, a
      strict majority behind each leader, and a candidate that gets one wins
      ([Cluster.v]); without the two assumptions of [allowed] safety fails, as
      [stale_append_two_leaders] shows.  [one_leader] carries safety over to
      whole components that join and leave, by a simulation from the acts of
      their threads to the abstract election of [Election.v]; a member that
      leaves and joins again votes twice ([rejoin_two_leaders]), and a leader
      that was replaced still answers [IsLeader] ([deposed_still_answers]).
    - The theorems on groups take the configuration of the group's type as an
      argument; as the actor is written it is always missing, so that no
      component joins a group ([never_joins]).
    - Voting: the announced result is the one of a strict majority, expired
      proposals are rejected, pointers never dangle ([Consensus.v]); over the
      network, a proposal announced as accepted was read by a leader, and more
      than half of the members it knew then called for it, if the network
      repeats nothing and nobody votes twice ([accepted_by_majority]); a member
      that votes twice can decide alone ([one_voter_decides]), which happens to a
      member that votes each time it is asked, because a leader that was replaced
      forwards proposals too ([two_leaders_ask_twice]).
    - Delivery: what a handler is called with, some member has asked to have
      delivered, with the same bytes ([callbacks_sound]).
    - Configuration files: what is printed is read back ([ini_roundtrip]), the
      two readers of [riaps.conf] agree ([conf_readers_agree]), and when the
      file switches security on ([security_switch]).
    - Port objects: casts and pointers are safe and each [SendMessageOnPort]
      is defined on the types it is for ([ports_well_typed]), the tables by
      value are those of pointers ([port_tables_agree]), and of two ports of one
      name the first dangles ([duplicate_name_dangles]).
    - Frames: messages survive the way through a frame ([frame_roundtrip]), a
      reader sees its message as long as it lives, however it is copied
      ([readers_safe]).
    - Groups: the dispatch is an input of a cluster member, membership follows
      the heartbeats ([Group.v]).
    - Discovery: the state invariant of the handler, the exact effect of each
      request and update, what a client is told, which requests end the
      service ([DiscoFacts.v], [DiscoApi.v]); trust only in signed answers
      ([Validator.v]); stability of the DHT ([DhtTracker.v]); the life of the
      service ([Service.v]).
    - Discovery across nodes: whatever the DHT does, an actor is only told of
      endpoints that some node registered for what the actor's component has
      looked up ([no_cross_talk]); from every reachable state a client that
      has looked a key up can be told of every value under it
      ([discovery_completes]); a server port and a client port of the same
      application, type and scope get connected ([server_reaches_client]);
      group updates are never delivered ([group_update_needs_collision]).
    - Sockets of actors: each has one owner, is open as long as its actor is
      registered, and is destroyed once; no message goes to one that is not open,
      and the destructor leaves nothing behind ([sockets_owned]).
    - Restart: the data base is a multimap ([lmdb_multimap]), follows the
      handler ([db_follows_handler]), and what is left in it is declared a
      zombie by the next start ([restart_marks_zombies]).
    - Ports: what server and client ports bind, ask and connect to, with and
      without their certificate ([PortSetup.v]); device threads may be
      destroyed only after they are terminated ([Device.v]).
    - Turns: with handlers that join, leave, send and vote from inside the loop,
      a turn is a run of the net in which no group is served twice or skipped
      ([turn_is_run]); it ends ([turn_ends]), is undefined only where its parts
      are or a handler leaves its own group ([turn_undefined]), and is the turn of
      [Component.v] when handlers leave the groups alone ([silent_turn]).
    - Components: every group is served once per round, a port update reaches
      its port, joining and leaving ([Component.v]); a component ends in order,
      if its thread has made a turn ([termination_order]); the thread creates exactly
      the ports that the model declares under five of the keys
      ([convert_plan]); an answer finds its question
      ([query_answer_roundtrip]).
    - Timers, time stamps and utilities: no drift, one shot, bounds; timers with a
      thread of their own never lose it, [stop] returns and lets at most one more
      message through ([timer_thread_life]).

    ** Bounds and fuel

    Loops over lists and maps are structural.  [to_string] and the decimal
    conversions use the number of binary digits as fuel, which bounds the
    decimal ones ([nat_fuel]).  [WaitUntil] takes the number of clock readings
    it may make; [wakeups] shows that it ends as soon as the clock is late
    enough.  [DhtGet_levels] is called with eleven levels, the number after
    which the code gives up.  The loops over a cursor of LMDB take fuel; one
    round more than there are items is enough, and two rounds for [Del].
    [HandlerStep] takes fuel for the groups it comes to; one more than the groups
    there are or that handlers join is enough ([turn_ends]).
    The events of [DhtNet.v], [GroupNet.v], [Lifecycle.v], [Device.v],
    [TimerThreads.v] and [Service.v] are lists of any length.

    ** Not modelled

    The wire encodings (Cap'n Proto, MessagePack), ZeroMQ sockets and polling
    beyond their results, loggers, pybind11 beyond the casts of [Config.v], the
    Python program that hosts the components ([EndToEnd.v] says what it is
    relied on to do), generated code, and vendored code other than [INIReader.h].
    The calls of handlers that [Handlers.v] interleaves with the loop are those
    on groups.  OpenDHT, its cryptography and LMDB are parameters.  Of the files
    that are modelled, what is left out only logs, reads a member, or sets
    loggers up; the examples and tests are written for older interfaces of the
    library and are left out. *)

From Stdlib Require Import ZArith Lia Ascii.
From stdpp Require Import base gmap strings list fin_maps fin_sets sorting.

#[global] Open Scope Z_scope.

(** Scope of the notations of the development. *)
Declare Scope riaps_scope.
Delimit Scope riaps_scope with riaps.

(** ** Machine integers

    A [w]-bit unsigned integer is a [Z] reduced modulo [2^w]; a signed one is
    the representative in [[-2^(w-1), 2^(w-1))]. *)

Definition uwrap (w z : Z) : Z := z mod 2 ^ w.
Definition swrap (w z : Z) : Z := (z + 2 ^ (w - 1)) mod 2 ^ w - 2 ^ (w - 1).

Abbreviation u8 := (uwrap 8).
Abbreviation u16 := (uwrap 16).
Abbreviation u32 := (uwrap 32).
Abbreviation u64 := (uwrap 64).
Abbreviation i32 := (swrap 32).
Abbreviation i64 := (swrap 64).

Definition in_u (w z : Z) : Prop := 0 <= z < 2 ^ w.
Definition in_s (w z : Z) : Prop := - 2 ^ (w - 1) <= z < 2 ^ (w - 1).

#[export] Instance in_u_dec w z : Decision (in_u w z).
Proof. unfold in_u. apply _. Defined.
#[export] Instance in_s_dec w z : Decision (in_s w z).
Proof. unfold in_s. apply _. Defined.

Lemma uwrap_range w z : 0 <= w -> in_u w (uwrap w z).
Proof. intros. unfold in_u, uwrap. apply Z.mod_pos_bound. lia. Qed.

Lemma uwrap_id w z : in_u w z -> uwrap w z = z.
Proof. unfold in_u, uwrap. intros. by rewrite Z.mod_small. Qed.

Lemma swrap_range w z : 0 < w -> in_s w (swrap w z).
Proof.
  intros. unfold in_s, swrap.
  assert (2 ^ w = 2 * 2 ^ (w - 1)) as E.
  { rewrite <- Z.pow_succ_r by lia. f_equal. lia. }
  pose proof (Z.mod_pos_bound (z + 2 ^ (w - 1)) (2 ^ w)) as B.
  assert (0 < 2 ^ w) by lia. lia.
Qed.

Lemma swrap_id w z : 0 < w -> in_s w z -> swrap w z = z.
Proof.
  unfold in_s, swrap. intros Hw Hz.
  assert (2 ^ w = 2 * 2 ^ (w - 1)) as E.
  { rewrite <- Z.pow_succ_r by lia. f_equal. lia. }
  rewrite Z.mod_small; lia.
Qed.

(** The two facts about wrapping that the components' arithmetic needs. *)
Lemma uwrap_succ_lt w z : 0 <= w -> 0 <= z -> z + 1 < 2 ^ w -> uwrap w (z + 1) = z + 1.
Proof. intros. apply uwrap_id. unfold in_u. lia. Qed.

Lemma swrap_neq w z : 0 < w -> ~ in_s w z -> swrap w z <> z.
Proof. intros Hw Hz E. apply Hz. rewrite <- E. by apply swrap_range. Qed.

(** ** Outcomes of C++ code

    A C++ function either returns, throws, or runs into undefined behaviour
    (a null or dangling pointer is dereferenced). *)

(** The last two are those of pybind11: a Python error, and a failed cast. *)
Inductive Exn :=
| invalid_argument | out_of_range | runtime_error | bad_function_call
| error_already_set | cast_error.

#[export] Instance Exn_eq_dec : EqDecision Exn.
Proof. solve_decision. Defined.

Inductive Res (A : Type) :=
| Ok (a : A)
| Throw (e : Exn)
| UB.
Arguments Ok {A} _.
Arguments Throw {A} _.
Arguments UB {A}.

#[export] Instance Res_eq_dec `{EqDecision A} : EqDecision (Res A).
Proof. solve_decision. Defined.

#[export] Instance Res_ret : MRet Res := @Ok.
#[export] Instance Res_bind : MBind Res := fun A B f r =>
  match r with Ok a => f a | Throw e => Throw e | UB => UB end.

(** A pointer that may be null: dereferencing null is undefined behaviour. *)
Definition deref {A} (p : option A) : Res A :=
  match p with Some a => Ok a | None => UB end.

(** [std::map::at]: throws when the key is absent. *)
Definition map_at `{Countable K} {A} (m : gmap K A) (k : K) : Res A :=
  match m !! k with Some a => Ok a | None => Throw out_of_range end.

Lemma deref_Ok {A} (p : option A) a : deref p = Ok a <-> p = Some a.
Proof. destruct p; simpl; split; congruence. Qed.

(** A sequence of calls returns exactly if each of them does. *)
Lemma bind_Ok {A B} (r : Res A) (k : A -> Res B) y :
  (a ← r; k a) = Ok y <-> exists a, r = Ok a /\ k a = Ok y.
Proof.
  destruct r as [a| |]; simpl; [|by split; [|intros (? & ? & _)]..].
  split; [by exists a|]. by intros (? & [= <-] & ?).
Qed.

(** ** Commands: state passing with a log of effects

    A void member function is a [Cmd S O]: from the object's state it computes
    the new state and, in order, what it did to the outside (messages sent,
    callbacks called). *)

Definition Cmd (S O : Type) : Type := S -> S * list O.

Section Cmd.
Context {S O : Type}.

Definition skip : Cmd S O := fun s => (s, []).
Definition modify (f : S -> S) : Cmd S O := fun s => (f s, []).
Definition emit (o : O) : Cmd S O := fun s => (s, [o]).
Definition read (k : S -> Cmd S O) : Cmd S O := fun s => k s s.
Definition seq (c1 c2 : Cmd S O) : Cmd S O := fun s =>
  ((c2 (c1 s).1).1, (c1 s).2 ++ (c2 (c1 s).1).2).
Definition when (b : bool) (c : Cmd S O) : Cmd S O := if b then c else skip.

(** [for (auto& x : l) c(x);] *)
Fixpoint for_each {A} (l : list A) (c : A -> Cmd S O) : Cmd S O :=
  match l with
  | [] => skip
  | x :: l' => seq (c x) (for_each l' c)
  end.

(** Running a sequence whose first command is known. *)
Lemma seq_run (c1 c2 : Cmd S O) s s' o :
  c1 s = (s', o) -> seq c1 c2 s = ((c2 s').1, o ++ (c2 s').2).
Proof. intros E. unfold seq. by rewrite E. Qed.

(** An invariant of the state is kept by a loop whose body keeps it. *)
Lemma for_each_inv {A} (P : S -> Prop) (l : list A) c s :
  (forall x s', x ∈ l -> P s' -> P (c x s').1) -> P s -> P (for_each l c s).1.
Proof.
  revert s. induction l as [|x l IH]; intros s Hc Hs; [done|]. simpl.
  apply IH; [|by apply Hc; [left|]]. intros y s' Hy. apply Hc. by right.
Qed.

(** A loop whose body only reads the state. *)
Lemma for_each_emit {A} (l : list A) (c : A -> Cmd S O) (f : A -> list O) s :
  (forall x, x ∈ l -> c x s = (s, f x)) -> for_each l c s = (s, concat (map f l)).
Proof.
  induction l as [|x l IH]; intros Hc; [done|]. simpl. unfold seq.
  rewrite Hc by left. simpl. rewrite IH; [done|]. intros y Hy. apply Hc. by right.
Qed.

(** The log of a loop is made of the logs of its rounds. *)
Lemma for_each_out {A} (l : list A) c s o :
  o ∈ (for_each l c s).2 -> exists x s', x ∈ l /\ o ∈ (c x s').2.
Proof.
  revert s. induction l as [|x l IH]; intros s; simpl; [by intros ?%elem_of_nil|].
  intros [Ho|Ho]%elem_of_app; [exists x, s; split; [left|done]|].
  destruct (IH _ Ho) as (y & s' & Hy & Ho'). exists y, s'. split; [by right|done].
Qed.
End Cmd.

Lemma Ok_pair {A B} (r : A * B) a b : Ok r = Ok (a, b) -> r.1 = a /\ r.2 = b.
Proof. by intros [= ->]. Qed.

Notation "c1 ;; c2" := (seq c1 c2)
  (at level 100, c2 at level 200, right associativity) : riaps_scope.

(** ** Strings: the parts of [std::string] and [<string>] the code uses *)

(** [s.find(c)]: [None] is [npos]. *)
Fixpoint str_find (c : ascii) (s : string) : option nat :=
  match s with
  | EmptyString => None
  | String d s' => if decide (c = d) then Some 0%nat else S <$> str_find c s'
  end.

(** [s.find(pat)] for a string pattern. *)
Fixpoint str_find_sub (pat s : string) : option nat :=
  if String.prefix pat s then Some 0%nat
  else match s with
       | EmptyString => None
       | String _ s' => S <$> str_find_sub pat s'
       end.

(** [s.substr(pos)] and [s.substr(0, n)], for positions inside the string. *)
Fixpoint str_drop (n : nat) (s : string) : string :=
  match n, s with
  | O, _ => s
  | S n', EmptyString => EmptyString
  | S n', String _ s' => str_drop n' s'
  end.

Fixpoint str_take (n : nat) (s : string) : string :=
  match n, s with
  | O, _ => EmptyString
  | S n', EmptyString => EmptyString
  | S n', String c s' => String c (str_take n' s')
  end.

Definition is_space (c : ascii) : bool :=
  let n := nat_of_ascii c in ((9 <=? n) && (n <=? 13))%nat || (n =? 32)%nat.

Definition digit_val (c : ascii) : option Z :=
  let n := Z.of_nat (nat_of_ascii c) in
  if (48 <=? n) && (n <=? 57) then Some (n - 48) else None.

Definition digit_char (d : Z) : ascii := ascii_of_nat (Z.to_nat (48 + d)).

Fixpoint skip_space (s : string) : string :=
  match s with
  | String c s' => if is_space c then skip_space s' else s
  | EmptyString => s
  end.

(** The digits at the head of [s], accumulated in base ten. *)
Fixpoint read_digits (acc : Z) (s : string) : Z :=
  match s with
  | String c s' =>
      match digit_val c with
      | Some d => read_digits (10 * acc + d) s'
      | None => acc
      end
  | EmptyString => acc
  end.

Definition starts_with_digit (s : string) : bool :=
  match s with String c _ => bool_decide (is_Some (digit_val c)) | _ => false end.

(** [std::stoi]: white space, an optional sign, then digits; what follows the
    digits is ignored; no digits or a value outside [int] is an exception. *)
Definition stoi (s : string) : Res Z :=
  let s := skip_space s in
  let '(sign, s) :=
    match s with
    | String "-" s' => (-1, s')
    | String "+" s' => (1, s')
    | _ => (1, s)
    end in
  if starts_with_digit s then
    let v := sign * read_digits 0 s in
    if (- 2 ^ 31 <=? v) && (v <? 2 ^ 31) then Ok v else Throw out_of_range
  else Throw invalid_argument.

(** [std::to_string] of a non-negative integer: [fuel] bounds the digits, and
    the bit length of the number is always enough. *)
Fixpoint dec_go (fuel : nat) (z : Z) (acc : string) : string :=
  match fuel with
  | O => acc
  | S f =>
      let acc := String (digit_char (z mod 10)) acc in
      if z <? 10 then acc else dec_go f (z / 10) acc
  end.

Definition nat_fuel (z : Z) : nat := S (Z.to_nat (Z.log2 z)).

Definition to_string (z : Z) : string :=
  if z <? 0 then String "-" (dec_go (nat_fuel (- z)) (- z) "")
  else dec_go (nat_fuel z) z "".

(** ** Iteration order of [std::map<std::string, _>] *)

Definition string_le (a b : string) : Prop := String.leb a b = true.

#[export] Instance string_le_dec a b : Decision (string_le a b).
Proof. unfold string_le. apply _. Defined.

Definition entry_le {A} (p q : string * A) : Prop := string_le p.1 q.1.

#[export] Instance entry_le_dec {A} (p q : string * A) : Decision (entry_le p q).
Proof. unfold entry_le. apply _. Defined.

Definition smap_to_list {A} (m : gmap string A) : list (string * A) :=
  merge_sort entry_le (map_to_list m).

Lemma smap_to_list_perm {A} (m : gmap string A) : smap_to_list m ≡ₚ map_to_list m.
Proof. apply merge_sort_Permutation. Qed.

Lemma elem_of_smap_to_list {A} (m : gmap string A) k x :
  (k, x) ∈ smap_to_list m <-> m !! k = Some x.
Proof. rewrite smap_to_list_perm. apply elem_of_map_to_list. Qed.

Lemma NoDup_fst_smap_to_list {A} (m : gmap string A) : NoDup (smap_to_list m).*1.
Proof. rewrite smap_to_list_perm. apply NoDup_fst_map_to_list. Qed.

(** ** Lemmas on strings *)

Lemma str_app_nil s : "" +:+ s = s.
Proof. done. Qed.

Lemma str_app_cons c s t : String c s +:+ t = String c (s +:+ t).
Proof. done. Qed.

Lemma str_take_app s t : str_take (String.length s) (s +:+ t) = s.
Proof. induction s as [|c s IH]; [by destruct t|].
  rewrite str_app_cons. simpl. by rewrite IH.
Qed.

(** Selecting from a part gives a part of the selection. *)
Lemma omap_submseteq {A B} (f : A -> option B) (l k : list A) : l ⊆+ k -> omap f l ⊆+ omap f k.
Proof. intros [k' ->]%submseteq_Permutation. rewrite omap_app. by apply submseteq_inserts_r. Qed.
Lemma omap_fmap {A B C} (f : B -> option C) (g : A -> B) (l : list A) : omap f (g <$> l) = omap (fun x => f (g x)) l.
Proof. induction l as [|x l IH]; [done|]. simpl. destruct (f (g x)); [by f_equal|exact IH]. Qed.
Lemma filter_submseteq {A} (P : A -> Prop) `{!forall x, Decision (P x)} (l k : list A) :
  l ⊆+ k -> filter P l ⊆+ filter P k.
Proof. intros [k' ->]%submseteq_Permutation. rewrite filter_app. by apply submseteq_inserts_r. Qed.

Lemma str_take_all s n : (String.length s <= n)%nat -> str_take n s = s.
Proof.
  revert n. induction s as [|c s IH]; intros [|n] Hn; simpl in *; [done..|lia|]. by rewrite IH by lia.
Qed.

Lemma str_drop_app s t : str_drop (String.length s) (s +:+ t) = t.
Proof. by induction s as [|c s IH]. Qed.

Lemma str_drop_S_app s c t : str_drop (S (String.length s)) (s +:+ String c t) = t.
Proof. induction s as [|d s IH]; [done|]. simpl in *. done. Qed.

Lemma str_find_app c s t :
  str_find c s = None -> str_find c (s +:+ String c t) = Some (String.length s).
Proof.
  induction s as [|d s IH]; rewrite ?str_app_nil, ?str_app_cons; simpl;
    [by rewrite decide_True|].
  case_decide; [done|]. intros Hs%fmap_None. by rewrite (IH Hs).
Qed.

Lemma str_app_assoc (a b c : string) : (a +:+ b) +:+ c = a +:+ (b +:+ c).
Proof. induction a as [|d a IH]; [done|]. by rewrite !str_app_cons, IH. Qed.

Lemma str_app_inj_l (a b c : string) : a +:+ b = a +:+ c -> b = c.
Proof.
  induction a as [|d a IH]; [done|]. rewrite !str_app_cons. intros [= H]. by apply IH.
Qed.

(** Two strings split at the first occurrence of a separator that neither
    prefix contains are equal only part by part. *)
Lemma str_find_sep c s t : str_find c (s +:+ String c t) <> None.
Proof.
  induction s as [|d s IH]; rewrite ?str_app_nil, ?str_app_cons; simpl; [by rewrite decide_True|].
  case_decide; [done|]. by intros ?%fmap_None.
Qed.

Lemma str_app_sep_inj c a b s t :
  str_find c a = None -> str_find c b = None ->
  a +:+ String c s = b +:+ String c t -> a = b /\ s = t.
Proof.
  revert b. induction a as [|d a IH]; intros [|e b]; cbn [str_find];
    rewrite ?str_app_nil, ?str_app_cons; intros Ha Hb E.
  - by simplify_eq.
  - exfalso. simplify_eq. revert Hb. by rewrite decide_True.
  - exfalso. simplify_eq. revert Ha. by rewrite decide_True.
  - simplify_eq. case_decide; [done|].
    apply fmap_None in Ha, Hb. destruct (IH b) as [-> ->]; auto.
Qed.

(** ** The order of strings: [operator<] of [std::string] *)

Lemma ascii_compare_refl c : Ascii.compare c c = Eq.
Proof. unfold Ascii.compare. apply N.compare_refl. Qed.

Lemma str_compare_refl a : String.compare a a = Eq.
Proof. induction a as [|c a IH]; [done|]. simpl. by rewrite ascii_compare_refl. Qed.

Lemma str_ltb_irrefl a : String.ltb a a = false.
Proof. unfold String.ltb. by rewrite str_compare_refl. Qed.

Lemma str_ltb_lt a b : String.ltb a b = true <-> String.compare a b = Lt.
Proof. unfold String.ltb. by destruct (String.compare a b). Qed.

Lemma str_compare_trans a b c :
  String.compare a b = Lt -> String.compare b c = Lt -> String.compare a c = Lt.
Proof.
  revert b c. induction a as [|x a IH]; intros [|y b] [|z c]; simpl; try done.
  destruct (Ascii.compare x y) eqn:E1; try done; destruct (Ascii.compare y z) eqn:E2; try done.
  - apply Ascii.compare_eq_iff in E1, E2. subst. rewrite ascii_compare_refl. apply IH.
  - apply Ascii.compare_eq_iff in E1. subst. by rewrite E2.
  - apply Ascii.compare_eq_iff in E2. subst. by rewrite E1.
  - unfold Ascii.compare in *. rewrite N.compare_lt_iff in E1, E2.
    by rewrite (proj2 (N.compare_lt_iff _ _)) by lia.
Qed.

Lemma str_ltb_trans a b c :
  String.ltb a b = true -> String.ltb b c = true -> String.ltb a c = true.
Proof. rewrite !str_ltb_lt. apply str_compare_trans. Qed.

Lemma str_ltb_total a b : String.ltb a b = true \/ a = b \/ String.ltb b a = true.
Proof.
  rewrite !str_ltb_lt, (String.compare_antisym b a).
  destruct (String.compare a b) eqn:E; simpl; [|by left|by right; right].
  right; left. by apply String.compare_eq_iff.
Qed.

Lemma digit_val_char d : 0 <= d < 10 -> digit_val (digit_char d) = Some d.
Proof.
  intros Hd.
  assert (d = 0 \/ d = 1 \/ d = 2 \/ d = 3 \/ d = 4 \/ d = 5 \/ d = 6 \/ d = 7
          \/ d = 8 \/ d = 9) as H by lia.
  by destruct_or! H; subst.
Qed.

Lemma digit_char_plain d :
  0 <= d < 10 ->
  is_space (digit_char d) = false /\ digit_char d <> "-"%char /\ digit_char d <> "+"%char.
Proof.
  intros Hd.
  assert (d = 0 \/ d = 1 \/ d = 2 \/ d = 3 \/ d = 4 \/ d = 5 \/ d = 6 \/ d = 7
          \/ d = 8 \/ d = 9) as H by lia.
  by destruct_or! H; subst.
Qed.

Lemma dec_go_head fuel z acc :
  0 <= z -> exists d s, 0 <= d < 10 /\ dec_go (S fuel) z acc = String (digit_char d) s.
Proof.
  revert z acc. induction fuel as [|f IH]; intros z acc Hz; simpl.
  - exists (z mod 10), acc. split; [apply Z.mod_pos_bound; lia|]. by case_match.
  - case_match; [exists (z mod 10), acc; split; [apply Z.mod_pos_bound; lia|done]|].
    apply IH. apply Z.div_pos; lia.
Qed.

Lemma dec_go_read fuel z acc :
  0 <= z < 2 ^ Z.of_nat fuel -> (0 < fuel)%nat ->
  read_digits 0 (dec_go fuel z acc) = read_digits z acc.
Proof.
  revert z acc. induction fuel as [|f IH]; intros z acc Hz Hf; [lia|].
  assert (forall a, 0 <= a -> read_digits a (String (digit_char (z mod 10)) acc)
                  = read_digits (10 * a + z mod 10) acc) as Hone.
  { intros a Ha. cbn. rewrite digit_val_char; [done|]. apply Z.mod_pos_bound. lia. }
  cbn [dec_go]. destruct (z <? 10) eqn:E; [apply Z.ltb_lt in E|apply Z.ltb_ge in E].
  - rewrite Hone by lia. by rewrite Z.mod_small by lia.
  - rewrite Nat2Z.inj_succ, Z.pow_succ_r in Hz by lia.
    assert (1 <= z / 10) as Hge by (apply Z.div_le_lower_bound; lia).
    assert (z / 10 < 2 ^ Z.of_nat f) as Hlt by (apply Z.div_lt_upper_bound; lia).
    rewrite IH, Hone; [..|lia|lia|].
    + f_equal. pose proof (Z.div_mod z 10). lia.
    + destruct f; [|lia]. cbn in Hlt. lia.
Qed.

Lemma nat_fuel_enough z : 0 <= z -> z < 2 ^ Z.of_nat (nat_fuel z).
Proof.
  intros Hz. unfold nat_fuel. rewrite Nat2Z.inj_succ, Z2Nat.id by apply Z.log2_nonneg.
  destruct (Z.eq_dec z 0) as [->|]; [by compute|].
  apply Z.log2_spec. lia.
Qed.

(** Parsing back a printed non-negative [int]. *)
Lemma stoi_to_string z : 0 <= z < 2 ^ 31 -> stoi (to_string z) = Ok z.
Proof.
  intros Hz. unfold to_string. destruct (z <? 0) eqn:E; [apply Z.ltb_lt in E; lia|].
  pose proof (nat_fuel_enough z ltac:(lia)) as Hf.
  pose proof (dec_go_read (nat_fuel z) z "" ltac:(lia) ltac:(unfold nat_fuel; lia)) as Hr.
  destruct (dec_go_head (Z.to_nat (Z.log2 z)) z "") as (d & s & Hd & Es); [lia|].
  fold (nat_fuel z) in Es. rewrite Es in *. unfold stoi.
  destruct (digit_char_plain d Hd) as (Hs & Hm & Hp).
  cbn [skip_space]. rewrite Hs.
  assert ((match String (digit_char d) s with
           | String "-" s' => (-1, s') | String "+" s' => (1, s')
           | _ => (1, String (digit_char d) s) end) = (1, String (digit_char d) s)) as ->.
  { revert Hm Hp. destruct (digit_char d) as [[] [] [] [] [] [] [] []]; done. }
  cbn [starts_with_digit]. rewrite (digit_val_char d Hd), bool_decide_eq_true_2 by eauto.
  rewrite Hr. cbn [read_digits]. rewrite Z.mul_1_l.
  rewrite (proj2 (Z.leb_le _ _)), (proj2 (Z.ltb_lt _ _)) by lia. done.
Qed.

(** ** Generic lemmas on sets *)

(** Two subsets of [U] that together are larger than [U] share an element:
    the intersection of majorities. *)
Lemma sets_intersect `{Countable A} (U X Y : gset A) :
  X ⊆ U -> Y ⊆ U -> (size U < size X + size Y)%nat -> exists a, a ∈ X /\ a ∈ Y.
Proof.
  intros HX HY Hs. destruct (decide (X ∩ Y = ∅)) as [E|E].
  - exfalso. assert (X ## Y) as D by (apply elem_of_disjoint; intros a ? ?; apply (elem_of_empty (C := gset A) a); rewrite <- E; by apply elem_of_intersection).
    assert (X ∪ Y ⊆ U) as HU by by apply union_least.
    pose proof (size_union X Y D). pose proof (subseteq_size _ _ HU). lia.
  - apply set_choose_L in E as [a Ha]. exists a. set_solver.
Qed.

(** Membership in a concatenation of images. *)
Lemma Forall2_elem_l {A B} (R : A -> B -> Prop) l k x :
  Forall2 R l k -> x ∈ l -> exists y, y ∈ k /\ R x y.
Proof.
  induction 1 as [|a b l k Hab _ IH]; [by intros ?%elem_of_nil|].
  intros [->|Hx]%elem_of_cons; [exists b; split; [left|done]|].
  destruct (IH Hx) as (y & Hy & ?). exists y. split; [by right|done].
Qed.

Lemma Forall2_elem_r {A B} (R : A -> B -> Prop) l k y :
  Forall2 R l k -> y ∈ k -> exists x, x ∈ l /\ R x y.
Proof. intros H%Forall2_flip. by apply (Forall2_elem_l _ _ _ _ H). Qed.

Lemma elem_of_concat_map {A B} (f : A -> list B) (l : list A) y :
  y ∈ concat (map f l) <-> exists x, x ∈ l /\ y ∈ f x.
Proof.
  induction l as [|x l IH]; simpl.
  - rewrite elem_of_nil. split; [done|]. by intros (? & ?%elem_of_nil & _).
  - rewrite elem_of_app, IH. split.
    + intros [Hy|(z & Hz & Hy)]; [exists x; split; [left|done]|exists z; split; [by right|done]].
    + intros (z & [->|Hz]%elem_of_cons & Hy); [by left|right; by exists z].
Qed.

(** ** Automation of the development *)

Create HintDb riaps discriminated.
Create Rewrite HintDb riaps_simpl.
#[export] Hint Resolve uwrap_range swrap_range str_take_app str_drop_app
  str_drop_S_app elem_of_smap_to_list : riaps.

(** Case analysis on the first [match]/[if] of the goal or of a hypothesis,
    with the equations simplified. *)
Ltac step_case :=
  match goal with
  | |- context [match ?x with _ => _ end] => destruct x eqn:?
  | H : context [match ?x with _ => _ end] |- _ => destruct x eqn:?
  end; simplify_eq/=.

(** Turn boolean tests of the code into propositions. *)
Ltac bool_to_prop :=
  repeat match goal with
  | H : (_ && _) = true |- _ => apply andb_true_iff in H as [? ?]
  | H : (_ || _) = false |- _ => apply orb_false_iff in H as [? ?]
  | H : negb _ = true |- _ => apply negb_true_iff in H
  | H : negb _ = false |- _ => apply negb_false_iff in H
  | H : bool_decide _ = true |- _ => apply bool_decide_eq_true in H
  | H : bool_decide _ = false |- _ => apply bool_decide_eq_false in H
  | H : (_ <? _) = true |- _ => apply Z.ltb_lt in H
  | H : (_ <? _) = false |- _ => apply Z.ltb_ge in H
  | H : (_ <=? _) = true |- _ => apply Z.leb_le in H
  | H : (_ <=? _) = false |- _ => apply Z.leb_gt in H
  | H : (_ =? _) = true |- _ => apply Z.eqb_eq in H
  | H : (_ =? _) = false |- _ => apply Z.eqb_neq in H
  end.

(** Take the calls of a sequence that returned apart. *)
Ltac inv_bind H :=
  let x := fresh "x" in let E := fresh "E" in
  apply bind_Ok in H as (x & E & H); simpl in H.
