(* ===== verification/Timeout.v ===== *)
(** Timeout.v - deadlines and expirable values.

    Models [include/utils/r_timeout.h] (the class template [Timeout]) and
    [include/utils/r_expirable.h], [include/utils/r_expirablelist.h].  A point
    of the steady clock is a [Z], in nanoseconds; a function that reads the
    clock takes the reading as an argument, named [now].  A [duration] is kept
    in its own unit.  The 64-bit range of the clock (292 years) is not
    modelled as wrapping. *)

From Stdlib Require Import ZArith Lia.
From stdpp Require Import base list.
From S2P Require Import Prelude.

(** The [std::chrono] durations the template is instantiated with. *)
Inductive Duration := milliseconds | seconds | minutes.

(** Nanoseconds of one tick of [T]. *)
Definition ticks (T : Duration) : Z :=
  match T with
  | milliseconds => 1000000
  | seconds => 1000000000
  | minutes => 60000000000
  end.

Record Timeout (T : Duration) := mkTimeout {
  m_startPoint : Z;
  m_timeout    : Z;
  m_endPoint   : Z;
}.
Arguments mkTimeout {T} _ _ _.
Arguments m_startPoint {T} _.
Arguments m_timeout {T} _.
Arguments m_endPoint {T} _.

Section Timeout.
Context {T : Duration}.

(** [void Reset()] *)
Definition Reset (now : Z) (t : Timeout T) : Timeout T :=
  mkTimeout now (m_timeout t) (now + m_timeout t * ticks T).

(** [void Reset(T timeout)] *)
Definition Reset_duration (now d : Z) (t : Timeout T) : Timeout T :=
  Reset now (mkTimeout (m_startPoint t) d (m_endPoint t)).

(** [void Reset(int64_t timeout)]: only [m_timeout] is written. *)
Definition Reset_int (v : Z) (t : Timeout T) : Timeout T :=
  mkTimeout (m_startPoint t) v (m_endPoint t).

(** [void Reset(int64_t lower_bound, int64_t upper_bound)]: [v] is the value
    drawn from the distribution. *)
Definition Reset_random (v : Z) (t : Timeout T) : Timeout T := Reset_int v t.

(** The members before a constructor's body runs: the time points are the
    epoch, the duration has the indeterminate value [junk]. *)
Definition uninitialised (junk : Z) : Timeout T := mkTimeout 0 junk 0.

(** [Timeout()], [Timeout(T)], [Timeout(int64_t)] and the random one. *)
Definition Timeout_default (now junk : Z) : Timeout T :=
  Reset_duration now 0 (uninitialised junk).
Definition Timeout_duration (now d junk : Z) : Timeout T :=
  Reset_duration now d (uninitialised junk).
Definition Timeout_int (now v junk : Z) : Timeout T :=
  Reset_duration now v (uninitialised junk).
Definition Timeout_random (v junk : Z) : Timeout T :=
  Reset_random v (uninitialised junk).

(** [bool IsTimeout()] *)
Definition IsTimeout (now : Z) (t : Timeout T) : bool := m_endPoint t <? now.

Definition GetEndTimePoint (t : Timeout T) : Z := m_endPoint t.
End Timeout.

(** A freshly built deadline does not depend on the indeterminate member; the
    other files use these abbreviations with [junk = 0]. *)
Abbreviation new_timeout now v := (Timeout_int now v 0).

(** ** [Expirable<T>]: a value with a time stamp in milliseconds *)

Record Expirable (A : Type) := mkExpirable {
  e_value : A;
  e_lastTimestamp : Z;
  e_duration : Z;
}.
Arguments mkExpirable {A} _ _ _.
Arguments e_value {A} _.
Arguments e_lastTimestamp {A} _.
Arguments e_duration {A} _.

Section Expirable.
Context {A : Type}.

Definition UpdateTimestamp (mono : Z) (e : Expirable A) : Expirable A :=
  mkExpirable (e_value e) mono (e_duration e).

Definition new_Expirable (mono : Z) (value : A) (duration : Z) : Expirable A :=
  UpdateTimestamp mono (mkExpirable value 0 duration).

Definition HasExpired (mono : Z) (e : Expirable A) : bool :=
  e_duration e <? mono - e_lastTimestamp e.

(** [ExpirableList::AddValue] *)
Definition AddValue (mono : Z) (value : A) (duration : Z) (l : list (Expirable A)) :=
  l ++ [new_Expirable mono value duration].

(** The iterator of [ExpirableList] is a position in the vector.  Both its
    constructor and its [operator++] look at the element before they test
    for the end, so reaching the end dereferences [end()]. *)
Fixpoint seek_expired (mono : Z) (i : nat) (rest : list (Expirable A)) : Res nat :=
  match rest with
  | [] => UB
  | e :: rest' => if HasExpired mono e then Ok i else seek_expired mono (S i) rest'
  end.

Definition ExpiredIterator_begin (mono : Z) (l : list (Expirable A)) : Res nat :=
  seek_expired mono 0 l.

Definition ExpiredIterator_next (mono : Z) (l : list (Expirable A)) (i : nat) : Res nat :=
  seek_expired mono (S i) (drop (S i) l).
End Expirable.

(** ** Lemmas *)

Section TimeoutLemmas.
Context {T : Duration}.
Implicit Type t : Timeout T.

Lemma IsTimeout_true now t : IsTimeout now t = true <-> m_endPoint t < now.
Proof. apply Z.ltb_lt. Qed.

Lemma IsTimeout_false now t : IsTimeout now t = false <-> now <= m_endPoint t.
Proof. apply Z.ltb_ge. Qed.

(** Once passed, a deadline stays passed. *)
Lemma IsTimeout_mono t (n1 n2 : Z) :
  n1 <= n2 -> IsTimeout n1 t = true -> IsTimeout n2 t = true.
Proof. rewrite !IsTimeout_true. lia. Qed.

Lemma IsTimeout_Reset_duration now d t later :
  IsTimeout later (Reset_duration now d t) = true <-> now + d * ticks T < later.
Proof. apply IsTimeout_true. Qed.

Lemma Reset_int_endPoint v t : m_endPoint (Reset_int v t) = m_endPoint t.
Proof. done. Qed.

Lemma ticks_pos : 0 < ticks T.
Proof. by destruct T. Qed.
End TimeoutLemmas.

(** The iterator finds the first expired element, and is undefined when there
    is none. *)
Lemma seek_expired_spec {A} mono i (l : list (Expirable A)) :
  (exists k e, seek_expired mono i l = Ok (i + k)%nat /\ l !! k = Some e /\
     HasExpired mono e = true /\
     forall j e', (j < k)%nat -> l !! j = Some e' -> HasExpired mono e' = false)
  \/ (seek_expired mono i l = UB /\ Forall (fun e => HasExpired mono e = false) l).
Proof.
  revert i. induction l as [|e l IH]; intros i; simpl; [right; split; [done|constructor]|].
  destruct (HasExpired mono e) eqn:E.
  - left. exists 0%nat, e. rewrite Nat.add_0_r. repeat split; [done|]. intros. lia.
  - destruct (IH (S i)) as [(k & e' & H1 & H2 & H3 & H4)|[H1 H2]].
    + left. exists (S k), e'. split; [rewrite H1; f_equal; lia|]. repeat split; [done..|].
      intros [|j] e'' Hj Hl; [by simplify_eq/=|]. eapply H4; [|done]. lia.
    + right. split; [done|]. by constructor.
Qed.

#[export] Hint Rewrite @IsTimeout_true @IsTimeout_false : riaps_simpl.
