(* ===== verification/DistCoord.v ===== *)
(** DistCoord.v - the messages group members exchange
    ([include/messaging/capnp/distcoord.capnp]).

    A Cap'n Proto struct pointer may be null: a [has...] accessor of the code
    is a test of the [option] of that field (for a member of a union, the
    discriminant is tested first), and a [get...] on a null pointer reads the
    default struct (empty text, zero numbers). *)

From Stdlib Require Import ZArith.
From stdpp Require Import base strings option.
From S2P Require Import Prelude.

Inductive HeartBeatType := PING | PONG.
Inductive VoteResults := ACCEPTED | REJECTED.
Inductive VoteType := VALUE | ACTION.

#[export] Instance VoteResults_eq_dec : EqDecision VoteResults.
Proof. solve_decision. Defined.
#[export] Instance VoteType_eq_dec : EqDecision VoteType.
Proof. solve_decision. Defined.
#[export] Instance HeartBeatType_eq_dec : EqDecision HeartBeatType.
Proof. solve_decision. Defined.

Record GroupHeartBeat := {
  hb_type : HeartBeatType;
  hb_sourceComponentId : string;
}.

Record AppendEntry := {
  ae_sourceComponentId : string;
  ae_electionTerm : Z;
}.

Record RequestForVoteReq := {
  rq_sourceComponentId : string;
  rq_electionTerm : Z;
}.

Record RequestForVoteRep := {
  rp_sourceComponentId : string;
  rp_voteForId : string;
  rp_electionTerm : Z;
}.

(** Not a union: the three pointers are independent. *)
Record LeaderElection := {
  appendEntry : option AppendEntry;
  requestForVoteReq : option RequestForVoteReq;
  requestForVoteRep : option RequestForVoteRep;
}.

#[export] Instance AppendEntry_eq_dec : EqDecision AppendEntry.
Proof. solve_decision. Defined.
#[export] Instance RequestForVoteReq_eq_dec : EqDecision RequestForVoteReq.
Proof. solve_decision. Defined.
#[export] Instance RequestForVoteRep_eq_dec : EqDecision RequestForVoteRep.
Proof. solve_decision. Defined.
#[export] Instance LeaderElection_eq_dec : EqDecision LeaderElection.
Proof. solve_decision. Defined.

Record ProposeToLeader := { ptl_proposeId : string }.
Record ProposeToClients := { ptc_proposeId : string; ptc_leaderId : string }.
Record Vote := { v_proposeId : string; v_voteResult : VoteResults }.
Record Announce := { an_proposeId : string; an_voteResult : VoteResults }.
Record TimeSpec := { tvSec : Z; tvNsec : Z }.
#[export] Instance TimeSpec_eq_dec : EqDecision TimeSpec.
Proof. solve_decision. Defined.

Record TimeSyncCoordA := { ts_actionId : string; ts_time : TimeSpec }.

Inductive ConsensusUnion :=
| proposeToLeader (p : option ProposeToLeader)
| proposeToClients (p : option ProposeToClients)
| vote (v : option Vote)
| announce (a : option Announce).

Record Consensus := {
  cs_sourceComponentId : string;
  cs_voteType : VoteType;
  cs_union : ConsensusUnion;
  cs_tsyncCoordA : option TimeSyncCoordA;
}.

Record MessageToLeader := { mtl_sourceComponentId : string }.
Record GroupMessage := { gm_sourceComponentId : string }.
Record LeaderMessage := { lm_sourceComponentId : string }.

Inductive GroupInternals :=
| groupHeartBeat (m : option GroupHeartBeat)
| leaderElection (m : option LeaderElection)
| messageToLeader (m : option MessageToLeader)
| consensus (m : option Consensus)
| groupMessage (m : option GroupMessage)
| leaderMessage (m : option LeaderMessage).

#[export] Instance GroupHeartBeat_eq_dec : EqDecision GroupHeartBeat.
Proof. solve_decision. Defined.
#[export] Instance ProposeToLeader_eq_dec : EqDecision ProposeToLeader.
Proof. solve_decision. Defined.
#[export] Instance ProposeToClients_eq_dec : EqDecision ProposeToClients.
Proof. solve_decision. Defined.
#[export] Instance Vote_eq_dec : EqDecision Vote.
Proof. solve_decision. Defined.
#[export] Instance Announce_eq_dec : EqDecision Announce.
Proof. solve_decision. Defined.
#[export] Instance TimeSyncCoordA_eq_dec : EqDecision TimeSyncCoordA.
Proof. solve_decision. Defined.
#[export] Instance ConsensusUnion_eq_dec : EqDecision ConsensusUnion.
Proof. solve_decision. Defined.
#[export] Instance Consensus_eq_dec : EqDecision Consensus.
Proof. solve_decision. Defined.
#[export] Instance MessageToLeader_eq_dec : EqDecision MessageToLeader.
Proof. solve_decision. Defined.
#[export] Instance GroupMessage_eq_dec : EqDecision GroupMessage.
Proof. solve_decision. Defined.
#[export] Instance LeaderMessage_eq_dec : EqDecision LeaderMessage.
Proof. solve_decision. Defined.
#[export] Instance GroupInternals_eq_dec : EqDecision GroupInternals.
Proof. solve_decision. Defined.

(** [getTsyncCoordA()] reads defaults through a null pointer. *)
Definition default_tsca : TimeSyncCoordA :=
  {| ts_actionId := ""; ts_time := {| tvSec := 0; tvNsec := 0 |} |}.

Definition getTsyncCoordA (m : Consensus) : TimeSyncCoordA :=
  default default_tsca (cs_tsyncCoordA m).

(** An encoded payload of the application: opaque bytes. *)
Definition Frame := string.

(** What travels on the internal group port: a header frame, and for some
    messages a payload frame after it. *)
Record GroupMsg := {
  gmsg_header : GroupInternals;
  gmsg_body : option Frame;
}.

Definition header_only (h : GroupInternals) : GroupMsg :=
  {| gmsg_header := h; gmsg_body := None |}.

(** A leader-election message that carries exactly one of the three structs. *)
Definition le_appendEntry (m : AppendEntry) : LeaderElection :=
  {| appendEntry := Some m; requestForVoteReq := None; requestForVoteRep := None |}.
Definition le_voteReq (m : RequestForVoteReq) : LeaderElection :=
  {| appendEntry := None; requestForVoteReq := Some m; requestForVoteRep := None |}.
Definition le_voteRep (m : RequestForVoteRep) : LeaderElection :=
  {| appendEntry := None; requestForVoteReq := None; requestForVoteRep := Some m |}.
