(* ===== verification/GroupLead.v ===== *)
(** GroupLead.v - leader election and consensus of a group member
    ([include/groups/r_grouplead.h], [src/groups/r_grouplead.cc]).

    The state is the record [GroupLead]; each member function is a command on
    it.  The group that owns the object is seen through the interface
    [GroupApi], which [Group.v] implements.  A handler that reads the steady
    clock takes its readings as an argument: [now] when there is one, [clk]
    when there are several ([clk i] is the reading at the [i]-th place of the
    function's text).  A draw of the random generator is the argument [draw]. *)

From Stdlib Require Import ZArith Lia.
From stdpp Require Import base gmap strings list fin_maps.
From S2P Require Import Prelude.
From S2P Require Import Timeout.
From S2P Require Import DistCoord.

#[local] Open Scope riaps_scope.

Definition MIN_ELECTION_TIMEOUT : Z := 150.
Definition MAX_ELECTION_TIMEOUT : Z := 500.
Definition APPENDENTRY_TIMEOUT : Z := 75.

(** What the leader object asks of its group. *)
Class GroupApi (G : Type) := {
  ComponentUuid : G -> string;
  GetMemberCount : Z -> G -> Z * G;
  GetKnownComponents : Z -> G -> gset string;
}.

(** The promises the group makes: counting is a 16-bit count of the components
    known at that instant, and does not change who is known. *)
Class GroupApiLaws (G : Type) `{GroupApi G} := {
  member_count_known now g :
    (GetMemberCount now g).1 = u16 (Z.of_nat (size (GetKnownComponents now g)));
  member_count_uuid now g : ComponentUuid (GetMemberCount now g).2 = ComponentUuid g;
  member_count_same now g :
    GetKnownComponents now (GetMemberCount now g).2 = GetKnownComponents now g;
}.

Inductive NodeState := FOLLOWER | CANDIDATE | LEADER.

#[export] Instance NodeState_eq_dec : EqDecision NodeState.
Proof. solve_decision. Defined.

Record ProposeData := {
  nodesInVote : gset string;
  nodesVoted : gset string;
  proposeDeadline : Timeout milliseconds;
  accepted : Z;
  rejected : Z;
  isAction : bool;
  actionId : string;
}.

(** Addresses of the shared [ProposeData] objects. *)
Definition Loc := nat.

(** What a command does to the outside. *)
Inductive LeadOut :=
| SendMsg (m : GroupMsg)
| LeaderChanged (newLeader : string).

(** The state.  [m_objects] is the store of the [shared_ptr<ProposeData>]: the
    two maps hold pointers, and an action proposal is reachable from both.
    [m_onLeaderChanged] tells whether a handler is installed. *)
Record GroupLead (G : Type) := mkLead {
  m_group : G;
  m_currentState : NodeState;
  m_electionTimeout : Timeout milliseconds;
  m_appEntryTimeout : Timeout milliseconds;
  m_electionTerm : Z;
  m_numberOfNodesInVote : Z;
  m_votes : gmap string Z;
  m_leaderId : string;
  m_onLeaderChanged : bool;
  m_proposeData : gmap string Loc;
  m_actionData : gmap string Loc;
  m_objects : gmap Loc ProposeData;
  m_nextObject : Loc;
}.
Arguments mkLead {G}.
Arguments m_group {G} _.
Arguments m_currentState {G} _.
Arguments m_electionTimeout {G} _.
Arguments m_appEntryTimeout {G} _.
Arguments m_electionTerm {G} _.
Arguments m_numberOfNodesInVote {G} _.
Arguments m_votes {G} _.
Arguments m_leaderId {G} _.
Arguments m_onLeaderChanged {G} _.
Arguments m_proposeData {G} _.
Arguments m_actionData {G} _.
Arguments m_objects {G} _.
Arguments m_nextObject {G} _.

(** Assignments to the members. *)
Section Setters.
Context {G : Type}.
Implicit Type s : GroupLead G.

Definition set_group v s : GroupLead G :=
  mkLead v (m_currentState s) (m_electionTimeout s) (m_appEntryTimeout s)
    (m_electionTerm s) (m_numberOfNodesInVote s) (m_votes s) (m_leaderId s)
    (m_onLeaderChanged s) (m_proposeData s) (m_actionData s) (m_objects s)
    (m_nextObject s).
Definition set_currentState v s : GroupLead G :=
  mkLead (m_group s) v (m_electionTimeout s) (m_appEntryTimeout s) (m_electionTerm
    s) (m_numberOfNodesInVote s) (m_votes s) (m_leaderId s) (m_onLeaderChanged s)
    (m_proposeData s) (m_actionData s) (m_objects s) (m_nextObject s).
Definition set_electionTimeout v s : GroupLead G :=
  mkLead (m_group s) (m_currentState s) v (m_appEntryTimeout s) (m_electionTerm s)
    (m_numberOfNodesInVote s) (m_votes s) (m_leaderId s) (m_onLeaderChanged s)
    (m_proposeData s) (m_actionData s) (m_objects s) (m_nextObject s).
Definition set_appEntryTimeout v s : GroupLead G :=
  mkLead (m_group s) (m_currentState s) (m_electionTimeout s) v (m_electionTerm s)
    (m_numberOfNodesInVote s) (m_votes s) (m_leaderId s) (m_onLeaderChanged s)
    (m_proposeData s) (m_actionData s) (m_objects s) (m_nextObject s).
Definition set_electionTerm v s : GroupLead G :=
  mkLead (m_group s) (m_currentState s) (m_electionTimeout s) (m_appEntryTimeout s)
    v (m_numberOfNodesInVote s) (m_votes s) (m_leaderId s) (m_onLeaderChanged s)
    (m_proposeData s) (m_actionData s) (m_objects s) (m_nextObject s).
Definition set_numberOfNodesInVote v s : GroupLead G :=
  mkLead (m_group s) (m_currentState s) (m_electionTimeout s) (m_appEntryTimeout s)
    (m_electionTerm s) v (m_votes s) (m_leaderId s) (m_onLeaderChanged s)
    (m_proposeData s) (m_actionData s) (m_objects s) (m_nextObject s).
Definition set_votes v s : GroupLead G :=
  mkLead (m_group s) (m_currentState s) (m_electionTimeout s) (m_appEntryTimeout s)
    (m_electionTerm s) (m_numberOfNodesInVote s) v (m_leaderId s) (m_onLeaderChanged
    s) (m_proposeData s) (m_actionData s) (m_objects s) (m_nextObject s).
Definition set_leaderId v s : GroupLead G :=
  mkLead (m_group s) (m_currentState s) (m_electionTimeout s) (m_appEntryTimeout s)
    (m_electionTerm s) (m_numberOfNodesInVote s) (m_votes s) v (m_onLeaderChanged s)
    (m_proposeData s) (m_actionData s) (m_objects s) (m_nextObject s).
Definition set_onLeaderChanged v s : GroupLead G :=
  mkLead (m_group s) (m_currentState s) (m_electionTimeout s) (m_appEntryTimeout s)
    (m_electionTerm s) (m_numberOfNodesInVote s) (m_votes s) (m_leaderId s) v
    (m_proposeData s) (m_actionData s) (m_objects s) (m_nextObject s).
Definition set_proposeData v s : GroupLead G :=
  mkLead (m_group s) (m_currentState s) (m_electionTimeout s) (m_appEntryTimeout s)
    (m_electionTerm s) (m_numberOfNodesInVote s) (m_votes s) (m_leaderId s)
    (m_onLeaderChanged s) v (m_actionData s) (m_objects s) (m_nextObject s).
Definition set_actionData v s : GroupLead G :=
  mkLead (m_group s) (m_currentState s) (m_electionTimeout s) (m_appEntryTimeout s)
    (m_electionTerm s) (m_numberOfNodesInVote s) (m_votes s) (m_leaderId s)
    (m_onLeaderChanged s) (m_proposeData s) v (m_objects s) (m_nextObject s).
Definition set_store os n s : GroupLead G :=
  mkLead (m_group s) (m_currentState s) (m_electionTimeout s) (m_appEntryTimeout s)
    (m_electionTerm s) (m_numberOfNodesInVote s) (m_votes s) (m_leaderId s)
    (m_onLeaderChanged s) (m_proposeData s) (m_actionData s) os n.
End Setters.

Section GroupLead.
Context {G : Type} `{GroupApi G}.

(** A command of the leader object. *)
Definition LeadCmd : Type := Cmd (GroupLead G) LeadOut.
Implicit Type s : GroupLead G.

Definition GetLeaderId s : string := m_leaderId s.
Definition GetNodeState s : NodeState := m_currentState s.
Definition GetComponentId s : string := ComponentUuid (m_group s).

(** The constructor: [now1], [now2] are read by the two deadlines, [draw] is
    the first random election timeout. *)
Definition new_GroupLead (now1 now2 draw : Z) (group : G) : GroupLead G :=
  mkLead group FOLLOWER (new_timeout now1 draw) (new_timeout now2 APPENDENTRY_TIMEOUT)
    0 0 ∅ "" false ∅ ∅ ∅ 0%nat.

Definition SetOnLeaderChanged : LeadCmd := modify (set_onLeaderChanged true).

Definition SendInternal (h : GroupInternals) : LeadCmd :=
  emit (SendMsg (header_only h)).

Definition SendRequestForVote : LeadCmd := read (fun s =>
  SendInternal (leaderElection (Some (le_voteReq
    {| rq_sourceComponentId := GetComponentId s;
       rq_electionTerm := m_electionTerm s |})))).

Definition SendAppendEntry : LeadCmd := read (fun s =>
  SendInternal (leaderElection (Some (le_appendEntry
    {| ae_sourceComponentId := GetComponentId s;
       ae_electionTerm := m_electionTerm s |})))).

Definition SendVote (voteFor : string) : LeadCmd := read (fun s =>
  SendInternal (leaderElection (Some (le_voteRep
    {| rp_sourceComponentId := GetComponentId s;
       rp_voteForId := voteFor;
       rp_electionTerm := m_electionTerm s |})))).

(** The message built by [Announce]: only the announcement is set. *)
Definition announcement (proposeId : string) (result : VoteResults) : GroupInternals :=
  consensus (Some
    {| cs_sourceComponentId := ""; cs_voteType := VALUE;
       cs_union := announce (Some
         {| an_proposeId := proposeId; an_voteResult := result |});
       cs_tsyncCoordA := None |}).

Definition AnnounceResult (proposeId : string) (result : VoteResults) : LeadCmd :=
  SendInternal (announcement proposeId result).

Definition ChangeLeader (newLeader : string) : LeadCmd := read (fun s =>
  when (bool_decide (m_leaderId s <> newLeader)) (
    modify (set_leaderId newLeader) ;;
    when (m_onLeaderChanged s) (emit (LeaderChanged newLeader)))).

Definition GetNumberOfVotes s : Z := u32 (Z.of_nat (size (m_votes s))).

(** The two majority tests: of the election, on [uint32_t], and of a vote on
    a proposal, on [size_t] ([ceil(n/2.0)] is exact for these sizes). *)
Definition majority_of (n : Z) : Z :=
  if n mod 2 =? 0 then n / 2 + 1 else (n + 1) / 2.

Definition hasMajority s : bool := majority_of (m_numberOfNodesInVote s) <=? GetNumberOfVotes s.

(** The loop of [Update] over the ongoing proposals: [order] is the iteration
    order of the hash map, [clk k] the clock read in the [k]-th round. *)
Fixpoint expire_proposals (clk : nat -> Z) (k : nat) (order : list string) : LeadCmd :=
  match order with
  | [] => skip
  | pid :: order' => read (fun s =>
      match m_proposeData s !! pid ≫= (m_objects s !!.) with
      | Some pd =>
          when (IsTimeout (clk k) (proposeDeadline pd)) (
            AnnounceResult pid REJECTED ;;
            modify (fun s => set_proposeData (delete pid (m_proposeData s)) s))
      | None => skip
      end) ;;
      expire_proposals clk (S k) order'
  end.

(** [FOLLOWER --> CANDIDATE] *)
Definition become_candidate (now t_count t_reset : Z) : LeadCmd :=
  ChangeLeader "" ;;
  modify (set_currentState CANDIDATE) ;;
  modify (fun s =>
    let '(count, group') := GetMemberCount t_count (m_group s) in
    set_numberOfNodesInVote (u32 (count + 1)) (set_group group' s)) ;;
  modify (fun s => set_electionTerm (u32 (m_electionTerm s + 1)) s) ;;
  modify (fun s => set_votes {[ GetComponentId s := now ]} s) ;;
  SendRequestForVote ;;
  modify (fun s => set_electionTimeout
    (Reset_duration t_reset MAX_ELECTION_TIMEOUT (m_electionTimeout s)) s).

(** [void GroupLead::Update()]: no message has arrived. *)
Definition Update (clk : nat -> Z) (order : list string) : LeadCmd := read (fun s =>
  let st := m_currentState s in
  if bool_decide (st = FOLLOWER) && negb (IsTimeout (clk 1%nat) (m_electionTimeout s)) then
    skip
  else if bool_decide (st = FOLLOWER) && IsTimeout (clk 2%nat) (m_electionTimeout s) then
    become_candidate (clk 0%nat) (clk 3%nat) (clk 4%nat)
  else if bool_decide (st = CANDIDATE) && negb (IsTimeout (clk 5%nat) (m_electionTimeout s)) then
    skip
  else if bool_decide (st = CANDIDATE) && IsTimeout (clk 6%nat) (m_electionTimeout s) then
    modify (set_currentState FOLLOWER) ;;
    modify (fun s => set_electionTimeout
      (Reset_duration (clk 7%nat) MAX_ELECTION_TIMEOUT (m_electionTimeout s)) s)
  else if bool_decide (st = LEADER) && IsTimeout (clk 8%nat) (m_appEntryTimeout s) then
    SendAppendEntry ;;
    modify (fun s => set_appEntryTimeout (Reset (clk 9%nat) (m_appEntryTimeout s)) s) ;;
    modify (fun s => set_leaderId (GetComponentId s) s)
  else if bool_decide (st = LEADER) && negb (IsTimeout (clk 10%nat) (m_appEntryTimeout s)) then
    expire_proposals clk 11 order
  else skip).

(** The branches of [Update(LeaderElection::Reader&)]. *)
Definition on_voteReq_follower (draw : Z) (msg : RequestForVoteReq) : LeadCmd := read (fun s =>
  let electTerm := rq_electionTerm msg in
  let sourceCompId := rq_sourceComponentId msg in
  when ((m_electionTerm s <? electTerm) && bool_decide (sourceCompId <> GetComponentId s)) (
    modify (set_electionTerm electTerm) ;;
    modify (fun s => set_electionTimeout (Reset_int draw (m_electionTimeout s)) s) ;;
    SendVote sourceCompId)).

Definition on_voteReq_active (draw : Z) (msg : RequestForVoteReq) : LeadCmd := read (fun s =>
  let electTerm := rq_electionTerm msg in
  let sourceCompId := rq_sourceComponentId msg in
  when (m_electionTerm s <? electTerm) (
    modify (set_currentState FOLLOWER) ;;
    modify (set_electionTerm electTerm) ;;
    read (fun s => when (bool_decide (m_currentState s = LEADER)) (ChangeLeader "")) ;;
    modify (fun s => set_electionTimeout (Reset_int draw (m_electionTimeout s)) s) ;;
    SendVote sourceCompId)).

Definition on_voteRep_candidate (now : Z) (msg : RequestForVoteRep) : LeadCmd := read (fun s =>
  when (bool_decide (GetComponentId s <> rp_sourceComponentId msg)
        && (rp_electionTerm msg =? m_electionTerm s)
        && bool_decide (rp_voteForId msg = GetComponentId s)) (
    modify (fun s => set_votes (<[rp_sourceComponentId msg := now]> (m_votes s)) s) ;;
    read (fun s =>
      when (hasMajority s) (
        modify (set_currentState LEADER) ;;
        SendAppendEntry ;;
        ChangeLeader (GetComponentId s))))).

Definition on_appendEntry_follower (draw : Z) (msg : AppendEntry) : LeadCmd :=
  modify (fun s => set_electionTimeout (Reset_int draw (m_electionTimeout s)) s) ;;
  modify (set_electionTerm (ae_electionTerm msg)) ;;
  ChangeLeader (ae_sourceComponentId msg).

Definition on_appendEntry_leader (draw : Z) (msg : AppendEntry) : LeadCmd := read (fun s =>
  when (m_electionTerm s <? ae_electionTerm msg) (
    modify (set_currentState FOLLOWER) ;;
    modify (set_electionTerm (ae_electionTerm msg)) ;;
    ChangeLeader (ae_sourceComponentId msg) ;;
    modify (fun s => set_electionTimeout (Reset_int draw (m_electionTimeout s)) s))).

(** [void GroupLead::Update(LeaderElection::Reader&)]: a message arrived. *)
Definition UpdateMsg (now draw : Z) (msg : LeaderElection) : LeadCmd := read (fun s =>
  match requestForVoteReq msg, requestForVoteRep msg, appendEntry msg, m_currentState s with
  | Some req, _, _, FOLLOWER => on_voteReq_follower draw req
  | Some req, _, _, _ => on_voteReq_active draw req
  | None, Some rep, _, CANDIDATE => on_voteRep_candidate now rep
  | None, _, Some ae, FOLLOWER => on_appendEntry_follower draw ae
  | None, _, Some ae, LEADER => on_appendEntry_leader draw ae
  | None, _, _, _ => skip
  end).

(** [ProposeData(knownNodes, timeout)]; [junk] is the value of the member
    [isAction], which the constructor does not initialise. *)
Definition new_ProposeData (knownNodes : gset string) (timeout : Timeout milliseconds)
    (junk : bool) : ProposeData :=
  {| nodesInVote := knownNodes; nodesVoted := ∅; proposeDeadline := timeout;
     accepted := 0; rejected := 0; isAction := junk; actionId := "" |}.

(** The object a proposal id (or an action id) leads to. *)
Definition proposal_of s (pid : string) : option ProposeData :=
  m_proposeData s !! pid ≫= (m_objects s !!.).
Definition action_of s (aid : string) : option ProposeData :=
  m_actionData s !! aid ≫= (m_objects s !!.).

(** Allocate a [ProposeData] and store its pointer under the proposal id and,
    for an action, under the action id. *)
Definition register_proposal (pid : string) (aid : option string) (pd : ProposeData)
    : LeadCmd := modify (fun s =>
  let loc := m_nextObject s in
  let s := set_store (<[loc := pd]> (m_objects s)) (S loc) s in
  let s := set_proposeData (<[pid := loc]> (m_proposeData s)) s in
  match aid with
  | Some a => set_actionData (<[a := loc]> (m_actionData s)) s
  | None => s
  end).

Definition proposeToClients_msg s (ty : VoteType) (pid : string)
    (tsca : option TimeSyncCoordA) : GroupInternals :=
  consensus (Some
    {| cs_sourceComponentId := GetComponentId s; cs_voteType := ty;
       cs_union := proposeToClients (Some
         {| ptc_proposeId := pid; ptc_leaderId := GetLeaderId s |});
       cs_tsyncCoordA := tsca |}).

Definition action_in_progress (now : Z) s (aid : string) : bool :=
  match action_of s aid with
  | Some pd => negb (IsTimeout now (proposeDeadline pd))
  | None => false
  end.

Definition OnActionProposeFromClient (t_check t_known t_new : Z)
    (header : ProposeToLeader) (tsca : TimeSyncCoordA) : LeadCmd := read (fun s =>
  if bool_decide (GetLeaderId s <> GetComponentId s) then skip else
  let aid := ts_actionId tsca in
  if action_in_progress t_check s aid then skip else
  let pd := new_ProposeData (GetKnownComponents t_known (m_group s))
              (Timeout_duration t_new 1000 0) false in
  let pd := {| nodesInVote := nodesInVote pd; nodesVoted := nodesVoted pd;
               proposeDeadline := proposeDeadline pd; accepted := accepted pd;
               rejected := rejected pd; isAction := true; actionId := aid |} in
  let pid := ptl_proposeId header in
  register_proposal pid (Some aid) pd ;;
  SendInternal (proposeToClients_msg s ACTION pid
    (Some {| ts_actionId := aid; ts_time := ts_time tsca |}))).

Definition OnProposeFromClient (t_known t_new : Z) (junk : bool)
    (header : ProposeToLeader) (messageFrame : option Frame) : LeadCmd := read (fun s =>
  if bool_decide (GetLeaderId s <> GetComponentId s) then skip else
  let pd := new_ProposeData (GetKnownComponents t_known (m_group s))
              (Timeout_duration t_new 1000 0) junk in
  let pid := ptl_proposeId header in
  register_proposal pid None pd ;;
  emit (SendMsg {| gmsg_header := proposeToClients_msg s VALUE pid None;
                   gmsg_body := messageFrame |})).

(** The vote is counted in the object that the proposal id points to. *)
Definition count_vote (src : string) (r : VoteResults) (pd : ProposeData) : ProposeData :=
  {| nodesInVote := nodesInVote pd; nodesVoted := nodesVoted pd ∪ {[src]};
     proposeDeadline := proposeDeadline pd;
     accepted := if decide (r = ACCEPTED) then u16 (accepted pd + 1) else accepted pd;
     rejected := if decide (r = ACCEPTED) then rejected pd else u16 (rejected pd + 1);
     isAction := isAction pd; actionId := actionId pd |}.

Definition store_object (loc : Loc) (pd : ProposeData) : LeadCmd :=
  modify (fun s => set_store (<[loc := pd]> (m_objects s)) (m_nextObject s) s).

Definition erase_proposal (pid : string) : LeadCmd :=
  modify (fun s => set_proposeData (delete pid (m_proposeData s)) s).

(** [if (isAction && m_actionData.find(actionId) != end) m_actionData.erase(actionId)] *)
Definition erase_action (pd : ProposeData) : LeadCmd := read (fun s =>
  when (isAction pd && bool_decide (is_Some (m_actionData s !! actionId pd)))
    (modify (fun s => set_actionData (delete (actionId pd) (m_actionData s)) s))).

Definition proposal_majority (pd : ProposeData) : Z :=
  majority_of (Z.of_nat (size (nodesInVote pd))).

Definition OnVote (now : Z) (message : Vote) (sourceComponentId : string) : LeadCmd :=
  read (fun s =>
  let pid := v_proposeId message in
  match m_proposeData s !! pid with
  | None => skip
  | Some loc =>
    match m_objects s !! loc with
    | None => skip  (* no pointer of the maps dangles: [lead_wf] *)
    | Some pd =>
      if IsTimeout now (proposeDeadline pd) then
        erase_action pd ;; erase_proposal pid ;; AnnounceResult pid REJECTED
      else if bool_decide (sourceComponentId ∉ nodesInVote pd) then skip
      else
        let pd' := count_vote sourceComponentId (v_voteResult message) pd in
        store_object loc pd' ;;
        if proposal_majority pd' <=? accepted pd' then
          AnnounceResult pid ACCEPTED ;; erase_action pd' ;; erase_proposal pid
        else if proposal_majority pd' <=? rejected pd' then
          erase_action pd' ;; AnnounceResult pid REJECTED ;; erase_proposal pid
        else skip
    end
  end).
End GroupLead.
Arguments LeadCmd : clear implicits.
