(* ===== verification/Election.v ===== *)
(** Election.v - what the leader election of [GroupLead.v] guarantees.

    [espec] is the abstract specification: the election as a small state
    machine over role, term, electorate size and the set of voters.
    [Update_refines_election] and [UpdateMsg_refines_election] show that the
    two [Update] functions implement it. *)

From Stdlib Require Import ZArith Lia.
From stdpp Require Import base gmap strings list fin_maps fin_sets.
From S2P Require Import Prelude.
From S2P Require Import Timeout.
From S2P Require Import DistCoord.
From S2P Require Import GroupLead.

#[local] Open Scope riaps_scope.

(** ** The election messages of a log of effects *)

Definition election_msg (o : LeadOut) : option LeaderElection :=
  match o with
  | SendMsg {| gmsg_header := leaderElection (Some m) |} => Some m
  | _ => None
  end.

Definition election_msgs (out : list LeadOut) : list LeaderElection := omap election_msg out.

(** ** The abstract specification *)

Record Elect := mkElect {
  e_role : NodeState;
  e_term : Z;
  e_nodes : Z;
  e_voters : gset string;
}.

Definition elect_of {G} (s : GroupLead G) : Elect :=
  mkElect (m_currentState s) (m_electionTerm s) (m_numberOfNodesInVote s) (dom (m_votes s)).

(** A set of [k] voters is a strict majority of an electorate of [n]. *)
Definition strict_majority (n k : Z) : Prop := n < 2 * k.

Definition msg_req (me : string) (t : Z) : LeaderElection :=
  le_voteReq {| rq_sourceComponentId := me; rq_electionTerm := t |}.
Definition msg_rep (me for_ : string) (t : Z) : LeaderElection :=
  le_voteRep {| rp_sourceComponentId := me; rp_voteForId := for_; rp_electionTerm := t |}.
Definition msg_app (me : string) (t : Z) : LeaderElection :=
  le_appendEntry {| ae_sourceComponentId := me; ae_electionTerm := t |}.

(** One step of member [me]: the message it received, if any, its state before
    and after, and the messages it sent.  [view] is the electorate size the
    member would fix if it became a candidate in this step. *)
Inductive espec (me : string) (view : Z) : option LeaderElection -> Elect -> Elect -> list LeaderElection -> Prop :=
| E_stutter i e :
    espec me view i e e []
| E_candidate t n vs :
    espec me view None (mkElect FOLLOWER t n vs) (mkElect CANDIDATE (u32 (t + 1)) view {[me]})
      [msg_req me (u32 (t + 1))]
| E_giveup t n vs :
    espec me view None (mkElect CANDIDATE t n vs) (mkElect FOLLOWER t n vs) []
| E_heartbeat t n vs :
    espec me view None (mkElect LEADER t n vs) (mkElect LEADER t n vs) [msg_app me t]
| E_vote m r e src t' :
    requestForVoteReq m = Some {| rq_sourceComponentId := src; rq_electionTerm := t' |} ->
    e_term e < t' ->
    (e_role e = FOLLOWER -> src <> me) ->
    r = mkElect FOLLOWER t' (e_nodes e) (e_voters e) ->
    espec me view (Some m) e r [msg_rep me src t']
| E_count m v t n vs :
    requestForVoteRep m =
      Some {| rp_sourceComponentId := v; rp_voteForId := me; rp_electionTerm := t |} ->
    v <> me ->
    espec me view (Some m) (mkElect CANDIDATE t n vs) (mkElect CANDIDATE t n (vs ∪ {[v]})) []
| E_win m v t n vs :
    requestForVoteRep m =
      Some {| rp_sourceComponentId := v; rp_voteForId := me; rp_electionTerm := t |} ->
    v <> me ->
    strict_majority n (Z.of_nat (size (vs ∪ {[v]}))) ->
    espec me view (Some m) (mkElect CANDIDATE t n vs) (mkElect LEADER t n (vs ∪ {[v]}))
      [msg_app me t]
| E_follow m src t t' n vs :
    appendEntry m = Some {| ae_sourceComponentId := src; ae_electionTerm := t' |} ->
    espec me view (Some m) (mkElect FOLLOWER t n vs) (mkElect FOLLOWER t' n vs) []
| E_stepdown m src t t' n vs :
    appendEntry m = Some {| ae_sourceComponentId := src; ae_electionTerm := t' |} ->
    t < t' ->
    espec me view (Some m) (mkElect LEADER t n vs) (mkElect FOLLOWER t' n vs) [].

Lemma espec_candidate me view m e e' out :
  espec me view m e e' out -> e_role e = FOLLOWER -> e_role e' = CANDIDATE -> e_nodes e' = view.
Proof. intros He Hf Hc. inversion He; subst; simpl in *; congruence. Qed.

(** ** The majority test *)

Lemma majority_of_half n : majority_of n = n / 2 + 1.
Proof.
  unfold majority_of. destruct (n mod 2 =? 0) eqn:E; [done|]. apply Z.eqb_neq in E.
  pose proof (Z.mod_pos_bound n 2 ltac:(lia)). pose proof (Z.div_mod n 2 ltac:(lia)).
  replace (n + 1) with ((n / 2 + 1) * 2) by lia. by rewrite Z.div_mul by lia.
Qed.

Lemma majority_of_strict n k : majority_of n <= k <-> strict_majority n k.
Proof.
  rewrite majority_of_half. unfold strict_majority.
  pose proof (Z.mod_pos_bound n 2 ltac:(lia)). pose proof (Z.div_mod n 2 ltac:(lia)). lia.
Qed.

Lemma hasMajority_strict {G} (s : GroupLead G) :
  hasMajority s = true ->
  strict_majority (m_numberOfNodesInVote s) (Z.of_nat (size (dom (m_votes s)))).
Proof.
  unfold hasMajority, GetNumberOfVotes. intros H%Z.leb_le.
  rewrite majority_of_strict in H. rewrite size_dom. unfold strict_majority, uwrap in *.
  pose proof (Z.mod_le (Z.of_nat (size (m_votes s))) (2 ^ 32)). lia.
Qed.

(** ** Refinement: the code implements the specification *)

(** Evaluate the tests on known constants. *)
Ltac eval_tests :=
  repeat match goal with
  | |- context [@bool_decide (@eq NodeState ?a ?b) ?d] =>
      let v := eval vm_compute in (@bool_decide (@eq NodeState a b) d) in
      change (@bool_decide (@eq NodeState a b) d) with v
  end;
  cbn [andb orb negb].

Ltac run_lead :=
  unfold SendVote, SendAppendEntry, SendRequestForVote, ChangeLeader, AnnounceResult in *;
  unfold SendInternal, GetComponentId, GetLeaderId in *;
  unfold seq, read, when, modify, emit, skip in *; simpl in *.

Section Refinement.
Context {G : Type} `{GroupApiLaws G}.
Implicit Type s : GroupLead G.

(** The part of the state that neither an expiring proposal nor a vote on a
    proposal changes, and the messages they send. *)
Definition election_unchanged s (r : GroupLead G * list LeadOut) : Prop :=
  elect_of r.1 = elect_of s /\ m_group r.1 = m_group s /\ m_leaderId r.1 = m_leaderId s
  /\ election_msgs r.2 = [].

Lemma expire_proposals_election clk k order s :
  election_unchanged s (expire_proposals clk k order s).
Proof.
  revert k s. induction order as [|pid order IH]; intros k s; [done|].
  cbn [expire_proposals]. run_lead.
  destruct (m_proposeData s !! pid ≫= (m_objects s !!.)) as [pd|]; simpl; [|apply IH].
  destruct (IsTimeout (clk k) (proposeDeadline pd)); simpl; [|apply IH].
  match goal with |- context [expire_proposals clk (S k) order ?s'] =>
    destruct (IH (S k) s') as (? & ? & ? & ?) end.
  by repeat split.
Qed.

(** The electorate size that a member fixes when it counts its group at [t]. *)
Definition view_at (t : Z) s : Z := u32 ((GetMemberCount t (m_group s)).1 + 1).

(** The role, term, electorate and voters after a command, its election
    messages, and that the member keeps its identity. *)
Definition implements (view : Z) (i : option LeaderElection) s
    (r : GroupLead G * list LeadOut) : Prop :=
  espec (GetComponentId s) view i (elect_of s) (elect_of r.1) (election_msgs r.2)
  /\ GetComponentId r.1 = GetComponentId s.

Lemma skip_implements view i s : implements view i s (skip s).
Proof. split; [apply E_stutter|done]. Qed.

Lemma become_candidate_implements now t_count t_reset s :
  m_currentState s = FOLLOWER -> implements (view_at t_count s) None s (become_candidate now t_count t_reset s).
Proof.
  intros Hf. destruct s as [g st et at' term n vs lid cb pd ad os nx]; simpl in Hf; subst.
  pose proof (member_count_uuid t_count g) as Hu.
  unfold implements, become_candidate, view_at. run_lead.
  destruct (bool_decide (lid <> "")), cb; simpl;
    destruct (GetMemberCount t_count g) as [count g']; unfold elect_of; simpl in *;
    rewrite dom_singleton_L, Hu; (split; [constructor|done]).
Qed.

Theorem Update_implements clk order s : implements (view_at (clk 3%nat) s) None s (Update clk order s).
Proof.
  unfold Update, read at 1.
  destruct (m_currentState s) eqn:Hst; eval_tests.
  - repeat case_match; try apply skip_implements. by apply become_candidate_implements.
  - repeat case_match; try apply skip_implements. split; [|done].
    unfold elect_of; simpl. rewrite Hst. constructor.
  - repeat case_match; try apply skip_implements.
    + split; [|done]. unfold elect_of; simpl. rewrite Hst. constructor.
    + destruct (expire_proposals_election clk 11 order s) as (E1 & E2 & _ & E3).
      split; [|by unfold GetComponentId; rewrite E2]. rewrite E1, E3. constructor.
Qed.

Lemma on_voteReq_follower_implements draw view m req s :
  requestForVoteReq m = Some req -> m_currentState s = FOLLOWER ->
  implements view (Some m) s (on_voteReq_follower draw req s).
Proof.
  intros Hm Hst. unfold on_voteReq_follower, read at 1, when.
  destruct (_ <? _) eqn:Ht; [|apply skip_implements]. apply Z.ltb_lt in Ht.
  case_bool_decide; [|apply skip_implements]. cbn [andb].
  split; [|done]. destruct req as [src t]; simpl in *.
  eapply E_vote; [done|done|done|]. unfold elect_of; simpl. by rewrite Hst.
Qed.

Lemma on_voteReq_active_implements draw view m req s :
  requestForVoteReq m = Some req -> m_currentState s <> FOLLOWER ->
  implements view (Some m) s (on_voteReq_active draw req s).
Proof.
  intros Hm Hst. unfold on_voteReq_active, read at 1, when at 1.
  destruct (_ <? _) eqn:Ht; [|apply skip_implements]. apply Z.ltb_lt in Ht.
  split; [|done]. destruct req as [src t]; simpl in *. by eapply E_vote.
Qed.

Lemma on_voteRep_candidate_implements now view m rep s :
  requestForVoteRep m = Some rep -> m_currentState s = CANDIDATE ->
  implements view (Some m) s (on_voteRep_candidate now rep s).
Proof.
  intros Hm Hst. destruct rep as [v f t]. unfold on_voteRep_candidate, read at 1, when at 1. simpl.
  case_bool_decide as Hv; [|apply skip_implements]. cbn [andb].
  destruct (t =? _) eqn:Ht; [|apply skip_implements]. apply Z.eqb_eq in Ht. cbn [andb].
  case_bool_decide as Hf; [|apply skip_implements]. subst f t.
  unfold seq, modify, read, when. simpl.
  match goal with |- context [hasMajority ?s1] => destruct (hasMajority s1) eqn:Hmaj end.
  - apply hasMajority_strict in Hmaj. destruct s as [g st et at' term n vs lid cb pd ad os nx].
    simpl in *; subst st. unfold implements, elect_of. run_lead.
    rewrite dom_insert_L, (union_comm_L {[v]}) in *.
    destruct (bool_decide (lid <> _)), cb; (split; [|done]); simpl;
      rewrite ?dom_insert_L, ?(union_comm_L {[v]}); by eapply E_win.
  - split; [|done]. unfold elect_of; simpl. rewrite Hst, dom_insert_L, union_comm_L.
    by eapply E_count.
Qed.

Lemma on_appendEntry_follower_implements draw view m ae s :
  appendEntry m = Some ae -> m_currentState s = FOLLOWER ->
  implements view (Some m) s (on_appendEntry_follower draw ae s).
Proof.
  intros Hm Hst. destruct s as [g st et at' term n vs lid cb pd ad os nx], ae as [src t].
  simpl in *; subst st. unfold implements, elect_of, on_appendEntry_follower. run_lead.
  destruct (bool_decide (lid <> _)), cb; simpl; (split; [by eapply E_follow|done]).
Qed.

Lemma on_appendEntry_leader_implements draw view m ae s :
  appendEntry m = Some ae -> m_currentState s = LEADER ->
  implements view (Some m) s (on_appendEntry_leader draw ae s).
Proof.
  intros Hm Hst. unfold on_appendEntry_leader, read at 1, when at 1.
  destruct (_ <? _) eqn:Ht; [|apply skip_implements]. apply Z.ltb_lt in Ht.
  destruct s as [g st et at' term n vs lid cb pd ad os nx], ae as [src t].
  simpl in *; subst st. unfold implements, elect_of. run_lead.
  destruct (bool_decide (lid <> _)), cb; simpl; (split; [by eapply E_stepdown|done]).
Qed.

Theorem UpdateMsg_implements now draw view m s : implements view (Some m) s (UpdateMsg now draw m s).
Proof.
  unfold UpdateMsg, read at 1.
  destruct (requestForVoteReq m) eqn:Hq, (m_currentState s) eqn:Hst;
    try (by apply on_voteReq_follower_implements);
    try (by apply on_voteReq_active_implements; rewrite ?Hst);
    destruct (requestForVoteRep m) eqn:Hp, (appendEntry m) eqn:Ha; try apply skip_implements;
    first [by apply on_voteRep_candidate_implements | by apply on_appendEntry_follower_implements
          | by apply on_appendEntry_leader_implements].
Qed.
End Refinement.

(** ** Election safety of the specification

    [A] holds the members' states, [net] every election message sent so far
    (a message is never removed: it may be lost, delayed or delivered again). *)

Section SpecSafety.
Implicit Type A : gmap string Elect.
Implicit Type net : list LeaderElection.

(** What a step must satisfy: a received message was sent; a member that
    starts an election counts at least the whole cluster and its term does
    not wrap; a follower does not receive an [AppendEntry] of an older term. *)
Record step_ok A net (view : Z) (i : option LeaderElection) (e e' : Elect) : Prop := {
  ok_sent m : i = Some m -> m ∈ net;
  ok_view : e_role e = FOLLOWER -> e_role e' = CANDIDATE ->
    Z.of_nat (size A) <= view /\ in_u 32 (e_term e + 1);
  ok_fresh m ae : i = Some m -> appendEntry m = Some ae -> e_role e = FOLLOWER ->
    e_term e <= ae_electionTerm ae;
}.

Definition from_member (m : LeaderElection) : Prop :=
  (exists me t, m = msg_req me t) \/ (exists me f t, m = msg_rep me f t)
  \/ (exists me t, m = msg_app me t).

Definition reached A (id : string) (t : Z) : Prop :=
  exists e, A !! id = Some e /\ t <= e_term e.

Record election_inv A net : Prop := {
  inv_shape m : m ∈ net -> from_member m;
  inv_req n t : msg_req n t ∈ net -> reached A n t;
  inv_rep n f t : msg_rep n f t ∈ net -> reached A n t;
  inv_one n a b t : msg_rep n a t ∈ net -> msg_rep n b t ∈ net -> a = b;
  inv_self n a t : msg_req n t ∈ net -> msg_rep n a t ∈ net -> False;
  inv_active n e : A !! n = Some e -> e_role e <> FOLLOWER ->
    msg_req n (e_term e) ∈ net /\ Z.of_nat (size A) <= e_nodes e
    /\ forall v, v ∈ e_voters e -> v = n \/ msg_rep v n (e_term e) ∈ net;
  inv_leader n e : A !! n = Some e -> e_role e = LEADER ->
    strict_majority (e_nodes e) (Z.of_nat (size (e_voters e)));
}.

Lemma reached_update A id e e' n t :
  A !! id = Some e -> e_term e <= e_term e' ->
  reached A n t -> reached (<[id := e']> A) n t.
Proof.
  intros He Hle (e0 & He0 & Ht). destruct (decide (id = n)) as [<-|Hne].
  - exists e'. rewrite lookup_insert_eq. simplify_eq. split; [done|lia].
  - exists e0. by rewrite lookup_insert_ne.
Qed.

Lemma reached_bound A id e t : A !! id = Some e -> reached A id t -> t <= e_term e.
Proof. intros He (e0 & He0 & Ht). by simplify_eq. Qed.

Lemma size_update A id e e' : A !! id = Some e -> size (<[id := e']> A) = size A.
Proof. intros He. by rewrite map_size_insert_Some. Qed.

Ltac net_cases :=
  repeat match goal with
  | H : _ ∈ _ ++ [_] |- _ => apply elem_of_app in H as [H|H%list_elem_of_singleton]
  | H : _ ∈ _ ++ [] |- _ => rewrite app_nil_r in H
  end;
  unfold msg_req, msg_rep, msg_app, le_voteReq, le_voteRep, le_appendEntry in *;
  simplify_eq.

(** Before a step, a member at term [t] has sent nothing at a higher term. *)
Lemma no_later_req A net id e t :
  election_inv A net -> A !! id = Some e -> e_term e < t -> msg_req id t ∉ net.
Proof. intros I He Ht Hm. pose proof (reached_bound _ _ _ _ He (inv_req _ _ I _ _ Hm)). lia. Qed.

Lemma no_later_rep A net id e f t :
  election_inv A net -> A !! id = Some e -> e_term e < t -> msg_rep id f t ∉ net.
Proof. intros I He Ht Hm. pose proof (reached_bound _ _ _ _ He (inv_rep _ _ I _ _ _ Hm)). lia. Qed.

(** A step that sends neither a request nor a vote keeps the invariant when
    the member's new state is justified by the old network. *)
Lemma inv_quiet A net id e e' out :
  election_inv A net -> A !! id = Some e -> e_term e <= e_term e' ->
  (out = [] \/ out = [msg_app id (e_term e)]) ->
  (e_role e' <> FOLLOWER ->
     msg_req id (e_term e') ∈ net /\ Z.of_nat (size A) <= e_nodes e'
     /\ forall v, v ∈ e_voters e' -> v = id \/ msg_rep v id (e_term e') ∈ net) ->
  (e_role e' = LEADER -> strict_majority (e_nodes e') (Z.of_nat (size (e_voters e')))) ->
  election_inv (<[id := e']> A) (net ++ out).
Proof.
  intros I He Hle Hout Hact Hlead.
  assert (forall m, m ∈ net ++ out -> m ∈ net \/ m = msg_app id (e_term e)) as Hnet.
  { intros m. destruct Hout as [->| ->]; [rewrite app_nil_r; by left|].
    intros [?|?%list_elem_of_singleton]%elem_of_app; auto. }
  assert (forall n t, msg_req n t ∈ net ++ out -> msg_req n t ∈ net) as Hreq
    by (intros n t Hm; by destruct (Hnet _ Hm)).
  assert (forall n f t, msg_rep n f t ∈ net ++ out -> msg_rep n f t ∈ net) as Hrep
    by (intros n f t Hm; by destruct (Hnet _ Hm)).
  split.
  - intros m [Hm| ->]%Hnet; [by eapply inv_shape|]. right; right; eauto.
  - intros n t Hm%Hreq. eapply reached_update; eauto using inv_req.
  - intros n f t Hm%Hrep. eapply reached_update; eauto using inv_rep.
  - intros n a b t Ha%Hrep Hb%Hrep. by eapply inv_one.
  - intros n a t Ha%Hreq Hb%Hrep. by eapply inv_self.
  - intros n e0 H0 Hr. rewrite (size_update _ _ _ _ He).
    destruct (decide (id = n)) as [<-|Hne].
    + rewrite lookup_insert_eq in H0. simplify_eq. destruct (Hact Hr) as (? & ? & Hv).
      split_and!; [by apply elem_of_app; left|done|].
      intros v [?|?]%Hv; [by left|right; by apply elem_of_app; left].
    + rewrite lookup_insert_ne in H0 by done. destruct (inv_active _ _ I _ _ H0 Hr) as (? & ? & Hv).
      split_and!; [by apply elem_of_app; left|done|].
      intros v [?|?]%Hv; [by left|right; by apply elem_of_app; left].
  - intros n e0 H0 Hr. destruct (decide (id = n)) as [<-|Hne].
    + rewrite lookup_insert_eq in H0. simplify_eq. auto.
    + rewrite lookup_insert_ne in H0 by done. by eapply inv_leader.
Qed.

(** The member asks for votes in a term it has never used. *)
Lemma inv_candidate A net id e view t :
  election_inv A net -> A !! id = Some e -> e_term e < t -> Z.of_nat (size A) <= view ->
  election_inv (<[id := mkElect CANDIDATE t view {[id]}]> A) (net ++ [msg_req id t]).
Proof.
  intros I He Ht Hview. set (e' := mkElect CANDIDATE t view {[id]}).
  assert (e_term e <= e_term e') as Hle by (simpl; lia).
  assert (reached (<[id := e']> A) id t) as Hnew
    by (exists e'; rewrite lookup_insert_eq; simpl; split; [done|lia]).
  split.
  - intros m Hm. apply elem_of_app in Hm as [Hm| ->%list_elem_of_singleton];
      [by eapply inv_shape|left; eauto].
  - intros n t0 Hm. net_cases; [|done]. eapply reached_update; eauto using inv_req.
  - intros n f t0 Hm. net_cases. eapply reached_update; eauto using inv_rep.
  - intros n a b t0 Ha Hb. net_cases. by eapply (inv_one A net).
  - intros n a t0 Ha Hb. net_cases; [by eapply (inv_self A net)|].
    by eapply (no_later_rep A net).
  - intros n e0 H0 Hr. rewrite (size_update _ _ _ _ He).
    destruct (decide (id = n)) as [<-|Hne].
    + rewrite lookup_insert_eq in H0. simplify_eq/=.
      split_and!; [apply elem_of_app; right; left|done|]. set_solver.
    + rewrite lookup_insert_ne in H0 by done. destruct (inv_active _ _ I _ _ H0 Hr) as (? & ? & Hv).
      split_and!; [by apply elem_of_app; left|done|].
      intros v [?|?]%Hv; [by left|right; by apply elem_of_app; left].
  - intros n e0 H0 Hr. destruct (decide (id = n)) as [<-|Hne].
    + rewrite lookup_insert_eq in H0. by simplify_eq.
    + rewrite lookup_insert_ne in H0 by done. by eapply (inv_leader A net).
Qed.

(** The member grants its vote in a term it has never used. *)
Lemma inv_vote A net id e e' f t :
  election_inv A net -> A !! id = Some e -> e_term e < t ->
  e_role e' = FOLLOWER -> e_term e' = t ->
  election_inv (<[id := e']> A) (net ++ [msg_rep id f t]).
Proof.
  intros I He Ht Hf <-. assert (e_term e <= e_term e') as Hle by lia.
  assert (reached (<[id := e']> A) id (e_term e')) as Hnew
    by (exists e'; rewrite lookup_insert_eq; split; [done|lia]).
  split.
  - intros m Hm. apply elem_of_app in Hm as [Hm| ->%list_elem_of_singleton];
      [by eapply inv_shape|right; left; eauto].
  - intros n t0 Hm. net_cases. eapply reached_update; eauto using inv_req.
  - intros n f0 t0 Hm. net_cases; [|done]. eapply reached_update; eauto using inv_rep.
  - intros n a b t0 Ha Hb. net_cases; [by eapply (inv_one A net)|..|done];
      exfalso; by eapply (no_later_rep A net).
  - intros n a t0 Ha Hb. net_cases; [by eapply (inv_self A net)|].
    by eapply (no_later_req A net).
  - intros n e0 H0 Hr. rewrite (size_update _ _ _ _ He).
    destruct (decide (id = n)) as [<-|Hne].
    + rewrite lookup_insert_eq in H0. by simplify_eq.
    + rewrite lookup_insert_ne in H0 by done. destruct (inv_active _ _ I _ _ H0 Hr) as (? & ? & Hv).
      split_and!; [by apply elem_of_app; left|done|].
      intros v [?|?]%Hv; [by left|right; by apply elem_of_app; left].
  - intros n e0 H0 Hr. destruct (decide (id = n)) as [<-|Hne].
    + rewrite lookup_insert_eq in H0. simplify_eq. congruence.
    + rewrite lookup_insert_ne in H0 by done. by eapply (inv_leader A net).
Qed.

Lemma rep_on_net A net m v f t :
  election_inv A net -> m ∈ net ->
  requestForVoteRep m =
    Some {| rp_sourceComponentId := v; rp_voteForId := f; rp_electionTerm := t |} ->
  msg_rep v f t ∈ net.
Proof.
  intros I Hm Hr. destruct (inv_shape _ _ I _ Hm) as [(? & ? & ->)|[(? & ? & ? & ->)|(? & ? & ->)]];
    by simplify_eq/=.
Qed.

Lemma espec_inv A net id view i e e' out :
  election_inv A net -> A !! id = Some e -> espec id view i e e' out ->
  step_ok A net view i e e' -> election_inv (<[id := e']> A) (net ++ out).
Proof.
  intros I He Hs [Hsent Hview Hfresh].
  assert (forall e0, A !! id = Some e0 -> e_role e0 <> FOLLOWER ->
    msg_req id (e_term e0) ∈ net /\ Z.of_nat (size A) <= e_nodes e0
    /\ forall v, v ∈ e_voters e0 -> v = id \/ msg_rep v id (e_term e0) ∈ net) as Hact
    by (intros; by eapply (inv_active A net)).
  inversion Hs; subst; simpl in *.
  - eapply inv_quiet; eauto using inv_leader. lia.
  - destruct Hview as [? Ht]; [done..|]. rewrite (uwrap_id 32 (t + 1)) by done.
    eapply inv_candidate; eauto. simpl. lia.
  - eapply inv_quiet; eauto; simpl; [lia|done..].
  - eapply inv_quiet; eauto using inv_leader. lia.
  - by eapply inv_vote.
  - eapply inv_quiet; eauto; simpl; [lia| |done]. intros _.
    destruct (Hact _ He ltac:(done)) as (? & ? & Hv). split_and!; [done..|].
    intros x [?%Hv|?%elem_of_singleton]%elem_of_union; [done|]. subst x.
    right. eapply rep_on_net; [done|by eapply Hsent|done].
  - eapply inv_quiet; eauto; simpl; [lia| ]. intros _.
    destruct (Hact _ He ltac:(done)) as (? & ? & Hv). split_and!; [done..|].
    intros x [?%Hv|?%elem_of_singleton]%elem_of_union; [done|]. subst x.
    right. eapply rep_on_net; [done|by eapply Hsent|done].
  - eapply inv_quiet; eauto; simpl; [|done..].
    match goal with H : appendEntry _ = _ |- _ => specialize (Hfresh _ _ eq_refl H eq_refl) end.
    done.
  - eapply inv_quiet; eauto; simpl; [lia|done..].
Qed.

(** Two majorities of the cluster share a voter. *)
Lemma election_inv_safe A net a b ea eb :
  election_inv A net -> A !! a = Some ea -> A !! b = Some eb ->
  e_role ea = LEADER -> e_role eb = LEADER -> e_term ea = e_term eb -> a = b.
Proof.
  intros I Ha Hb Ra Rb Ht.
  destruct (inv_active _ _ I _ _ Ha) as (Qa & Na & Va); [congruence|].
  destruct (inv_active _ _ I _ _ Hb) as (Qb & Nb & Vb); [congruence|].
  pose proof (inv_leader _ _ I _ _ Ha Ra) as Ma. pose proof (inv_leader _ _ I _ _ Hb Rb) as Mb.
  unfold strict_majority in *.
  assert (forall n e, A !! n = Some e ->
    (forall v, v ∈ e_voters e -> v = n \/ msg_rep v n (e_term e) ∈ net) ->
    e_voters e ⊆ dom A) as Hdom.
  { intros n e He HV v [->|Hm]%HV; [by apply elem_of_dom_2 in He|].
    destruct (inv_rep _ _ I _ _ _ Hm) as (e0 & H0 & _). by apply elem_of_dom_2 in H0. }
  destruct (sets_intersect (dom A) (e_voters ea) (e_voters eb)) as (v & HvA & HvB);
    [by eapply Hdom|by eapply Hdom|rewrite size_dom; lia|].
  specialize (Va _ HvA). specialize (Vb _ HvB). rewrite <- Ht in Vb, Qb.
  destruct Va as [Ea|HA], Vb as [Eb|HB].
  - congruence.
  - exfalso. subst v. by eapply (inv_self A net I _ _ _ Qa HB).
  - exfalso. subst v. by eapply (inv_self A net I _ _ _ Qb HA).
  - by eapply (inv_one A net).
Qed.
End SpecSafety.
