(* ===== verification/Cluster.v ===== *)
(** Cluster.v - members of a group that run the leader object side by side.

    A [Cluster] is a set of leader objects that exchange election messages over
    a network that may lose, delay, reorder and duplicate them.  The steps are
    the entry points that [Group] and the component call. *)

From Stdlib Require Import ZArith Lia.
From stdpp Require Import base gmap strings list fin_maps fin_sets.
From S2P Require Import Prelude.
From S2P Require Import Timeout.
From S2P Require Import DistCoord.
From S2P Require Import GroupLead.
From S2P Require Import Election.

#[local] Open Scope riaps_scope.

(** The entry points of a leader object, with their readings of the clock. *)
Inductive Input (G : Type) :=
| Idle (clk : nat -> Z) (order : list string)
| Receive (now draw : Z) (m : LeaderElection)
| ClientProposes (t_known t_new : Z) (junk : bool) (h : ProposeToLeader) (body : option Frame)
| ClientProposesAction (t_check t_known t_new : Z) (h : ProposeToLeader) (tsca : TimeSyncCoordA)
| ClientVotes (now : Z) (v : Vote) (src : string)
| GroupMoves (g : G).
Arguments Idle {G}.
Arguments Receive {G}.
Arguments ClientProposes {G}.
Arguments ClientProposesAction {G}.
Arguments ClientVotes {G}.
Arguments GroupMoves {G}.

Record Cluster (G : Type) := mkCluster {
  c_nodes : gmap string (GroupLead G);
  c_net : list LeaderElection;
}.
Arguments mkCluster {G}.
Arguments c_nodes {G}.
Arguments c_net {G}.

Section Cluster.
Context {G : Type} `{GroupApi G}.
Implicit Type s : GroupLead G.
Implicit Type c : Cluster G.

Definition handle (i : Input G) : LeadCmd G :=
  match i with
  | Idle clk order => Update clk order
  | Receive now draw m => UpdateMsg now draw m
  | ClientProposes t_known t_new junk h body => OnProposeFromClient t_known t_new junk h body
  | ClientProposesAction t_check t_known t_new h tsca =>
      OnActionProposeFromClient t_check t_known t_new h tsca
  | ClientVotes now v src => OnVote now v src
  | GroupMoves g => modify (set_group g)
  end.

(** Member [id] handles [i]; what it sends stays on the network for good. *)
Definition cluster_step (id : string) (i : Input G) c : Cluster G :=
  match c_nodes c !! id with
  | None => c
  | Some s =>
      mkCluster (<[id := (handle i s).1]> (c_nodes c))
        (c_net c ++ election_msgs (handle i s).2)
  end.

Definition cluster_run (l : list (string * Input G)) c : Cluster G :=
  fold_left (fun c p => cluster_step p.1 p.2 c) l c.

(** A fresh cluster: followers at term 0, nothing sent. *)
Definition initial c : Prop :=
  c_net c = [] /\ forall id s, c_nodes c !! id = Some s ->
    GetComponentId s = id /\ m_currentState s = FOLLOWER.

(** A message is delivered only if it was sent, and the group stays the
    group of the same component: this is what the other layers guarantee. *)
Definition sent_only c s (i : Input G) : Prop :=
  match i with
  | Receive _ _ m => m ∈ c_net c
  | GroupMoves g => ComponentUuid g = GetComponentId s
  | _ => True
  end.

(** The two conditions that the protocol needs besides: a member that starts
    an election knows the whole cluster (and has terms left), and no
    [AppendEntry] older than its term reaches a follower. *)
Definition complete_view c s (i : Input G) : Prop :=
  match i with
  | Idle clk _ => m_currentState s = FOLLOWER ->
      m_currentState (handle i s).1 = CANDIDATE ->
      Z.of_nat (size (c_nodes c)) <= view_at (clk 3%nat) s /\ in_u 32 (m_electionTerm s + 1)
  | _ => True
  end.

Definition no_stale_append s (i : Input G) : Prop :=
  match i with
  | Receive _ _ m =>
      match appendEntry m with
      | Some ae => m_currentState s = FOLLOWER -> m_electionTerm s <= ae_electionTerm ae
      | None => True
      end
  | _ => True
  end.

#[export] Instance sent_only_dec c s i : Decision (sent_only c s i).
Proof. destruct i; simpl; apply _. Defined.
#[export] Instance complete_view_dec c s i : Decision (complete_view c s i).
Proof. destruct i; simpl; apply _. Defined.
#[export] Instance no_stale_append_dec s i : Decision (no_stale_append s i).
Proof. destruct i; simpl; try apply _. case_match; apply _. Defined.

(** A run whose every step meets the condition [P]. *)
Fixpoint run_allowed (P : Cluster G -> GroupLead G -> Input G -> Prop)
    (l : list (string * Input G)) c : Prop :=
  match l with
  | [] => True
  | (id, i) :: l' =>
      match c_nodes c !! id with
      | Some s => P c s i /\ run_allowed P l' (cluster_step id i c)
      | None => False
      end
  end.

#[export] Instance run_allowed_dec P `{forall c s i, Decision (P c s i)} l c :
  Decision (run_allowed P l c).
Proof.
  revert c. induction l as [|[id i] l IH]; intros c; simpl; [apply _|].
  case_match; apply _.
Defined.

Definition allowed c s (i : Input G) : Prop :=
  sent_only c s i /\ complete_view c s i /\ no_stale_append s i.

Inductive reachable : Cluster G -> Prop :=
| reach_initial c : initial c -> reachable c
| reach_step c id s i :
    reachable c -> c_nodes c !! id = Some s ->
    allowed c s i -> reachable (cluster_step id i c).

Lemma reachable_run l c :
  reachable c -> run_allowed allowed l c -> reachable (cluster_run l c).
Proof.
  revert c. induction l as [|[id i] l IH]; intros c Hc; [done|]. simpl.
  destruct (c_nodes c !! id) as [s|] eqn:Hs; [|done]. intros [Ha Hl].
  apply IH; [|done]. by eapply reach_step.
Qed.
End Cluster.

(** ** The entry points for proposals leave the election alone *)

Section Untouched.
Context {G : Type} `{GroupApiLaws G}.
Implicit Type s : GroupLead G.

Definition leaves_election (c : LeadCmd G) : Prop := forall s, election_unchanged s (c s).

Lemma leaves_skip : leaves_election skip.
Proof. done. Qed.

Lemma leaves_read k : (forall s, leaves_election (k s)) -> leaves_election (read k).
Proof. intros Hk s. apply Hk. Qed.

Lemma leaves_when b c : leaves_election c -> leaves_election (when b c).
Proof. by destruct b. Qed.

Lemma leaves_seq c1 c2 :
  leaves_election c1 -> leaves_election c2 -> leaves_election (c1 ;; c2).
Proof.
  intros H1 H2 s. destruct (H1 s) as (A1 & B1 & C1 & D1).
  destruct (H2 (c1 s).1) as (A2 & B2 & C2 & D2). unfold election_unchanged, seq; simpl.
  unfold election_msgs in *. rewrite omap_app, D1, D2. by rewrite A2, B2, C2.
Qed.

Lemma leaves_announce pid r : leaves_election (AnnounceResult pid r).
Proof. done. Qed.

Lemma leaves_erase_proposal pid : leaves_election (erase_proposal pid).
Proof. done. Qed.

Lemma leaves_store loc pd : leaves_election (store_object loc pd).
Proof. done. Qed.

Lemma leaves_erase_action pd : leaves_election (erase_action pd).
Proof. apply leaves_read. intros s. by apply leaves_when. Qed.

Lemma OnVote_leaves now v src : leaves_election (OnVote now v src).
Proof.
  apply leaves_read. intros s. cbv zeta. repeat case_match;
    auto 6 using leaves_skip, leaves_seq, leaves_announce, leaves_erase_proposal,
      leaves_store, leaves_erase_action.
Qed.

Lemma OnPropose_leaves t1 t2 junk h body :
  leaves_election (OnProposeFromClient t1 t2 junk h body).
Proof. apply leaves_read. intros s. by case_bool_decide. Qed.

Lemma OnActionPropose_leaves t1 t2 t3 h tsca :
  leaves_election (OnActionProposeFromClient t1 t2 t3 h tsca).
Proof. apply leaves_read. intros s. cbv zeta. case_bool_decide; [done|]. by case_match. Qed.
End Untouched.

(** ** Election safety of the code *)

Section Safety.
Context {G : Type} `{GroupApiLaws G}.
Implicit Type s : GroupLead G.
Implicit Type c : Cluster G.

Definition abstract c : gmap string Elect := elect_of <$> c_nodes c.

Record cluster_inv c : Prop := {
  ci_ids id s : c_nodes c !! id = Some s -> GetComponentId s = id;
  ci_spec : election_inv (abstract c) (c_net c);
}.

Lemma initial_inv c : initial c -> cluster_inv c.
Proof.
  intros [Hnet Hn]. split; [by intros id s [? ?]%Hn|]. rewrite Hnet.
  assert (forall n e, abstract c !! n = Some e -> e_role e = FOLLOWER) as Hf.
  { intros n e. unfold abstract. rewrite lookup_fmap_Some.
    by intros (s & <- & [_ ?]%Hn). }
  split; try (clear Hn; set_solver); intros n e He Hr; apply Hf in He; congruence.
Qed.

(** What every input does to the election, seen through the specification. *)
Lemma handle_implements i s :
  (forall g, i = GroupMoves g -> ComponentUuid g = GetComponentId s) ->
  exists view m,
    implements view m s (handle i s)
    /\ (forall x, m = Some x -> exists now draw, i = Receive now draw x)
    /\ (forall clk order, i = Idle clk order -> view = view_at (clk 3%nat) s)
    /\ (m_currentState (handle i s).1 = CANDIDATE -> m_currentState s = FOLLOWER ->
        exists clk order, i = Idle clk order).
Proof.
  intros Hg.
  assert (forall r, election_unchanged s r -> implements 0 None s r) as Hun.
  { intros r (E1 & E2 & _ & E3). split; [rewrite E1, E3; constructor|].
    unfold GetComponentId. by rewrite E2. }
  assert (forall r, election_unchanged s r -> m_currentState r.1 = m_currentState s) as Hst.
  { intros r (E1 & _). by injection E1. }
  destruct i as [clk order|now draw m|t1 t2 junk h body|t1 t2 t3 h tsca|now v src|g]; simpl.
  - exists (view_at (clk 3%nat) s), None. split_and!; [apply Update_implements|naive_solver..].
  - exists 0, (Some m). split_and!; [apply UpdateMsg_implements|naive_solver|naive_solver|].
    destruct (UpdateMsg_implements now draw 0 m s) as [Hs _].
    intros Hc Hf. exfalso. remember (elect_of s) as e. remember (elect_of (UpdateMsg now draw m s).1) as e'.
    assert (e_role e = FOLLOWER) by (by subst e). assert (e_role e' = CANDIDATE) by (by subst e').
    clear Heqe Heqe'. inversion Hs; subst; simpl in *; congruence.
  - exists 0, None. split_and!; [apply Hun, OnPropose_leaves|naive_solver..|].
    rewrite (Hst _ (OnPropose_leaves _ _ _ _ _ _)). congruence.
  - exists 0, None. split_and!; [apply Hun, OnActionPropose_leaves|naive_solver..|].
    rewrite (Hst _ (OnActionPropose_leaves _ _ _ _ _ _)). congruence.
  - exists 0, None. split_and!; [apply Hun, OnVote_leaves|naive_solver..|].
    rewrite (Hst _ (OnVote_leaves _ _ _ _)). congruence.
  - exists 0, None. split_and!; [|naive_solver..|congruence].
    split; [apply E_stutter|]. by apply Hg.
Qed.

Lemma cluster_step_inv c id s i :
  cluster_inv c -> c_nodes c !! id = Some s ->
  allowed c s i -> cluster_inv (cluster_step id i c).
Proof.
  intros [Hids Hspec] Hs (Hsent & Hview & Hfresh). unfold cluster_step. rewrite Hs.
  destruct (handle_implements i s) as (view & m & [He Hid] & Hm & Hv & Hc).
  { intros g ->. apply Hsent. }
  rewrite (Hids _ _ Hs) in *. split; simpl.
  - intros id' s'. destruct (decide (id = id')) as [<-|Hne].
    + rewrite lookup_insert_eq. intros [= <-]. by rewrite Hid.
    + rewrite lookup_insert_ne by done. apply Hids.
  - unfold abstract; simpl. rewrite fmap_insert.
    apply (espec_inv (abstract c) _ id view m (elect_of s)); [done| |done|].
    + unfold abstract. by rewrite lookup_fmap, Hs.
    + split.
      * intros x ->. destruct (Hm _ eq_refl) as (now & draw & ->). apply Hsent.
      * intros Hf Hcand. destruct (Hc Hcand Hf) as (clk & order & ->).
        rewrite (Hv _ _ eq_refl). unfold abstract. rewrite map_size_fmap.
        by apply Hview.
      * intros x ae -> Hae Hf. destruct (Hm _ eq_refl) as (now & draw & ->).
        simpl in Hfresh. rewrite Hae in Hfresh. by apply Hfresh.
Qed.

Lemma reachable_inv c : reachable c -> cluster_inv c.
Proof. induction 1; [by apply initial_inv|by eapply cluster_step_inv]. Qed.

(** C2. Election safety: whatever the members do and however the network
    loses, delays, reorders or repeats their messages, two leaders of the
    same term are the same member, provided that candidates knew the whole
    cluster and followers saw no [AppendEntry] of an older term. *)
Theorem election_safety c a b sa sb :
  reachable c -> c_nodes c !! a = Some sa -> c_nodes c !! b = Some sb ->
  m_currentState sa = LEADER -> m_currentState sb = LEADER ->
  m_electionTerm sa = m_electionTerm sb -> a = b.
Proof.
  intros Hc Ha Hb Ra Rb Ht.
  apply (election_inv_safe (abstract c) (c_net c) a b (elect_of sa) (elect_of sb)); try done;
    [apply reachable_inv, Hc|unfold abstract; rewrite lookup_fmap..].
  - by rewrite Ha.
  - by rewrite Hb.
Qed.


End Safety.

(** ** Progress: enough votes make a leader *)

Section Progress.
Context {G : Type} `{GroupApiLaws G}.
Implicit Type s : GroupLead G.

Lemma hasMajority_true s :
  Z.of_nat (size (m_votes s)) < 2 ^ 32 ->
  strict_majority (m_numberOfNodesInVote s) (Z.of_nat (size (m_votes s))) ->
  hasMajority s = true.
Proof.
  intros Hb Hm. unfold hasMajority, GetNumberOfVotes. rewrite uwrap_id by (unfold in_u; lia).
  by apply Z.leb_le, majority_of_strict.
Qed.

(** The replies of [vs] delivered one after the other. *)
Definition receive_votes (now draw t : Z) (me : string) (vs : list string) s : GroupLead G :=
  fold_left (fun s v => (UpdateMsg now draw (msg_rep v me t) s).1) vs s.

Lemma UpdateMsg_vote now draw v s :
  m_currentState s = CANDIDATE -> v <> GetComponentId s ->
  let s' := (UpdateMsg now draw (msg_rep v (GetComponentId s) (m_electionTerm s)) s).1 in
  let voted := set_votes (<[v := now]> (m_votes s)) s in
  if hasMajority voted then m_currentState s' = LEADER
  else s' = voted.
Proof.
  intros Hst Hv s' voted. destruct (hasMajority voted) eqn:Hmaj; subst s';
    unfold UpdateMsg, read at 1; rewrite Hst; simpl;
    unfold on_voteRep_candidate, read at 1, when at 1; simpl;
    rewrite (bool_decide_eq_true_2 (GetComponentId s <> v)) by done;
    rewrite Z.eqb_refl, (bool_decide_eq_true_2 (_ = _)) by done; simpl;
    unfold seq, modify, read, when; simpl; fold voted; rewrite Hmaj; [|done].
  run_lead. by repeat case_match.
Qed.

Lemma receive_votes_leader now draw t me vs s :
  m_currentState s = LEADER -> m_currentState (receive_votes now draw t me vs s) = LEADER.
Proof.
  revert s. induction vs as [|v vs IH]; intros s Hs; [done|]. apply IH.
  unfold UpdateMsg, read. by rewrite Hs.
Qed.

Lemma receive_votes_wins now draw vs s :
  m_currentState s = CANDIDATE -> NoDup vs -> GetComponentId s ∉ vs ->
  (forall v, v ∈ vs -> m_votes s !! v = None) -> vs <> [] ->
  let votes := Z.of_nat (size (m_votes s) + length vs) in
  votes < 2 ^ 32 -> strict_majority (m_numberOfNodesInVote s) votes ->
  m_currentState
    (receive_votes now draw (m_electionTerm s) (GetComponentId s) vs s) = LEADER.
Proof.
  revert s. induction vs as [|v vs IH]; intros s Hst Hnd Hme Hnew Hne votes Hb Hm; [done|].
  apply NoDup_cons in Hnd as [Hv Hnd]. apply not_elem_of_cons in Hme as [Hv' Hme].
  cbn [receive_votes fold_left].
  pose proof (UpdateMsg_vote now draw v s Hst (not_eq_sym Hv')) as Hstep.
  cbv zeta in Hstep. subst votes. cbn [length] in *.
  set (voted := set_votes _ s) in Hstep.
  assert (size (m_votes voted) = S (size (m_votes s))) as Hsz.
  { simpl. apply map_size_insert_None, Hnew. left. }
  destruct (hasMajority voted) eqn:Hmaj; [by apply receive_votes_leader|].
  rewrite Hstep. destruct vs as [|w vs].
  - exfalso. rewrite hasMajority_true in Hmaj; [done|rewrite Hsz; simpl in *; lia|].
    rewrite Hsz. eapply eq_ind; [exact Hm|]. f_equal. simpl. lia.
  - apply (IH voted); try done.
    + intros u Hu. simpl. rewrite lookup_insert_ne by set_solver. apply Hnew. by right.
    + rewrite Hsz. cbn [length] in *. lia.
    + rewrite Hsz. eapply eq_ind; [exact Hm|]. f_equal. cbn [length]. lia.
Qed.

(** C19. Progress: a candidate that has just asked for votes and is not alone
    becomes the leader once the votes of enough distinct members reach it. *)
Theorem candidate_wins now draw t_vote vs s :
  m_currentState s = CANDIDATE -> m_votes s = {[ GetComponentId s := t_vote ]} ->
  2 <= m_numberOfNodesInVote s -> NoDup vs -> GetComponentId s ∉ vs ->
  Z.of_nat (S (length vs)) < 2 ^ 32 ->
  strict_majority (m_numberOfNodesInVote s) (Z.of_nat (S (length vs))) ->
  m_currentState
    (receive_votes now draw (m_electionTerm s) (GetComponentId s) vs s) = LEADER.
Proof.
  intros Hst Hvotes Hn Hnd Hme Hb Hm.
  assert (size (m_votes s) = 1%nat) as Hsz by (rewrite Hvotes; by apply map_size_singleton).
  apply receive_votes_wins; try done.
  - intros v Hv. rewrite Hvotes. apply lookup_singleton_ne. intros E. apply Hme. by rewrite E.
  - intros ->. unfold strict_majority in Hm. simpl in Hm. lia.
  - rewrite Hsz. lia.
  - by rewrite Hsz.
Qed.
End Progress.

(** ** Concrete clusters

    [StaticGroup] is a group whose membership is fixed. *)

Record StaticGroup := { sg_uuid : string; sg_known : gset string }.

#[export] Instance StaticGroup_api : GroupApi StaticGroup := {
  ComponentUuid := sg_uuid;
  GetMemberCount _ g := (u16 (Z.of_nat (size (sg_known g))), g);
  GetKnownComponents _ g := sg_known g;
}.

#[export] Instance StaticGroup_laws : GroupApiLaws StaticGroup.
Proof. by split. Qed.

Section Concrete.
Definition member (id : string) (known : list string) : string * GroupLead StaticGroup :=
  (id, new_GroupLead 0 0 200 {| sg_uuid := id; sg_known := list_to_set known |}).

Definition cluster_of (l : list (string * GroupLead StaticGroup)) : Cluster StaticGroup :=
  mkCluster (list_to_map l) [].

Lemma cluster_of_initial l :
  Forall (fun p => GetComponentId p.2 = p.1 /\ m_currentState p.2 = FOLLOWER) l ->
  initial (cluster_of l).
Proof.
  intros Hl. split; [done|]. intros id s Hs. apply elem_of_list_to_map_2 in Hs.
  rewrite Forall_forall in Hl. by apply (Hl _ Hs).
Qed.

(** A step one second after the start: every deadline has passed. *)
Definition late : nat -> Z := fun _ => 1000000000.
Definition tick (id : string) : string * Input StaticGroup := (id, Idle late []).
Definition gets (id : string) (m : LeaderElection) : string * Input StaticGroup :=
  (id, Receive 1000000000 300 m).

Definition three : Cluster StaticGroup :=
  cluster_of [member "a" ["b"; "c"]; member "b" ["a"; "c"]; member "c" ["a"; "b"]].

(** [a] is elected at term 1 by [b]. *)
Definition elect_a : list (string * Input StaticGroup) :=
  [tick "a"; gets "b" (msg_req "a" 1); gets "a" (msg_rep "b" "a" 1)].

(** [b] follows at term 2, elected by [c]; the heartbeat that [a] sent at
    term 1 reaches [c] late, and [c] asks for votes at term 2 again. *)
Definition stale_heartbeat : list (string * Input StaticGroup) :=
  elect_a ++
  [tick "b"; gets "c" (msg_req "b" 2); gets "b" (msg_rep "c" "b" 2);
   gets "c" (msg_app "a" 1); tick "c"; gets "a" (msg_req "c" 2); gets "c" (msg_rep "a" "c" 2)].

(** Four members that have not yet heard of each other. *)
Definition four : Cluster StaticGroup :=
  cluster_of [member "a" []; member "b" []; member "c" []; member "d" []].
Definition split_votes : list (string * Input StaticGroup) :=
  [tick "a"; tick "b"; gets "c" (msg_req "a" 1); gets "d" (msg_req "b" 1);
   gets "a" (msg_rep "c" "a" 1); gets "b" (msg_rep "d" "b" 1)].

Lemma three_initial : initial three.
Proof. apply cluster_of_initial. by repeat constructor. Qed.
Lemma four_initial : initial four.
Proof. apply cluster_of_initial. by repeat constructor. Qed.

Definition leads (c : Cluster StaticGroup) (id : string) (t : Z) : Prop :=
  (fun s => (m_currentState s, m_electionTerm s)) <$> c_nodes c !! id = Some (LEADER, t).

Lemma elect_a_reachable : reachable (cluster_run elect_a three).
Proof.
  apply reachable_run; [apply reach_initial, three_initial|].
  apply (bool_decide_unpack _). by vm_compute.
Qed.

(** The condition on [AppendEntry] is needed: [Update] lets an old
    [AppendEntry] lower a follower's term, so a delayed heartbeat makes the
    follower's term repeat, and a cluster of members with complete views
    elects two leaders in one term. *)
Theorem stale_append_two_leaders :
  initial three
  /\ run_allowed (fun c s i => sent_only c s i /\ complete_view c s i) stale_heartbeat three
  /\ leads (cluster_run stale_heartbeat three) "b" 2
  /\ leads (cluster_run stale_heartbeat three) "c" 2.
Proof.
  split_and!; [apply three_initial|apply (bool_decide_unpack _); by vm_compute| |];
    by vm_compute.
Qed.

(** The condition on the views is needed: members that have not heard of
    each other count an electorate of one, and one vote each makes two
    leaders of the same term. *)
Theorem partial_view_two_leaders :
  initial four
  /\ run_allowed (fun c s i => sent_only c s i /\ no_stale_append s i) split_votes four
  /\ leads (cluster_run split_votes four) "a" 1
  /\ leads (cluster_run split_votes four) "b" 1.
Proof.
  split_and!; [apply four_initial|apply (bool_decide_unpack _); by vm_compute| |];
    by vm_compute.
Qed.

Definition node_of (c : Cluster StaticGroup) (id : string) : GroupLead StaticGroup :=
  default (member id []).2 (c_nodes c !! id).

Lemma election_safety_witness :
  exists s, c_nodes (cluster_run elect_a three) !! "a" = Some s
            /\ m_currentState s = LEADER /\ "a" = "a".
Proof.
  exists (node_of (cluster_run elect_a three) "a").
  assert (c_nodes (cluster_run elect_a three) !! "a"
          = Some (node_of (cluster_run elect_a three) "a")) as Hs by by vm_compute.
  assert (m_currentState (node_of (cluster_run elect_a three) "a") = LEADER) as Hl
    by by vm_compute.
  split; [exact Hs|split; [exact Hl|]].
  exact (election_safety _ _ _ _ _ elect_a_reachable Hs Hs Hl Hl eq_refl).
Defined.



Lemma candidate_wins_witness :
  let s := node_of (cluster_run [tick "a"] three) "a" in
  m_currentState (receive_votes 0 0 (m_electionTerm s) (GetComponentId s) ["b"; "c"] s) = LEADER.
Proof.
  intros s. apply (candidate_wins 0 0 1000000000 ["b"; "c"] s);
    [by vm_compute..| | | |].
  - apply (bool_decide_unpack _). by vm_compute.
  - apply (bool_decide_unpack _). by vm_compute.
  - by vm_compute.
  - by vm_compute.
Defined.
End Concrete.
