(* ===== verification/Consensus.v ===== *)
(** Consensus.v - what the proposals of [GroupLead.v] guarantee.

    [lead_wf] is the invariant of the shared [ProposeData] objects; [tally] is
    the specification of a vote, which [OnVote] implements message by message;
    [expire_proposals] announces the proposals that ran out of time. *)

From Stdlib Require Import ZArith Lia.
From stdpp Require Import base gmap strings list fin_maps fin_sets.
From S2P Require Import Prelude.
From S2P Require Import Timeout.
From S2P Require Import DistCoord.
From S2P Require Import GroupLead.
From S2P Require Import Election.
From S2P Require Import Cluster.

#[local] Open Scope riaps_scope.

(** ** The invariant of the proposal objects *)

Section WellFormed.
Context {G : Type} `{GroupApi G}.
Implicit Type s : GroupLead G.

(** No pointer dangles, no two proposals share an object, the object of an
    action carries that action's id, and addresses are not reused. *)
Record lead_wf s : Prop := {
  wf_proposal pid loc : m_proposeData s !! pid = Some loc -> is_Some (m_objects s !! loc);
  wf_distinct p q loc : m_proposeData s !! p = Some loc -> m_proposeData s !! q = Some loc -> p = q;
  wf_action aid loc : m_actionData s !! aid = Some loc ->
    exists pd, m_objects s !! loc = Some pd /\ isAction pd = true /\ actionId pd = aid;
  wf_fresh loc pd : m_objects s !! loc = Some pd -> (loc < m_nextObject s)%nat;
}.

(** Commands that keep the invariant. *)
Definition keeps_wf (c : LeadCmd G) : Prop := forall s, lead_wf s -> lead_wf (c s).1.

Definition same_heap s s' : Prop :=
  m_proposeData s' = m_proposeData s /\ m_actionData s' = m_actionData s
  /\ m_objects s' = m_objects s /\ m_nextObject s' = m_nextObject s.

Lemma same_heap_wf s s' : same_heap s s' -> lead_wf s -> lead_wf s'.
Proof.
  destruct s, s'. unfold same_heap; simpl. intros (-> & -> & -> & ->) [W1 W2 W3 W4].
  by split.
Qed.

Lemma keeps_skip : keeps_wf skip.
Proof. by intros s. Qed.
Lemma keeps_emit o : keeps_wf (emit o).
Proof. by intros s. Qed.
Lemma keeps_read k : (forall s, lead_wf s -> keeps_wf (k s)) -> keeps_wf (read k).
Proof. intros Hk s Hs. exact (Hk s Hs s Hs). Qed.
Lemma keeps_read_any k : (forall s, keeps_wf (k s)) -> keeps_wf (read k).
Proof. intros Hk s Hs. exact (Hk s s Hs). Qed.
Lemma keeps_seq c1 c2 : keeps_wf c1 -> keeps_wf c2 -> keeps_wf (c1 ;; c2).
Proof. intros H1 H2 s Hs. exact (H2 _ (H1 _ Hs)). Qed.
Lemma keeps_when b c : keeps_wf c -> keeps_wf (when b c).
Proof. destruct b; [done|]. intros _. apply keeps_skip. Qed.
Lemma keeps_modify f : (forall s, same_heap s (f s)) -> keeps_wf (modify f).
Proof. intros Hf s Hs. exact (same_heap_wf s (f s) (Hf s) Hs). Qed.

Lemma keeps_erase_proposal pid : keeps_wf (erase_proposal pid).
Proof.
  intros s [W1 W2 W3 W4]. split; simpl; [| |done..].
  - intros p loc [_ Hp]%lookup_delete_Some. eauto.
  - intros p q loc [_ Hp]%lookup_delete_Some [_ Hq]%lookup_delete_Some. eauto.
Qed.

Lemma keeps_erase_action pd : keeps_wf (erase_action pd).
Proof.
  apply keeps_read_any. intros s. apply keeps_when. intros s' [W1 W2 W3 W4].
  split; simpl; [done..| |done]. intros aid loc [_ Ha]%lookup_delete_Some. eauto.
Qed.

(** Overwriting an object that is there with one of the same action. *)
Lemma keeps_store loc pd' s :
  (exists pd, m_objects s !! loc = Some pd /\ isAction pd' = isAction pd
              /\ actionId pd' = actionId pd) ->
  lead_wf s -> lead_wf (store_object loc pd' s).1.
Proof.
  intros (pd & Hpd & Ha & Hi) [W1 W2 W3 W4]. split; simpl.
  - intros pid l [x Hx]%W1. destruct (decide (loc = l)) as [<-|Hne];
      [rewrite lookup_insert_eq|rewrite lookup_insert_ne by done]; by eexists.
  - done.
  - intros aid l (x & Hx & Hxa & Hxi)%W3. destruct (decide (loc = l)) as [<-|Hne].
    + rewrite lookup_insert_eq. simplify_eq. exists pd'. split_and!; congruence.
    + rewrite lookup_insert_ne by done. eauto.
  - intros l x. destruct (decide (loc = l)) as [<-|Hne].
    + rewrite lookup_insert_eq. intros [= <-]. by eapply W4.
    + rewrite lookup_insert_ne by done. apply W4.
Qed.

Lemma keeps_register pid aid pd :
  (forall a, aid = Some a -> isAction pd = true /\ actionId pd = a) ->
  keeps_wf (register_proposal pid aid pd).
Proof.
  intros Haid s [W1 W2 W3 W4]. set (n := m_nextObject s).
  assert (forall l x, m_objects s !! l = Some x -> n <> l) as Hnew
    by (intros l x Hx%W4 E; subst l n; lia).
  assert (forall l x, m_objects s !! l = Some x ->
            <[n := pd]> (m_objects s) !! l = Some x) as Hold
    by (intros l x Hx; rewrite lookup_insert_ne; eauto).
  assert (forall p l, <[pid := n]> (m_proposeData s) !! p = Some l ->
            (p = pid /\ l = n) \/ (m_proposeData s !! p = Some l /\ n <> l)) as Hp.
  { intros p l [[-> <-]|[_ Hl]]%lookup_insert_Some; [by left|]. right.
    split; [done|]. destruct (W1 _ _ Hl). eauto. }
  assert (lead_wf (set_proposeData (<[pid := n]> (m_proposeData s))
            (set_store (<[n := pd]> (m_objects s)) (S n) s))) as W'.
  { split; simpl.
    - intros p l [[-> ->]|[[x Hx]%W1 _]]%Hp; [rewrite lookup_insert_eq|rewrite (Hold _ x)]; eauto.
    - intros p q l [[-> ->]|[Hl ?]]%Hp [[-> ?]|[Hl' ?]]%Hp; try done. eauto.
    - intros a l (x & Hx & ?)%W3. eauto.
    - intros l x [[<- <-]|[_ Hx%W4]]%lookup_insert_Some; lia. }
  unfold register_proposal, modify. cbn [fst]. fold n. destruct aid as [a|]; [|done].
  destruct W' as [V1 V2 V3 V4]. split; simpl in *; [done..| |done].
  intros a' l [[<- <-]|[_ Hl]]%lookup_insert_Some; [|by apply V3].
  rewrite lookup_insert_eq. eauto.
Qed.

Lemma keeps_OnVote now v src : keeps_wf (OnVote now v src).
Proof.
  intros s W. unfold OnVote, read at 1.
  destruct (m_proposeData s !! _) as [loc|]; [|done].
  destruct (m_objects s !! loc) as [pd|] eqn:Hpd; [|done].
  destruct (IsTimeout now (proposeDeadline pd)).
  { eapply keeps_seq; [apply keeps_erase_action| |done].
    apply keeps_seq; [apply keeps_erase_proposal|apply keeps_emit]. }
  case_bool_decide; [done|]. cbv zeta. cbn [seq fst].
  apply (keeps_store loc (count_vote src (v_voteResult v) pd)) in W; [|by exists pd].
  match goal with |- lead_wf (?c _).1 => enough (keeps_wf c) as Hc by exact (Hc _ W) end.
  repeat case_match; repeat apply keeps_seq;
    auto using keeps_skip, keeps_erase_action, keeps_erase_proposal, keeps_emit.
Qed.

Lemma keeps_expire clk k order : keeps_wf (expire_proposals clk k order).
Proof.
  revert k. induction order as [|pid order IH]; intros k; [apply keeps_skip|].
  cbn [expire_proposals]. apply keeps_seq; [|apply IH]. apply keeps_read_any. intros s.
  case_match; [|apply keeps_skip]. apply keeps_when, keeps_seq; [apply keeps_emit|].
  apply keeps_erase_proposal.
Qed.

(** One structural rule per constructor of commands. *)
#[local] Ltac keeps :=
  cbv zeta;
  lazymatch goal with
  | |- keeps_wf skip => apply keeps_skip
  | |- keeps_wf (emit _) => apply keeps_emit
  | |- keeps_wf (expire_proposals _ _ _) => apply keeps_expire
  | |- keeps_wf (erase_proposal _) => apply keeps_erase_proposal
  | |- keeps_wf (seq _ _) => apply keeps_seq; keeps
  | |- keeps_wf (when _ _) => apply keeps_when; keeps
  | |- keeps_wf (read _) => apply keeps_read_any; intros ?; keeps
  | |- keeps_wf (modify _) => apply keeps_modify; intros ?; cbv beta;
      repeat case_match; unfold same_heap; split_and!; reflexivity
  | |- keeps_wf (match ?x with _ => _ end) => destruct x; keeps
  | |- _ => idtac
  end.

Lemma keeps_become_candidate t1 t2 t3 : keeps_wf (become_candidate t1 t2 t3).
Proof. unfold become_candidate, ChangeLeader, SendRequestForVote, SendInternal. keeps. Qed.

Lemma keeps_Update clk order : keeps_wf (Update clk order).
Proof.
  unfold Update, SendAppendEntry, SendInternal. keeps; apply keeps_become_candidate.
Qed.

Lemma keeps_UpdateMsg now draw m : keeps_wf (UpdateMsg now draw m).
Proof.
  unfold UpdateMsg, on_voteReq_follower, on_voteReq_active, on_voteRep_candidate,
    on_appendEntry_follower, on_appendEntry_leader, ChangeLeader, SendVote,
    SendAppendEntry, SendInternal. keeps.
Qed.

Lemma keeps_handle i : keeps_wf (handle i).
Proof.
  destruct i; simpl.
  - apply keeps_Update.
  - apply keeps_UpdateMsg.
  - unfold OnProposeFromClient. keeps. by apply keeps_register.
  - unfold OnActionProposeFromClient, SendInternal. keeps. apply keeps_register.
    by intros a [= <-].
  - apply keeps_OnVote.
  - by apply keeps_modify.
Qed.

Lemma new_GroupLead_wf now1 now2 draw g : lead_wf (new_GroupLead now1 now2 draw g).
Proof. split; simpl; intros; set_solver. Qed.

(** C11. The shared proposal objects stay consistent: from a fresh leader
    object and through any inputs whatever, no pointer of the two maps
    dangles, two proposal ids never share an object, and the object found
    under an action id is the one of that action. *)
Theorem proposals_wf now1 now2 draw g (inputs : list (Input G)) :
  lead_wf (fold_left (fun s i => (handle i s).1) inputs (new_GroupLead now1 now2 draw g)).
Proof.
  generalize (new_GroupLead_wf now1 now2 draw g).
  generalize (new_GroupLead now1 now2 draw g).
  induction inputs as [|i l IH]; intros s W; [done|]. exact (IH _ (keeps_handle i s W)).
Qed.
End WellFormed.

(** ** Votes on a proposal *)

Abbreviation Ballot := (string * VoteResults)%type.

(** The specification of a vote: ballots of the electorate are counted in the
    order of arrival until one side reaches the majority. *)
Fixpoint tally (nodes : gset string) (acc rej : Z) (l : list Ballot) : option VoteResults :=
  match l with
  | [] => None
  | (src, r) :: l' =>
      if bool_decide (src ∉ nodes) then tally nodes acc rej l' else
      let acc := if decide (r = ACCEPTED) then acc + 1 else acc in
      let rej := if decide (r = ACCEPTED) then rej else rej + 1 in
      if majority_of (Z.of_nat (size nodes)) <=? acc then Some ACCEPTED
      else if majority_of (Z.of_nat (size nodes)) <=? rej then Some REJECTED
      else tally nodes acc rej l'
  end.

(** The ballots of the electorate for [r]. *)
Definition ballots_for (nodes : gset string) (r : VoteResults) (l : list Ballot) : list Ballot :=
  filter (fun b => b.1 ∈ nodes /\ b.2 = r) l.

Section Tally.
Implicit Type nodes : gset string.

Abbreviation count nodes r l := (Z.of_nat (length (ballots_for nodes r l))).

Lemma count_cons nodes r v q l :
  count nodes r ((v, q) :: l) =
    (if decide (v ∈ nodes) then if decide (q = r) then 1 else 0 else 0) + count nodes r l.
Proof.
  unfold ballots_for. rewrite filter_cons. simpl.
  destruct (decide (v ∈ nodes)) as [Hv|Hv], (decide (q = r)) as [Hq|Hq];
    [rewrite decide_True by done|rewrite decide_False by tauto..]; simpl; lia.
Qed.

Lemma ballots_split nodes l :
  count nodes ACCEPTED l + count nodes REJECTED l
  = Z.of_nat (length (filter (fun b => b.1 ∈ nodes) l)).
Proof.
  induction l as [|[v r] l IH]; [done|]. rewrite !count_cons, filter_cons. simpl.
  destruct (decide (v ∈ nodes)); [|lia].
  destruct r; repeat (rewrite decide_True by done || rewrite decide_False by done); simpl; lia.
Qed.

Lemma ballots_bound nodes l :
  NoDup l.*1 -> count nodes ACCEPTED l + count nodes REJECTED l <= Z.of_nat (size nodes).
Proof.
  intros Hl. rewrite ballots_split.
  set (f := filter (fun b => b.1 ∈ nodes) l).
  assert (NoDup f.*1) as Hf.
  { eapply sublist_NoDup; [exact Hl|]. apply fmap_sublist, sublist_filter. }
  assert (size (list_to_set (C := gset string) f.*1) <= size nodes)%nat as Hsz.
  { apply subseteq_size. intros v. rewrite elem_of_list_to_set, list_elem_of_fmap.
    by intros (b & -> & [? _]%list_elem_of_filter). }
  rewrite size_list_to_set, length_fmap in Hsz by done. lia.
Qed.

(** The tally from any undecided count. *)
Lemma tally_count nodes acc rej l r :
  let n := Z.of_nat (size nodes) in
  let m := majority_of n in
  acc < m -> rej < m ->
  acc + rej + count nodes ACCEPTED l + count nodes REJECTED l <= n ->
  tally nodes acc rej l = Some r <->
  m <= (if decide (r = ACCEPTED) then acc else rej) + count nodes r l.
Proof.
  intros n m. assert (n < 2 * m) as Hm by (by apply majority_of_strict).
  revert acc rej. induction l as [|[v q] l IH]; intros acc rej Ha Hr Hn.
  - simpl. split; [done|]. case_decide; lia.
  - rewrite !count_cons in *. cbn [tally]. fold n m.
    destruct (decide (v ∈ nodes)) as [Hv|Hv];
      [rewrite (bool_decide_eq_false_2 (v ∉ nodes)) by tauto
      |rewrite (bool_decide_eq_true_2 (v ∉ nodes)), Z.add_0_l by done; apply IH; lia].
    destruct q, r; simpl in *; repeat case_match; bool_to_prop;
      try (rewrite IH by lia; simpl; lia);
      (split; intros Hx; [try discriminate Hx; lia|try reflexivity; exfalso; lia]).
Qed.
End Tally.

Section Voting.
Context {G : Type} `{GroupApi G}.
Implicit Type s : GroupLead G.

Definition announced (pid : string) (r : VoteResults) : LeadOut :=
  SendMsg (header_only (announcement pid r)).

(** The votes on [pid] that reach the leader, each at its own time. *)
Fixpoint cast (pid : string) (l : list (Z * Ballot)) : LeadCmd G :=
  match l with
  | [] => skip
  | (now, (src, r)) :: l' =>
      OnVote now {| v_proposeId := pid; v_voteResult := r |} src ;; cast pid l'
  end.

(** The object of the proposal [pid] is [pd]. *)
Definition proposes s (pid : string) (pd : ProposeData) : Prop :=
  exists loc, m_proposeData s !! pid = Some loc /\ m_objects s !! loc = Some pd.

(** The outcome of a ballot for a live proposal. *)
Definition after_ballot (pid : string) (pd' : ProposeData) (out : list LeadOut) s' : Prop :=
  let m := proposal_majority pd' in
  if m <=? accepted pd' then
    out = [announced pid ACCEPTED] /\ m_proposeData s' !! pid = None
    /\ (isAction pd' = true -> m_actionData s' !! actionId pd' = None)
  else if m <=? rejected pd' then
    out = [announced pid REJECTED] /\ m_proposeData s' !! pid = None
    /\ (isAction pd' = true -> m_actionData s' !! actionId pd' = None)
  else out = [] /\ proposes s' pid pd'.

Lemma erase_action_out pd s : (erase_action pd s).2 = [].
Proof. unfold erase_action, read, when. by case_match. Qed.

Lemma erase_action_proposals pd s :
  m_proposeData (erase_action pd s).1 = m_proposeData s.
Proof. unfold erase_action, read, when. by case_match. Qed.

Lemma erase_action_gone pd s :
  isAction pd = true -> m_actionData (erase_action pd s).1 !! actionId pd = None.
Proof.
  intros Ha. unfold erase_action, read, when. rewrite Ha, andb_true_l.
  case_bool_decide as Hb; simpl; [apply lookup_delete_eq|by apply eq_None_not_Some].
Qed.

Lemma OnVote_absent now v src s :
  m_proposeData s !! v_proposeId v = None -> OnVote now v src s = (s, []).
Proof. intros Hp. unfold OnVote, read. by rewrite Hp. Qed.

Lemma OnVote_stranger now v src s pd :
  proposes s (v_proposeId v) pd -> IsTimeout now (proposeDeadline pd) = false ->
  src ∉ nodesInVote pd -> OnVote now v src s = (s, []).
Proof.
  intros (loc & Hp & Ho) Ht Hs. unfold OnVote, read at 1. rewrite Hp, Ho, Ht.
  by rewrite bool_decide_eq_true_2.
Qed.

(** A vote that arrives after the deadline of its proposal, whoever sent
    it, rejects and forgets the proposal (and the action it stands for). *)
Theorem OnVote_late now v src s pd :
  proposes s (v_proposeId v) pd -> IsTimeout now (proposeDeadline pd) = true ->
  (OnVote now v src s).2 = [announced (v_proposeId v) REJECTED]
  /\ m_proposeData (OnVote now v src s).1 = delete (v_proposeId v) (m_proposeData s)
  /\ (isAction pd = true -> m_actionData (OnVote now v src s).1 !! actionId pd = None).
Proof.
  intros (loc & Hp & Ho) Ht.
  assert (OnVote now v src s = (erase_action pd ;; erase_proposal (v_proposeId v) ;;
            AnnounceResult (v_proposeId v) REJECTED) s) as ->
    by (unfold OnVote, read at 1; by rewrite Hp, Ho, Ht).
  cbn [seq fst snd]. rewrite erase_action_out. simpl.
  rewrite erase_action_proposals. split_and!; [done..|]. apply erase_action_gone.
Qed.

Lemma OnVote_counts now v src s pd :
  proposes s (v_proposeId v) pd -> IsTimeout now (proposeDeadline pd) = false ->
  src ∈ nodesInVote pd ->
  after_ballot (v_proposeId v) (count_vote src (v_voteResult v) pd)
    (OnVote now v src s).2 (OnVote now v src s).1.
Proof.
  intros (loc & Hp & Ho) Ht Hs. set (pd' := count_vote src (v_voteResult v) pd).
  assert (OnVote now v src s = (store_object loc pd' ;;
      if proposal_majority pd' <=? accepted pd' then
        AnnounceResult (v_proposeId v) ACCEPTED ;; erase_action pd' ;;
        erase_proposal (v_proposeId v)
      else if proposal_majority pd' <=? rejected pd' then
        erase_action pd' ;; AnnounceResult (v_proposeId v) REJECTED ;;
        erase_proposal (v_proposeId v)
      else skip) s) as ->.
  { unfold OnVote, read at 1. rewrite Hp, Ho, Ht.
    by rewrite (bool_decide_eq_false_2 (src ∉ _)) by tauto. }
  clearbody pd'. unfold after_ballot. destruct (_ <=? accepted pd'); [|destruct (_ <=? rejected pd')]; cbn [seq fst snd];
    rewrite ?erase_action_out; simpl; rewrite ?erase_action_proposals.
  - split_and!; [done|apply lookup_delete_eq|apply erase_action_gone].
  - split_and!; [done|apply lookup_delete_eq|apply erase_action_gone].
  - split; [done|]. exists loc. split; [done|]. apply lookup_insert_eq.
Qed.

Lemma cast_absent pid l s : m_proposeData s !! pid = None -> cast pid l s = (s, []).
Proof.
  induction l as [|[now [src r]] l IH]; intros Hp; [done|]. simpl. unfold seq.
  rewrite OnVote_absent by done. simpl. by rewrite IH.
Qed.

Definition outcome (pid : string) (r : option VoteResults) : list LeadOut :=
  match r with Some r => [announced pid r] | None => [] end.

(** [OnVote] implements [tally]. *)
Lemma cast_implements pid l s pd :
  proposes s pid pd -> 0 <= accepted pd -> 0 <= rejected pd ->
  accepted pd + rejected pd + Z.of_nat (length l) < 2 ^ 16 ->
  (forall now b, (now, b) ∈ l -> IsTimeout now (proposeDeadline pd) = false) ->
  (cast pid l s).2 = outcome pid (tally (nodesInVote pd) (accepted pd) (rejected pd) l.*2).
Proof.
  revert s pd. induction l as [|[now [src r]] l IH]; intros s pd Hp Ha Hr Hb Ht; [done|].
  assert (IsTimeout now (proposeDeadline pd) = false) as Hnow by (eapply Ht; left).
  assert (forall n b, (n, b) ∈ l -> IsTimeout n (proposeDeadline pd) = false) as Htl
    by (intros n b Hin; eapply Ht; by right).
  cbn [cast fmap list_fmap snd tally length] in *. unfold seq. cbn [snd].
  set (v := {| v_proposeId := pid; v_voteResult := r |}).
  case_bool_decide as Hs.
  { rewrite (OnVote_stranger now v src s pd) by done. simpl. apply IH; [done..|lia|done]. }
  assert (src ∈ nodesInVote pd) as Hin by (destruct (decide (src ∈ nodesInVote pd)); tauto).
  pose proof (OnVote_counts now v src s pd Hp Hnow Hin) as Hc. revert Hc.
  destruct (OnVote now v src s) as [s' out]. cbn [fst snd]. unfold after_ballot.
  set (pd' := count_vote src (v_voteResult v) pd).
  assert (accepted pd' = if decide (r = ACCEPTED) then accepted pd + 1 else accepted pd) as Ea.
  { subst pd'. simpl. case_decide; [|done]. apply uwrap_succ_lt; lia. }
  assert (rejected pd' = if decide (r = ACCEPTED) then rejected pd else rejected pd + 1) as Er.
  { subst pd'. simpl. case_decide; [done|]. apply uwrap_succ_lt; lia. }
  assert (proposal_majority pd' = majority_of (Z.of_nat (size (nodesInVote pd)))) as Em by done.
  assert (nodesInVote pd' = nodesInVote pd /\ proposeDeadline pd' = proposeDeadline pd)
    as [En Ed] by done.
  rewrite Em, <- Ea, <- Er. clearbody pd'.
  destruct (_ <=? accepted pd'); [|destruct (_ <=? rejected pd')];
    [intros (-> & Hn & _)..|intros [-> Hp']].
  - by rewrite cast_absent.
  - by rewrite cast_absent.
  - rewrite app_nil_l, <- En. apply IH; rewrite ?Ed; try done;
      rewrite ?Ea, ?Er; case_decide; lia.
Qed.

(** C6. The outcome of a vote: when every member votes at most once and in
    time, the leader announces the result [r] for a fresh proposal exactly
    if a strict majority of the members it knew at the proposal voted [r];
    it announces at most one result. *)
Theorem majority_decides pid l s pd r :
  proposes s pid pd -> accepted pd = 0 -> rejected pd = 0 ->
  Z.of_nat (length l) < 2 ^ 16 -> NoDup l.*2.*1 ->
  (forall now b, (now, b) ∈ l -> IsTimeout now (proposeDeadline pd) = false) ->
  (announced pid r ∈ (cast pid l s).2 <->
    strict_majority (Z.of_nat (size (nodesInVote pd)))
      (Z.of_nat (length (ballots_for (nodesInVote pd) r l.*2))))
  /\ (length (cast pid l s).2 <= 1)%nat.
Proof.
  intros Hp Ha Hr Hb Hnd Ht.
  rewrite (cast_implements pid l s pd) by (done || lia). rewrite Ha, Hr.
  pose proof (ballots_bound (nodesInVote pd) l.*2 Hnd) as Hbd.
  assert (0 < majority_of (Z.of_nat (size (nodesInVote pd)))) as Hpos.
  { pose proof (proj1 (majority_of_strict (Z.of_nat (size (nodesInVote pd))) _) (Z.le_refl _)).
    unfold strict_majority in *. lia. }
  assert (tally (nodesInVote pd) 0 0 l.*2 = Some r <->
    majority_of (Z.of_nat (size (nodesInVote pd)))
      <= (if decide (r = ACCEPTED) then 0 else 0)
         + Z.of_nat (length (ballots_for (nodesInVote pd) r l.*2))) as Hc
    by (by apply tally_count).
  rewrite <- majority_of_strict. replace (if decide (r = ACCEPTED) then 0 else 0) with 0 in Hc
    by by case_decide. rewrite Z.add_0_l in Hc. rewrite <- Hc.
  destruct (tally _ _ _ _) as [r'|]; simpl; (split; [|lia]).
  - rewrite list_elem_of_singleton. split; [by intros [= ->]|by intros [= ->]].
  - split; [by intros ?%elem_of_nil|done].
Qed.
End Voting.

(** ** Proposals that run out of time *)

Section Expiry.
Context {G : Type} `{GroupApi G}.
Implicit Type s : GroupLead G.

(** One round of the loop of [Update]. *)
Lemma expire_round clk k pid order s :
  let dead := match m_proposeData s !! pid ≫= (m_objects s !!.) with
              | Some pd => IsTimeout (clk k) (proposeDeadline pd)
              | None => false
              end in
  let s' := if dead then set_proposeData (delete pid (m_proposeData s)) s else s in
  expire_proposals clk k (pid :: order) s =
    ((expire_proposals clk (S k) order s').1,
     (if dead then [announced pid REJECTED] else []) ++ (expire_proposals clk (S k) order s').2).
Proof.
  cbn [expire_proposals]. unfold seq at 1, read.
  destruct (_ ≫= _) as [pd|]; [|done]. by destruct (IsTimeout _ _).
Qed.

(** A loop that does not visit [pid] leaves it alone. *)
Lemma expire_other clk k order s pid :
  pid ∉ order ->
  m_proposeData (expire_proposals clk k order s).1 !! pid = m_proposeData s !! pid
  /\ announced pid REJECTED ∉ (expire_proposals clk k order s).2.
Proof.
  revert k s. induction order as [|q order IH]; intros k s; [set_solver|].
  intros [Hne Hnot]%not_elem_of_cons. rewrite expire_round. cbv zeta. cbn [fst snd].
  match goal with |- context [if ?b then set_proposeData _ _ else _] => destruct b end;
    match goal with |- context [expire_proposals clk (S k) order ?x] =>
      destruct (IH (S k) x Hnot) as [E1 E2]; rewrite E1 end; simpl.
  - rewrite lookup_delete_ne by done. split; [done|].
    intros [[= E]|Hin]%elem_of_cons; [done|by apply E2].
  - done.
Qed.

Lemma expire_visits clk k order s i pid pd :
  NoDup order -> order !! i = Some pid -> proposes s pid pd ->
  let r := expire_proposals clk k order s in
  if IsTimeout (clk (k + i)%nat) (proposeDeadline pd) then
    (announced pid REJECTED ∈ r.2 /\ m_proposeData r.1 !! pid = None)
  else ((announced pid REJECTED ∉ r.2) /\ m_proposeData r.1 !! pid = m_proposeData s !! pid).
Proof.
  intros Hnd Hi Hp r. subst r.
  revert k s i Hi Hp. induction order as [|q order IH]; intros k s i Hi Hp; [done|].
  apply NoDup_cons in Hnd as [Hq Hnd]. rewrite expire_round. cbv zeta. cbn [fst snd].
  destruct i as [|i]; simpl in Hi.
  - simplify_eq. destruct Hp as (loc & E1 & E2). rewrite E1; simpl. rewrite E2, Nat.add_0_r.
    destruct (IsTimeout _ _).
    + destruct (expire_other clk (S k) order (set_proposeData (delete pid (m_proposeData s)) s) pid Hq)
        as [-> _]. split; [left|]. apply lookup_delete_eq.
    + destruct (expire_other clk (S k) order s pid Hq) as [-> Ho]. by rewrite E1.
  - assert (pid <> q) as Hne by (intros ->; by apply Hq, list_elem_of_lookup_2 with i).
    rewrite <- Nat.add_succ_comm.
    match goal with |- context [if ?b then set_proposeData _ _ else _] => destruct b end.
    + set (s' := set_proposeData _ s).
      assert (m_proposeData s' !! pid = m_proposeData s !! pid) as Es
        by (simpl; by rewrite lookup_delete_ne).
      assert (proposes s' pid pd) as Hp' by (destruct Hp as (l & ? & ?); exists l; by rewrite Es).
      specialize (IH Hnd (S k) s' i Hi Hp'). rewrite Es in IH.
      assert (announced pid REJECTED <> announced q REJECTED) by (by intros [= ?]).
      destruct (IsTimeout _ _), IH as [IH1 IH2]; rewrite IH2; (split; [|done]);
        rewrite elem_of_app, list_elem_of_singleton; tauto.
    + exact (IH Hnd (S k) s i Hi Hp).
Qed.

(** Expiry: a leader between two heartbeats rejects and forgets exactly
    the proposals whose deadline has passed when the loop reaches them,
    whatever the iteration order of the hash map. *)
Theorem Update_expires clk order s i pid pd :
  m_currentState s = LEADER ->
  IsTimeout (clk 8%nat) (m_appEntryTimeout s) = false ->
  IsTimeout (clk 10%nat) (m_appEntryTimeout s) = false ->
  NoDup order -> order !! i = Some pid -> proposes s pid pd ->
  let r := Update clk order s in
  if IsTimeout (clk (11 + i)%nat) (proposeDeadline pd) then
    (announced pid REJECTED ∈ r.2 /\ m_proposeData r.1 !! pid = None)
  else ((announced pid REJECTED ∉ r.2) /\ m_proposeData r.1 !! pid = m_proposeData s !! pid).
Proof.
  intros Hst H8 H10 Hnd Hi Hp r.
  assert (r = expire_proposals clk 11 order s) as ->
    by (subst r; unfold Update, read; by rewrite Hst, H8, H10).
  by apply expire_visits.
Qed.

(** Only the leader takes proposals: a member that is not the leader it
    knows neither changes state nor sends anything for one. *)
Theorem only_leader_takes_proposals s t1 t2 t3 junk h body tsca :
  GetLeaderId s <> GetComponentId s ->
  OnProposeFromClient t1 t2 junk h body s = (s, [])
  /\ OnActionProposeFromClient t1 t2 t3 h tsca s = (s, []).
Proof.
  intros Hl. unfold OnProposeFromClient, OnActionProposeFromClient, read.
  by rewrite !bool_decide_eq_true_2.
Qed.

(** One vote at a time on an action: when the leader takes an action
    proposal, the proposal id and the action id lead to the same fresh
    object, the electorate is the set of components known then, the clients
    get the proposal, and until the deadline one second later a second
    proposal of that action changes nothing. *)
Theorem one_action_at_a_time s t1 t2 t3 h tsca :
  GetLeaderId s = GetComponentId s ->
  action_in_progress t1 s (ts_actionId tsca) = false ->
  let r := OnActionProposeFromClient t1 t2 t3 h tsca s in
  let aid := ts_actionId tsca in
  proposal_of r.1 (ptl_proposeId h) = action_of r.1 aid
  /\ (exists pd, proposal_of r.1 (ptl_proposeId h) = Some pd
        /\ nodesInVote pd = GetKnownComponents t2 (m_group s)
        /\ accepted pd = 0 /\ rejected pd = 0 /\ isAction pd = true /\ actionId pd = aid)
  /\ r.2 = [SendMsg (header_only (proposeToClients_msg s ACTION (ptl_proposeId h)
             (Some {| ts_actionId := aid; ts_time := ts_time tsca |})))]
  /\ forall now t2' t3' h' tsca', now <= t3 + 1000 * ticks milliseconds -> ts_actionId tsca' = aid ->
       OnActionProposeFromClient now t2' t3' h' tsca' r.1 = (r.1, []).
Proof.
  intros Hl Hp r aid.
  assert (r = (register_proposal (ptl_proposeId h) (Some aid)
      {| nodesInVote := GetKnownComponents t2 (m_group s); nodesVoted := ∅;
         proposeDeadline := Timeout_duration t3 1000 0; accepted := 0; rejected := 0;
         isAction := true; actionId := aid |} ;;
      SendInternal (proposeToClients_msg s ACTION (ptl_proposeId h)
         (Some {| ts_actionId := aid; ts_time := ts_time tsca |}))) s) as ->.
  { subst r. unfold OnActionProposeFromClient, read.
    by rewrite (bool_decide_eq_false_2 (_ <> _)), Hp by (intros X; by apply X). }
  unfold proposal_of, action_of. simpl. rewrite !lookup_insert_eq. simpl.
  rewrite !lookup_insert_eq. split_and!; [done|by eexists|done|].
  intros now t2' t3' h' tsca' Hnow Ha. unfold OnActionProposeFromClient, read.
  case_bool_decide; [done|]. cbv zeta. unfold action_in_progress, action_of. simpl.
  rewrite Ha, lookup_insert_eq. simpl. rewrite lookup_insert_eq.
  match goal with |- context [IsTimeout now ?t] =>
    assert (IsTimeout now t = false) as -> by (by apply IsTimeout_false) end.
  done.
Qed.

(** The election deadline is not re-armed: a follower that has just
    received a heartbeat starts an election all the same once the deadline
    set at its last transition has passed, because the overload of [Reset]
    that the handlers call does not move the end point. *)
Theorem heartbeat_does_not_postpone_election s now draw ae clk order :
  m_currentState s = FOLLOWER ->
  (forall i, m_endPoint (m_electionTimeout s) < clk i) ->
  m_currentState (Update clk order (UpdateMsg now draw (le_appendEntry ae) s).1).1 = CANDIDATE.
Proof.
  intros Hst Hclk.
  assert (exists s', (UpdateMsg now draw (le_appendEntry ae) s).1 = s'
    /\ m_currentState s' = FOLLOWER
    /\ m_endPoint (m_electionTimeout s') = m_endPoint (m_electionTimeout s))
    as (s' & -> & Hst' & He).
  { eexists. split; [done|]. unfold UpdateMsg, read. rewrite Hst. simpl.
    unfold on_appendEntry_follower. run_lead. by repeat case_match. }
  assert (forall i, IsTimeout (clk i) (m_electionTimeout s') = true) as Hto
    by (intros i; apply IsTimeout_true; by rewrite He).
  unfold Update, read at 1. rewrite Hst', !Hto. eval_tests.
  unfold become_candidate. run_lead.
  destruct (bool_decide _), (m_onLeaderChanged s'); simpl; by destruct (GetMemberCount _ _).
Qed.
End Expiry.

(** ** Concrete votes *)

Section ConcreteVotes.
(** A leader "l" that knows five components, and a proposal "p" taken at
    time 0 with a deadline one second later. *)
Definition five : gset string := list_to_set ["a"; "b"; "c"; "d"; "e"].
Definition leader5 : GroupLead StaticGroup :=
  set_leaderId "l" (set_currentState LEADER
    (new_GroupLead 0 0 200 {| sg_uuid := "l"; sg_known := five |})).
Definition to_leader (pid : string) : ProposeToLeader := {| ptl_proposeId := pid |}.
Definition tsc (aid : string) : TimeSyncCoordA :=
  {| ts_actionId := aid; ts_time := {| tvSec := 7; tvNsec := 0 |} |}.
Definition proposed : GroupLead StaticGroup :=
  (OnProposeFromClient 0 0 false (to_leader "p") None leader5).1.
Definition fresh_p : ProposeData := new_ProposeData five (Timeout_duration 0 1000 0) false.
Definition yes (v : string) : Z * Ballot := (5, (v, ACCEPTED)).
Definition no (v : string) : Z * Ballot := (5, (v, REJECTED)).

Lemma proposed_p : proposes proposed "p" fresh_p.
Proof. exists 0%nat. by vm_compute. Qed.

(** The set of those who voted is never looked at: one member of five
    that repeats its vote three times decides the proposal alone. *)
Theorem repeated_votes_decide :
  proposes proposed "p" fresh_p
  /\ size (nodesInVote fresh_p) = 5%nat
  /\ (cast "p" [yes "a"; yes "a"; yes "a"] proposed).2 = [announced "p" ACCEPTED].
Proof. split; [apply proposed_p|]. by vm_compute. Qed.

Lemma majority_decides_witness :
  announced "p" ACCEPTED ∈ (cast "p" [yes "a"; no "b"; yes "c"; yes "e"] proposed).2.
Proof.
  apply (majority_decides "p" [yes "a"; no "b"; yes "c"; yes "e"] proposed fresh_p ACCEPTED);
    [apply proposed_p|done|done|done| | |by vm_compute].
  - apply (bool_decide_unpack _). by vm_compute.
  - intros now b. unfold yes, no. rewrite !elem_of_cons. by intros [[= -> _]|[[= -> _]|[[= -> _]|[[= -> _]|[]%elem_of_nil]]]].
Defined.

Lemma OnVote_late_witness :
  (OnVote 2000000000 {| v_proposeId := "p"; v_voteResult := ACCEPTED |} "z" proposed).2
  = [announced "p" REJECTED].
Proof.
  apply (OnVote_late 2000000000 {| v_proposeId := "p"; v_voteResult := ACCEPTED |} "z"
           proposed fresh_p); [apply proposed_p|by vm_compute].
Defined.

Definition clk_expiry (i : nat) : Z := if (i <? 11)%nat then 5 else 2000000000.

Lemma Update_expires_witness :
  m_proposeData (Update clk_expiry ["p"] proposed).1 !! "p" = None.
Proof.
  assert (NoDup ["p"]) as Hnd by (apply (bool_decide_unpack _); by vm_compute).
  assert (IsTimeout (clk_expiry (11 + 0)) (proposeDeadline fresh_p) = true) as Et
    by by vm_compute.
  pose proof (Update_expires clk_expiry ["p"] proposed 0 "p" fresh_p
    ltac:(by vm_compute) ltac:(by vm_compute) ltac:(by vm_compute) Hnd eq_refl proposed_p) as E.
  cbv zeta in E. rewrite Et in E. exact (proj2 E).
Defined.

Lemma only_leader_takes_proposals_witness :
  OnProposeFromClient 0 0 false (to_leader "p") None (member "a" ["b"]).2
  = ((member "a" ["b"]).2, []).
Proof.
  apply (only_leader_takes_proposals (member "a" ["b"]).2 0 0 0 false (to_leader "p") None (tsc "x")).
  by vm_compute.
Defined.

Lemma one_action_at_a_time_witness :
  let r := OnActionProposeFromClient 0 0 0 (to_leader "p") (tsc "x") leader5 in
  OnActionProposeFromClient 900000000 900000000 900000000 (to_leader "q") (tsc "x") r.1 = (r.1, []).
Proof.
  apply (one_action_at_a_time leader5 0 0 0 (to_leader "p") (tsc "x")); by vm_compute.
Defined.

Lemma heartbeat_does_not_postpone_election_witness :
  m_currentState (Update late [] (UpdateMsg 900000000 400
    (le_appendEntry {| ae_sourceComponentId := "b"; ae_electionTerm := 1 |})
    (member "a" ["b"]).2).1).1 = CANDIDATE.
Proof. apply heartbeat_does_not_postpone_election; by vm_compute. Defined.
End ConcreteVotes.
