(* ===== verification/Ports.v ===== *)
(** Ports.v - the ports of a component over ZeroMQ
    ([include/componentmodel/ports], [src/componentmodel/ports],
    [include/componentmodel/r_configuration.h]).

    A multipart message is a list of frames.  The return code and the errno of
    a ZeroMQ call are arguments.  A time stamp travels as an IEEE double; the
    arithmetic is that of [SpecFloat], at 24 bits for [float], 53 for [double]. *)

From Stdlib Require Import ZArith Lia SpecFloat.
From stdpp Require Import base gmap strings list.
From S2P Require Import Prelude.
From S2P Require Import DistCoord.

(** ** Configuration *)

Record ComponentPortConfig := {
  port_name : string;
  message_type : string;
  is_local : bool;
  is_timed : bool;
}.

Record GroupTypeConf := {
  group_type_id : string;
  group_pubs : list ComponentPortConfig;
  group_subs : list ComponentPortConfig;
  has_leader : bool;
  has_consensus : bool;
}.

(** ** [PortError] *)

Record PortError := { success : bool; error_code : Z }.

Definition error (e : PortError) : bool := negb (success e).

(** The implicit conversion [operator bool]. *)
Definition to_bool (e : PortError) : bool := error e.

(** The result of [zmsg_send]: [None] is the return code 0. *)
Definition send_result (zerr : option Z) : PortError :=
  match zerr with
  | None => {| success := true; error_code := 0 |}
  | Some errno => {| success := false; error_code := errno |}
  end.

(** ** Floating point *)

Definition float_of_Z (z : Z) : spec_float := binary_normalize 24 128 z 0 false.
Definition double_of_Z (z : Z) : spec_float := binary_normalize 53 1024 z 0 false.

(** The widening of a [float] is exact. *)
Definition double_of_float (x : spec_float) : spec_float :=
  match x with
  | S754_finite s m e => binary_normalize 53 1024 (cond_Zopp s (Zpos m)) e s
  | _ => x
  end.

(** The conversion of a [double] to [long]: towards zero, undefined outside
    the range of [long]. *)
Definition long_of_double (x : spec_float) : Res Z :=
  match x with
  | S754_zero _ => Ok 0
  | S754_finite s m e =>
      let v := cond_Zopp s (if 0 <=? e then Zpos m * 2 ^ e else Zpos m / 2 ^ (- e)) in
      if bool_decide (in_s 64 v) then Ok v else UB
  | _ => UB
  end.

Definition billion : spec_float := double_of_Z 1000000000.

(** [(float)t.tv_sec + (((float)t.tv_nsec)/1000000000.0)] *)
Definition tdouble (t : TimeSpec) : spec_float :=
  SFadd 53 1024 (double_of_float (float_of_Z (tvSec t)))
    (SFdiv 53 1024 (double_of_float (float_of_Z (tvNsec t))) billion).

(** ** Sending and receiving *)

Inductive ZFrame :=
| Bytes (f : Frame)
| Double (d : spec_float)
| Int64 (z : Z)
| EmptyFrame.

(** [SenderPort::Send] of a message: the frames put on the wire, and the result. *)
Definition Send (config : ComponentPortConfig) (now : TimeSpec) (zerr : option Z)
    (message : list ZFrame) : list ZFrame * PortError :=
  ((if is_timed config then message ++ [Double (tdouble now)] else message), send_result zerr).

(** [SenderPort::Send] of an encoded message, and of a byte array *)
Definition Send_payload config now zerr (payload : Frame) : list ZFrame * PortError :=
  Send config now zerr [Bytes payload].

Record TimedPort := { sent_timestamp_ : TimeSpec; recv_timestamp_ : TimeSpec }.

Definition new_TimedPort : TimedPort :=
  {| sent_timestamp_ := {| tvSec := 0; tvNsec := 0 |};
     recv_timestamp_ := {| tvSec := 0; tvNsec := 0 |} |}.

(** [timespec] of a [double], the body of both [set_..._timestamp(double)]. *)
Definition timespec_of_double (d : spec_float) : Res TimeSpec :=
  sec ← long_of_double d;
  nsec ← long_of_double (SFmul 53 1024 (SFsub 53 1024 d (double_of_Z sec)) billion);
  Ok {| tvSec := sec; tvNsec := nsec |}.

Definition set_send_timestamp_ts (t : TimeSpec) (p : TimedPort) : TimedPort :=
  {| sent_timestamp_ := t; recv_timestamp_ := recv_timestamp_ p |}.
Definition set_recv_timestamp_ts (t : TimeSpec) (p : TimedPort) : TimedPort :=
  {| sent_timestamp_ := sent_timestamp_ p; recv_timestamp_ := t |}.
Definition set_send_timestamp (d : spec_float) (p : TimedPort) : Res TimedPort :=
  t ← timespec_of_double d; Ok (set_send_timestamp_ts t p).
Definition set_recv_timestamp (d : spec_float) (p : TimedPort) : Res TimedPort :=
  t ← timespec_of_double d; Ok (set_recv_timestamp_ts t p).

Section Recv.
(** Reading the first eight bytes of a frame that is no time stamp. *)
Variable as_double : ZFrame -> spec_float.

Definition frame_double (f : ZFrame) : spec_float :=
  match f with Double d => d | _ => as_double f end.

(** [RecvPort::Recv] of a message; frames after the time stamp are destroyed. *)
Definition Recv_msg (config : ComponentPortConfig) (now : TimeSpec) (msg : list ZFrame)
    (p : TimedPort) : Res (option ZFrame * PortError * TimedPort) :=
  match msg with
  | [] => Ok (None, {| success := false; error_code := 0 |}, p)
  | last_frame :: rest =>
      p ← (if is_timed config then
             p ← match rest with
                 | [] => Ok p
                 | frm_timestamp :: _ => set_send_timestamp (frame_double frm_timestamp) p
                 end;
             Ok (set_recv_timestamp_ts now p)
           else Ok p);
      Ok (Some last_frame, {| success := true; error_code := 0 |}, p)
  end.

(** [RecvPort::Recv()]: what [zmsg_recv] returned, or its errno. *)
Definition Recv (config : ComponentPortConfig) (now : TimeSpec)
    (received : list ZFrame + Z) (p : TimedPort) : Res (option ZFrame * PortError * TimedPort) :=
  match received with
  | inl msg => Recv_msg config now msg p
  | inr errno => Ok (None, {| success := false; error_code := errno |}, p)
  end.
End Recv.

(** ** Connecting *)

Definition tcp_endpoint (host : string) (port : Z) : string :=
  "tcp://" +:+ host +:+ ":" +:+ to_string port.

(** [SubscriberPortBase::ConnectToPublihser]: [certificate] tells whether the
    port has its certificate, [rc] is what [zsock_connect] returned; the
    endpoint that was connected to, and the result. *)
Definition ConnectToPublihser (has_security certificate : bool) (rc : Z) (endpoint : string)
    : option string * bool :=
  if has_security && negb certificate then (None, false)
  else if negb (rc =? 0) then (Some endpoint, false)
  else (Some endpoint, true).

(** [RequestPort::ConnectToResponse] and [QueryPort::ConnectToResponse]:
    [isConnected] is the member they set. *)
Definition ConnectToResponse (rc : Z) (isConnected : bool) : bool * bool :=
  if negb (rc =? 0) then (isConnected, false) else (true, true).

(** [GroupPublisherPort::GetGroupService]: the address of a bound port. *)
Definition group_address (host : string) (port : Z) : string := host +:+ ":" +:+ to_string port.

(** ** Theorems *)

Section Theorems.
Variable as_double : ZFrame -> spec_float.

(** Round trip: a payload that is sent on a port is what the receiving
    port of the same timing mode gets, without an error; on a timed port the
    sender's time stamp and the receiver's clock are stored, on an untimed
    one the time stamps are left alone. *)
Theorem send_recv config now1 now2 zerr payload p :
  Recv as_double config now2 (inl (Send_payload config now1 zerr payload).1) p =
    (p' ← (if is_timed config then
             p' ← set_send_timestamp (tdouble now1) p; Ok (set_recv_timestamp_ts now2 p')
           else Ok p);
     Ok (Some (Bytes payload), {| success := true; error_code := 0 |}, p')).
Proof. unfold Recv, Recv_msg, Send_payload, Send. by destruct (is_timed config). Qed.

(** The conversion of [PortError] to [bool] is true on failure: a caller
    that returns it as its own success flag inverts the answer. *)
Theorem send_to_bool config now zerr msg :
  to_bool (Send config now zerr msg).2 = true <-> exists errno, zerr = Some errno.
Proof. destruct zerr as [e|]; simpl; [split; [by exists e|done]|split; [done|by intros []]]. Qed.

(** The time stamp of a timed port does not tell the messages of two
    minutes apart: the seconds go through a 24-bit [float], so every message
    sent in these 127 seconds carries the same stamp, and the next one a
    stamp 63 seconds in its future. *)
Theorem timestamp_precision :
  let stamp sec := timespec_of_double (tdouble {| tvSec := sec; tvNsec := 500000000 |}) in
  Forall (fun k => stamp (1543449537 + Z.of_nat k)
                   = Ok {| tvSec := 1543449600; tvNsec := 500000000 |}) (List.seq 0 127)
  /\ stamp 1543449665 = Ok {| tvSec := 1543449728; tvNsec := 500000000 |}.
Proof. split; [apply (bool_decide_unpack _); by vm_compute|by vm_compute]. Qed.
End Theorems.
