(* ===== verification/Frames.v ===== *)
(** Frames.v - encoded messages in ZeroMQ frames, and who owns the frames: the
    conversions of [src/utils/r_utils.cc] and the readers of
    [include/componentmodel/r_messagereader.h].

    Cap'n Proto is not part of the code: [encode] and [decode] stand for
    [messageToFlatArray] and for reading the root of a flat array.  A reader does
    not copy the bytes: it looks at the memory of the frame. *)

From Stdlib Require Import ZArith Lia Ascii.
From stdpp Require Import base gmap strings list fin_maps fin_sets.
From S2P Require Import Prelude.
From S2P Require Import DistCoord.
From S2P Require Import Ports.

#[local] Open Scope riaps_scope.

(** ** Frames in memory *)

(** The frames that are allocated, with their bytes. *)
Record Mem := mkMem { mem_frames : gmap nat string; mem_next : nat }.

Definition zframe_new (data : string) (m : Mem) : nat * Mem :=
  (mem_next m, mkMem (<[mem_next m := data]> (mem_frames m)) (S (mem_next m))).

Definition zframe_destroy (f : nat) (m : Mem) : Mem := mkMem (delete f (mem_frames m)) (mem_next m).

(** [sizeof(capnp::word)] *)
Definition WORD : nat := 8.

Section Capnp.
Context {Msg : Type} (encode : Msg -> string) (decode : string -> option Msg).

(** [operator<<]: the pointer is overwritten, whatever it pointed to. *)
Definition into_zmsg (message : Msg) : list ZFrame := [Bytes (encode message)].
Definition into_zframe (message : Msg) (m : Mem) : nat * Mem := zframe_new (encode message) m.

(** A [FlatArrayMessageReader]: the frame whose memory it reads, and the number
    of words. *)
Record FlatReader := { fr_frame : nat; fr_words : nat }.

(** [operator>>] into a reader, in its four versions. *)
Definition from_zframe (frame : nat) (m : Mem) : Res FlatReader :=
  data ← deref (mem_frames m !! frame);
  Ok {| fr_frame := frame; fr_words := String.length data / WORD |}.

(** [getRoot] *)
Definition getRoot (r : FlatReader) (m : Mem) : Res (option Msg) :=
  data ← deref (mem_frames m !! fr_frame r);
  Ok (decode (str_take (WORD * fr_words r) data)).

(** ** Readers that own their frame *)

(** The [MessageReaderArray] objects with the frame of each, and the
    [MessageReader] objects, of which several share an array. *)
Record Readers := mkReaders {
  rd_mem : Mem;
  rd_arrays : gmap nat nat;
  rd_readers : gmap nat (nat * FlatReader);
  rd_next : nat;
}.

Definition no_readers : Readers := mkReaders (mkMem ∅ 0) ∅ ∅ 0.

Inductive ReaderOp :=
| Arrives (data : string)     (** a port receives a frame and returns its array *)
| Opens (array : nat)         (** [MessageReader(std::unique_ptr<MessageReaderArray>&)] *)
| Copies (reader : nat)
| Drops (reader : nat)
| DropsArray (array : nat).   (** the [unique_ptr] goes away without a reader *)

Definition shared (array : nat) (l : gmap nat (nat * FlatReader)) : Prop :=
  map_Exists (fun _ r => r.1 = array) l.
#[export] Instance shared_dec array l : Decision (shared array l).
Proof. unfold shared. apply _. Defined.

(** [~MessageReaderArray] destroys the frame. *)
Definition drop_array (array : nat) (s : Readers) : Res Readers :=
  frame ← deref (rd_arrays s !! array);
  Ok (mkReaders (zframe_destroy frame (rd_mem s)) (delete array (rd_arrays s)) (rd_readers s) (rd_next s)).

(** A [unique_ptr] that has been released is null: nothing is dropped with it,
    and opening it dereferences null. *)
Definition reader_step (op : ReaderOp) (s : Readers) : Res Readers :=
  match op with
  | Arrives data =>
      let '(frame, m) := zframe_new data (rd_mem s) in
      Ok (mkReaders m (<[rd_next s := frame]> (rd_arrays s)) (rd_readers s) (S (rd_next s)))
  | Opens array =>
      if decide (shared array (rd_readers s)) then UB
      else
        frame ← deref (rd_arrays s !! array);
        r ← from_zframe frame (rd_mem s);
        Ok (mkReaders (rd_mem s) (rd_arrays s) (<[rd_next s := (array, r)]> (rd_readers s)) (S (rd_next s)))
  | Copies reader =>
      r ← deref (rd_readers s !! reader);
      Ok (mkReaders (rd_mem s) (rd_arrays s) (<[rd_next s := r]> (rd_readers s)) (S (rd_next s)))
  | Drops reader =>
      r ← deref (rd_readers s !! reader);
      let s := mkReaders (rd_mem s) (rd_arrays s) (delete reader (rd_readers s)) (rd_next s) in
      if decide (shared r.1 (rd_readers s)) then Ok s else drop_array r.1 s
  | DropsArray array =>
      if decide (shared array (rd_readers s) \/ rd_arrays s !! array = None) then Ok s
      else drop_array array s
  end.

Fixpoint reader_run (ops : list ReaderOp) (s : Readers) : Res Readers :=
  match ops with [] => Ok s | op :: ops' => s' ← reader_step op s; reader_run ops' s' end.

(** [operator->]: the message that a reader shows. *)
Definition spec_reader (reader : nat) (s : Readers) : Res (option Msg) :=
  r ← deref (rd_readers s !! reader); getRoot r.2 (rd_mem s).
End Capnp.

(** [ConvertToBlob], of a string and of an array of [T]. *)
Fixpoint ConvertToBlob (data : string) : list Z :=
  match data with EmptyString => [] | String c s => Z.of_nat (nat_of_ascii c) :: ConvertToBlob s end.
Definition ConvertToBlob_array (data : list Z) (size : nat) : list Z := u8 <$> take size data.

(** ** Facts *)

Lemma ConvertToBlob_inj a b : ConvertToBlob a = ConvertToBlob b -> a = b.
Proof.
  revert b. induction a as [|c a IH]; intros [|d b]; simpl; [done..|]. intros [= H Hs].
  apply Nat2Z.inj in H. f_equal; [|by apply IH].
  rewrite <- (ascii_nat_embedding c), <- (ascii_nat_embedding d). congruence.
Qed.

Section Facts.
Context {Msg : Type} (encode : Msg -> string) (decode : string -> option Msg).

(** What Cap'n Proto promises: an encoded message is a whole number of words,
    and is decoded to the message. *)
Class CapnpLaws : Prop := {
  encode_words message : (String.length (encode message) mod WORD = 0)%nat;
  decode_encode message : decode (encode message) = Some message;
}.
Context {laws : CapnpLaws}.

Lemma words_encode message :
  str_take (WORD * (String.length (encode message) / WORD)) (encode message) = encode message.
Proof.
  apply str_take_all. pose proof (encode_words message) as H.
  pose proof (Nat.div_mod_eq (String.length (encode message)) WORD). lia.
Qed.

(** The ownership of frames. *)
Record readers_ok (s : Readers) : Prop := {
  ro_frame a f : rd_arrays s !! a = Some f -> is_Some (mem_frames (rd_mem s) !! f);
  ro_own a b f : rd_arrays s !! a = Some f -> rd_arrays s !! b = Some f -> a = b;
  ro_array r a x : rd_readers s !! r = Some (a, x) ->
    exists data, rd_arrays s !! a = Some (fr_frame x)
      /\ mem_frames (rd_mem s) !! fr_frame x = Some data /\ fr_words x = (String.length data / WORD)%nat;
  ro_mem f : is_Some (mem_frames (rd_mem s) !! f) -> (f < mem_next (rd_mem s))%nat;
  ro_next a : is_Some (rd_arrays s !! a) -> (a < rd_next s)%nat;
  ro_reader r : is_Some (rd_readers s !! r) -> (r < rd_next s)%nat;
}.

Lemma no_readers_ok : readers_ok no_readers.
Proof. split; intros *; simpl; rewrite ?lookup_empty; try done; by intros []. Qed.

Lemma drop_array_ok a s s' :
  readers_ok s -> ~ shared a (rd_readers s) -> drop_array a s = Ok s' ->
  readers_ok s' /\ rd_readers s' = rd_readers s
  /\ forall r b x, rd_readers s !! r = Some (b, x) ->
       mem_frames (rd_mem s') !! fr_frame x = mem_frames (rd_mem s) !! fr_frame x.
Proof.
  intros [H1 H2 H3 H4 H5 H6] Hns H. unfold drop_array in H. apply bind_Ok in H as (f & Hf%deref_Ok & [= <-]).
  assert (forall r b x, rd_readers s !! r = Some (b, x) -> b <> a /\ fr_frame x <> f) as Hother.
  { intros r b x Hr. assert (b <> a) as Hne by (intros ->; apply Hns; by exists r, (a, x)).
    split; [done|]. intros <-. destruct (H3 _ _ _ Hr) as (d & Hb & _). apply Hne. by eapply H2. }
  split_and!; [split; simpl| done |].
  - intros b g Hb. apply lookup_delete_Some in Hb as [Hne Hb]. rewrite lookup_delete_ne; [by eapply H1|].
    intros ->. apply Hne. by eapply H2.
  - intros b c g [_ Hb]%lookup_delete_Some [_ Hc]%lookup_delete_Some. by eapply H2.
  - intros r b x Hr. destruct (Hother _ _ _ Hr) as [Hb Hx]. rewrite !lookup_delete_ne by done. by eapply H3.
  - intros g [d [_ Hg]%lookup_delete_Some]. apply H4. by exists d.
  - intros b [g [_ Hg]%lookup_delete_Some]. apply H5. by exists g.
  - done.
  - intros r b x Hr. destruct (Hother _ _ _ Hr) as [_ Hx]. simpl. by rewrite lookup_delete_ne.
Qed.

(** A step keeps the ownership, and what the readers that remain show. *)
Definition keeps (s s' : Readers) : Prop :=
  forall r a x, rd_readers s !! r = Some (a, x) ->
    rd_readers s' !! r = Some (a, x)
      /\ mem_frames (rd_mem s') !! fr_frame x = mem_frames (rd_mem s) !! fr_frame x
    \/ rd_readers s' !! r = None.

Lemma arrives_ok data s s' :
  readers_ok s -> reader_step (Arrives data) s = Ok s' -> readers_ok s' /\ keeps s s'.
Proof.
  intros [H1 H2 H3 H4 H5 H6] [= <-].
  assert (mem_frames (rd_mem s) !! mem_next (rd_mem s) = None) as Hnew
    by (apply eq_None_not_Some; intros H%H4; lia).
  assert (rd_arrays s !! rd_next s = None) as Hna by (apply eq_None_not_Some; intros H%H5; lia).
  split; [split; simpl|].
  - intros a f [[<- <-]|[_ Ha]]%lookup_insert_Some; [by rewrite lookup_insert_eq|].
    destruct (H1 _ _ Ha) as [d Hd]. rewrite lookup_insert_ne by congruence. by exists d.
  - intros a b f [[<- <-]|[_ Ha]]%lookup_insert_Some [[<- E]|[_ Hb]]%lookup_insert_Some; [done| | |by eapply H2].
    + destruct (H1 _ _ Hb) as [d Hd]. congruence.
    + subst f. destruct (H1 _ _ Ha) as [d Hd]. congruence.
  - intros r a x Hr. destruct (H3 _ _ _ Hr) as (d & Ha & Hd & Hw). exists d.
    by rewrite !lookup_insert_ne by congruence.
  - intros f [d [[<- _]|[_ Hf]]%lookup_insert_Some]; [lia|]. apply Nat.lt_lt_succ_r, H4. by exists d.
  - intros a [d [[<- _]|[_ Hf]]%lookup_insert_Some]; [lia|]. apply Nat.lt_lt_succ_r, H5. by exists d.
  - intros r [d Hr]. apply Nat.lt_lt_succ_r, H6. by exists d.
  - intros r a x Hr. left. split; [done|]. destruct (H3 _ _ _ Hr) as (d & Ha & Hd & Hw). simpl.
    by rewrite lookup_insert_ne by congruence.
Qed.

(** A new reader of an array. *)
Lemma new_reader_ok a x s :
  readers_ok s ->
  (exists data, rd_arrays s !! a = Some (fr_frame x)
      /\ mem_frames (rd_mem s) !! fr_frame x = Some data /\ fr_words x = (String.length data / WORD)%nat) ->
  readers_ok (mkReaders (rd_mem s) (rd_arrays s) (<[rd_next s := (a, x)]> (rd_readers s)) (S (rd_next s))).
Proof.
  intros [H1 H2 H3 H4 H5 H6] Hx. split; simpl; try done.
  - intros r b y [[_ [= <- <-]]|[_ Hr]]%lookup_insert_Some; [done|by eapply H3].
  - intros b Hb%H5. lia.
  - intros r [y [[<- _]|[_ Hr]]%lookup_insert_Some]; [lia|]. apply Nat.lt_lt_succ_r, H6. by exists y.
Qed.

Lemma new_reader_keeps y s :
  readers_ok s ->
  keeps s (mkReaders (rd_mem s) (rd_arrays s) (<[rd_next s := y]> (rd_readers s)) (S (rd_next s))).
Proof.
  intros Hok r a x Hr. left. split; [|done]. simpl. rewrite lookup_insert_ne; [done|]. intros <-.
  assert (rd_next s < rd_next s)%nat; [|lia]. apply (ro_reader _ Hok). by exists (a, x).
Qed.

Lemma reader_step_ok op s s' :
  readers_ok s -> reader_step op s = Ok s' -> readers_ok s' /\ keeps s s'.
Proof.
  intros Hok H. destruct op as [data|a|r|r|a]; [by eapply arrives_ok| | | |]; simpl in H.
  - destruct (decide _) as [|Hns]; [done|].
    apply bind_Ok in H as (f & Hf%deref_Ok & H). apply bind_Ok in H as (x & Hx & [= <-]).
    unfold from_zframe in Hx. apply bind_Ok in Hx as (d & Hd%deref_Ok & [= <-]). split; [|by apply new_reader_keeps].
    apply new_reader_ok; [done|]. by exists d.
  - apply bind_Ok in H as ([a x] & Hr%deref_Ok & [= <-]). split; [|by apply new_reader_keeps].
    apply new_reader_ok; [done|]. by apply (ro_array _ Hok r).
  - apply bind_Ok in H as ([a x] & Hr%deref_Ok & H). simpl in H.
    set (s1 := mkReaders (rd_mem s) (rd_arrays s) (delete r (rd_readers s)) (rd_next s)) in *.
    assert (readers_ok s1) as Hok1.
    { destruct Hok as [H1 H2 H3 H4 H5 H6]. split; simpl; try done.
      - intros r' b y [_ Hr']%lookup_delete_Some. by eapply H3.
      - intros r' [y [_ Hr']%lookup_delete_Some]. apply H6. by exists y. }
    assert (forall r' b y, rd_readers s !! r' = Some (b, y) ->
      rd_readers s1 !! r' = Some (b, y) \/ rd_readers s1 !! r' = None) as Hrem.
    { intros r' b y Hr'. simpl. destruct (decide (r = r')) as [<-|]; [right; apply lookup_delete_eq|].
      left. by rewrite lookup_delete_ne. }
    destruct (decide _) as [|Hns];
      [injection H as <-; split; [done|intros r' b y Hr'; destruct (Hrem _ _ _ Hr'); first [by left|by right]]|].
    destruct (drop_array_ok _ _ _ Hok1 Hns H) as (Hok' & Hrd & Hk). split; [done|].
    intros r' b y Hr'. rewrite Hrd. destruct (Hrem _ _ _ Hr') as [E|E]; [left|by right].
    split; [done|]. by apply (Hk r' b).
  - destruct (decide _) as [|Hns]; [injection H as <-; split; [done|intros r b y Hr; by left]|].
    destruct (drop_array_ok _ _ _ Hok (fun Hs => Hns (or_introl Hs)) H) as (Hok' & Hrd & Hk). split; [done|].
    intros r b y Hr. left. rewrite Hrd. split; [done|]. by apply (Hk r b).
Qed.

Lemma reader_run_ok ops s s' : readers_ok s -> reader_run ops s = Ok s' -> readers_ok s'.
Proof.
  revert s. induction ops as [|op ops IH]; intros s Hok; [by intros [= <-]|]. simpl. intros H.
  apply bind_Ok in H as (s1 & H1 & H2). by eapply IH, H2; eapply reader_step_ok.
Qed.

(** ** Theorems *)

(** A frame that carries a message is read back as the message, by a reader
    opened on it while the frame exists; after the frame is destroyed the
    same reader dereferences freed memory. *)
Theorem frame_roundtrip message m :
  let '(frame, m') := into_zframe encode message m in
  exists r, from_zframe frame m' = Ok r /\ getRoot decode r m' = Ok (Some message)
    /\ getRoot decode r (zframe_destroy frame m') = UB.
Proof.
  unfold into_zframe, zframe_new, from_zframe, getRoot, zframe_destroy. cbn [mem_frames].
  rewrite lookup_insert_eq. eexists. split; [done|]. cbn [fr_frame fr_words].
  rewrite lookup_insert_eq, lookup_delete_eq. cbn [deref mbind Res_bind].
  by rewrite words_encode, decode_encode.
Qed.

(** C28. Readers own what they read: in whatever order frames arrive and
    readers are opened, copied and dropped, a reader shows a message as long
    as it is there, and always the same; and a reader of a frame that was
    sent shows what was sent. *)
Theorem readers_safe ops s op s' reader :
  reader_run ops no_readers = Ok s -> reader_step op s = Ok s' -> is_Some (rd_readers s !! reader) ->
  exists shown, spec_reader decode reader s = Ok shown
    /\ (is_Some (rd_readers s' !! reader) -> spec_reader decode reader s' = Ok shown)
    /\ forall a x message, rd_readers s !! reader = Some (a, x) ->
         mem_frames (rd_mem s) !! fr_frame x = Some (encode message) -> shown = Some message.
Proof.
  intros Hrun Hstep [[a x] Hr]. pose proof (reader_run_ok _ _ _ no_readers_ok Hrun) as Hok.
  destruct (reader_step_ok _ _ _ Hok Hstep) as [_ Hk].
  destruct (ro_array _ Hok _ _ _ Hr) as (data & _ & Hd & Hw).
  exists (decode (str_take (WORD * fr_words x) data)). unfold spec_reader, getRoot. rewrite Hr. cbn [deref mbind Res_bind snd].
  rewrite Hd. split_and!; [done| |].
  - destruct (Hk _ _ _ Hr) as [[-> Hm]| ->]; [|by intros []]. intros _. cbn [deref mbind Res_bind snd].
    by rewrite Hm, Hd.
  - intros b y message [= <- <-] Hd'. rewrite Hd in Hd'. injection Hd' as ->.
    by rewrite Hw, words_encode, decode_encode.
Qed.
End Facts.

(** ** Concrete runs: a message is a list of words *)

Definition demo_encode (words : list ascii) : string := foldr (fun c s => "1234567" +:+ String c s) "" words.
Fixpoint demo_decode_go (fuel : nat) (s : string) : option (list ascii) :=
  match fuel, s with
  | _, EmptyString => Some []
  | S fuel', _ =>
      match str_drop 7 s with String c s' => l ← demo_decode_go fuel' s'; Some (c :: l) | _ => None end
  | O, _ => None
  end.
Definition demo_decode (s : string) : option (list ascii) := demo_decode_go (String.length s) s.

#[export] Instance demo_capnp : CapnpLaws demo_encode demo_decode.
Proof.
  assert (forall l, String.length (demo_encode l) = (8 * length l)%nat) as Hlen.
  { induction l as [|c l IH]; [done|]. simpl. rewrite IH. lia. }
  split; intros l.
  - rewrite Hlen. unfold WORD. rewrite Nat.mul_comm. apply Nat.Div0.mod_mul.
  - assert (forall n, (8 * length l <= n)%nat -> demo_decode_go n (demo_encode l) = Some l) as Hgo.
    { induction l as [|c l IH]; intros n Hn; [by destruct n|]. simpl in Hn. destruct n as [|n]; [lia|].
      simpl. by rewrite IH by lia. }
    unfold demo_decode. rewrite Hlen. by apply Hgo.
Qed.

Lemma frame_roundtrip_witness :
  exists r, getRoot demo_decode r (into_zframe demo_encode ["a"; "b"]%char (mkMem ∅ 5)).2 = Ok (Some ["a"; "b"]%char).
Proof.
  pose proof (frame_roundtrip demo_encode demo_decode ["a"; "b"]%char (mkMem ∅ 5)) as H.
  destruct (into_zframe demo_encode ["a"; "b"]%char (mkMem ∅ 5)) as [f m]. destruct H as (r & _ & H & _).
  by exists r.
Defined.

Lemma readers_safe_witness :
  let ops := [Arrives (demo_encode ["x"%char]); Opens 0; Copies 1; Arrives "?"; Drops 1] in
  exists s, reader_run ops no_readers = Ok s /\ spec_reader demo_decode 2 s = Ok (Some ["x"%char])
    /\ reader_step (DropsArray 3) s <> UB.
Proof.
  intros ops. eexists. split; [by vm_compute|].
  assert (exists s', reader_step (DropsArray 3) match reader_run ops no_readers with Ok s => s | _ => no_readers end = Ok s')
    as [s' Hs'] by (eexists; by vm_compute).
  destruct (readers_safe demo_encode demo_decode ops
    match reader_run ops no_readers with Ok s => s | _ => no_readers end (DropsArray 3) s' 2) as (shown & H & _ & Hm);
    [by vm_compute|exact Hs'|by vm_compute; eexists|].
  split; [rewrite <- (Hm 0%nat {| fr_frame := 0%nat; fr_words := 1%nat |} ["x"%char]); [exact H|by vm_compute..]|].
  change (reader_step (DropsArray 3) match reader_run ops no_readers with Ok s => s | _ => no_readers end <> UB).
  by rewrite Hs'.
Defined.

(** A frame that ends within a word loses its last bytes; an array can be
    opened once. *)
Lemma frames_examples :
  (exists m, getRoot (Msg := string) Some {| fr_frame := 0; fr_words := 1 |} m = Ok (Some "12345678")
     /\ from_zframe 0 m = Ok {| fr_frame := 0; fr_words := 1 |} /\ mem_frames m !! 0%nat = Some "1234567890")
  /\ reader_run [Arrives "12345678"; Opens 0; Opens 0] no_readers = UB
  /\ reader_run [Arrives "12345678"; Opens 0; Drops 1; Opens 0] no_readers = UB
  /\ ConvertToBlob "a:1" = [97; 58; 49] /\ ConvertToBlob_array [97; 300; -1] 3 = [97; 44; 255].
Proof. split; [exists (mkMem {[0%nat := "1234567890"]} 1)|]; by vm_compute. Qed.
