(* ===== verification/Queries.v ===== *)
(** Queries.v - the query and answer ports
    ([src/componentmodel/ports/r_queryport.cc],
    [src/componentmodel/ports/r_answerport.cc],
    [src/componentmodel/r_payload.cc], and the reading of their messages in
    [src/componentmodel/r_componentbase.cc]).

    A query travels from a DEALER to a ROUTER socket, the answer back the same
    way.  The two sockets are ZeroMQ's: [Router] states what they do. *)

From Stdlib Require Import ZArith Lia Ascii.
From stdpp Require Import base gmap strings list.
From S2P Require Import Prelude.
From S2P Require Import DistCoord.
From S2P Require Import Ports.

(** ** The parameters of a message *)

Record MessageParams := {
  _originId : string;
  _requestId : string;
  _timestamp : Z;
  _hasTimestamp : bool;
}.

(** A text that is handed over as a C string ends at its first null byte. *)
Fixpoint c_string (s : string) : string :=
  match s with
  | EmptyString => EmptyString
  | String c s' => if decide (c = zero) then EmptyString else String c (c_string s')
  end.

Section Reading.
(** Reading a frame that was not sent as a text, or as an integer of 64 bits. *)
Variables (as_text : ZFrame -> string) (as_int64 : ZFrame -> Z).

Definition frame_text (f : ZFrame) : string :=
  c_string (match f with Bytes b => b | _ => as_text f end).

(** The size in bytes. *)
Definition frame_size (f : ZFrame) : Z :=
  match f with
  | Bytes b => Z.of_nat (String.length b)
  | Double _ | Int64 _ => 8
  | EmptyFrame => 0
  end.

(** [MessageParams::Init]: the time stamp is read as eight bytes whenever the
    frame is not empty. *)
Definition Init_params (originId : string) (requestId : option string) (timestamp : option ZFrame)
    : Res MessageParams :=
  requestId ← deref requestId;
  timestampFrame ← deref timestamp;
  if 0 <? frame_size timestampFrame then
    if frame_size timestampFrame <? 8 then UB
    else Ok {| _originId := originId; _requestId := requestId;
               _timestamp := match timestampFrame with Int64 z => z | f => as_int64 f end;
               _hasTimestamp := true |}
  else Ok {| _originId := originId; _requestId := requestId; _timestamp := -1; _hasTimestamp := false |}.

(** The constructor for an answer port, and the one for a query port. *)
Definition new_MessageParams (originId requestId : option string) (timestamp : option ZFrame)
    : Res MessageParams :=
  p ← Init_params "" requestId timestamp;
  originId ← deref originId;
  Ok {| _originId := originId; _requestId := _requestId p; _timestamp := _timestamp p;
        _hasTimestamp := _hasTimestamp p |}.

Definition new_MessageParams_query (requestId : option string) (timestamp : option ZFrame)
    : Res MessageParams :=
  Init_params "" requestId timestamp.

(** [zmsg_popstr] and [zmsg_pop]: null when no frame is left. *)
Definition pop_text (msg : list ZFrame) : option string * list ZFrame :=
  match msg with [] => (None, []) | f :: rest => (Some (frame_text f), rest) end.
Definition pop_frame (msg : list ZFrame) : option ZFrame * list ZFrame :=
  match msg with [] => (None, []) | f :: rest => (Some f, rest) end.

(** The component's thread reads a message of an answer port, [zsock_recv] with
    the picture ["ssff"], and one of a query port, with ["sff"]. *)
Definition recv_on_answer (msg : list ZFrame) : Res (MessageParams * option ZFrame) :=
  let '(originId, msg) := pop_text msg in
  let '(messageId, msg) := pop_text msg in
  let '(body, msg) := pop_frame msg in
  let '(timestamp, _) := pop_frame msg in
  params ← new_MessageParams originId messageId timestamp;
  Ok (params, body).

Definition recv_on_query (msg : list ZFrame) : Res (MessageParams * option ZFrame) :=
  let '(messageId, msg) := pop_text msg in
  let '(body, msg) := pop_frame msg in
  let '(timestamp, _) := pop_frame msg in
  params ← new_MessageParams_query messageId timestamp;
  Ok (params, body).
End Reading.

(** ** Sending *)

(** [QueryPort::SendQuery]: [msgId] is the generated id, [rc] what [zsock_send]
    returned; the result is the frames sent, the value left in [requestId] and
    the error object, built by [PortError(rc)]. *)
Definition SendQuery (clock msgId : _) (rc : Z) (addTimestamp : bool) (userFrame : Frame)
    (requestId : string) : list ZFrame * string * PortError :=
  ([Bytes msgId; Bytes userFrame; if addTimestamp then Int64 clock else EmptyFrame],
   (if rc =? 0 then msgId else requestId),
   {| success := negb (rc =? 0); error_code := 0 |}).

(** [AnswerPort::SendAnswer] *)
Definition SendAnswer (config : ComponentPortConfig) (now : TimeSpec) (clock : Z)
    (zerr : option Z) (params : MessageParams) (userFrame : Frame) : list ZFrame * PortError :=
  Send config now zerr
    [Bytes (_originId params); Bytes (_requestId params); Bytes userFrame;
     if _hasTimestamp params then Int64 clock else EmptyFrame].

(** ** The sockets *)

(** A ROUTER socket prefixes what it receives with the identity of the sender,
    and sends a message to the peer that its first frame names. *)
Class Router := {
  router_receives : string -> list ZFrame -> list ZFrame;
  router_sends : list ZFrame -> option (string * list ZFrame);
}.

Class RouterLaws `{Router} : Prop := {
  router_prefixes identity msg : router_receives identity msg = Bytes identity :: msg;
  router_routes identity msg : router_sends (Bytes identity :: msg) = Some (identity, msg);
}.

(** ** Facts *)

Section Correlation.
Context `{RouterLaws}.
Variables (as_text : ZFrame -> string) (as_int64 : ZFrame -> Z).

(** C31. An answer finds its question: the answer port reads of every query the
    identity of the querying socket and the id of the query; the answer that is
    sent with these parameters goes to that socket, and the parameters read
    there carry the id that [SendQuery] returned; the answer has a time stamp
    exactly if the query had one. *)
Theorem query_answer_roundtrip config now identity msgId clock clock' addTimestamp query answer old :
  c_string identity = identity -> c_string msgId = msgId ->
  let '(frames, requestId, _) := SendQuery clock msgId 0 addTimestamp query old in
  exists params reply params',
    recv_on_answer as_text as_int64 (router_receives identity frames) = Ok (params, Some (Bytes query))
    /\ (_hasTimestamp params, _timestamp params) = (addTimestamp, if addTimestamp then clock else -1)
    /\ router_sends (SendAnswer config now clock' None params answer).1 = Some (identity, reply)
    /\ recv_on_query as_text as_int64 reply = Ok (params', Some (Bytes answer))
    /\ _requestId params' = requestId
    /\ (_hasTimestamp params', _timestamp params') = (addTimestamp, if addTimestamp then clock' else -1).
Proof.
  intros Hi Hm. simpl. rewrite router_prefixes.
  set (params := {| _originId := identity; _requestId := msgId;
    _timestamp := if addTimestamp then clock else -1; _hasTimestamp := addTimestamp |}).
  exists params, (tail (SendAnswer config now clock' None params answer).1), {| _originId := ""; _requestId := msgId; _timestamp := if addTimestamp then clock' else -1;
                _hasTimestamp := addTimestamp |}.
  split; [|split; [done|split; [|split]]].
  - unfold recv_on_answer, new_MessageParams, Init_params. simpl. unfold frame_text. rewrite Hi, Hm. by destruct addTimestamp.
  - unfold SendAnswer, Send. simpl. destruct (is_timed config); apply router_routes.
  - unfold recv_on_query, new_MessageParams_query, Init_params, SendAnswer.
    unfold Send. simpl. destruct (is_timed config), addTimestamp; simpl; unfold frame_text; by rewrite Hm.
  - done.
Qed.
End Correlation.

(** A message with too few frames reaches a null pointer: whoever can send to
    an answer port can stop the component. *)
Theorem short_query_undefined as_text as_int64 msg :
  (length msg < 4)%nat -> recv_on_answer as_text as_int64 msg = UB.
Proof.
  intros Hl. destruct msg as [|a [|b [|c [|d msg]]]]; simpl in Hl; try lia; done.
Qed.

(** [SendQuery] reports success and failure the wrong way round: the
    request id is stored exactly when the returned object says error. *)
Theorem SendQuery_inverted clock msgId rc ts frame old :
  msgId <> old ->
  let '(_, requestId, e) := SendQuery clock msgId rc ts frame old in
  (error e = true <-> rc = 0) /\ (requestId = msgId <-> error e = true).
Proof.
  intros Hne. unfold SendQuery, error. simpl. rewrite negb_involutive, Z.eqb_eq.
  split; [done|]. destruct (rc =? 0) eqn:E; bool_to_prop; split; congruence.
Qed.

Lemma SendQuery_inverted_witness :
  let '(_, requestId, e) := SendQuery 0 "id" 0 false "query" "" in
  (error e = true <-> 0 = 0) /\ (requestId = "id" <-> error e = true).
Proof. by apply (SendQuery_inverted 0 "id" 0 false "query" ""). Defined.


(** ** Witnesses *)

#[export] Instance demo_router : Router := {
  router_receives identity msg := Bytes identity :: msg;
  router_sends msg :=
    match msg with Bytes identity :: rest => Some (identity, rest) | _ => None end;
}.
#[export] Instance demo_router_laws : RouterLaws.
Proof. by split. Qed.

Definition demo_answer_port : ComponentPortConfig :=
  {| port_name := "answer"; message_type := "Query#Value"; is_local := false; is_timed := false |}.

Lemma query_answer_roundtrip_witness :
  exists params reply,
    recv_on_answer (fun _ => "") (fun _ => 0) (router_receives "C0DE" (SendQuery 5 "A1" 0 true "ask" "").1.1)
      = Ok (params, Some (Bytes "ask"))
    /\ router_sends (SendAnswer demo_answer_port {| tvSec := 0; tvNsec := 0 |} 9 None params "tell").1
      = Some ("C0DE", reply).
Proof.
  destruct (query_answer_roundtrip (fun _ => "") (fun _ => 0) demo_answer_port {| tvSec := 0; tvNsec := 0 |}
    "C0DE" "A1" 5 9 true "ask" "tell" "" eq_refl eq_refl) as (params & reply & _ & H1 & _ & H2 & _).
  by exists params, reply.
Defined.

Lemma short_query_undefined_witness :
  recv_on_answer (fun _ => "") (fun _ => 0) [Bytes "C0DE"] = UB.
Proof. apply short_query_undefined. simpl. lia. Defined.
