(* ===== verification/Group.v ===== *)
(** Group.v - a component's membership in a group
    ([include/groups/r_group.h], [src/groups/r_group.cc]).

    The leader object and its group point at each other.  [GroupCore] is the
    part of the group that the leader object uses, and implements [GroupApi];
    a [Group] is the core with the optional leader object, and [call_leader]
    runs a command of the leader object on the group's own core. *)

From Stdlib Require Import ZArith Lia.
From stdpp Require Import base gmap strings list fin_maps fin_sets.
From S2P Require Import Prelude.
From S2P Require Import Timeout.
From S2P Require Import DistCoord.
From S2P Require Import GroupLead.
From S2P Require Import Election.
From S2P Require Import Cluster.
From S2P Require Import Ports.

Definition PING_BASE_PERIOD : Z := 10 * 1000.
Definition INTERNAL_SUB_NAME : string := "$SUB#".
Definition INTERNAL_PUB_NAME : string := "$PUB#".
Definition INTERNAL_MESSAGETYPE : string := "InternalGroupMessage".

Record GroupId := { gid_type : string; gid_name : string }.

#[export] Instance GroupId_eq_dec : EqDecision GroupId.
Proof. solve_decision. Defined.

(** [operator<] and [operator==] *)
Definition GroupId_lt (a b : GroupId) : bool :=
  if bool_decide (gid_type a = gid_type b) then String.ltb (gid_name a) (gid_name b)
  else String.ltb (gid_type a) (gid_type b).
Definition GroupId_eqb (a b : GroupId) : bool :=
  bool_decide (gid_type a = gid_type b) && bool_decide (gid_name a = gid_name b).

Record GroupService := { gs_message_type : string; gs_address : string }.

(** What goes out through a publisher socket. *)
Inductive WireMsg :=
| Internal (m : GroupMsg)
| User (f : Frame).

(** The effects of a group: messages sent ([stamped] on a timed port),
    subscriptions, the discovery request, and the callbacks of the component. *)
Inductive GroupOut :=
| PortSent (socket : Z) (m : WireMsg) (stamped : bool)
| Connected (socket : Z) (endpoint : string)
| JoinRequest (component : string) (gid : GroupId) (services : list GroupService)
| LeaderLog (newLeader : string)
| OnGroupMessage (gid : GroupId) (f : Frame)
| OnMessageToLeader (gid : GroupId) (f : Frame)
| OnPropose (gid : GroupId) (proposeId : string) (f : Frame)
| OnActionPropose (gid : GroupId) (proposeId actionId : string) (t : TimeSpec)
| OnAnnounce (gid : GroupId) (proposeId : string) (accepted : bool).

(** [dynamic_cast] tells publishers from subscribers. *)
Inductive GroupPort :=
| GroupPublisherPort (config : ComponentPortConfig) (address : string)
| GroupSubscriberPort (config : ComponentPortConfig).

Record GroupCore := mkCore {
  group_id_ : GroupId;
  component_uuid : string;
  group_type_conf_ : GroupTypeConf;
  group_ports_ : list (Z * GroupPort);
  group_pubport_ : option Z;
  group_subport_ : option Z;
  known_nodes_ : gmap string (Timeout milliseconds);
  ping_timeout_ : Timeout milliseconds;
}.

Definition set_known_nodes v g : GroupCore :=
  mkCore (group_id_ g) (component_uuid g) (group_type_conf_ g) (group_ports_ g)
    (group_pubport_ g) (group_subport_ g) v (ping_timeout_ g).
Definition set_ping_timeout v g : GroupCore :=
  mkCore (group_id_ g) (component_uuid g) (group_type_conf_ g) (group_ports_ g)
    (group_pubport_ g) (group_subport_ g) (known_nodes_ g) v.

(** ** Membership *)

Definition alive (now : Z) (e : string * Timeout milliseconds) : Prop :=
  IsTimeout now e.2 = false.
#[export] Instance alive_dec now e : Decision (alive now e).
Proof. unfold alive. apply _. Defined.

(** [DeleteTimeoutNodes]: the number of deleted records, and the rest. *)
Definition DeleteTimeoutNodes (now : Z) (g : GroupCore) : Z * GroupCore :=
  let kept := filter (alive now) (known_nodes_ g) in
  (u32 (Z.of_nat (size (known_nodes_ g) - size kept)), set_known_nodes kept g).

#[export] Instance GroupCore_api : GroupApi GroupCore := {
  ComponentUuid := component_uuid;
  GetMemberCount now g :=
    let '(_, g') := DeleteTimeoutNodes now g in (u16 (Z.of_nat (size (known_nodes_ g'))), g');
  GetKnownComponents now g := dom (filter (alive now) (known_nodes_ g));
}.

(** The heartbeat handler: [draw] comes from [timeout_distribution_]. *)
Definition note_heartbeat (now draw : Z) (src : string) (g : GroupCore) : GroupCore :=
  set_known_nodes
    (match known_nodes_ g !! src with
     | None => <[src := new_timeout now draw]> (known_nodes_ g)
     | Some t => <[src := Reset_int draw t]> (known_nodes_ g)
     end) g.

(** ** Sending

    The outcome [zerr] of the ZeroMQ call is an argument; the result of the
    code is the conversion of the [PortError] to [bool]. *)

(** The first publisher of that name in the order of the map. *)
Fixpoint find_pub (name : string) (ports : list (Z * GroupPort)) : option (Z * ComponentPortConfig) :=
  match ports with
  | [] => None
  | (sock, GroupPublisherPort config _) :: ports' =>
      if bool_decide (port_name config <> name) then find_pub name ports' else Some (sock, config)
  | (_, GroupSubscriberPort _) :: ports' => find_pub name ports'
  end.

(** [SendMessage] of a message that is already encoded. *)
Definition SendMessage_zmsg (zerr : option Z) (m : WireMsg) (portName : string) (g : GroupCore)
    : list GroupOut * bool :=
  match find_pub portName (group_ports_ g) with
  | Some (sock, config) => ([PortSent sock m (is_timed config)], to_bool (send_result zerr))
  | None => ([], false)
  end.

(** [SendMessage] of a message of the component. *)
Definition SendMessage (zerr : option Z) (message : Frame) (portName : string) (g : GroupCore)
    : list GroupOut * bool :=
  if bool_decide (portName <> "") then SendMessage_zmsg zerr (User message) portName g
  else SendMessage_zmsg zerr
    (Internal {| gmsg_header := groupMessage (Some {| gm_sourceComponentId := component_uuid g |});
                 gmsg_body := Some message |}) INTERNAL_PUB_NAME g.

Definition SendInternalMessage (zerr : option Z) (h : GroupInternals) (g : GroupCore)
    : list GroupOut * bool :=
  SendMessage_zmsg zerr (Internal (header_only h)) INTERNAL_PUB_NAME g.

(** [SendHeartBeat] sends through the member [group_pubport_]. *)
Definition SendHeartBeat (zerr : option Z) (type : HeartBeatType) (g : GroupCore)
    : Res (list GroupOut * bool) :=
  sock ← deref (group_pubport_ g);
  Ok ([PortSent sock (Internal (header_only (groupHeartBeat
         (Some {| hb_type := type; hb_sourceComponentId := component_uuid g |})))) false],
      to_bool (send_result zerr)).

Definition SendPing (now : Z) (zerr : option Z) (g : GroupCore) : Res (GroupCore * list GroupOut * bool) :=
  let g := set_ping_timeout (Reset now (ping_timeout_ g)) g in
  '(out, rc) ← SendHeartBeat zerr PING g; Ok (g, out, rc).

Definition SendPong (zerr : option Z) (g : GroupCore) : Res (list GroupOut * bool) :=
  SendHeartBeat zerr PONG g.

(** A known node whose deadline has passed. *)
Definition has_suspicious (now : Z) (g : GroupCore) : bool :=
  existsb (fun e => IsTimeout now e.2) (map_to_list (known_nodes_ g)).

Definition SendPingWithPeriod (now : Z) (zerr : option Z) (g : GroupCore)
    : Res (GroupCore * list GroupOut * bool) :=
  if bool_decide (size (known_nodes_ g) = 0%nat) && IsTimeout now (ping_timeout_ g) then
    SendPing now zerr (set_ping_timeout (Reset now (ping_timeout_ g)) g)
  else if has_suspicious now g && IsTimeout now (ping_timeout_ g) then
    SendPing now zerr (set_ping_timeout (Reset now (ping_timeout_ g)) g)
  else Ok (g, [], false).

Definition SendVote (zerr : option Z) (propose_id : string) (accept : bool) (g : GroupCore)
    : list GroupOut * bool :=
  SendInternalMessage zerr (consensus (Some
    {| cs_sourceComponentId := component_uuid g; cs_voteType := VALUE;
       cs_union := vote (Some {| v_proposeId := propose_id;
                                 v_voteResult := if accept then ACCEPTED else REJECTED |});
       cs_tsyncCoordA := None |})) g.

(** ** The group with its leader object *)

Record Group := mkGroup {
  core : GroupCore;
  group_leader_ : option (GroupLead GroupCore);
}.

Definition set_core v g : Group := mkGroup v (group_leader_ g).

Definition leader_id (g : Group) : string :=
  match group_leader_ g with
  | Some l => if has_leader (group_type_conf_ (core g)) then GetLeaderId l else ""
  | None => ""
  end.

(** What the effects of the leader object become: its messages go to the
    internal port, its callback only logs. *)
Definition leader_out (g : GroupCore) (o : LeadOut) : list GroupOut :=
  match o with
  | SendMsg m => (SendMessage_zmsg None (Internal m) INTERNAL_PUB_NAME g).1
  | LeaderChanged l => [LeaderLog l]
  end.

Definition call_leader (c : LeadCmd GroupCore) (g : Group) : Res (Group * list GroupOut) :=
  l ← deref (group_leader_ g);
  let r := c (set_group (core g) l) in
  Ok (mkGroup (m_group r.1) (Some r.1), concat (map (leader_out (core g)) r.2)).

(** [SendMessageToLeader] and [SendLeaderMessage] *)
Definition SendMessageToLeader (zerr : option Z) (message : Frame) (g : Group)
    : list GroupOut * bool :=
  if bool_decide (leader_id g = "") then ([], false) else
  SendMessage_zmsg zerr (Internal
    {| gmsg_header := messageToLeader (Some {| mtl_sourceComponentId := component_uuid (core g) |});
       gmsg_body := Some message |}) INTERNAL_PUB_NAME (core g).

Definition SendLeaderMessage (zerr : option Z) (message : Frame) (g : Group)
    : list GroupOut * bool :=
  if bool_decide (leader_id g <> component_uuid (core g)) then ([], false) else
  SendMessage_zmsg zerr (Internal
    {| gmsg_header := groupMessage (Some {| gm_sourceComponentId := component_uuid (core g) |});
       gmsg_body := Some message |}) INTERNAL_PUB_NAME (core g).

Definition propose_header (g : GroupCore) (ty : VoteType) (pid : string)
    (tsca : option TimeSyncCoordA) : GroupInternals :=
  consensus (Some
    {| cs_sourceComponentId := component_uuid g; cs_voteType := ty;
       cs_union := proposeToLeader (Some {| ptl_proposeId := pid |});
       cs_tsyncCoordA := tsca |}).

Definition ProposeValueToLeader (zerr : option Z) (message : Frame) (proposeId : string)
    (g : Group) : list GroupOut * bool :=
  if bool_decide (leader_id g = "") then ([], false) else
  SendMessage_zmsg zerr (Internal
    {| gmsg_header := propose_header (core g) VALUE proposeId None;
       gmsg_body := Some message |}) INTERNAL_PUB_NAME (core g).

(** The fields of the message are 32-bit integers. *)
Definition time_field (t : TimeSpec) : TimeSpec :=
  {| tvSec := i32 (tvSec t); tvNsec := i32 (tvNsec t) |}.

Definition ProposeActionToLeader (zerr : option Z) (proposeId actionId : string)
    (absTime : TimeSpec) (g : Group) : list GroupOut * bool :=
  if bool_decide (leader_id g = "") then ([], false) else
  SendMessage_zmsg zerr (Internal (header_only (propose_header (core g) ACTION proposeId
    (Some {| ts_actionId := actionId; ts_time := time_field absTime |})))) INTERNAL_PUB_NAME (core g).

(** ** Receiving *)

(** The readings of the clock and the random draws of one call. *)
Record Env := {
  e_now : Z;
  e_heartbeat_draw : Z;
  e_election_draw : Z;
  e_clk : nat -> Z;
  e_order : list string;
  e_junk : bool;
}.

(** A message of the internal port, as [zmsg_recv] returns it: the first frame
    read as a [GroupInternals] ([None] if there is no frame at all). *)
Record RawMsg := { rm_first : option GroupInternals; rm_rest : list Frame }.

#[export] Instance RawMsg_eq_dec : EqDecision RawMsg.
Proof. unfold EqDecision, Frame. solve_decision. Defined.

(** What [zpoller_wait] and [zmsg_recv] deliver. *)
Inductive Polled :=
| NoMessage
| Readable (which : Z) (msg : option RawMsg).

Fixpoint port_at (which : Z) (ports : list (Z * GroupPort)) : option GroupPort :=
  match ports with
  | [] => None
  | (sock, p) :: ports' => if sock =? which then Some p else port_at which ports'
  end.

Definition on_groupHeartBeat (e : Env) (hb : GroupHeartBeat) (g : Group) : Res (Group * list GroupOut) :=
  let c := note_heartbeat (e_now e) (e_heartbeat_draw e) (hb_sourceComponentId hb) (core g) in
  match hb_type hb with
  | PING => '(out, _) ← SendPong None c; Ok (set_core c g, out)
  | PONG => Ok (set_core c g, [])
  end.

Definition on_messageToLeader (rest : list Frame) (g : Group) : Res (Group * list GroupOut) :=
  if bool_decide (leader_id g <> component_uuid (core g)) then Ok (g, []) else
  match rest with
  | [] => Ok (g, [])
  | f :: _ => Ok (g, [OnMessageToLeader (group_id_ (core g)) f])
  end.

(** A consensus message at the leader: each [has...] tests the member of the
    union and its pointer. *)
Definition on_consensus_leader (e : Env) (m : Consensus) (rest : list Frame) (g : Group)
    : Res (Group * list GroupOut) :=
  match cs_union m with
  | proposeToLeader (Some p) =>
      match cs_voteType m with
      | VALUE => call_leader (OnProposeFromClient (e_clk e 1%nat) (e_clk e 2%nat) (e_junk e) p (head rest)) g
      | ACTION => call_leader (OnActionProposeFromClient (e_clk e 0%nat) (e_clk e 1%nat) (e_clk e 2%nat)
                                 p (getTsyncCoordA m)) g
      end
  | vote (Some v) => call_leader (OnVote (e_now e) v (cs_sourceComponentId m)) g
  | _ => Ok (g, [])
  end.

Definition on_consensus_member (m : Consensus) (rest : list Frame) (g : Group)
    : Res (Group * list GroupOut) :=
  match cs_union m with
  | proposeToClients (Some p) =>
      match cs_voteType m with
      | VALUE => f ← deref (head rest); Ok (g, [OnPropose (group_id_ (core g)) (ptc_proposeId p) f])
      | ACTION => Ok (g, [OnActionPropose (group_id_ (core g)) (ptc_proposeId p)
                            (ts_actionId (getTsyncCoordA m)) (ts_time (getTsyncCoordA m))])
      end
  | announce (Some a) =>
      Ok (g, [OnAnnounce (group_id_ (core g)) (an_proposeId a)
                (bool_decide (an_voteResult a = ACCEPTED))])
  | _ => Ok (g, [])
  end.

Definition on_internal (e : Env) (internal : GroupInternals) (rest : list Frame) (g : Group)
    : Res (Group * list GroupOut) :=
  match internal with
  | groupMessage (Some _) =>
      match rest with
      | [] => Ok (g, [])
      | f :: _ => Ok (g, [OnGroupMessage (group_id_ (core g)) f])
      end
  | groupHeartBeat (Some hb) => on_groupHeartBeat e hb g
  | leaderElection (Some m) => call_leader (UpdateMsg (e_now e) (e_election_draw e) m) g
  | messageToLeader (Some _) => on_messageToLeader rest g
  | consensus (Some m) =>
      if bool_decide (leader_id g = component_uuid (core g)) then on_consensus_leader e m rest g
      else on_consensus_member m rest g
  | _ => Ok (g, [])
  end.

Definition FetchNextMessage (e : Env) (p : Polled) (g : Group) : Res (Group * list GroupOut) :=
  match p with
  | NoMessage =>
      if has_leader (group_type_conf_ (core g)) then call_leader (Update (e_clk e) (e_order e)) g
      else Ok (g, [])
  | Readable which msg =>
      match port_at which (group_ports_ (core g)) with
      | Some (GroupSubscriberPort _) =>
          match msg with
          | None => Ok (g, [])
          | Some m =>
              internal ← deref (rm_first m);
              if bool_decide (group_subport_ (core g) = Some which) then
                on_internal e internal (rm_rest m) g
              else Ok (g, [])
          end
      | _ => Ok (g, [])
      end
  end.

(** ** Start-up and discovery updates *)

(** [std::map] keyed by the socket's address: insert in order, or overwrite. *)
Fixpoint port_insert (sock : Z) (p : GroupPort) (ports : list (Z * GroupPort)) : list (Z * GroupPort) :=
  match ports with
  | [] => [(sock, p)]
  | (k, q) :: ports' =>
      if sock <? k then (sock, p) :: ports
      else if sock =? k then (sock, p) :: ports'
      else (k, q) :: port_insert sock p ports'
  end.

Definition GetGroupService (p : GroupPort) : list GroupService :=
  match p with
  | GroupPublisherPort config address =>
      [{| gs_message_type := message_type config; gs_address := address |}]
  | GroupSubscriberPort _ => []
  end.

Definition internal_config (name : string) : ComponentPortConfig :=
  {| port_name := name; message_type := INTERNAL_MESSAGETYPE; is_local := false; is_timed := false |}.

Section Init.
(** The environment of [InitGroup]: the socket of the [i]-th port created,
    the address it is bound to, the answer of the discovery service, and the
    three readings of the leader object's constructor. *)
Variables (socket : nat -> Z) (address : nat -> string) (hasJoined : bool)
  (now1 now2 draw : Z).

Definition create_port (i : nat) (pub : bool) (config : ComponentPortConfig) : Z * GroupPort :=
  (socket i, if pub then GroupPublisherPort config (address i) else GroupSubscriberPort config).

Fixpoint create_ports (i : nat) (decls : list (bool * ComponentPortConfig)) : list (Z * GroupPort) :=
  match decls with
  | [] => []
  | (pub, config) :: decls' => create_port i pub config :: create_ports (S i) decls'
  end.

Definition created_ports (conf : GroupTypeConf) : list (Z * GroupPort) :=
  create_ports 0
    ((true, internal_config INTERNAL_PUB_NAME) :: (false, internal_config INTERNAL_SUB_NAME)
     :: map (pair true) (group_pubs conf) ++ map (pair false) (group_subs conf)).

(** The addresses of publishers created from the [i]-th port on. *)
Fixpoint pub_services (i : nat) (pubs : list ComponentPortConfig) : list GroupService :=
  match pubs with
  | [] => []
  | c :: pubs' =>
      {| gs_message_type := message_type c; gs_address := address i |} :: pub_services (S i) pubs'
  end.

Definition InitGroup (conf : option GroupTypeConf) (g : Group) : Group * list GroupOut * bool :=
  match conf with
  | None => (g, [], false)
  | Some conf =>
      let ports := created_ports conf in
      let services := concat (map (fun p => GetGroupService p.2) ports) in
      let c := core g in
      let c := mkCore (group_id_ c) (component_uuid c) conf
                 (foldl (fun m p => port_insert p.1 p.2 m) (group_ports_ c) ports)
                 (Some (socket 0%nat)) (Some (socket 1%nat)) (known_nodes_ c) (ping_timeout_ c) in
      let lead := if hasJoined && has_leader conf
                  then Some (SetOnLeaderChanged (new_GroupLead now1 now2 draw c)).1
                  else group_leader_ g in
      (mkGroup c lead, [JoinRequest (component_uuid c) (group_id_ c) services], hasJoined)
  end.
End Init.

(** [Group::Group]: [uninit] is the configuration before [InitGroup]. *)
Definition new_Group (now : Z) (uninit : GroupTypeConf) (gid : GroupId) (uuid : string) : Group :=
  mkGroup (mkCore gid uuid uninit [] None None ∅ (new_timeout now PING_BASE_PERIOD)) None.

(** [ConnectToNewServices]: a subscriber connects to every service of its
    message type; the calls' own results are ignored. *)
Definition ConnectToNewServices (services : list GroupService) (g : GroupCore) : list GroupOut :=
  s ← services;
  p ← group_ports_ g;
  match p.2 with
  | GroupSubscriberPort config =>
      if bool_decide (message_type config = gs_message_type s) then
        [Connected p.1 ("tcp://" +:+ gs_address s)]
      else []
  | GroupPublisherPort _ _ => []
  end.

(** ** The promises of [GroupApi] *)

#[export] Instance GroupCore_laws : GroupApiLaws GroupCore.
Proof.
  split.
  - intros now g. simpl. by rewrite size_dom.
  - done.
  - intros now g. simpl. f_equal. rewrite map_filter_filter.
    apply map_filter_ext. intros; tauto.
Qed.

(** ** The order of group identifiers *)

Section Order.
(** The order of group identifiers, used as keys of the component's map
    of groups, is a strict total order whose equivalence is [operator==], and
    [operator==] is equality. *)
Theorem GroupId_order a b c :
  GroupId_lt a a = false
  /\ (GroupId_lt a b = true -> GroupId_lt b c = true -> GroupId_lt a c = true)
  /\ (GroupId_lt a b = false /\ GroupId_lt b a = false <-> GroupId_eqb a b = true)
  /\ (GroupId_eqb a b = true <-> a = b).
Proof.
  destruct a as [ta na], b as [tb nb], c as [tc nc]. unfold GroupId_lt, GroupId_eqb; simpl.
  assert (forall x y, String.ltb x y = true -> x <> y) as Hne
    by (intros x y Hxy ->; by rewrite str_ltb_irrefl in Hxy).
  split_and!.
  - rewrite bool_decide_eq_true_2 by done. apply str_ltb_irrefl.
  - intros H1 H2. repeat case_bool_decide; subst; try done; eauto using str_ltb_trans.
    exfalso. pose proof (str_ltb_trans _ _ _ H1 H2) as X. by rewrite str_ltb_irrefl in X.
  - destruct (str_ltb_total ta tb) as [Ht|[->|Ht]], (str_ltb_total na nb) as [Hn|[->|Hn]];
      repeat case_bool_decide; subst; simpl; rewrite ?str_ltb_irrefl; clear Hne; intuition congruence.
  - rewrite andb_true_iff, !bool_decide_eq_true. split; [by intros [-> ->]|by intros [= -> ->]].
Qed.
End Order.

(** ** Members and heartbeats *)

Section Membership.
Implicit Type g : GroupCore.

Lemma known_iff now g v :
  v ∈ GetKnownComponents now g <->
  exists t, known_nodes_ g !! v = Some t /\ IsTimeout now t = false.
Proof.
  simpl. rewrite elem_of_dom. split.
  - intros [t [? ?]%map_lookup_filter_Some]. by exists t.
  - intros (t & ? & ?). exists t. by apply map_lookup_filter_Some.
Qed.

(** Membership: a component that is new to the group is known from its
    first heartbeat until the drawn time out has passed, and then no longer;
    the heartbeat of one component does not change whether another is known. *)
Theorem heartbeat_introduces now draw src g later v :
  known_nodes_ g !! src = None ->
  (src ∈ GetKnownComponents later (note_heartbeat now draw src g) <->
     later <= now + draw * ticks milliseconds)
  /\ (v <> src -> (v ∈ GetKnownComponents later (note_heartbeat now draw src g) <->
                   v ∈ GetKnownComponents later g)).
Proof.
  intros Hnew. unfold note_heartbeat. rewrite Hnew. rewrite !known_iff. simpl. split.
  - rewrite lookup_insert_eq. split.
    + intros (t & [= <-] & Ht%IsTimeout_false). exact Ht.
    + intros Hle. eexists. split; [done|]. by apply IsTimeout_false.
  - intros Hne. by rewrite lookup_insert_ne.
Qed.

(** A heartbeat does not prolong membership: for a component that is
    already known, nothing that the group asks about its members changes, so
    it times out at the deadline of its first heartbeat however many follow. *)
Theorem heartbeat_does_not_prolong now draw src g later :
  is_Some (known_nodes_ g !! src) ->
  GetKnownComponents later (note_heartbeat now draw src g) = GetKnownComponents later g
  /\ (GetMemberCount later (note_heartbeat now draw src g)).1 = (GetMemberCount later g).1.
Proof.
  intros [t Ht].
  assert (GetKnownComponents later (note_heartbeat now draw src g) = GetKnownComponents later g) as E.
  { apply set_eq. intros v. rewrite !known_iff. unfold note_heartbeat. rewrite Ht. simpl.
    destruct (decide (src = v)) as [<-|Hne]; [|by rewrite lookup_insert_ne].
    rewrite lookup_insert_eq, Ht. split; intros (t' & [= <-] & Hto); eexists; (split; [done|]); exact Hto. }
  split; [exact E|]. rewrite !member_count_known. by rewrite E.
Qed.

(** [DeleteTimeoutNodes] removes exactly the components that have timed
    out, and reports how many; afterwards every stored component is known. *)
Theorem DeleteTimeoutNodes_spec now g :
  Z.of_nat (size (known_nodes_ g)) < 2 ^ 32 ->
  let '(deleted, g') := DeleteTimeoutNodes now g in
  (forall v t, known_nodes_ g' !! v = Some t <->
     known_nodes_ g !! v = Some t /\ IsTimeout now t = false)
  /\ deleted + Z.of_nat (size (known_nodes_ g')) = Z.of_nat (size (known_nodes_ g))
  /\ dom (known_nodes_ g') = GetKnownComponents now g.
Proof.
  intros Hb. unfold DeleteTimeoutNodes. split_and!; simpl.
  - intros v t. apply map_lookup_filter_Some.
  - pose proof (map_subseteq_size _ _ (map_filter_subseteq (alive now) (known_nodes_ g))).
    rewrite uwrap_id; unfold in_u; lia.
  - done.
Qed.

Lemma has_suspicious_iff now g :
  has_suspicious now g = true <->
  exists v t, known_nodes_ g !! v = Some t /\ IsTimeout now t = true.
Proof.
  unfold has_suspicious. rewrite existsb_exists. split.
  - intros ([v t] & Hin & Ht). exists v, t. split; [|done].
    by apply elem_of_map_to_list, list_elem_of_In.
  - intros (v & t & Hv & Ht). exists (v, t). split; [|done].
    by apply list_elem_of_In, elem_of_map_to_list.
Qed.

(** Pings: the group pings exactly when its ping timer has run out and it
    knows nobody or suspects somebody; after a ping it stays silent for the
    whole period of the timer. *)
Theorem SendPingWithPeriod_spec now zerr g g' out rc :
  SendPingWithPeriod now zerr g = Ok (g', out, rc) ->
  (out <> [] <->
     IsTimeout now (ping_timeout_ g) = true /\
     (known_nodes_ g = ∅ \/ exists v t, known_nodes_ g !! v = Some t /\ IsTimeout now t = true))
  /\ (out <> [] -> forall later zerr', later <= now + m_timeout (ping_timeout_ g) * ticks milliseconds ->
      SendPingWithPeriod later zerr' g' = Ok (g', [], false)).
Proof.
  intros Hp. unfold SendPingWithPeriod in Hp.
  rewrite <- has_suspicious_iff, <- map_size_empty_iff.
  destruct (IsTimeout now (ping_timeout_ g)) eqn:Ht; [|rewrite !andb_false_r in Hp; simplify_eq; naive_solver].
  rewrite !andb_true_r in Hp.
  assert (forall later zerr', later <= now + m_timeout (ping_timeout_ g) * ticks milliseconds ->
    SendPing now zerr (set_ping_timeout (Reset now (ping_timeout_ g)) g) = Ok (g', out, rc) ->
    out <> [] /\ SendPingWithPeriod later zerr' g' = Ok (g', [], false)) as Hping.
  { intros later zerr' Hl. unfold SendPing, SendHeartBeat. simpl.
    destruct (group_pubport_ g); simpl; [|done]. intros [= <- <- <-]. split; [done|].
    unfold SendPingWithPeriod. simpl.
    rewrite (proj2 (IsTimeout_false _ _)) by exact Hl. by rewrite !andb_false_r. }
  assert (forall P : Prop, P -> SendPing now zerr (set_ping_timeout (Reset now (ping_timeout_ g)) g)
    = Ok (g', out, rc) -> (out <> [] <-> true = true /\ P) /\ (out <> [] -> forall later zerr',
      later <= now + m_timeout (ping_timeout_ g) * ticks milliseconds ->
      SendPingWithPeriod later zerr' g' = Ok (g', [], false))) as Hdone.
  { intros P HP Hs. split.
    - split; [done|]. intros _. apply (Hping (now + m_timeout (ping_timeout_ g) * ticks milliseconds) None); [lia|done].
    - intros _ later zerr' Hl. by apply Hping. }
  case_bool_decide; [apply (Hdone _ (or_introl H) Hp)|].
  destruct (has_suspicious now g) eqn:Hs; [apply Hdone; [by right|done]|].
  simplify_eq. split; [split; [done|]|done]. by intros [_ [?|?]].
Qed.
End Membership.

(** ** Sending and start-up *)

Section Ports.
Implicit Type g : GroupCore.

(** The socket [k] belongs to a publisher called [name]. *)
Definition publishes (ports : list (Z * GroupPort)) (k : Z) (name : string) : Prop :=
  exists config addr, (k, GroupPublisherPort config addr) ∈ ports /\ port_name config = name.

Lemma find_pub_Some name ports k config :
  find_pub name ports = Some (k, config) -> port_name config = name /\ publishes ports k name.
Proof.
  induction ports as [|[s [c a|c]] ports IH]; cbn [find_pub]; [done| |].
  - case_bool_decide as Hc.
    + intros (? & c' & a' & ? & ?)%IH. split; [done|]. exists c', a'. split; [by right|done].
    + intros [= <- <-]. split; [done|]. exists c, a. split; [left|done].
  - intros (? & c' & a' & ? & ?)%IH. split; [done|]. exists c', a'. split; [by right|done].
Qed.

Lemma find_pub_None name ports :
  find_pub name ports = None <-> forall k, ~ publishes ports k name.
Proof.
  induction ports as [|[s [c a|c]] ports IH]; cbn [find_pub].
  - split; [|done]. by intros _ k (? & ? & ?%elem_of_nil & _).
  - case_bool_decide as Hc; [rewrite IH|]; split.
    + intros Hn k (c' & a' & [[= -> -> ->]|Hin]%elem_of_cons & Hname); [done|].
      eapply Hn. by exists c', a'.
    + intros Hn k (c' & a' & Hin & Hname). eapply Hn. exists c', a'. split; [by right|done].
    + done.
    + intros Hn. exfalso. eapply Hn. exists c, a. split; [left|done].
  - rewrite IH. split.
    + intros Hn k (c' & a' & [[=]|Hin]%elem_of_cons & Hname). eapply Hn. by exists c', a'.
    + intros Hn k (c' & a' & Hin & Hname). eapply Hn. exists c', a'. split; [by right|done].
Qed.

(** Sending on a named port: the message leaves through one publisher of
    that name and on no other socket; nothing leaves if there is none.  The
    answer [true] means that the port exists and ZeroMQ failed. *)
Theorem SendMessage_spec zerr f name g :
  name <> "" ->
  let '(out, rc) := SendMessage zerr f name g in
  (out = [] /\ rc = false /\ (forall k, ~ publishes (group_ports_ g) k name)
   \/ exists k timed, out = [PortSent k (User f) timed] /\ publishes (group_ports_ g) k name)
  /\ (rc = true <-> out <> [] /\ zerr <> None).
Proof.
  intros Hn. unfold SendMessage, SendMessage_zmsg. rewrite bool_decide_eq_true_2 by done.
  destruct (find_pub name (group_ports_ g)) as [[k c]|] eqn:E.
  - apply find_pub_Some in E as [_ Hp]. split; [right; by exists k, (is_timed c)|].
    destruct zerr; simpl; naive_solver.
  - split; [left|naive_solver]. split_and!; [done..|]. by apply find_pub_None.
Qed.

Lemma port_insert_perm k p ports :
  k ∉ ports.*1 -> port_insert k p ports ≡ₚ (k, p) :: ports.
Proof.
  induction ports as [|[j q] ports IH]; simpl; [done|].
  intros [Hne Hnot]%not_elem_of_cons. case_match; [done|]. case_match; bool_to_prop; [done|].
  rewrite IH by done. constructor.
Qed.

Lemma port_inserts_perm new old :
  NoDup new.*1 -> (forall k, k ∈ new.*1 -> k ∉ old.*1) ->
  foldl (fun m p => port_insert p.1 p.2 m) old new ≡ₚ new ++ old.
Proof.
  revert old. induction new as [|[k p] new IH]; intros old; simpl; [done|].
  intros [Hk Hnd]%NoDup_cons Hfresh.
  assert (port_insert k p old ≡ₚ (k, p) :: old) as Hp
    by (apply port_insert_perm, Hfresh; left).
  rewrite IH; [by rewrite Hp, Permutation_middle|done|].
  intros j Hj. rewrite Hp. simpl. apply not_elem_of_cons. split; [by intros ->|].
  apply Hfresh. by right.
Qed.

Lemma services_of_ports socket address i pubs subs :
  concat (map (fun p => GetGroupService p.2)
    (create_ports socket address i (map (pair true) pubs ++ map (pair false) subs)))
  = pub_services address i pubs.
Proof.
  revert i. induction pubs as [|c pubs IH]; intros i; simpl; [|by rewrite IH].
  revert i. by induction subs as [|c subs IH]; intros i; simpl.
Qed.

(** Start-up: when the sockets are distinct, the group ends up with one
    port for each declaration of its type and the two internal ones, and asks
    the discovery service to register the addresses of exactly the
    publishers, the internal one first; it has a leader object, a follower
    of this very group, if the type asks for one and the registration went
    through. *)
Theorem InitGroup_spec socket address joined now1 now2 draw conf (g : Group) :
  group_ports_ (core g) = [] -> NoDup (created_ports socket address conf).*1 ->
  let '(g', out, rc) := InitGroup socket address joined now1 now2 draw (Some conf) g in
  group_ports_ (core g') ≡ₚ created_ports socket address conf
  /\ rc = joined
  /\ out = [JoinRequest (component_uuid (core g)) (group_id_ (core g))
        ({| gs_message_type := INTERNAL_MESSAGETYPE; gs_address := address 0%nat |}
         :: pub_services address 2 (group_pubs conf))]
  /\ (if joined && has_leader conf then
        exists l, group_leader_ g' = Some l /\ m_currentState l = FOLLOWER /\ m_group l = core g'
      else group_leader_ g' = group_leader_ g).
Proof.
  intros Hnone Hnd. unfold InitGroup. rewrite Hnone. split_and!.
  - cbn [core group_ports_]. rewrite <- (app_nil_r (created_ports socket address conf)) at 2.
    apply port_inserts_perm; [done|]. intros k _. apply not_elem_of_nil.
  - done.
  - do 2 f_equal. unfold created_ports. simpl. by rewrite services_of_ports.
  - simpl. destruct (joined && has_leader conf); [|done]. eexists. split; [done|]. by split.
Qed.

(** Joining members connect: on a group update, the group connects each
    of its subscribers to exactly the services of the subscriber's message
    type, over TCP. *)
Theorem ConnectToNewServices_spec services g k ep :
  Connected k ep ∈ ConnectToNewServices services g <->
  exists s config, s ∈ services /\ (k, GroupSubscriberPort config) ∈ group_ports_ g
    /\ message_type config = gs_message_type s /\ ep = "tcp://" +:+ gs_address s.
Proof.
  unfold ConnectToNewServices. rewrite list_elem_of_bind. split.
  - intros (s & Hb & Hs). apply list_elem_of_bind in Hb as ([j [c a|c]] & Hin & Hp);
      simpl in *; [by apply elem_of_nil in Hin|]. revert Hin. case_bool_decide; [|set_solver].
    intros [= -> ->]%list_elem_of_singleton. by exists s, c.
  - intros (s & c & Hs & Hp & Hm & ->). exists s. split; [|done].
    apply list_elem_of_bind. exists (k, GroupSubscriberPort c). split; [|done]. simpl.
    rewrite bool_decide_eq_true_2 by done. by apply list_elem_of_singleton.
Qed.
End Ports.

(** ** Dispatch *)

Section Dispatch.
Implicit Type g : Group.

Lemma call_leader_Some c g l :
  group_leader_ g = Some l ->
  call_leader c g = Ok (let r := c (set_group (core g) l) in
    (mkGroup (m_group r.1) (Some r.1), concat (map (leader_out (core g)) r.2))).
Proof. intros Hl. unfold call_leader. by rewrite Hl. Qed.

(** The leader object handles [i] for the group. *)
Definition leader_step (i : Input GroupCore) g l g' out : Prop :=
  let r := handle i (set_group (core g) l) in
  g' = mkGroup (m_group r.1) (Some r.1) /\ out = concat (map (leader_out (core g)) r.2).

(** The election message that an effect puts on the wire. *)
Definition election_sent (o : GroupOut) : option LeaderElection :=
  match o with
  | PortSent _ (Internal {| gmsg_header := leaderElection (Some m) |}) _ => Some m
  | _ => None
  end.

Lemma leader_out_sent (c : GroupCore) outs m :
  m ∈ omap election_sent (concat (map (leader_out c) outs)) -> m ∈ election_msgs outs.
Proof.
  induction outs as [|o outs IH]; simpl; [done|]. rewrite omap_app. intros [H|H%IH]%elem_of_app.
  - destruct o as [[h body]|l]; simpl in H; [|by apply elem_of_nil in H].
    unfold SendMessage_zmsg in H. destruct (find_pub _ _) as [[k cfg]|]; simpl in *;
      [|by apply elem_of_nil in H].
    destruct h as [[|]|[|]|[x|]|[|]|[|]|[|]]; simpl in *; try (by apply elem_of_nil in H).
    apply list_elem_of_singleton in H as ->. left.
  - destruct (election_msg o); [by right|done].
Qed.

(** An effect that puts no internal message but a heartbeat on the wire. *)
Definition heartbeat_only (o : GroupOut) : Prop :=
  match o with
  | PortSent _ (Internal {| gmsg_header := groupHeartBeat _ |}) _ => True
  | PortSent _ (Internal _) _ => False
  | _ => True
  end.

(** The consensus messages that a leader's object handles. *)
Definition consensus_input {G} (i : Input G) (m : Consensus) (rest : list Frame) : Prop :=
  match i with
  | ClientProposes _ _ _ q body =>
      cs_union m = proposeToLeader (Some q) /\ cs_voteType m = VALUE /\ body = head rest
  | ClientProposesAction _ _ _ q tsca =>
      cs_union m = proposeToLeader (Some q) /\ cs_voteType m = ACTION /\ tsca = getTsyncCoordA m
  | ClientVotes _ v src => cs_union m = vote (Some v) /\ cs_sourceComponentId m = src
  | _ => False
  end.

#[local] Ltac stays H := by eapply H; [eassumption|done|repeat constructor].

(** The dispatch, by what happens to the leader object: either it is left
    alone, or it handles one input, which is an election message only if that
    message was received on the internal port. *)
Lemma fetch_cases e p g g' out :
  FetchNextMessage e p g = Ok (g', out) ->
  (exists c, g' = set_core c g /\ component_uuid c = component_uuid (core g)
     /\ omap election_sent out = [] /\ Forall heartbeat_only out)
  \/ exists l i, group_leader_ g = Some l /\ leader_step i g l g' out
     /\ (forall c : GroupCore, i <> GroupMoves c)
     /\ (forall now draw m, i = Receive now draw m ->
          exists which rest, group_subport_ (core g) = Some which /\ p = Readable which
            (Some {| rm_first := Some (leaderElection (Some m)); rm_rest := rest |}))
     /\ match i with
        | Idle _ _ | Receive _ _ _ | GroupMoves _ => True
        | _ => exists which m rest, group_subport_ (core g) = Some which /\ p = Readable which
                 (Some {| rm_first := Some (consensus (Some m)); rm_rest := rest |})
                 /\ consensus_input i m rest
        end.
Proof.
  intros Hf.
  assert (forall o, Ok (g, o) = Ok (g', out) -> omap election_sent o = [] -> Forall heartbeat_only o ->
    exists c, g' = set_core c g /\ component_uuid c = component_uuid (core g)
      /\ omap election_sent out = [] /\ Forall heartbeat_only out) as Hstay.
  { intros o [= <- <-] Ho. exists (core g). by destruct g. }
  assert (forall i, call_leader (handle i) g = Ok (g', out) ->
    exists l, group_leader_ g = Some l /\ leader_step i g l g' out) as Hcall.
  { intros i Hc. unfold call_leader in Hc. destruct (group_leader_ g) as [l|] eqn:Hl; [|done].
    exists l. simpl in Hc. simplify_eq. by repeat split. }
  unfold FetchNextMessage in Hf. destruct p as [|which msg].
  { destruct (has_leader _); [|left; stays Hstay].
    destruct (Hcall (Idle (e_clk e) (e_order e)) Hf) as (l & ? & ?). right. exists l. by eexists. }
  destruct (port_at _ _) as [[|]|]; [left; stays Hstay| |left; stays Hstay].
  destruct msg as [[[internal|] rest]|]; simpl in Hf; [|done|left; stays Hstay].
  case_bool_decide as Hsub; [|left; stays Hstay].
  destruct internal as [[hb|]|[m|]|[m|]|[m|]|[m|]|[m|]]; simpl in Hf;
    try (left; stays Hstay).
  - left. unfold on_groupHeartBeat, SendPong, SendHeartBeat in Hf. simpl in Hf. eexists.
    destruct (hb_type hb), (group_pubport_ (core g)); simpl in Hf; simplify_eq;
      (split_and!; [done..|repeat constructor]).
  - destruct (Hcall (Receive (e_now e) (e_election_draw e) m) Hf) as (l & ? & ?).
    right. exists l. eexists. split_and!; [done..| |done]. intros now draw m' [= <- <- <-]. eauto.
  - left. unfold on_messageToLeader in Hf. case_bool_decide; [stays Hstay|].
    destruct rest; stays Hstay.
  - case_bool_decide; [|left].
    + unfold on_consensus_leader in Hf.
      destruct (cs_union m) as [[q|]|[q|]|[q|]|[q|]] eqn:Eu; try (left; stays Hstay);
        [destruct (cs_voteType m) eqn:Et|];
        [destruct (Hcall (ClientProposes (e_clk e 1%nat) (e_clk e 2%nat) (e_junk e) q (head rest)) Hf)
           as (l & ? & ?)
        |destruct (Hcall (ClientProposesAction (e_clk e 0%nat) (e_clk e 1%nat) (e_clk e 2%nat) q
           (getTsyncCoordA m)) Hf) as (l & ? & ?)
        |destruct (Hcall (ClientVotes (e_now e) q (cs_sourceComponentId m)) Hf) as (l & ? & ?)];
        (right; exists l; eexists; split_and!; [done..|exists which, m, rest; by split_and!]).
    + unfold on_consensus_member in Hf.
      destruct (cs_union m) as [[q|]|[q|]|[q|]|[q|]]; try (stays Hstay).
      destruct (cs_voteType m); [|stays Hstay].
      destruct (head rest); simpl in Hf; [stays Hstay|done].
  - left. destruct rest; stays Hstay.
Qed.

(** The dispatch of a group: one call of [FetchNextMessage] either leaves
    the leader object alone or is one input of a member of [Cluster.v],
    handled on the group as it is then; an election message is handled only
    if it is the one that was received; the component stays the same.  So the
    theorems on clusters are theorems on groups that exchange messages. *)
Theorem FetchNextMessage_input e p g l g' out :
  group_leader_ g = Some l -> FetchNextMessage e p g = Ok (g', out) ->
  component_uuid (core g') = component_uuid (core g)
  /\ (group_leader_ g' = Some l \/
      exists i, leader_step i g l g' out /\
        forall now draw m, i = Receive now draw m ->
          exists which rest, p = Readable which
            (Some {| rm_first := Some (leaderElection (Some m)); rm_rest := rest |})).
Proof.
  intros Hl [(c & -> & Hu & _)|(l' & i & Hl' & Hs & Hi & Hm & _)]%fetch_cases; [by auto|].
  simplify_eq. split.
  - destruct Hs as [-> _]. simpl. destruct (handle_implements i (set_group (core g) l))
      as (? & ? & [_ Hid] & _); [by intros c ->; destruct (Hi c)|exact Hid].
  - right. exists i. split; [done|]. intros now draw m (which & rest & _ & ->)%Hm. eauto.
Qed.

(** A group that [InitGroup] has started with a leader object. *)
Definition ready g : Prop := is_Some (group_pubport_ (core g)) /\ is_Some (group_leader_ g).

(** What every sender of this code puts on the wire: a header frame, and a
    payload behind it where the header announces one. *)
Definition complete (p : Polled) : Prop :=
  match p with
  | Readable _ (Some m) =>
      match rm_first m with
      | Some (consensus (Some c)) =>
          match cs_union c, cs_voteType c with
          | proposeToClients (Some _), VALUE => rm_rest m <> []
          | _, _ => True
          end
      | Some _ => True
      | None => False
      end
  | _ => True
  end.

(** No crash: a started group with a leader object handles every
    complete message without dereferencing a null pointer. *)
Theorem FetchNextMessage_defined e p g :
  ready g -> complete p -> exists r, FetchNextMessage e p g = Ok r.
Proof.
  intros [[sock Hsock] [l Hl]] Hp.
  assert (forall c, exists r, call_leader c g = Ok r) as Hcall
    by (intros c; rewrite (call_leader_Some _ _ _ Hl); by eexists).
  unfold FetchNextMessage. destruct p as [|which msg]; [case_match; [apply Hcall|by eexists]|].
  destruct (port_at _ _) as [[|]|]; [by eexists| |by eexists].
  destruct msg as [[[internal|] rest]|]; simpl in *; [|done|by eexists].
  case_bool_decide; [|by eexists].
  destruct internal as [[hb|]|[m|]|[m|]|[m|]|[m|]|[m|]]; simpl in *; try (by eexists).
  - unfold on_groupHeartBeat, SendPong, SendHeartBeat. simpl. rewrite Hsock.
    destruct (hb_type hb); by eexists.
  - apply Hcall.
  - unfold on_messageToLeader. case_bool_decide; [by eexists|]. destruct rest; by eexists.
  - case_bool_decide.
    + unfold on_consensus_leader. destruct (cs_union m) as [[q|]|[q|]|[q|]|[q|]]; try (by eexists).
      * destruct (cs_voteType m); apply Hcall.
      * apply Hcall.
    + unfold on_consensus_member. destruct (cs_union m) as [[q|]|[q|]|[q|]|[q|]]; try (by eexists).
      destruct (cs_voteType m); [|by eexists]. destruct rest; [done|by eexists].
  - destruct rest; by eexists.
Qed.

(** The null pointers that remain: a group without a leader object
    (its type has none, or the registration failed) runs into undefined
    behaviour on any leader-election message of its internal port, and a
    member that is not the leader on a value proposal without a payload. *)
Theorem FetchNextMessage_null e which config m rest g :
  port_at which (group_ports_ (core g)) = Some (GroupSubscriberPort config) ->
  group_subport_ (core g) = Some which ->
  (group_leader_ g = None ->
     FetchNextMessage e (Readable which (Some
       {| rm_first := Some (leaderElection (Some m)); rm_rest := rest |})) g = UB)
  /\ (forall p src, leader_id g <> component_uuid (core g) ->
     FetchNextMessage e (Readable which (Some
       {| rm_first := Some (consensus (Some
            {| cs_sourceComponentId := src; cs_voteType := VALUE;
               cs_union := proposeToClients (Some p); cs_tsyncCoordA := None |}));
          rm_rest := [] |})) g = UB).
Proof.
  intros Hport Hsub. unfold FetchNextMessage. rewrite Hport, Hsub. simpl.
  rewrite bool_decide_eq_true_2 by done. split.
  - intros Hl. unfold call_leader. by rewrite Hl.
  - intros p src Hid. by rewrite (bool_decide_eq_false_2 (leader_id g = _)).
Qed.

(** Pings are answered: a started group answers a ping on its internal
    port with exactly one pong of its own component, whoever sent it. *)
Theorem ping_pong e which config hb rest g g' out sock :
  port_at which (group_ports_ (core g)) = Some (GroupSubscriberPort config) ->
  group_subport_ (core g) = Some which -> group_pubport_ (core g) = Some sock ->
  FetchNextMessage e (Readable which (Some
    {| rm_first := Some (groupHeartBeat (Some hb)); rm_rest := rest |})) g = Ok (g', out) ->
  core g' = note_heartbeat (e_now e) (e_heartbeat_draw e) (hb_sourceComponentId hb) (core g)
  /\ out = (if decide (hb_type hb = PING) then
              [PortSent sock (Internal (header_only (groupHeartBeat (Some
                 {| hb_type := PONG; hb_sourceComponentId := component_uuid (core g) |})))) false]
            else []).
Proof.
  intros Hport Hsub Hpub. unfold FetchNextMessage. rewrite Hport, Hsub. simpl.
  rewrite bool_decide_eq_true_2 by done. unfold on_groupHeartBeat, SendPong, SendHeartBeat. simpl.
  rewrite Hpub. destruct (hb_type hb); simpl; by intros [= <- <-].
Qed.

(** Messages of the ports that the application declares are read and dropped. *)
Lemma user_port_dropped e which m g h :
  group_subport_ (core g) <> Some which -> rm_first m = Some h ->
  FetchNextMessage e (Readable which (Some m)) g = Ok (g, []).
Proof.
  intros Hs Hm. unfold FetchNextMessage. rewrite Hm. simpl.
  rewrite bool_decide_eq_false_2 by done. by repeat case_match.
Qed.
End Dispatch.

(** ** A concrete group *)

Section ConcreteGroup.
Definition ex_port (name type : string) : ComponentPortConfig :=
  {| port_name := name; message_type := type; is_local := false; is_timed := false |}.
Definition ex_conf : GroupTypeConf :=
  {| group_type_id := "T"; group_pubs := [ex_port "out" "Data"]; group_subs := [ex_port "in" "Data"];
     has_leader := true; has_consensus := true |}.
Definition ex_socket (i : nat) : Z := 7 - Z.of_nat i.
Definition ex_address (i : nat) : string := "10.0.0.1:" +:+ to_string (5000 + Z.of_nat i).
Definition ex_new : Group := new_Group 0 ex_conf {| gid_type := "T"; gid_name := "g" |} "a".
Definition ex_group : Group := (InitGroup ex_socket ex_address true 0 0 200 (Some ex_conf) ex_new).1.1.
Definition ex_env : Env :=
  {| e_now := 5; e_heartbeat_draw := 12000; e_election_draw := 300; e_clk := fun _ => 5;
     e_order := []; e_junk := false |}.
Definition ex_ping (src : string) : RawMsg :=
  {| rm_first := Some (groupHeartBeat (Some {| hb_type := PING; hb_sourceComponentId := src |}));
     rm_rest := [] |}.
Definition ex_request : LeaderElection := msg_req "b" 1.
Definition ex_election : RawMsg :=
  {| rm_first := Some (leaderElection (Some ex_request)); rm_rest := [] |}.
Definition ex_known : GroupCore := note_heartbeat 5 12000 "b" (core ex_group).

Lemma InitGroup_spec_witness :
  group_ports_ (core ex_group) ≡ₚ created_ports ex_socket ex_address ex_conf.
Proof.
  apply (InitGroup_spec ex_socket ex_address true 0 0 200 ex_conf ex_new); [done|].
  apply (bool_decide_unpack _). by vm_compute.
Defined.

Lemma heartbeat_introduces_witness : "b" ∈ GetKnownComponents 1000000000 ex_known.
Proof. apply (heartbeat_introduces 5 12000 "b" (core ex_group) 1000000000 "x"); by vm_compute. Defined.

Lemma heartbeat_does_not_prolong_witness :
  GetKnownComponents 20000000000 (note_heartbeat 11000000000 15000 "b" ex_known)
  = GetKnownComponents 20000000000 ex_known.
Proof. apply (heartbeat_does_not_prolong 11000000000 15000 "b" ex_known 20000000000). by eexists. Defined.

Lemma DeleteTimeoutNodes_spec_witness :
  let '(deleted, g') := DeleteTimeoutNodes 20000000000 ex_known in
  dom (known_nodes_ g') = GetKnownComponents 20000000000 ex_known.
Proof. apply (DeleteTimeoutNodes_spec 20000000000 ex_known). by vm_compute. Defined.

Definition ex_silent : GroupCore := core ex_group.

Lemma SendPingWithPeriod_spec_witness :
  exists g' out rc, SendPingWithPeriod 10000000001 None ex_silent = Ok (g', out, rc) /\
    SendPingWithPeriod 20000000001 None g' = Ok (g', [], false).
Proof.
  eexists _, _, _. split; [reflexivity|].
  apply (SendPingWithPeriod_spec 10000000001 None ex_silent _ _ _ eq_refl);
    [discriminate|by vm_compute].
Defined.

Lemma SendMessage_spec_witness :
  let '(out, rc) := SendMessage (Some 11) "x" "out" (core ex_group) in
  rc = true <-> out <> [] /\ Some 11 <> None.
Proof. apply (SendMessage_spec (Some 11) "x" "out" (core ex_group)). discriminate. Defined.

Lemma FetchNextMessage_defined_witness :
  exists r, FetchNextMessage ex_env (Readable 6 (Some ex_election)) ex_group = Ok r.
Proof. apply FetchNextMessage_defined; [split; by eexists|done]. Defined.

Lemma FetchNextMessage_input_witness :
  exists g' out, FetchNextMessage ex_env (Readable 6 (Some ex_election)) ex_group = Ok (g', out)
    /\ component_uuid (core g') = "a".
Proof.
  eexists _, _. split; [reflexivity|].
  exact (proj1 (FetchNextMessage_input ex_env (Readable 6 (Some ex_election)) ex_group _ _ _
    eq_refl eq_refl)).
Defined.

Lemma FetchNextMessage_null_witness :
  FetchNextMessage ex_env (Readable 6 (Some ex_election)) (mkGroup (core ex_group) None) = UB.
Proof.
  by apply (FetchNextMessage_null ex_env 6 (internal_config INTERNAL_SUB_NAME) ex_request []
           (mkGroup (core ex_group) None)).
Defined.

Lemma ping_pong_witness :
  exists g' out, FetchNextMessage ex_env (Readable 6 (Some (ex_ping "b"))) ex_group = Ok (g', out)
    /\ core g' = ex_known.
Proof.
  eexists _, _. split; [reflexivity|].
  exact (proj1 (ping_pong ex_env 6 (internal_config INTERNAL_SUB_NAME)
    {| hb_type := PING; hb_sourceComponentId := "b" |} [] ex_group _ _ 7 eq_refl eq_refl eq_refl eq_refl)).
Defined.

Lemma GroupId_order_witness :
  let a := {| gid_type := "A"; gid_name := "z" |} in
  let b := {| gid_type := "B"; gid_name := "a" |} in
  let c := {| gid_type := "B"; gid_name := "b" |} in
  GroupId_lt a c = true.
Proof.
  intros a b c. by apply (proj1 (proj2 (GroupId_order a b c))).
Defined.
End ConcreteGroup.
