(* ===== verification/Disco.v ===== *)
(** Disco.v - the discovery protocol: its messages
    ([include/messaging/capnp/disco.capnp]), the records of the discovery
    service ([include/discoveryd/r_discovery_types.h]), the keys under which
    services are stored in the DHT and the data stored there
    ([src/discoveryd/r_dhtdata.cc], the key functions of
    [src/discoveryd/r_msghandler.cc]). *)

From Stdlib Require Import ZArith Lia Ascii.
From stdpp Require Import base gmap strings list.
From S2P Require Import Prelude.
From S2P Require Import Ports.
From S2P Require Import Group.

(** ** Messages *)

Inductive Status := OK | ERR.
Inductive Kind := NONE | PUB | SUB | CLT | SRV | REQ | REP | QRY | ANS.
Inductive Scope := NO_SCOPE | GLOBAL | LOCAL.

#[export] Instance Status_eq_dec : EqDecision Status.
Proof. solve_decision. Defined.
#[export] Instance Kind_eq_dec : EqDecision Kind.
Proof. solve_decision. Defined.
#[export] Instance Scope_eq_dec : EqDecision Scope.
Proof. solve_decision. Defined.

Record ActorRegReq := { ar_appName : string; ar_actorName : string; ar_pid : Z }.
Record ActorUnregReq := { au_appName : string; au_actorName : string; au_pid : Z }.
Record Path := {
  p_appName : string; p_actorName : string; p_msgType : string; p_kind : Kind; p_scope : Scope;
}.
Record Client := {
  c_actorHost : string; c_actorName : string; c_instanceName : string; c_portName : string;
}.
Record Socket := { s_host : string; s_port : Z }.
Record ServiceRegReq := { sr_path : Path; sr_socket : Socket; sr_pid : Z }.
Record ServiceLookupReq := { sl_path : Path; sl_client : Client }.
Record GroupJoinReq := {
  gj_appName : string; gj_groupId : GroupId; gj_services : list GroupService;
  gj_componentId : string; gj_pid : Z;
}.

Inductive DiscoReq :=
| actorReg (m : ActorRegReq)
| serviceReg (m : ServiceRegReq)
| serviceLookup (m : ServiceLookupReq)
| actorUnreg (m : ActorUnregReq)
| groupJoin (m : GroupJoinReq).

(** [setPort] is left out where the code leaves it out: the field reads 0. *)
Inductive DiscoRep :=
| actorRegRep (status : Status) (port : Z)
| actorUnregRep (status : Status) (port : Z)
| serviceRegRep (status : Status)
| serviceLookupRep (status : Status) (sockets : list Socket)
| groupJoinRep (status : Status).

Record PortUpd := { pu_client : Client; pu_scope : Scope; pu_socket : Socket }.
Record GroupUpdate := {
  gu_appName : string; gu_groupId : GroupId; gu_componentId : string; gu_services : list GroupService;
}.

Inductive DiscoUpd :=
| portUpdate (m : PortUpd)
| groupUpdate (m : GroupUpdate).

Record ProviderListUpdate := { plu_providerpath : string; plu_newvalues : list string }.
Record ProviderListGet := { plg_path : Path; plg_client : Client; plg_results : list string }.

Inductive DhtUpdate :=
| providerUpdate (m : ProviderListUpdate)
| providerGet (m : ProviderListGet)
| zombieList (l : list string)
| dhtGroupUpdate (m : GroupUpdate).

(** ** Records of the discovery service *)

Record ActorDetails := { ad_socket : Z; ad_port : Z; ad_pid : Z; ad_app_name : string }.

Record ClientDetails := {
  cd_app_name : string; cd_actor_name : string; cd_actor_host : string;
  cd_instance_name : string; cd_port_name : string; cd_is_local : bool;
}.

Record ServiceCheckins := { sc_key : string; sc_value : string; sc_createdTime : Z; sc_timeout : Z }.

(** The constructor's time out: ten minutes, in milliseconds. *)
Definition service_timeout : Z := 10 * 60 * 1000.

Record GroupDetails := {
  gd_app_name : string; gd_component_id : string; gd_group_id : GroupId;
  gd_group_services : list GroupService;
}.

(** ** Keys *)

Definition kindMap (k : Kind) : option string :=
  match k with
  | PUB => Some "pub" | SUB => Some "sub" | CLT => Some "clt" | SRV => Some "srv"
  | REQ => Some "req" | REP => Some "rep" | QRY => Some "qry" | ANS => Some "ans"
  | NONE => None
  end.

(** [std::map::at] on a constant table. *)
Definition table_at {A} (o : option A) : Res A :=
  match o with Some a => Ok a | None => Throw out_of_range end.

Definition key_base (appName msgType kind : string) : string :=
  "/" +:+ appName +:+ "/" +:+ msgType +:+ "/" +:+ kind.

Definition endpoint_value (host : string) (port : Z) : string := host +:+ ":" +:+ to_string port.

(** [mac] is [Network::GetMacAddressStripped()]; the parameter [port] of the
    function is a [uint16_t]. *)
Definition BuildInsertKeyValuePair (mac appName msgType : string) (kind : Kind) (scope : Scope)
    (host : string) (port : Z) : Res (string * string) :=
  k ← table_at (kindMap kind);
  let key := key_base appName msgType k in
  let key := if bool_decide (scope = LOCAL) then key +:+ mac else key in
  Ok (key, endpoint_value host (u16 port)).

(** The table [kindPairs]: whom a port of a kind looks for. *)
Definition kindPairs (k : Kind) : option string :=
  match k with
  | CLT => kindMap SRV | SUB => kindMap PUB | REQ => kindMap REP | REP => kindMap REQ
  | QRY => kindMap ANS | ANS => kindMap QRY
  | _ => None
  end.

Definition BuildLookupKey (mac appName msgType : string) (kind : Kind) (scope : Scope)
    (clientActorHost clientActorName clientInstanceName clientPortName : string)
    : Res (string * string) :=
  k ← table_at (kindPairs kind);
  let key := key_base appName msgType k in
  let key := if bool_decide (scope = LOCAL) then key +:+ mac else key in
  let client := "/" +:+ appName +:+ "/" +:+ clientActorName +:+ "/" +:+ clientActorHost
                +:+ "/" +:+ clientInstanceName +:+ "/" +:+ clientPortName in
  let client := if bool_decide (scope = LOCAL) then client +:+ ":" +:+ mac else client in
  Ok (key, client).

(** The parsing of an endpoint, in [HandleDhtGet] and [HandleDhtUpdate]: both
    exceptions of [stoi] are caught, and the endpoint skipped. *)
Definition parse_endpoint (endpoint : string) : option (string * Z) :=
  match str_find ":"%char endpoint with
  | None => None
  | Some pos =>
      match stoi (str_drop (S pos) endpoint) with
      | Ok portNum => Some (str_take pos endpoint, portNum)
      | _ => None
      end
  end.

(** ** Data in the DHT *)

Section DhtData.
(** The private key, and what OpenDHT does with it and its public key. *)
Variables (Key Cipher Sig : Type).
Variable sign : Key -> string -> Sig.
Variable encrypt : Key -> string -> Cipher.
Variable decrypt : Key -> Cipher -> option string.
Variable checkSignature : Key -> string -> Sig -> bool.

Record DhtData := {
  raw_data : string;
  encrypted_data : option Cipher;
  signature : option Sig;
}.

Definition empty_data : DhtData :=
  {| raw_data := ""; encrypted_data := None; signature := None |}.

Definition EncryptData (key : Key) (data : string) (d : DhtData) : DhtData :=
  {| raw_data := raw_data d; encrypted_data := Some (encrypt key data);
     signature := Some (sign key data) |}.

(** The data read back, when its signature is good; an exception of the
    decryption counts as failure.  An empty blob does not decrypt. *)
Definition DecryptData (key : Key) (d : DhtData) : option DhtData :=
  match encrypted_data d, signature d with
  | Some c, Some s =>
      match decrypt key c with
      | Some data =>
          if checkSignature key data s then
            Some {| raw_data := data; encrypted_data := encrypted_data d; signature := signature d |}
          else None
      | None => None
      end
  | _, _ => None
  end.

(** [DhtPut]: what is stored, with and without security. *)
Definition stored (has_security : bool) (key : Key) (data : string) : DhtData :=
  if has_security then EncryptData key data empty_data
  else {| raw_data := data; encrypted_data := None; signature := None |}.

(** What the callbacks of [get] and [listen] make of a value. *)
Definition received (has_security : bool) (key : Key) (d : DhtData) : option string :=
  if has_security then raw_data <$> DecryptData key d else Some (raw_data d).

(** Round trip through the DHT: with or without security, what a node
    puts is what a node with the same key reads, provided that decryption
    inverts encryption and the key's own signatures verify. *)
Theorem dht_roundtrip has_security key data :
  (forall k x, decrypt k (encrypt k x) = Some x) ->
  (forall k x, checkSignature k x (sign k x) = true) ->
  received has_security key (stored has_security key data) = Some data.
Proof.
  intros Hd Hc. destruct has_security; [|done]. unfold received, stored, DecryptData. simpl.
  by rewrite Hd, Hc.
Qed.
End DhtData.

Lemma dht_roundtrip_witness :
  received nat (nat * string) (nat * string) (fun k c => if (c.1 =? k)%nat then Some c.2 else None)
    (fun k x s => bool_decide ((k, x) = s)) true 7%nat
    (stored nat (nat * string) (nat * string) pair pair true 7%nat "10.0.0.1:5555")
  = Some "10.0.0.1:5555".
Proof.
  apply (dht_roundtrip nat (nat * string) (nat * string) pair pair).
  - intros k x. simpl. by rewrite Nat.eqb_refl.
  - intros k x. by apply bool_decide_eq_true.
Defined.

(** ** Theorems on keys *)

(** Who offers what a port of this kind looks for. *)
Definition partner (k : Kind) : option Kind :=
  match k with
  | CLT => Some SRV | SUB => Some PUB | REQ => Some REP | REP => Some REQ
  | QRY => Some ANS | ANS => Some QRY
  | _ => None
  end.

Section Keys.
Lemma kindPairs_partner k : kindPairs k = partner k ≫= kindMap.
Proof. by destruct k. Qed.

Lemma insert_lookup_key mac1 mac2 app type k p scope host port h a i n key value :
  partner k = Some p -> (scope = LOCAL -> mac1 = mac2) ->
  BuildInsertKeyValuePair mac1 app type p scope host port = Ok (key, value) ->
  exists client, BuildLookupKey mac2 app type k scope h a i n = Ok (key, client).
Proof.
  intros Hp Hmac. unfold BuildInsertKeyValuePair, BuildLookupKey.
  rewrite kindPairs_partner, Hp. simpl. destruct (kindMap p); simpl; [|done].
  intros [= <- _]. case_bool_decide as Hs; [rewrite (Hmac Hs)|]; by eexists.
Qed.

(** A client looks under the key its provider registers under: on one
    host, and on different hosts for a global scope, a lookup for a port of
    kind [k] reads the key that a registration of the partner kind writes. *)
Theorem lookup_meets_insert mac1 mac2 app type k p scope host port h a i n :
  partner k = Some p -> (scope = LOCAL -> mac1 = mac2) ->
  exists key value client,
    BuildInsertKeyValuePair mac1 app type p scope host port = Ok (key, value)
    /\ BuildLookupKey mac2 app type k scope h a i n = Ok (key, client).
Proof.
  intros Hp Hmac.
  assert (exists key value,
    BuildInsertKeyValuePair mac1 app type p scope host port = Ok (key, value)) as (key & value & E)
    by (destruct k; simplify_eq/=; eauto).
  destruct (insert_lookup_key _ mac2 _ _ _ _ _ _ _ h a i n _ _ Hp Hmac E) as [client E2].
  by exists key, value, client.
Qed.

Lemma lookup_meets_insert_witness :
  exists key value client,
    BuildInsertKeyValuePair "mac1" "App" "Temp" PUB GLOBAL "10.0.0.1" 5555 = Ok (key, value)
    /\ BuildLookupKey "mac2" "App" "Temp" SUB GLOBAL "h" "a" "i" "p" = Ok (key, client).
Proof. by apply lookup_meets_insert. Defined.

(** Ports of the kinds that nothing is offered to, [NONE], [PUB] and
    [SRV], make the lookup throw, and the kind [NONE] makes a registration
    throw; all other requests yield a key. *)
Theorem key_errors mac app type k scope host port h a i n :
  (BuildLookupKey mac app type k scope h a i n = Throw out_of_range
     <-> k = NONE \/ k = PUB \/ k = SRV)
  /\ (BuildInsertKeyValuePair mac app type k scope host port = Throw out_of_range <-> k = NONE).
Proof. destruct k; simpl; split; intuition discriminate. Qed.

Definition no_slash (s : string) : Prop := str_find "/"%char s = None.

Lemma key_base_inj a1 t1' k1 a2 t2' k2 :
  no_slash a1 -> no_slash t1' -> no_slash a2 -> no_slash t2' ->
  key_base a1 t1' k1 = key_base a2 t2' k2 -> a1 = a2 /\ t1' = t2' /\ k1 = k2.
Proof.
  unfold key_base. intros H1 H2 H3 H4 E. rewrite !str_app_cons, !str_app_nil in E.
  injection E as E. apply str_app_sep_inj in E as [-> E]; [|done..].
  apply str_app_sep_inj in E as [-> E]; done.
Qed.

Lemma kindMap_inj k1 k2 n1 n2 m1 m2 :
  kindMap k1 = Some n1 -> kindMap k2 = Some n2 -> n1 +:+ m1 = n2 +:+ m2 -> k1 = k2 /\ m1 = m2.
Proof.
  intros H1 H2 E. destruct k1, k2; try discriminate; injection H1 as <-; injection H2 as <-;
    try discriminate; split; try done; by apply str_app_inj_l in E.
Qed.

(** The end of a service's key. *)
Definition scope_suffix (mac : string) (scope : Scope) : string :=
  if bool_decide (scope = LOCAL) then mac else "".

Lemma service_key mac a y n scope :
  (if bool_decide (scope = LOCAL) then key_base a y n +:+ mac else key_base a y n)
  = key_base a y (n +:+ scope_suffix mac scope).
Proof.
  unfold scope_suffix, key_base. case_bool_decide; [by rewrite !str_app_assoc|].
  assert (forall x : string, x +:+ "" = x) as Hnil; [|by rewrite Hnil].
  induction x as [|c x IH]; [done|]. by rewrite str_app_cons, IH.
Qed.

Lemma service_key_inj mac1 a1 y1 k1 n1 s1 mac2 a2 y2 k2 n2 s2 :
  mac1 <> "" -> mac2 <> "" -> no_slash a1 -> no_slash y1 -> no_slash a2 -> no_slash y2 ->
  kindMap k1 = Some n1 -> kindMap k2 = Some n2 ->
  key_base a1 y1 (n1 +:+ scope_suffix mac1 s1) = key_base a2 y2 (n2 +:+ scope_suffix mac2 s2) ->
  a1 = a2 /\ y1 = y2 /\ k1 = k2 /\ (s1 = LOCAL <-> s2 = LOCAL) /\ (s1 = LOCAL -> mac1 = mac2).
Proof.
  intros Hm1 Hm2 Ha1 Hy1 Ha2 Hy2 E1 E2 E. apply key_base_inj in E as (-> & -> & E); [|done..].
  eapply kindMap_inj in E as [-> E]; [|done..]. unfold scope_suffix in E.
  split_and!; [done..| |]; repeat case_bool_decide; subst; try tauto; done.
Qed.

(** A lookup and a registration, on any two hosts, that have the same key. *)
Lemma lookup_key_agrees mac1 a1 y1 k1 s1 h1 p1 mac2 a2 y2 k2 s2 h a i n key v cl :
  mac1 <> "" -> mac2 <> "" -> no_slash a1 -> no_slash y1 -> no_slash a2 -> no_slash y2 ->
  BuildInsertKeyValuePair mac1 a1 y1 k1 s1 h1 p1 = Ok (key, v) ->
  BuildLookupKey mac2 a2 y2 k2 s2 h a i n = Ok (key, cl) ->
  a1 = a2 /\ y1 = y2 /\ partner k2 = Some k1 /\ (s1 = LOCAL <-> s2 = LOCAL)
  /\ (s1 = LOCAL -> mac1 = mac2).
Proof.
  intros Hm1 Hm2 Ha1 Hy1 Ha2 Hy2. unfold BuildInsertKeyValuePair, BuildLookupKey.
  rewrite kindPairs_partner. destruct (kindMap k1) as [n1|] eqn:E1; simpl; [|done].
  destruct (partner k2) as [p|] eqn:Ep; simpl; [|done].
  destruct (kindMap p) as [n2|] eqn:E2; simpl; [|done]. rewrite !service_key.
  intros [= H1 _] [= H2 _]. rewrite <- H2 in H1.
  destruct (service_key_inj mac1 a1 y1 k1 n1 s1 mac2 a2 y2 p n2 s2) as (-> & -> & -> & ? & ?); auto.
Qed.

(** Keys tell services apart: when application and type names contain no
    slash, two registrations on one host share a key only if they agree on
    the application, the message type and the kind, and on whether the scope
    is local. *)
Theorem insert_key_injective mac a1 y1 k1 s1 h1 p1 a2 y2 k2 s2 h2 p2 key v1 v2 :
  mac <> "" -> no_slash a1 -> no_slash y1 -> no_slash a2 -> no_slash y2 ->
  BuildInsertKeyValuePair mac a1 y1 k1 s1 h1 p1 = Ok (key, v1) ->
  BuildInsertKeyValuePair mac a2 y2 k2 s2 h2 p2 = Ok (key, v2) ->
  a1 = a2 /\ y1 = y2 /\ k1 = k2 /\ (s1 = LOCAL <-> s2 = LOCAL).
Proof.
  intros Hmac Ha1 Hy1 Ha2 Hy2. unfold BuildInsertKeyValuePair.
  destruct (kindMap k1) as [n1|] eqn:E1, (kindMap k2) as [n2|] eqn:E2; simpl; try done.
  rewrite !service_key. intros [= H1 _] [= H2 _]. rewrite <- H2 in H1.
  destruct (service_key_inj mac a1 y1 k1 n1 s1 mac a2 y2 k2 n2 s2) as (-> & -> & -> & ? & _); auto.
Qed.

Lemma insert_key_injective_witness :
  "App" = "App" /\ "Temp" = "Temp" /\ PUB = PUB /\ (GLOBAL = LOCAL <-> GLOBAL = LOCAL).
Proof.
  exact (insert_key_injective "mac" "App" "Temp" PUB GLOBAL "h" 1 "App" "Temp" PUB GLOBAL "h" 2
    "/App/Temp/pub" "h:1" "h:2" ltac:(discriminate) eq_refl eq_refl eq_refl eq_refl eq_refl eq_refl).
Defined.

Lemma parse_endpoint_value host port :
  str_find ":"%char host = None -> in_u 16 port ->
  parse_endpoint (endpoint_value host port) = Some (host, port).
Proof.
  intros Hh Hp. unfold parse_endpoint, endpoint_value.
  change (host +:+ ":" +:+ to_string port) with (host +:+ String ":"%char (to_string port)).
  rewrite str_find_app, str_drop_S_app, stoi_to_string, str_take_app; [done| |done].
  unfold in_u in Hp. lia.
Qed.

Lemma endpoint_roundtrip_aux mac app type k scope host port key value :
  str_find ":"%char host = None -> in_u 16 port ->
  BuildInsertKeyValuePair mac app type k scope host port = Ok (key, value) ->
  parse_endpoint value = Some (host, port).
Proof.
  intros Hh Hp. unfold BuildInsertKeyValuePair. destruct (kindMap k); simpl; [|done].
  intros [= _ <-]. rewrite (uwrap_id 16 port) by done. by apply parse_endpoint_value.
Qed.

(** Round trip of an endpoint: what a registration stores for a host
    without a colon and a 16-bit port is parsed back to this host and port. *)
Theorem endpoint_roundtrip mac app type k scope host port key value :
  str_find ":"%char host = None -> in_u 16 port ->
  BuildInsertKeyValuePair mac app type k scope host port = Ok (key, value) ->
  parse_endpoint value = Some (host, port).
Proof.
  apply endpoint_roundtrip_aux.
Qed.

Lemma endpoint_roundtrip_witness : parse_endpoint "10.0.0.1:5555" = Some ("10.0.0.1", 5555).
Proof.
  apply (endpoint_roundtrip "mac" "App" "Temp" PUB GLOBAL "10.0.0.1" 5555 "/App/Temp/pub");
    by vm_compute.
Defined.
End Keys.
