(* ===== verification/MsgHandler.v ===== *)
(** MsgHandler.v - the message handler of the discovery service
    ([include/discoveryd/r_msghandler.h], [src/discoveryd/r_msghandler.cc]).

    The state is [Handler]; a handler function is a command on it, or a command
    that may throw.  What the handler does to the DHT, to LMDB and to its
    ZeroMQ sockets is the log of effects.  The callbacks that OpenDHT runs in
    other threads only push messages to the handler's own socket: they are the
    functions [listen_callback], [PushDhtValuesToDisco] and
    [HandleZombieUpdate], from the values found to the messages pushed. *)

From Stdlib Require Import ZArith Lia.
From stdpp Require Import base gmap strings list fin_maps fin_sets sorting.
From S2P Require Import Prelude.
From S2P Require Import Timeout.
From S2P Require Import Ports.
From S2P Require Import Group.
From S2P Require Import Disco.

#[local] Open Scope riaps_scope.

Definition RIAPS_DHT_NODE_PORT : Z := 4222.
Definition CMD_DISCO_JOIN : string := "JOIN".

(** The members are [const uint16_t]. *)
Definition service_check_period_ : Z := u16 20000.
Definition zombie_check_period_ : Z := u16 600000.

Record RegisteredGroup := {
  rg_groupKey : string;
  rg_services : GroupDetails;
  rg_actorPid : Z;
  rg_timeout : Timeout minutes;
}.

Record Handler := mkHandler {
  mac_address_ : string;
  host_address_ : string;
  rep_identity_ : string;
  terminated_ : bool;
  last_service_checkin_ : Z;
  last_zombie_check_ : Z;
  clients_ : gmap string ActorDetails;
  zombie_services_ : gmap string Z;
  client_subscriptions_ : gmap string (list ClientDetails);
  group_listeners_ : gset string;
  registered_listeners_ : gset string;
  service_checkins_ : gmap Z (list ServiceCheckins);
  group_services_ : gmap Z (list RegisteredGroup);
}.

(** The constructor: the addresses of the node; the times are set by [Init]. *)
Definition new_Handler (mac host : string) (uninit : Z) : Handler :=
  mkHandler mac host "" false uninit uninit ∅ ∅ ∅ ∅ ∅ ∅ ∅.

Definition set_times v s := mkHandler (mac_address_ s) (host_address_ s) (rep_identity_ s)
  (terminated_ s) v v (clients_ s) (zombie_services_ s) (client_subscriptions_ s)
  (group_listeners_ s) (registered_listeners_ s) (service_checkins_ s) (group_services_ s).
Definition set_identity v s := mkHandler (mac_address_ s) (host_address_ s) v (terminated_ s)
  (last_service_checkin_ s) (last_zombie_check_ s) (clients_ s) (zombie_services_ s)
  (client_subscriptions_ s) (group_listeners_ s) (registered_listeners_ s) (service_checkins_ s)
  (group_services_ s).
Definition set_terminated v s := mkHandler (mac_address_ s) (host_address_ s) (rep_identity_ s) v
  (last_service_checkin_ s) (last_zombie_check_ s) (clients_ s) (zombie_services_ s)
  (client_subscriptions_ s) (group_listeners_ s) (registered_listeners_ s) (service_checkins_ s)
  (group_services_ s).
Definition set_clients v s := mkHandler (mac_address_ s) (host_address_ s) (rep_identity_ s)
  (terminated_ s) (last_service_checkin_ s) (last_zombie_check_ s) v (zombie_services_ s)
  (client_subscriptions_ s) (group_listeners_ s) (registered_listeners_ s) (service_checkins_ s)
  (group_services_ s).
Definition set_zombies v s := mkHandler (mac_address_ s) (host_address_ s) (rep_identity_ s)
  (terminated_ s) (last_service_checkin_ s) (last_zombie_check_ s) (clients_ s) v
  (client_subscriptions_ s) (group_listeners_ s) (registered_listeners_ s) (service_checkins_ s)
  (group_services_ s).
Definition set_subscriptions v s := mkHandler (mac_address_ s) (host_address_ s) (rep_identity_ s)
  (terminated_ s) (last_service_checkin_ s) (last_zombie_check_ s) (clients_ s)
  (zombie_services_ s) v (group_listeners_ s) (registered_listeners_ s) (service_checkins_ s)
  (group_services_ s).
Definition set_group_listeners v s := mkHandler (mac_address_ s) (host_address_ s)
  (rep_identity_ s) (terminated_ s) (last_service_checkin_ s) (last_zombie_check_ s) (clients_ s)
  (zombie_services_ s) (client_subscriptions_ s) v (registered_listeners_ s)
  (service_checkins_ s) (group_services_ s).
Definition set_registered_listeners v s := mkHandler (mac_address_ s) (host_address_ s)
  (rep_identity_ s) (terminated_ s) (last_service_checkin_ s) (last_zombie_check_ s) (clients_ s)
  (zombie_services_ s) (client_subscriptions_ s) (group_listeners_ s) v (service_checkins_ s)
  (group_services_ s).
Definition set_checkins v s := mkHandler (mac_address_ s) (host_address_ s) (rep_identity_ s)
  (terminated_ s) (last_service_checkin_ s) (last_zombie_check_ s) (clients_ s)
  (zombie_services_ s) (client_subscriptions_ s) (group_listeners_ s) (registered_listeners_ s) v
  (group_services_ s).
Definition set_group_services v s := mkHandler (mac_address_ s) (host_address_ s)
  (rep_identity_ s) (terminated_ s) (last_service_checkin_ s) (last_zombie_check_ s) (clients_ s)
  (zombie_services_ s) (client_subscriptions_ s) (group_listeners_ s) (registered_listeners_ s)
  (service_checkins_ s) v.

Definition clientKeyBase (appName actorName : string) : string :=
  "/" +:+ appName +:+ "/" +:+ actorName +:+ "/".

Definition group_key (appName : string) : string := "/groups/" +:+ appName.

Definition zombieglobalkey_ : string := "/zombie/globals".
Definition zombielocalkey_ (s : Handler) : string := "/zombie/locals/" +:+ mac_address_ s.

(** Iteration order of [std::map<pid_t, _>]. *)
Definition pid_le {A} (p q : Z * A) : Prop := p.1 <= q.1.
#[export] Instance pid_le_dec {A} (p q : Z * A) : Decision (pid_le p q).
Proof. unfold pid_le. apply _. Defined.
Definition zmap_to_list {A} (m : gmap Z A) : list (Z * A) := merge_sort pid_le (map_to_list m).

(** ** Operations without effects *)

(** [DeregisterActor]: the port of the actor's socket, or -1. *)
Definition DeregisterActor (appName actorName : string) (s : Handler) : Z * Handler :=
  let base := clientKeyBase appName actorName in
  (match clients_ s !! base with Some a => ad_port a | None => -1 end,
   set_clients (delete (base +:+ host_address_ s) (delete (base +:+ mac_address_ s)
                 (delete base (clients_ s)))) s).

(** [MaintainZombieList]: entries older than 15 minutes are purged. *)
Definition zombie_fresh (currentTime : Z) (e : string * Z) : Prop :=
  currentTime - e.2 <= 60 * 15 * 1000.
#[export] Instance zombie_fresh_dec now e : Decision (zombie_fresh now e).
Proof. unfold zombie_fresh. apply _. Defined.

Definition MaintainZombieList (currentTime : Z) (s : Handler) : Handler :=
  set_zombies (filter (zombie_fresh currentTime) (zombie_services_ s)) s.

(** A [ZombieList] message: every entry is stamped with the time it arrives. *)
Fixpoint stamp_zombies (clk : nat -> Z) (i : nat) (l : list string) (m : gmap string Z)
    : gmap string Z :=
  match l with
  | [] => m
  | z :: l' => stamp_zombies clk (S i) l' (<[z := clk i]> m)
  end.

Definition OnZombieList (clk : nat -> Z) (l : list string) (s : Handler) : Handler :=
  set_zombies (stamp_zombies clk 0 l (zombie_services_ s)) s.

Section Handlers.
(** What is stored in the DHT, and the functions of OpenDHT: the value made
    of some data and back ([stored] and [received] of [Disco.v]), the hash of
    a key, the other constructor of a hash, and the packing of a group. *)
Context {V : Type}.
Variable seal : string -> V.
Variable unseal : V -> option string.
Variable InfoHash_get : string -> string.
Variable InfoHash : string -> string.
Variable pack : GroupDetails -> string.
Variable unpack : string -> option GroupDetails.

Inductive DiscOut :=
| Replied (identity : string) (rep : DiscoRep)
| Put (hash : string) (v : V)
| Get (lookupKey : string) (c : ClientDetails)
| GetGroups (hash : string)
| Listen (hash lookupKey : string)
| ListenGroups (hash : string)
| GetZombies (hash : string)
| ListenZombies (hash : string)
| ToActor (socket : Z) (m : DiscoUpd)
| DbPut (key value : string)
| DbDel (key : string)
| Bootstrap (host port : string).

Definition DCmd : Type := Cmd Handler DiscOut.
Implicit Type s : Handler.

(** A command that may throw or crash. *)
Definition RCmd : Type := Handler -> Res (Handler * list DiscOut).

Definition DhtPut (key data : string) : DCmd := emit (Put (InfoHash_get key) (seal data)).

Definition reply (rep : DiscoRep) : DCmd := read (fun s => emit (Replied (rep_identity_ s) rep)).

(** The local data base is a log; its errors are only logged. *)
Definition mark_zombie (address : string) : DCmd := read (fun s =>
  DhtPut (match str_find_sub "127.0.0.1" address with
          | Some _ => zombielocalkey_ s
          | None => zombieglobalkey_
          end) address).

(** The end of [Init]: the services left over in the data base. *)
Definition Init_zombies (services : list (string * string)) : DCmd :=
  for_each services (fun kv => mark_zombie kv.2 ;; emit (DbDel kv.1)).

(** [Init]: [now] is the clock, [services] the content of the data base. *)
Definition Init (now : Z) (services : list (string * string)) : DCmd :=
  modify (set_times now) ;;
  emit (GetZombies (InfoHash_get zombieglobalkey_)) ;;
  read (fun s => emit (GetZombies (InfoHash_get (zombielocalkey_ s)))) ;;
  emit (ListenZombies (InfoHash_get zombieglobalkey_)) ;;
  read (fun s => emit (ListenZombies (InfoHash_get (zombielocalkey_ s)))) ;;
  Init_zombies services.

(** [running pid] is [kill(pid, 0) == 0]; [socket] and [port] are the new
    PAIR socket and the port it is bound to. *)
Definition HandleActorReg (running : Z -> bool) (socket port : Z) (m : ActorRegReq) : DCmd :=
  read (fun s =>
  let base := clientKeyBase (ar_appName m) (ar_actorName m) in
  let isRegistered := bool_decide (is_Some (clients_ s !! base)) in
  let isRunning := match clients_ s !! base with Some a => running (ad_pid a) | None => false end in
  if isRunning then reply (actorRegRep ERR 0)
  else
    let actor := {| ad_socket := socket; ad_port := port; ad_pid := ar_pid m;
                    ad_app_name := ar_appName m |} in
    when (isRegistered && negb isRunning)
      (modify (fun s => (DeregisterActor (ar_appName m) (ar_actorName m) s).2)) ;;
    modify (fun s => set_clients (<[base := actor]> (clients_ s)) s) ;;
    read (fun s => when (bool_decide (ar_appName m ∉ group_listeners_ s))
      (modify (fun s => set_group_listeners ({[ar_appName m]} ∪ group_listeners_ s) s) ;;
       emit (ListenGroups (InfoHash (group_key (ar_appName m)))))) ;;
    reply (actorRegRep OK port) ;;
    modify (fun s => set_clients (<[base +:+ mac_address_ s := actor]> (clients_ s)) s) ;;
    modify (fun s => set_clients (<[base +:+ host_address_ s := actor]> (clients_ s)) s)).

Definition HandleActorUnreg (m : ActorUnregReq) : DCmd :=
  read (fun s => for_each (default [] (service_checkins_ s !! au_pid m))
    (fun service => mark_zombie (sc_value service) ;; emit (DbDel (sc_key service)))) ;;
  read (fun s =>
    let '(port, s') := DeregisterActor (au_appName m) (au_actorName m) s in
    modify (fun _ => s') ;;
    reply (if bool_decide (port <> -1) then actorUnregRep OK port else actorUnregRep ERR 0)).

(** [mac] and the host are those of the network interface, [now] is
    [zclock_mono()]; the wait for a stable DHT has no effect on the state. *)
Definition HandleServiceReg (now : Z) (m : ServiceRegReq) : RCmd := fun s =>
  let path := sr_path m in
  '(key, value) ← BuildInsertKeyValuePair (mac_address_ s) (p_appName path) (p_msgType path)
     (p_kind path) (p_scope path) (s_host (sr_socket m)) (s_port (sr_socket m));
  let newItem := {| sc_key := key; sc_value := value; sc_createdTime := now;
                    sc_timeout := service_timeout |} in
  Ok ((when (bool_decide (p_kind path = REP)) (emit (DbPut key value)) ;;
       modify (fun s => set_checkins
         (<[sr_pid m := default [] (service_checkins_ s !! sr_pid m) ++ [newItem]]>
            (service_checkins_ s)) s) ;;
       DhtPut key value ;;
       reply (serviceRegRep OK)) s).

(** The subscription of a client.  [std::find] compares a fresh [unique_ptr]
    with the stored ones, so the client is always added. *)
Definition HandleServiceLookup (m : ServiceLookupReq) : RCmd := fun s =>
  let client := sl_client m in
  let path := sl_path m in
  '(key, _) ← BuildLookupKey (mac_address_ s) (p_appName path) (p_msgType path) (p_kind path)
     (p_scope path) (c_actorHost client) (c_actorName client) (c_instanceName client)
     (c_portName client);
  let current_client :=
    {| cd_app_name := p_appName path; cd_actor_name := c_actorName client;
       cd_actor_host := host_address_ s; cd_instance_name := c_instanceName client;
       cd_port_name := c_portName client; cd_is_local := bool_decide (p_scope path = LOCAL) |} in
  let hash := InfoHash_get key in
  Ok ((modify (fun s => set_subscriptions
         (<[key := default [] (client_subscriptions_ s !! key) ++ [current_client]]>
            (client_subscriptions_ s)) s) ;;
       reply (serviceLookupRep OK []) ;;
       read (fun s => when (bool_decide (hash ∉ registered_listeners_ s))
         (modify (fun s => set_registered_listeners ({[hash]} ∪ registered_listeners_ s) s) ;;
          emit (Listen hash key))) ;;
       emit (Get key current_client)) s).

Definition HandleGroupJoin (now : Z) (m : GroupJoinReq) : DCmd :=
  let groupDetails :=
    {| gd_app_name := gj_appName m; gd_component_id := gj_componentId m;
       gd_group_id := gj_groupId m; gd_group_services := gj_services m |} in
  let key := group_key (gj_appName m) in
  let currentGroupReg :=
    {| rg_groupKey := key; rg_services := groupDetails; rg_actorPid := gj_pid m;
       rg_timeout := new_timeout now 10 |} in
  reply (groupJoinRep OK) ;;
  emit (GetGroups (InfoHash key)) ;;
  modify (fun s => set_group_services
    (<[gj_pid m := default [] (group_services_ s !! gj_pid m) ++ [currentGroupReg]]>
       (group_services_ s)) s) ;;
  DhtPut key (pack groupDetails).

(** [HandlePipeMessage]: the frames of the message, [None] on interruption. *)
Definition HandlePipeMessage (msg : option (list string)) : RCmd := fun s =>
  match msg with
  | None => Ok (set_terminated true s, [])
  | Some [] => UB
  | Some (command :: hosts) =>
      if bool_decide (command = "$TERM") then Ok (set_terminated true s, [])
      else if bool_decide (command = CMD_DISCO_JOIN) then
        Ok (s, map (fun h => Bootstrap h (to_string RIAPS_DHT_NODE_PORT)) hosts)
      else Ok (s, [])
  end.

(** ** Updates from the DHT *)

Definition port_update (c : Client) (scope : Scope) (ep : string * Z) : DiscoUpd :=
  portUpdate {| pu_client := c; pu_scope := scope;
                pu_socket := {| s_host := ep.1; s_port := i32 ep.2 |} |}.

(** An endpoint that is not a zombie and has the form [host:port]. *)
Definition usable s (endpoint : string) : option (string * Z) :=
  if bool_decide (is_Some (zombie_services_ s !! endpoint)) then None else parse_endpoint endpoint.

Definition HandleDhtGet (m : ProviderListGet) : DCmd := read (fun s =>
  for_each (plg_results m) (fun endpoint =>
    match usable s endpoint with
    | None => skip
    | Some ep =>
        match clients_ s !! clientKeyBase (p_appName (plg_path m)) (c_actorName (plg_client m)) with
        | Some a => emit (ToActor (ad_socket a)
                            (port_update (plg_client m) (p_scope (plg_path m)) ep))
        | None => skip
        end
    end)).

Definition client_of (c : ClientDetails) : Client :=
  {| c_actorHost := cd_actor_host c; c_actorName := cd_actor_name c;
     c_instanceName := cd_instance_name c; c_portName := cd_port_name c |}.

Definition HandleDhtUpdate (m : ProviderListUpdate) : DCmd := read (fun s =>
  for_each (default [] (client_subscriptions_ s !! plu_providerpath m)) (fun c =>
    for_each (plu_newvalues m) (fun endpoint =>
      match usable s endpoint with
      | None => skip
      | Some ep =>
          match clients_ s !! clientKeyBase (cd_app_name c) (cd_actor_name c) with
          | Some a => emit (ToActor (ad_socket a)
              (port_update (client_of c) (if cd_is_local c then LOCAL else GLOBAL) ep))
          | None => skip
          end
      end))).

(** The loop of [HandleDhtGroupUpdate]; [sentCache] holds the sockets that
    got the message already. *)
Fixpoint send_group_update (m : GroupUpdate) (sentCache : gset Z)
    (clients : list (string * ActorDetails)) : list DiscOut :=
  match clients with
  | [] => []
  | (_, a) :: clients' =>
      if bool_decide (ad_app_name a = gu_appName m) then
        if bool_decide (ad_socket a ∈ sentCache) then send_group_update m sentCache clients'
        else ToActor (ad_socket a) (groupUpdate m)
             :: send_group_update m ({[ad_socket a]} ∪ sentCache) clients'
      else send_group_update m sentCache clients'
  end.

Definition HandleDhtGroupUpdate (m : GroupUpdate) : DCmd := fun s =>
  (s, send_group_update m ∅ (smap_to_list (clients_ s))).

(** ** Maintenance *)

Definition renew_due (now : Z) (sc : ServiceCheckins) : bool :=
  sc_timeout sc <? u64 (now - sc_createdTime sc).

Definition renewed (now : Z) (sc : ServiceCheckins) : ServiceCheckins :=
  if renew_due now sc then
    {| sc_key := sc_key sc; sc_value := sc_value sc; sc_createdTime := now;
       sc_timeout := sc_timeout sc |}
  else sc.

Definition RenewServices (now : Z) : DCmd := fun s =>
  (set_checkins (map (renewed now) <$> service_checkins_ s) s,
   sc ← concat (map snd (zmap_to_list (service_checkins_ s)));
   if renew_due now sc then [Put (InfoHash_get (sc_key sc)) (seal (sc_value sc))] else []).

(** ** The main loop *)

Definition HandleRiapsMessage (running : Z -> bool) (socket port now : Z)
    (msg : option (string * DiscoReq)) : RCmd := fun s =>
  match msg with
  | None => Ok (set_terminated true s, [])
  | Some (identity, req) =>
      let s := set_identity identity s in
      match req with
      | actorReg m => Ok (HandleActorReg running socket port m s)
      | actorUnreg m => Ok (HandleActorUnreg m s)
      | serviceReg m => HandleServiceReg now m s
      | serviceLookup m => HandleServiceLookup m s
      | groupJoin m => Ok (HandleGroupJoin now m s)
      end
  end.

(** What [zpoller_wait] woke up for; a message of the DHT socket that does
    not decode is [None]. *)
Inductive Event :=
| Idle_
| OnPipe (msg : option (list string))
| OnDht (msg : option DhtUpdate)
| OnRiaps (msg : option (string * DiscoReq)).

Definition HandleDhtMessage (clk : nat -> Z) (msg : option DhtUpdate) : DCmd :=
  match msg with
  | Some (providerUpdate m) => HandleDhtUpdate m
  | Some (providerGet m) => HandleDhtGet m
  | Some (zombieList l) => modify (OnZombieList clk l)
  | Some (dhtGroupUpdate m) => HandleDhtGroupUpdate m
  | None => skip
  end.

(** One round of [Run]; [start] is the clock at its start. *)
Definition RunStep (running : Z -> bool) (socket port start : Z) (clk : nat -> Z) (ev : Event)
    : RCmd := fun s =>
  let r1 := (when (service_check_period_ <? start - last_service_checkin_ s)
               (RenewServices (clk 0%nat)) ;;
             when (zombie_check_period_ <? start - last_zombie_check_ s)
               (modify (MaintainZombieList (clk 1%nat)))) s in
  '(s', out) ← match ev with
               | Idle_ => Ok (r1.1, [])
               | OnPipe msg => HandlePipeMessage msg r1.1
               | OnDht msg => Ok (HandleDhtMessage clk msg r1.1)
               | OnRiaps msg => HandleRiapsMessage running socket port (clk 2%nat) msg r1.1
               end;
  Ok (s', r1.2 ++ out).

(** ** The callbacks of the DHT *)

(** The callback of [Listen]: for every value that can be read, a message
    with all the values read so far. *)
Fixpoint listen_callback (lookupKey : string) (update_results : list string) (values : list V)
    : list DhtUpdate :=
  match values with
  | [] => []
  | v :: values' =>
      match unseal v with
      | None => listen_callback lookupKey update_results values'
      | Some result =>
          let update_results := update_results ++ [result] in
          providerUpdate {| plu_providerpath := lookupKey; plu_newvalues := update_results |}
          :: listen_callback lookupKey update_results values'
      end
  end.

(** The callback of [Get], for one value. *)
Definition get_callback (clientDetails : ClientDetails) (v : V) : list DhtUpdate :=
  match unseal v with
  | None => []
  | Some result =>
      [providerGet
         {| plg_path := {| p_appName := cd_app_name clientDetails; p_actorName := "";
                           p_msgType := ""; p_kind := NONE;
                           p_scope := if cd_is_local clientDetails then LOCAL else GLOBAL |};
            plg_client := client_of clientDetails; plg_results := [result] |}]
  end.

(** [DhtGet] calls itself when the search failed: the levels at which the
    DHT is asked, [success i] being the outcome at level [i]. *)
Fixpoint DhtGet_levels (success : nat -> bool) (callLevel fuel : nat) : list nat :=
  match fuel with
  | O => []
  | S f =>
      callLevel :: (if negb (success callLevel) && (callLevel <? 10)%nat
                    then DhtGet_levels success (S callLevel) f else [])
  end.

Definition group_update_of (d : GroupDetails) : GroupUpdate :=
  {| gu_appName := gd_app_name d; gu_groupId := gd_group_id d;
     gu_componentId := gd_component_id d; gu_services := gd_group_services d |}.

(** [PushDhtValuesToDisco]: a value that does not unpack throws, and ends
    the asynchronous call; what was sent before stays sent. *)
Fixpoint PushDhtValuesToDisco (values : list V) : list DhtUpdate :=
  match values with
  | [] => []
  | v :: values' =>
      match unseal v with
      | None => PushDhtValuesToDisco values'
      | Some raw =>
          match unpack raw with
          | Some d => dhtGroupUpdate (group_update_of d) :: PushDhtValuesToDisco values'
          | None => []
          end
      end
  end.

Definition HandleZombieUpdate (values : list V) : list DhtUpdate :=
  match omap unseal values with
  | [] => []
  | dhtResults => [zombieList dhtResults]
  end.
End Handlers.
