(* ===== verification/DiscoFacts.v ===== *)
(** DiscoFacts.v - what the discovery service of [MsgHandler.v] guarantees:
    the registry of actors, the invariant of its main loop, the delivery of
    providers to their clients, zombies, renewal and the DHT callbacks. *)

From Stdlib Require Import ZArith Lia Ascii.
From stdpp Require Import base gmap strings list fin_maps fin_sets sorting.
From S2P Require Import Prelude.
From S2P Require Import Timeout.
From S2P Require Import Ports.
From S2P Require Import Group.
From S2P Require Import Disco.
From S2P Require Import MsgHandler.

#[local] Open Scope riaps_scope.

Section Facts.
Context {V : Type}.
Variable seal : string -> V.
Variable InfoHash_get InfoHash : string -> string.
Variable pack : GroupDetails -> string.
Implicit Type s : Handler.

Abbreviation RunStep := (RunStep (V := V) seal InfoHash_get InfoHash pack).

(** ** The registry of actors *)

Definition actor_of (socket port : Z) (m : ActorRegReq) : ActorDetails :=
  {| ad_socket := socket; ad_port := port; ad_pid := ar_pid m; ad_app_name := ar_appName m |}.

Definition actor_keys s (app name : string) : list string :=
  [clientKeyBase app name; clientKeyBase app name +:+ mac_address_ s;
   clientKeyBase app name +:+ host_address_ s].

(** The registry after the old instance is purged. *)
Definition purged s (app name : string) : Handler :=
  if bool_decide (is_Some (clients_ s !! clientKeyBase app name))
  then (DeregisterActor app name s).2 else s.

Lemma HandleActorReg_fresh running socket port m s :
  let base := clientKeyBase (ar_appName m) (ar_actorName m) in
  let a := actor_of socket port m in
  match clients_ s !! base with Some a => running (ad_pid a) | None => false end = false ->
  HandleActorReg (V := V) InfoHash running socket port m s =
    (set_clients (<[base +:+ host_address_ s := a]> (<[base +:+ mac_address_ s := a]>
         (<[base := a]> (clients_ (purged s (ar_appName m) (ar_actorName m))))))
       (if bool_decide (ar_appName m ∉ group_listeners_ s)
        then set_group_listeners ({[ar_appName m]} ∪ group_listeners_ s) s else s),
     (if bool_decide (ar_appName m ∉ group_listeners_ s)
      then [ListenGroups (InfoHash (group_key (ar_appName m)))] else [])
     ++ [Replied (rep_identity_ s) (actorRegRep OK port)]).
Proof.
  intros base a Hrun. unfold HandleActorReg, read at 1. fold base. rewrite Hrun. unfold purged.
  unfold when, seq, modify, reply, emit, read. simpl. rewrite andb_true_r. fold base.
  destruct (bool_decide (is_Some _)); simpl;
    destruct (bool_decide (ar_appName m ∉ group_listeners_ s)); reflexivity.
Qed.

Lemma HandleActorReg_clients running socket port m s k :
  let base := clientKeyBase (ar_appName m) (ar_actorName m) in
  match clients_ s !! base with Some a => running (ad_pid a) | None => false end = false ->
  clients_ (HandleActorReg (V := V) InfoHash running socket port m s).1 !! k =
    if decide (k ∈ actor_keys s (ar_appName m) (ar_actorName m))
    then Some (actor_of socket port m) else clients_ s !! k.
Proof.
  clear seal InfoHash_get pack. intros base Hrun.
  rewrite (HandleActorReg_fresh running socket port m s Hrun).
  cbn [fst clients_ set_clients]. fold base. set (s0 := purged s (ar_appName m) (ar_actorName m)).
  assert (k ∉ actor_keys s (ar_appName m) (ar_actorName m) -> clients_ s0 !! k = clients_ s !! k) as Hs0.
  { intros Hk. subst s0. unfold purged. destruct (bool_decide _); [|done]. simpl.
    rewrite !lookup_delete_ne; [done|..]; intros <-; apply Hk; unfold actor_keys; fold base; set_solver. }
  destruct (decide (k ∈ _)) as [Hk|Hk].
  - unfold actor_keys in Hk. fold base in Hk. rewrite !elem_of_cons, elem_of_nil in Hk.
    destruct (decide (base +:+ host_address_ s = k)) as [<-|?]; [apply lookup_insert_eq|].
    rewrite lookup_insert_ne by done.
    destruct (decide (base +:+ mac_address_ s = k)) as [<-|?]; [apply lookup_insert_eq|].
    rewrite lookup_insert_ne by done. destruct Hk as [->|[->|[->|[]]]]; [|done..].
    apply lookup_insert_eq.
  - rewrite <- (Hs0 Hk). rewrite !lookup_insert_ne; [done|..];
      intros <-; apply Hk; unfold actor_keys; fold base; set_solver.
Qed.

(** Registration of an actor, both branches.  While the process that
    registered the name runs, a second registration is refused and changes
    nothing; otherwise the actor is reachable under its three keys, no other
    key changes, the reply carries the port of its new socket, and the
    application's groups are listened to. *)
Theorem HandleActorReg_spec running socket port m s :
  let name := ar_actorName m in
  let base := clientKeyBase (ar_appName m) name in
  let r := HandleActorReg (V := V) InfoHash running socket port m s in
  if match clients_ s !! base with Some a => running (ad_pid a) | None => false end then
    r = (s, [Replied (rep_identity_ s) (actorRegRep ERR 0)])
  else
    (forall k, clients_ r.1 !! k =
       if decide (k ∈ actor_keys s (ar_appName m) name)
       then Some (actor_of socket port m) else clients_ s !! k)
    /\ Replied (rep_identity_ s) (actorRegRep OK port) ∈ r.2
    /\ group_listeners_ r.1 = {[ar_appName m]} ∪ group_listeners_ s
    /\ (ar_appName m ∉ group_listeners_ s -> ListenGroups (InfoHash (group_key (ar_appName m))) ∈ r.2).
Proof.
  intros name base r.
  destruct (match clients_ s !! base with Some a => running (ad_pid a) | None => false end) eqn:Hrun.
  { subst r. unfold HandleActorReg, read at 1. fold name base. by rewrite Hrun. }
  split_and!; [intros k; by apply HandleActorReg_clients|..];
    subst r; rewrite (HandleActorReg_fresh running socket port m s Hrun); cbn [fst snd].
  - apply elem_of_app. right. by apply list_elem_of_singleton.
  - case_bool_decide as Hin; simpl; [done|]. symmetry. apply subseteq_union_1_L.
    apply singleton_subseteq_l. by destruct (decide (ar_appName m ∈ group_listeners_ s)).
  - intros Hin. rewrite bool_decide_eq_true_2 by done. left.
Qed.

Lemma Unreg_clients app name s k :
  clients_ (DeregisterActor app name s).2 !! k =
    if decide (k ∈ actor_keys s app name) then None else clients_ s !! k.
Proof.
  simpl. unfold actor_keys. destruct (decide (k ∈ _)) as [Hk|Hk];
    rewrite !elem_of_cons, elem_of_nil in Hk.
  - apply lookup_delete_None.
    destruct (decide (clientKeyBase app name +:+ host_address_ s = k)) as [|H1]; [by left|right].
    apply lookup_delete_None.
    destruct (decide (clientKeyBase app name +:+ mac_address_ s = k)) as [|H2]; [by left|right].
    apply lookup_delete_None. left. destruct Hk as [->|[->|[->|[]]]]; done.
  - rewrite !lookup_delete_ne; [done|..]; intros <-; apply Hk; auto.
Qed.

Lemma mark_zombie_run address s :
  mark_zombie seal InfoHash_get address s =
    (s, [Put (InfoHash_get (match str_find_sub "127.0.0.1" address with
                            | Some _ => zombielocalkey_ s | None => zombieglobalkey_ end))
           (seal address)]).
Proof. unfold mark_zombie, read, DhtPut, emit. by destruct (str_find_sub _ _). Qed.

Definition zombie_marks s (services : list ServiceCheckins) : list (DiscOut (V := V)) :=
  concat (map (fun sc =>
    [Put (InfoHash_get (match str_find_sub "127.0.0.1" (sc_value sc) with
                        | Some _ => zombielocalkey_ s | None => zombieglobalkey_ end))
       (seal (sc_value sc)); DbDel (sc_key sc)]) services).

Definition unreg_reply (actor : option ActorDetails) : DiscoRep :=
  match actor with
  | Some a => if bool_decide (ad_port a = -1) then actorUnregRep ERR 0
              else actorUnregRep OK (ad_port a)
  | None => actorUnregRep ERR 0
  end.

Lemma HandleActorUnreg_run m s :
  HandleActorUnreg seal InfoHash_get m s =
    ((DeregisterActor (au_appName m) (au_actorName m) s).2,
     zombie_marks s (default [] (service_checkins_ s !! au_pid m))
     ++ [Replied (rep_identity_ s)
           (unreg_reply (clients_ s !! clientKeyBase (au_appName m) (au_actorName m)))]).
Proof.
  unfold HandleActorUnreg, zombie_marks. erewrite seq_run.
  2: { unfold read at 1. apply for_each_emit. intros sc _. unfold seq. rewrite mark_zombie_run. reflexivity. }
  unfold read, seq, modify, reply, emit. simpl. do 3 f_equal.
  destruct (clients_ s !! _) as [a|]; [|done]. simpl. by repeat case_bool_decide.
Qed.

(** Unregistration: every service that the process registered is put
    under the zombie key of its scope and deleted from the data base, in
    order; the three keys of the actor disappear and no other; the reply
    carries the actor's port, or an error if it was not registered.  The
    services stay in the list that [RenewServices] works on. *)
Theorem HandleActorUnreg_spec m s :
  let services := default [] (service_checkins_ s !! au_pid m) in
  let actor := clients_ s !! clientKeyBase (au_appName m) (au_actorName m) in
  let r := HandleActorUnreg seal InfoHash_get m s in
  (forall k, clients_ r.1 !! k =
     if decide (k ∈ actor_keys s (au_appName m) (au_actorName m)) then None else clients_ s !! k)
  /\ service_checkins_ r.1 = service_checkins_ s
  /\ r.2 = zombie_marks s services ++ [Replied (rep_identity_ s) (unreg_reply actor)].
Proof.
  intros services actor r. subst r. rewrite HandleActorUnreg_run.
  split_and!; [intros k; apply Unreg_clients|done..].
Qed.

(** Round trip of the registry: an actor that registers under free keys
    and unregisters gets the port of its socket back, and leaves the registry
    as it was before. *)
Theorem register_unregister running socket port m pid s :
  (forall k, k ∈ actor_keys s (ar_appName m) (ar_actorName m) -> clients_ s !! k = None) ->
  port <> -1 ->
  let s1 := (HandleActorReg (V := V) InfoHash running socket port m s).1 in
  let r := HandleActorUnreg seal InfoHash_get
             {| au_appName := ar_appName m; au_actorName := ar_actorName m; au_pid := pid |} s1 in
  clients_ r.1 = clients_ s /\ Replied (rep_identity_ s) (actorUnregRep OK port) ∈ r.2.
Proof.
  intros Hfree Hport s1 r.
  set (base := clientKeyBase (ar_appName m) (ar_actorName m)).
  assert (clients_ s !! base = None) as Hb by (apply Hfree; left).
  assert (match clients_ s !! base with Some a => running (ad_pid a) | None => false end = false)
    as Hrun by by rewrite Hb.
  pose proof (fun k => HandleActorReg_clients running socket port m s k Hrun) as Hreg.
  fold s1 in Hreg.
  assert (mac_address_ s1 = mac_address_ s /\ host_address_ s1 = host_address_ s
          /\ rep_identity_ s1 = rep_identity_ s) as (Hm & Hh & Hi).
  { subst s1. rewrite (HandleActorReg_fresh running socket port m s Hrun). simpl.
    by destruct (bool_decide _). }
  assert (actor_keys s1 (ar_appName m) (ar_actorName m) = actor_keys s (ar_appName m) (ar_actorName m))
    as Hk by (unfold actor_keys; by rewrite Hm, Hh).
  subst r. rewrite HandleActorUnreg_run. cbn [fst snd au_appName au_actorName]. split.
  - apply map_eq. intros k. rewrite Unreg_clients, Hk, Hreg. destruct (decide _) as [Hin|]; [|done].
    by rewrite Hfree.
  - apply elem_of_app. right. fold base. rewrite Hreg, Hi.
    rewrite decide_True by left. simpl. rewrite bool_decide_eq_false_2 by done.
    by apply list_elem_of_singleton.
Qed.

(** ** Delivery of providers *)

Lemma usable_iff s ep x :
  usable s ep = Some x <-> zombie_services_ s !! ep = None /\ parse_endpoint ep = Some x.
Proof.
  unfold usable. case_bool_decide as Hz.
  - destruct Hz as [t Hz]. rewrite Hz. split; [done|]. by intros [? _].
  - apply eq_None_not_Some in Hz. tauto.
Qed.

(** The delivery of endpoint [ep] to the subscription [c]. *)
Definition delivery s (c : ClientDetails) (ep : string) : list (DiscOut (V := V)) :=
  match usable s ep with
  | None => []
  | Some x =>
      match clients_ s !! clientKeyBase (cd_app_name c) (cd_actor_name c) with
      | Some a => [ToActor (ad_socket a)
                     (port_update (client_of c) (if cd_is_local c then LOCAL else GLOBAL) x)]
      | None => []
      end
  end.

Lemma HandleDhtUpdate_run m s :
  HandleDhtUpdate (V := V) m s =
    (s, concat (map (fun c => concat (map (delivery s c) (plu_newvalues m)))
          (default [] (client_subscriptions_ s !! plu_providerpath m)))).
Proof.
  unfold HandleDhtUpdate, read. apply for_each_emit. intros c _.
  apply for_each_emit. intros ep _. unfold delivery.
  destruct (usable s ep); [|done]. by destruct (clients_ s !! _).
Qed.

(** C21. Delivery: a provider update changes no state, and sends an actor the
    endpoint [host:port] exactly if a client of a registered actor has
    subscribed to the key, the update lists an endpoint with that host and
    port, and this endpoint is not a zombie. *)
Theorem HandleDhtUpdate_spec m s sock u :
  (HandleDhtUpdate (V := V) m s).1 = s
  /\ (ToActor sock u ∈ (HandleDhtUpdate (V := V) m s).2 <->
      exists c cs a ep x,
        client_subscriptions_ s !! plu_providerpath m = Some cs /\ c ∈ cs
        /\ clients_ s !! clientKeyBase (cd_app_name c) (cd_actor_name c) = Some a /\ ad_socket a = sock
        /\ ep ∈ plu_newvalues m /\ zombie_services_ s !! ep = None /\ parse_endpoint ep = Some x
        /\ u = port_update (client_of c) (if cd_is_local c then LOCAL else GLOBAL) x).
Proof.
  rewrite HandleDhtUpdate_run. split; [done|]. cbn [snd]. rewrite elem_of_concat_map. split.
  - intros (c & Hc & Ho). apply elem_of_concat_map in Ho as (ep & Hep & Ho).
    destruct (client_subscriptions_ s !! plu_providerpath m) as [cs|]; [|by apply elem_of_nil in Hc].
    unfold delivery in Ho. destruct (usable s ep) as [x|] eqn:Hu; [|by apply elem_of_nil in Ho].
    destruct (clients_ s !! _) as [a|] eqn:Ha; [|by apply elem_of_nil in Ho].
    apply list_elem_of_singleton in Ho. injection Ho as -> ->. apply usable_iff in Hu as [? ?].
    exists c, cs, a, ep, x. by split_and!.
  - intros (c & cs & a & ep & x & Hcs & Hc & Ha & <- & Hep & Hz & Hx & ->).
    exists c. rewrite Hcs. split; [done|]. apply elem_of_concat_map. exists ep. split; [done|].
    unfold delivery. rewrite (proj2 (usable_iff s ep x)) by done. rewrite Ha.
    by apply list_elem_of_singleton.
Qed.

(** Discovery end to end, on one handler: a client of a registered actor
    that has looked a service up is told the address of a provider of that
    service, when the DHT reports what a node stored for it.  [mac] and
    [node_host] are those of the provider's node; for a local scope they are
    this node's. *)
Theorem discovery_end_to_end lookup s s1 out1 a partner_kind mac host port key value :
  let path := sl_path lookup in
  let client := sl_client lookup in
  HandleServiceLookup (V := V) InfoHash_get lookup s = Ok (s1, out1) ->
  clients_ s !! clientKeyBase (p_appName path) (c_actorName client) = Some a ->
  partner (p_kind path) = Some partner_kind ->
  (p_scope path = LOCAL -> mac = mac_address_ s) ->
  BuildInsertKeyValuePair mac (p_appName path) (p_msgType path) partner_kind (p_scope path) host port
    = Ok (key, value) ->
  str_find ":"%char host = None -> in_u 16 port -> zombie_services_ s !! value = None ->
  ToActor (ad_socket a)
    (portUpdate {| pu_client := {| c_actorHost := host_address_ s;
                                   c_actorName := c_actorName client;
                                   c_instanceName := c_instanceName client;
                                   c_portName := c_portName client |};
                   pu_scope := if bool_decide (p_scope path = LOCAL) then LOCAL else GLOBAL;
                   pu_socket := {| s_host := host; s_port := port |} |})
  ∈ (HandleDhtUpdate (V := V) {| plu_providerpath := key; plu_newvalues := [value] |} s1).2.
Proof.
  intros path client Hlook Ha Hp Hmac Hins Hhost Hport Hz.
  destruct (insert_lookup_key mac (mac_address_ s) (p_appName path) (p_msgType path) (p_kind path)
    partner_kind (p_scope path) host port (c_actorHost client) (c_actorName client)
    (c_instanceName client) (c_portName client) key value Hp Hmac Hins) as [cl E2].
  pose proof (endpoint_roundtrip_aux mac (p_appName path) (p_msgType path) partner_kind
    (p_scope path) host port key value Hhost Hport Hins) as Hparse.
  unfold HandleServiceLookup in Hlook. fold path client in Hlook. rewrite E2 in Hlook. simpl in Hlook.
  injection Hlook as <- _.
  set (cd := {| cd_app_name := p_appName path; cd_actor_name := c_actorName client;
       cd_actor_host := host_address_ s; cd_instance_name := c_instanceName client;
       cd_port_name := c_portName client; cd_is_local := bool_decide (p_scope path = LOCAL) |}).
  rewrite HandleDhtUpdate_run. cbn [snd]. apply elem_of_concat_map. exists cd.
  unfold when, seq, modify, reply, emit, read.
  split.
  - destruct (bool_decide (_ ∉ _)); simpl; rewrite lookup_insert_eq; simpl;
      apply elem_of_app; right; by apply list_elem_of_singleton.
  - assert (forall s', zombie_services_ s' = zombie_services_ s -> clients_ s' = clients_ s ->
      ToActor (ad_socket a)
        (port_update (client_of cd) (if cd_is_local cd then LOCAL else GLOBAL) (host, port))
      ∈ delivery s' cd value) as Hd.
    { intros s' Hz' Hc'. unfold delivery.
      rewrite (proj2 (usable_iff s' value (host, port))) by (by rewrite Hz').
      rewrite Hc'. simpl. rewrite Ha. by apply list_elem_of_singleton. }
    unfold port_update in Hd. simpl in Hd. rewrite (swrap_id 32 port) in Hd
      by (unfold in_s, in_u in *; lia).
    destruct (bool_decide (_ ∉ _)); cbn [plu_newvalues map concat]; rewrite app_nil_r; by apply Hd.
Qed.

Lemma HandleDhtGet_run m s :
  HandleDhtGet (V := V) m s =
    (s, concat (map (fun ep =>
       match usable s ep, clients_ s !! clientKeyBase (p_appName (plg_path m)) (c_actorName (plg_client m)) with
       | Some x, Some a => [ToActor (ad_socket a) (port_update (plg_client m) (p_scope (plg_path m)) x)]
       | _, _ => []
       end) (plg_results m))).
Proof.
  unfold HandleDhtGet, read. apply for_each_emit. intros ep _.
  destruct (usable s ep); [|done]. by destruct (clients_ s !! _).
Qed.

Lemma stamp_other clk k l m z : z ∉ l -> stamp_zombies clk k l m !! z = m !! z.
Proof.
  revert k m. induction l as [|y l IH]; intros k m; [done|].
  intros [Hne Hl]%not_elem_of_cons. simpl. rewrite IH by done. by apply lookup_insert_ne.
Qed.

Lemma stamp_at clk k l m z i :
  l !! i = Some z -> NoDup l -> stamp_zombies clk k l m !! z = Some (clk (k + i)%nat).
Proof.
  revert k m i. induction l as [|y l IH]; intros k m i Hi Hnd; [done|].
  apply NoDup_cons in Hnd as [Hy Hnd]. destruct i as [|i]; simpl in *.
  - injection Hi as ->. rewrite Nat.add_0_r, stamp_other by done. apply lookup_insert_eq.
  - rewrite (IH _ _ i Hi Hnd). do 2 f_equal. lia.
Qed.

(** Zombies are not offered: a provider that a zombie message has named
    reaches no actor, neither by an update nor by a lookup, as long as the
    list is maintained at most 15 minutes after the message; it is offered
    again once it is purged, from the first maintenance later than that. *)
Theorem zombies_not_offered clk l s now z i t :
  l !! i = Some z -> NoDup l -> clk i = t ->
  let s1 := MaintainZombieList now (OnZombieList clk l s) in
  (now - t <= 15 * 60 * 1000 ->
     (forall path c, (HandleDhtGet (V := V)
        {| plg_path := path; plg_client := c; plg_results := [z] |} s1).2 = [])
     /\ (forall key, (HandleDhtUpdate (V := V)
        {| plu_providerpath := key; plu_newvalues := [z] |} s1).2 = []))
  /\ (15 * 60 * 1000 < now - t -> usable s1 z = parse_endpoint z).
Proof.
  intros Hi Hnd Ht s1.
  assert (zombie_services_ (OnZombieList clk l s) !! z = Some t) as Hz
    by (simpl; rewrite (stamp_at clk 0 l _ z i Hi Hnd); by subst t).
  assert (zombie_services_ s1 !! z = if decide (now - t <= 15 * 60 * 1000) then Some t else None) as Hs1.
  { subst s1. cbn [MaintainZombieList zombie_services_ set_zombies].
    rewrite map_lookup_filter, Hz. simpl. unfold zombie_fresh. simpl.
    destruct (decide (now - t <= 15 * 60 * 1000)); [by rewrite option_guard_True|by rewrite option_guard_False]. }
  split.
  - intros Hle. rewrite decide_True in Hs1 by lia.
    assert (usable s1 z = None) as Hu
      by (unfold usable; by rewrite bool_decide_eq_true_2 by (rewrite Hs1; eauto)).
    split; intros; [rewrite HandleDhtGet_run|rewrite HandleDhtUpdate_run]; simpl.
    + by rewrite Hu.
    + induction (default [] _) as [|c cs IHc]; [done|]. simpl. rewrite IHc. unfold delivery.
      by rewrite Hu.
  - intros Hlt. rewrite decide_False in Hs1 by lia. unfold usable.
    by rewrite bool_decide_eq_false_2 by (rewrite Hs1; by intros [??]).
Qed.

(** Group updates: every actor of the application gets the update exactly
    once, although it is stored under three keys, and no other actor gets it. *)
Theorem HandleDhtGroupUpdate_spec m s :
  let out := (HandleDhtGroupUpdate (V := V) m s).2 in
  (forall sock u, ToActor sock u ∈ out <->
     u = groupUpdate m /\ exists k a, clients_ s !! k = Some a /\ ad_app_name a = gu_appName m
                                     /\ ad_socket a = sock)
  /\ NoDup out.
Proof.
  intros out. subst out. cbn [HandleDhtGroupUpdate snd].
  assert (forall l cache,
    (forall sock u, ToActor sock u ∈ send_group_update (V := V) m cache l <->
       u = groupUpdate m /\ (sock ∉ cache) /\ exists k a, (k, a) ∈ l /\ ad_app_name a = gu_appName m
         /\ ad_socket a = sock)
    /\ NoDup (send_group_update (V := V) m cache l)
    /\ (forall o, o ∈ send_group_update (V := V) m cache l -> exists sock u, o = ToActor sock u)) as H.
  { induction l as [|[k a] l IH]; intros cache; cbn [send_group_update].
    { split_and!; [|constructor|by intros o ?%elem_of_nil].
      intros sock u. rewrite elem_of_nil. split; [done|]. by intros (_ & _ & ? & ? & ?%elem_of_nil & _). }
    assert (forall P : string -> ActorDetails -> Prop,
      (exists k' a', (k', a') ∈ (k, a) :: l /\ P k' a') <-> P k a \/ exists k' a', (k', a') ∈ l /\ P k' a') as Hex.
    { intros P. split.
      - intros (k' & a' & [[= -> ->]|Hin]%elem_of_cons & HP); [by left|right; eauto].
      - intros [HP|(k' & a' & Hin & HP)]; [exists k, a; split; [left|done]|].
        exists k', a'. split; [by right|done]. }
    case_bool_decide as Happ; [case_bool_decide as Hc|].
    - destruct (IH cache) as (I1 & I2 & I3). split_and!; [|done..]. intros sock u.
      rewrite I1, Hex. split; [naive_solver|]. intros (-> & Hs & [[_ <-]|He]); [done|tauto].
    - destruct (IH ({[ad_socket a]} ∪ cache)) as (I1 & I2 & I3). split_and!.
      + intros sock u. rewrite elem_of_cons, I1, Hex, not_elem_of_union, not_elem_of_singleton. split.
        * intros [[= -> ->]|(-> & [Hne Hs] & He)]; [by auto|]. split_and!; [done..|by right].
        * intros (-> & Hs & He). destruct (decide (sock = ad_socket a)) as [->|Hne]; [by left|right].
          split_and!; [done..|]. destruct He as [[_ <-]|He]; done.
      + apply NoDup_cons. split; [|done]. rewrite I1. set_solver.
      + intros o [->|Ho]%elem_of_cons; [by eauto|by apply I3].
    - destruct (IH cache) as (I1 & I2 & I3). split_and!; [|done..]. intros sock u.
      rewrite I1, Hex. naive_solver. }
  destruct (H (smap_to_list (clients_ s)) ∅) as (I1 & I2 & _). split; [|done].
  intros sock u. rewrite I1. split.
  - intros (-> & _ & k & a & Hin%elem_of_smap_to_list & ? & ?). split; [done|]. by exists k, a.
  - intros (-> & k & a & Hin & ? & ?). split_and!; [done|set_solver|].
    exists k, a. split; [by apply elem_of_smap_to_list|done].
Qed.

(** ** Renewal *)

Lemma elem_of_zmap_values {A} (m : gmap Z A) x :
  x ∈ map snd (zmap_to_list m) <-> exists pid, m !! pid = Some x.
Proof.
  unfold zmap_to_list. rewrite merge_sort_Permutation. rewrite list_elem_of_fmap. split.
  - intros ([pid y] & -> & Hin%elem_of_map_to_list). by exists pid.
  - intros (pid & Hin). exists (pid, x). split; [done|]. by apply elem_of_map_to_list.
Qed.

Definition registered_at s (sc : ServiceCheckins) : Prop :=
  exists pid l, service_checkins_ s !! pid = Some l /\ sc ∈ l.

Definition sane_times s (now : Z) : Prop :=
  forall sc, registered_at s sc -> 0 <= sc_createdTime sc <= now.

(** Renewal: a pass puts exactly the services whose last put is older
    than their time out, after it no service is older, and a service that
    was put is left alone until its time out has passed again. *)
Theorem RenewServices_spec now s :
  now < 2 ^ 64 -> sane_times s now ->
  let r := RenewServices seal InfoHash_get now s in
  (forall h v, Put h v ∈ r.2 <-> exists sc, registered_at s sc /\ sc_timeout sc < now - sc_createdTime sc
      /\ h = InfoHash_get (sc_key sc) /\ v = seal (sc_value sc))
  /\ (forall sc, registered_at r.1 sc -> 0 <= sc_timeout sc -> now - sc_createdTime sc <= sc_timeout sc)
  /\ (forall sc later, registered_at s sc -> renew_due now sc = true -> now <= later < 2 ^ 64 ->
       later - now <= sc_timeout sc -> renew_due later (renewed now sc) = false).
Proof.
  intros Hnow Hsane r.
  assert (forall sc, registered_at s sc -> renew_due now sc = (sc_timeout sc <? now - sc_createdTime sc)) as Hdue.
  { intros sc Hsc%Hsane. unfold renew_due. by rewrite uwrap_id by (unfold in_u; lia). }
  split_and!.
  - intros h v. subst r. cbn [RenewServices snd]. rewrite list_elem_of_bind. split.
    + intros (sc & Hin & Hsc). apply list_elem_of_In, in_concat in Hsc as (l & Hl & Hsc).
      apply list_elem_of_In, elem_of_zmap_values in Hl as (pid & Hl). apply list_elem_of_In in Hsc.
      assert (registered_at s sc) as Hreg by (by exists pid, l). rewrite (Hdue _ Hreg) in Hin.
      destruct (_ <? _) eqn:E; [|by apply elem_of_nil in Hin]. bool_to_prop.
      apply list_elem_of_singleton in Hin. injection Hin as -> ->. by exists sc.
    + intros (sc & (pid & l & Hl & Hsc) & Hlt & -> & ->). exists sc. split.
      * rewrite Hdue by (by exists pid, l). rewrite (proj2 (Z.ltb_lt _ _) Hlt). by apply list_elem_of_singleton.
      * apply list_elem_of_In, in_concat. exists l. split; apply list_elem_of_In; [|done].
        apply elem_of_zmap_values. by exists pid.
  - intros sc (pid & l & Hl & Hsc). subst r. simpl in Hl. rewrite lookup_fmap in Hl.
    destruct (service_checkins_ s !! pid) as [l0|] eqn:E0; simpl in Hl; [|done]. injection Hl as <-.
    apply list_elem_of_fmap in Hsc as (sc0 & -> & Hsc0).
    assert (registered_at s sc0) as Hreg by (by exists pid, l0).
    unfold renewed. rewrite (Hdue _ Hreg). destruct (_ <? _) eqn:E; bool_to_prop; simpl; lia.
  - intros sc later Hreg Hd Hl Hle. pose proof (Hsane _ Hreg). unfold renewed. rewrite Hd. unfold renew_due. simpl.
    rewrite uwrap_id by (unfold in_u; lia). apply Z.ltb_ge. lia.
Qed.

(** ** Callbacks *)

(** A search in the DHT is repeated until it succeeds, but never more
    than ten times: it makes at most eleven attempts, one per level, and
    stops at the first that succeeds. *)
Theorem DhtGet_attempts success :
  let levels := DhtGet_levels success 0 11 in
  (forall extra, DhtGet_levels success 0 (11 + extra) = levels)
  /\ (length levels <= 11)%nat
  /\ (forall n, (n < 11)%nat -> (n ∈ levels <-> forall k, (k < n)%nat -> success k = false)).
Proof.
  assert (forall l f extra, (11 - l <= f)%nat -> (0 < f)%nat ->
    DhtGet_levels success l (f + extra) = DhtGet_levels success l f) as Hfuel.
  { intros l f extra. revert l. induction f as [|f IH]; intros l Hl Hf; [lia|]. simpl. f_equal.
    destruct (success l); simpl; [done|]. destruct (l <? 10)%nat eqn:E; [|done].
    apply Nat.ltb_lt in E. apply IH; lia. }
  assert (forall f l, (length (DhtGet_levels success l f) <= f)%nat) as Hlen.
  { induction f as [|f IH]; intros l; simpl; [lia|]. case_match; simpl; [specialize (IH (S l))|]; lia. }
  assert (forall f l n, (f = 11 - l)%nat -> (l <= n < 11)%nat ->
    (n ∈ DhtGet_levels success l f <-> forall k, (l <= k < n)%nat -> success k = false)) as Hin.
  { induction f as [|f IH]; intros l n Hf Hn; [lia|]. cbn [DhtGet_levels]. rewrite elem_of_cons. split.
    - intros [->|Hr] k Hk; [lia|]. destruct (success l) eqn:Es; simpl in Hr; [by apply elem_of_nil in Hr|].
      destruct (l <? 10)%nat eqn:E; [apply Nat.ltb_lt in E|by apply elem_of_nil in Hr].
      destruct (decide (k = l)) as [->|Hne]; [done|].
      destruct (decide (n = l)) as [->|]; [lia|]. eapply IH; [| |exact Hr|]; lia.
    - intros Hall. destruct (decide (n = l)) as [->|Hne]; [by left|right].
      rewrite Hall by lia. rewrite (proj2 (Nat.ltb_lt _ _)) by lia. simpl.
      apply IH; [lia..|]. intros k Hk. apply Hall. lia. }
  split_and!; [intros extra; apply Hfuel; lia|apply Hlen|].
  intros n Hn. rewrite (Hin 11%nat 0%nat n) by lia. split; intros Hall k Hk; apply Hall; lia.
Qed.

(** ** The invariant of the main loop *)

(** The groups of every registered actor's application are listened to; every
    key somebody subscribed to is listened to; registrations are stored under
    their process; every service has the standard time out. *)
Record handler_wf s : Prop := {
  hw_groups k a : clients_ s !! k = Some a -> ad_app_name a ∈ group_listeners_ s;
  hw_listen key : is_Some (client_subscriptions_ s !! key) -> InfoHash_get key ∈ registered_listeners_ s;
  hw_pids pid l g : group_services_ s !! pid = Some l -> g ∈ l -> rg_actorPid g = pid;
  hw_services sc : registered_at s sc -> sc_timeout sc = service_timeout;
}.

Lemma wf_same s s' :
  clients_ s' ⊆ clients_ s -> group_listeners_ s' = group_listeners_ s ->
  client_subscriptions_ s' = client_subscriptions_ s ->
  registered_listeners_ s' = registered_listeners_ s ->
  group_services_ s' = group_services_ s -> service_checkins_ s' = service_checkins_ s ->
  handler_wf s -> handler_wf s'.
Proof.
  intros E1 E2 E3 E4 E5 E6 [W1 W2 W3 W4]. split.
  - intros k a Hk. rewrite E2. by eapply W1, lookup_weaken.
  - intros key. rewrite E3, E4. apply W2.
  - intros pid l g. rewrite E5. apply W3.
  - intros sc. unfold registered_at. rewrite E6. apply W4.
Qed.

Ltac same_wf := eapply wf_same; [..|eassumption]; reflexivity.

Lemma deregister_subseteq app name s : clients_ (DeregisterActor app name s).2 ⊆ clients_ s.
Proof.
  simpl. etransitivity; [apply delete_subseteq|]. etransitivity; [apply delete_subseteq|].
  apply delete_subseteq.
Qed.

Lemma wf_ActorReg running socket port m s :
  handler_wf s -> handler_wf (HandleActorReg (V := V) InfoHash running socket port m s).1.
Proof.
  intros W.
  destruct (match clients_ s !! clientKeyBase (ar_appName m) (ar_actorName m) with
            | Some a => running (ad_pid a) | None => false end) eqn:Hrun.
  { unfold HandleActorReg, read at 1. by rewrite Hrun. }
  pose proof (fun k => HandleActorReg_clients running socket port m s k Hrun) as Hc.
  rewrite (HandleActorReg_fresh running socket port m s Hrun) in *. cbn [fst] in *.
  destruct W as [W1 W2 W3 W4]. split.
  - intros k a. rewrite Hc. intros Ha.
    assert (ad_app_name a = ar_appName m \/ ad_app_name a ∈ group_listeners_ s) as Hor.
    { destruct (decide _); [left; by injection Ha as <-|right; eauto]. }
    cbn [group_listeners_ set_clients]. case_bool_decide as Hin; cbn [group_listeners_ set_group_listeners].
    + apply elem_of_union. destruct Hor as [->|?]; [left; by apply elem_of_singleton|by right].
    + destruct Hor as [->|?]; [|done]. by destruct (decide (ar_appName m ∈ group_listeners_ s)).
  - intros key. destruct (bool_decide _); apply W2.
  - intros pid l g. destruct (bool_decide _); apply W3.
  - intros sc. destruct (bool_decide _); apply W4.
Qed.

Lemma wf_ActorUnreg m s : handler_wf s -> handler_wf (HandleActorUnreg seal InfoHash_get m s).1.
Proof.
  rewrite HandleActorUnreg_run. cbn [fst]. apply wf_same; [apply deregister_subseteq|done..].
Qed.

Lemma wf_ServiceReg now m s s' out :
  HandleServiceReg seal InfoHash_get now m s = Ok (s', out) -> handler_wf s -> handler_wf s'.
Proof.
  unfold HandleServiceReg. destruct (BuildInsertKeyValuePair _ _ _ _ _ _ _) as [[key value]| |]; simpl; [|done..].
  intros [= <- _] [W1 W2 W3 W4].
  unfold when, seq, modify, reply, emit, read, DhtPut.
  destruct (bool_decide _); simpl; (split; simpl; [done..|]);
    intros sc; unfold registered_at; simpl;
    intros (pid & l & [[<- <-]|[_ Hl]]%lookup_insert_Some & Hsc); try (apply W4; by exists pid, l);
    (apply elem_of_app in Hsc as [Hsc| ->%list_elem_of_singleton]; [|done]);
    (destruct (service_checkins_ s !! sr_pid m) as [l0|] eqn:E; simpl in Hsc; [|by apply elem_of_nil in Hsc]);
    apply W4; by exists (sr_pid m), l0.
Qed.

Lemma wf_ServiceLookup m s s' out :
  HandleServiceLookup (V := V) InfoHash_get m s = Ok (s', out) -> handler_wf s -> handler_wf s'.
Proof.
  unfold HandleServiceLookup. destruct (BuildLookupKey _ _ _ _ _ _ _ _ _) as [[key c]| |]; simpl; [|done..].
  intros [= <- _] [W1 W2 W3 W4]. unfold when, seq, modify, reply, emit, read.
  case_bool_decide as Hin; simpl; (split; simpl; [done| |done..]);
    intros key' [x [[<- _]|[_ Hx]]%lookup_insert_Some].
  - apply elem_of_union. left. by apply elem_of_singleton.
  - apply elem_of_union. right. apply W2. by exists x.
  - by destruct (decide (InfoHash_get key ∈ registered_listeners_ s)).
  - apply W2. by exists x.
Qed.

Lemma wf_GroupJoin now m s :
  handler_wf s -> handler_wf (HandleGroupJoin seal InfoHash_get InfoHash pack now m s).1.
Proof.
  intros [W1 W2 W3 W4]. unfold HandleGroupJoin, seq, modify, reply, emit, read, DhtPut. simpl.
  split; simpl; [done..| |done]. intros pid l g [[<- <-]|[_ Hl]]%lookup_insert_Some Hg; [|by eapply W3].
  apply elem_of_app in Hg as [Hg| ->%list_elem_of_singleton]; [|done].
  destruct (group_services_ s !! gj_pid m) as [l0|] eqn:E; simpl in Hg; [|by apply elem_of_nil in Hg].
  by eapply W3.
Qed.

Lemma wf_maintenance (b1 b2 : bool) t1' t2' s :
  handler_wf s ->
  handler_wf ((when b1 (RenewServices seal InfoHash_get t1') ;;
               when b2 (modify (MaintainZombieList t2'))) s).1.
Proof.
  intros W. unfold seq, when, modify, skip.
  assert (handler_wf (RenewServices seal InfoHash_get t1' s).1) as W'.
  { destruct W as [W1 W2 W3 W4]. split; simpl; [done..|].
    intros sc (pid & l & Hl & Hsc). simpl in Hl. rewrite lookup_fmap in Hl.
    destruct (service_checkins_ s !! pid) as [l0|] eqn:E0; simpl in Hl; [|done]. injection Hl as <-.
    apply list_elem_of_fmap in Hsc as (sc0 & -> & Hsc0).
    assert (sc_timeout sc0 = service_timeout) as Ht by (apply W4; by exists pid, l0).
    unfold renewed. by destruct (renew_due _ _). }
  destruct b1, b2; simpl; try done;
    [eapply wf_same; [..|exact W']; reflexivity|eapply wf_same; [..|exact W]; reflexivity].
Qed.


(** The requests that the key tables have no entry for. *)
Definition bad_request (ev : Event) : Prop :=
  match ev with
  | OnRiaps (Some (_, serviceReg m)) => p_kind (sr_path m) = NONE
  | OnRiaps (Some (_, serviceLookup m)) =>
      p_kind (sl_path m) = NONE \/ p_kind (sl_path m) = PUB \/ p_kind (sl_path m) = SRV
  | _ => False
  end.

Lemma BuildInsert_error mac app type k scope host port :
  (exists kv, BuildInsertKeyValuePair mac app type k scope host port = Ok kv) /\ k <> NONE
  \/ BuildInsertKeyValuePair mac app type k scope host port = Throw out_of_range /\ k = NONE.
Proof. destruct k; simpl; eauto; left; (split; [by eexists|done]). Qed.

Lemma BuildLookup_error mac app type k scope h a i n :
  (exists kv, BuildLookupKey mac app type k scope h a i n = Ok kv)
    /\ ~ (k = NONE \/ k = PUB \/ k = SRV)
  \/ BuildLookupKey mac app type k scope h a i n = Throw out_of_range
    /\ (k = NONE \/ k = PUB \/ k = SRV).
Proof. destruct k; simpl; eauto; left; (split; [by eexists|intuition discriminate]). Qed.

End Facts.

Section Callbacks.
Context {V : Type}.
Variable unseal : V -> option string.

(** The callback of [listen] sends one message for every value it can
    read, and the [n]-th message repeats all values before it: a client is
    told the first of [n] providers [n] times. *)
Theorem listen_callback_prefixes key values n :
  let results := omap unseal values in
  length (listen_callback unseal key [] values) = length results
  /\ ((n < length results)%nat -> listen_callback unseal key [] values !! n =
        Some (providerUpdate {| plu_providerpath := key; plu_newvalues := take (S n) results |})).
Proof.
  intros results. subst results.
  assert (forall acc, length (listen_callback unseal key acc values) = length (omap unseal values)
    /\ ((n < length (omap unseal values))%nat -> listen_callback unseal key acc values !! n =
        Some (providerUpdate {| plu_providerpath := key;
                                plu_newvalues := acc ++ take (S n) (omap unseal values) |}))) as H;
    [|exact (H [])].
  revert n. induction values as [|v values IH]; intros n acc; [split; [done|simpl; lia]|].
  cbn [listen_callback omap list_omap]. destruct (unseal v) as [x|]; [|apply IH].
  split; [simpl; f_equal; apply (IH n)|]. destruct n as [|n]; [done|].
  simpl. intros Hn. destruct (IH n (acc ++ [x])) as [_ IHn]. rewrite IHn by lia.
  by rewrite <- app_assoc.
Qed.
End Callbacks.

(** ** Witnesses

    A handler of one node, with values stored as they are. *)

Definition demo_hash (k : string) : string := "h" +:+ k.
Definition demo_pack (_ : GroupDetails) : string := "packed".

Definition demo_handler : Handler :=
  mkHandler "a1b2" "192.168.0.2" "" false 0 0 ∅ ∅ ∅ ∅ ∅ ∅ ∅.

Definition demo_reg : ActorRegReq := {| ar_appName := "App"; ar_actorName := "Act"; ar_pid := 77 |}.

Definition demo_handler1 : Handler :=
  (HandleActorReg (V := string) demo_hash (fun _ => false) 3 4000 demo_reg demo_handler).1.

Definition demo_path (k : Kind) : Path :=
  {| p_appName := "App"; p_actorName := "Act"; p_msgType := "Msg"; p_kind := k; p_scope := GLOBAL |}.

Definition demo_lookup : ServiceLookupReq :=
  {| sl_path := demo_path SUB;
     sl_client := {| c_actorHost := ""; c_actorName := "Act"; c_instanceName := "comp"; c_portName := "p" |} |}.

Lemma register_unregister_witness :
  let s1 := (HandleActorReg (V := string) demo_hash (fun _ => false) 3 4000 demo_reg demo_handler).1 in
  let r := HandleActorUnreg (V := string) id demo_hash
             {| au_appName := "App"; au_actorName := "Act"; au_pid := 77 |} s1 in
  clients_ r.1 = clients_ demo_handler
  /\ Replied (rep_identity_ demo_handler) (actorUnregRep OK 4000) ∈ r.2.
Proof.
  apply (register_unregister (V := string) id demo_hash demo_hash (fun _ => false) 3 4000 demo_reg 77
    demo_handler); [intros k _; reflexivity|lia].
Defined.

Lemma discovery_end_to_end_witness :
  exists s1 out1,
    HandleServiceLookup (V := string) demo_hash demo_lookup demo_handler1 = Ok (s1, out1)
    /\ ToActor 3 (portUpdate {| pu_client := {| c_actorHost := "192.168.0.2"; c_actorName := "Act";
                                     c_instanceName := "comp"; c_portName := "p" |};
                                pu_scope := GLOBAL;
                                pu_socket := {| s_host := "10.0.0.1"; s_port := 5555 |} |})
       ∈ (HandleDhtUpdate (V := string)
            {| plu_providerpath := "/App/Msg/pub"; plu_newvalues := ["10.0.0.1:5555"] |} s1).2.
Proof.
  eexists _, _. split; [reflexivity|].
  eapply (discovery_end_to_end (V := string) id demo_hash demo_hash demo_lookup demo_handler1 _ _
    (actor_of 3 4000 demo_reg) PUB "ffff" "10.0.0.1" 5555 "/App/Msg/pub" "10.0.0.1:5555");
    done.
Defined.

Lemma zombies_not_offered_witness :
  let s1 := MaintainZombieList 20 (OnZombieList (fun _ => 10) ["10.0.0.1:5555"] demo_handler) in
  (20 - 10 <= 15 * 60 * 1000 ->
     (forall path c, (HandleDhtGet (V := string)
        {| plg_path := path; plg_client := c; plg_results := ["10.0.0.1:5555"] |} s1).2 = [])
     /\ (forall key, (HandleDhtUpdate (V := string)
        {| plu_providerpath := key; plu_newvalues := ["10.0.0.1:5555"] |} s1).2 = []))
  /\ (15 * 60 * 1000 < 20 - 10 -> usable s1 "10.0.0.1:5555" = parse_endpoint "10.0.0.1:5555").
Proof.
  apply (zombies_not_offered (V := string) (fun _ => 10) ["10.0.0.1:5555"] demo_handler 20
    "10.0.0.1:5555" 0 10); [reflexivity|apply NoDup_singleton|reflexivity].
Defined.

Definition demo_service : ServiceCheckins :=
  {| sc_key := "/App/Msg/pub"; sc_value := "10.0.0.1:5555"; sc_createdTime := 5;
     sc_timeout := service_timeout |}.

Definition demo_handler2 : Handler := set_checkins {[ 77 := [demo_service] ]} demo_handler.

Lemma RenewServices_spec_witness :
  let r := RenewServices (V := string) id demo_hash 700000 demo_handler2 in
  Put (demo_hash "/App/Msg/pub") "10.0.0.1:5555" ∈ r.2
  /\ (forall h v, Put h v ∈ r.2 <-> exists sc, registered_at demo_handler2 sc
        /\ sc_timeout sc < 700000 - sc_createdTime sc
        /\ h = demo_hash (sc_key sc) /\ v = id (sc_value sc)).
Proof.
  assert (sane_times demo_handler2 700000) as Hs.
  { intros sc (pid & l & Hl & Hsc). simpl in Hl. apply lookup_singleton_Some in Hl as [_ <-].
    apply list_elem_of_singleton in Hsc as ->. simpl. lia. }
  pose proof (RenewServices_spec (V := string) id demo_hash 700000 demo_handler2 ltac:(lia) Hs) as [H _].
  split; [|exact H]. apply H. exists demo_service. split_and!; [|vm_compute; reflexivity|done..].
  exists 77, [demo_service]. split; [reflexivity|by left].
Defined.

Lemma listen_callback_prefixes_witness :
  listen_callback (V := string) Some "k" [] ["a"; "b"] !! 1%nat =
    Some (providerUpdate {| plu_providerpath := "k"; plu_newvalues := ["a"; "b"] |}).
Proof.
  apply (listen_callback_prefixes (V := string) Some "k" ["a"; "b"] 1). simpl. lia.
Defined.

