(* ===== verification/DhtNet.v ===== *)
(** DhtNet.v - discovery services on several nodes that share one DHT.

    A node runs the loop of [MsgHandler.v].  What it asks of OpenDHT becomes
    a pending search ([Watch]); when a search fires, the callback of the code
    pushes messages to the node's channel, from which the loop reads them.
    The DHT keeps every value that was put; it shows a search any of the
    values under the key, in any order, any number of times, or none, and a
    message stays in the channel.  Nodes may stop and start again.  So every
    theorem on reachable states holds for a lossy, slow or repeating DHT. *)

From Stdlib Require Import ZArith Lia Ascii.
From stdpp Require Import base gmap strings list fin_maps.
From S2P Require Import Prelude.
From S2P Require Import Timeout.
From S2P Require Import Group.
From S2P Require Import Disco.
From S2P Require Import MsgHandler.
From S2P Require Import DiscoFacts.

#[local] Open Scope riaps_scope.

#[export] Instance GroupService_eq_dec : EqDecision GroupService.
Proof. solve_decision. Defined.
#[export] Instance GroupUpdate_eq_dec : EqDecision GroupUpdate.
Proof. solve_decision. Defined.
#[export] Instance Path_eq_dec : EqDecision Path.
Proof. solve_decision. Defined.
#[export] Instance Client_eq_dec : EqDecision Client.
Proof. solve_decision. Defined.
#[export] Instance ClientDetails_eq_dec : EqDecision ClientDetails.
Proof. solve_decision. Defined.
#[export] Instance ProviderListUpdate_eq_dec : EqDecision ProviderListUpdate.
Proof. solve_decision. Defined.
#[export] Instance ProviderListGet_eq_dec : EqDecision ProviderListGet.
Proof. solve_decision. Defined.
#[export] Instance DhtUpdate_eq_dec : EqDecision DhtUpdate.
Proof. solve_decision. Defined.

(** A search of a node in the DHT, with what its callback has captured. *)
Inductive Watch :=
| WService (hash lookupKey : string)
| WGet (lookupKey : string) (c : ClientDetails)
| WGroups (hash : string)
| WZombies (hash : string).

#[export] Instance Watch_eq_dec : EqDecision Watch.
Proof. solve_decision. Defined.

(** The readings of the environment in one round of a node. *)
Record RoundEnv := {
  re_running : Z -> bool; re_socket : Z; re_port : Z; re_start : Z; re_clk : nat -> Z;
}.

(** The digits of a MAC address without its colons. *)
Definition hex_char (c : ascii) : bool :=
  let n := nat_of_ascii c in
  (((48 <=? n) && (n <=? 57)) || ((97 <=? n) && (n <=? 102)) || ((65 <=? n) && (n <=? 70)))%nat.

Fixpoint hex_string (s : string) : bool :=
  match s with EmptyString => true | String c s' => hex_char c && hex_string s' end.

Lemma kind_not_hex k n r : kindMap k = Some n -> hex_string (n +:+ r) = false.
Proof. by destruct k; intros [= <-]. Qed.

Definition slash : ascii := "/"%char.

Section DhtNet.
Context {V : Type} `{EqDecision V}.
Variable seal : string -> V.
Variable unseal : V -> option string.
Variable InfoHash_get InfoHash : string -> string.
Variable pack : GroupDetails -> string.
Variable unpack : string -> option GroupDetails.
(** The addresses of a node. *)
Variable mac host : string -> string.

(** The running nodes, the DHT, the searches and channels of the nodes; and
    the history: requests handled and messages sent to actors. *)
Record Net := mkNet {
  n_nodes : gmap string Handler;
  n_dht : list (string * V);
  n_watches : list (string * Watch);
  n_channel : list (string * DhtUpdate);
  n_handled : list (string * DiscoReq);
  n_sent : list (string * (Z * DiscoUpd));
}.

Definition empty_net : Net := mkNet ∅ [] [] [] [] [].

Inductive NetEvent :=
| Starts (id : string) (now uninit : Z) (services : list (string * string))
| Stops (id : string)
| Round (id : string) (e : RoundEnv) (ev : Event)
| Fires (id : string) (w : Watch) (values : list V).

Definition put_of (o : DiscOut (V := V)) : option (string * V) :=
  match o with Put h v => Some (h, v) | _ => None end.

Definition watch_of (o : DiscOut (V := V)) : option Watch :=
  match o with
  | Listen h k => Some (WService h k)
  | Get k c => Some (WGet k c)
  | ListenGroups h | GetGroups h => Some (WGroups h)
  | ListenZombies h | GetZombies h => Some (WZombies h)
  | _ => None
  end.

Definition sent_of (o : DiscOut (V := V)) : option (Z * DiscoUpd) :=
  match o with ToActor sock u => Some (sock, u) | _ => None end.

Definition request_of (ev : Event) : option DiscoReq :=
  match ev with OnRiaps (Some (_, req)) => Some req | _ => None end.

(** Node [id] is now in state [s], after effects [out]. *)
Definition absorb (id : string) (s : Handler) (out : list DiscOut) (reqs : list DiscoReq)
    (c : Net) : Net :=
  mkNet (<[id := s]> (n_nodes c)) (omap put_of out ++ n_dht c)
    (map (pair id) (omap watch_of out) ++ n_watches c) (n_channel c)
    (map (pair id) reqs ++ n_handled c) (map (pair id) (omap sent_of out) ++ n_sent c).

(** The process of a node ends, and with it its searches and its channel. *)
Definition stop (id : string) (c : Net) : Net :=
  mkNet (delete id (n_nodes c)) (n_dht c) (filter (fun p => p.1 <> id) (n_watches c))
    (filter (fun p => p.1 <> id) (n_channel c)) (n_handled c) (n_sent c).

Definition watch_hash (w : Watch) : string :=
  match w with
  | WService h _ | WGroups h | WZombies h => h
  | WGet k _ => InfoHash_get k
  end.

(** The messages that the callback of a search pushes for some values. *)
Definition callback (w : Watch) (values : list V) : list DhtUpdate :=
  match w with
  | WService _ key => listen_callback unseal key [] values
  | WGet _ c => concat (map (get_callback unseal c) values)
  | WGroups _ => PushDhtValuesToDisco unseal unpack values
  | WZombies _ => HandleZombieUpdate unseal values
  end.

(** A message of the DHT is read from the node's channel. *)
Definition may_read (id : string) (ev : Event) (c : Net) : Prop :=
  match ev with OnDht (Some m) => (id, m) ∈ n_channel c | _ => True end.
#[export] Instance may_read_dec id ev c : Decision (may_read id ev c).
Proof. destruct ev as [|?|[?|]|?]; simpl; apply _. Defined.

(** One step; [None] if the event is not possible.  A round that throws or
    is undefined stops its node. *)
Definition net_step (e : NetEvent) (c : Net) : option Net :=
  match e with
  | Starts id now uninit services =>
      if decide (n_nodes c !! id = None) then
        let '(s, out) := Init seal InfoHash_get now services (new_Handler (mac id) (host id) uninit) in
        Some (absorb id s out [] c)
      else None
  | Stops id => Some (stop id c)
  | Round id env ev =>
      match n_nodes c !! id with
      | Some s =>
          if decide (may_read id ev c) then
            match RunStep seal InfoHash_get InfoHash pack (re_running env) (re_socket env)
                    (re_port env) (re_start env) (re_clk env) ev s with
            | Ok (s', out) => Some (absorb id s' out (option_list (request_of ev)) c)
            | _ => Some (stop id c)
            end
          else None
      | None => None
      end
  | Fires id w values =>
      if decide ((id, w) ∈ n_watches c /\ Forall (fun v => (watch_hash w, v) ∈ n_dht c) values) then
        Some (mkNet (n_nodes c) (n_dht c) (n_watches c)
                (map (pair id) (callback w values) ++ n_channel c) (n_handled c) (n_sent c))
      else None
  end.

Fixpoint net_run (es : list NetEvent) (c : Net) : option Net :=
  match es with
  | [] => Some c
  | e :: es' => c' ← net_step e c; net_run es' c'
  end.

Inductive net_reachable : Net -> Prop :=
| reach_empty : net_reachable empty_net
| reach_step c e c' : net_reachable c -> net_step e c = Some c' -> net_reachable c'.

(** ** What a round of one node may do *)

Definition subscribed (s : Handler) (key : string) (cd : ClientDetails) : Prop :=
  exists l, client_subscriptions_ s !! key = Some l /\ cd ∈ l.

(** The request of the round registers [value] under [key]. *)
Definition registers (s : Handler) (ev : Event) (key value : string) : Prop :=
  exists m, request_of ev = Some (serviceReg m)
    /\ BuildInsertKeyValuePair (mac_address_ s) (p_appName (sr_path m)) (p_msgType (sr_path m))
         (p_kind (sr_path m)) (p_scope (sr_path m)) (s_host (sr_socket m)) (s_port (sr_socket m))
       = Ok (key, value).

(** The subscription that a lookup leads to, on a node of this address. *)
Definition lookup_client (address : string) (m : ServiceLookupReq) : ClientDetails :=
  {| cd_app_name := p_appName (sl_path m); cd_actor_name := c_actorName (sl_client m);
     cd_actor_host := address; cd_instance_name := c_instanceName (sl_client m);
     cd_port_name := c_portName (sl_client m);
     cd_is_local := bool_decide (p_scope (sl_path m) = LOCAL) |}.

Definition lookup_key (mac : string) (m : ServiceLookupReq) : Res (string * string) :=
  BuildLookupKey mac (p_appName (sl_path m)) (p_msgType (sl_path m)) (p_kind (sl_path m))
    (p_scope (sl_path m)) (c_actorHost (sl_client m)) (c_actorName (sl_client m))
    (c_instanceName (sl_client m)) (c_portName (sl_client m)).

Definition looks_up (s : Handler) (ev : Event) (key : string) (cd : ClientDetails) : Prop :=
  exists m cl, request_of ev = Some (serviceLookup m) /\ lookup_key (mac_address_ s) m = Ok (key, cl)
    /\ cd = lookup_client (host_address_ s) m.

(** The keys that are not those of services. *)
Definition reserved (s : Handler) (ev : Event) (key : string) : Prop :=
  key = zombieglobalkey_ \/ key = zombielocalkey_ s
  \/ exists m, request_of ev = Some (groupJoin m) /\ key = group_key (gj_appName m).

(** The client, the scope and the endpoint that the message of the round is
    about. *)
Definition told (s : Handler) (ev : Event) (cl : Client) (sc : Scope) (ep : string) : Prop :=
  (exists m cd, ev = OnDht (Some (providerUpdate m)) /\ subscribed s (plu_providerpath m) cd
     /\ ep ∈ plu_newvalues m /\ cl = client_of cd /\ sc = (if cd_is_local cd then LOCAL else GLOBAL))
  \/ (exists m, ev = OnDht (Some (providerGet m)) /\ ep ∈ plg_results m /\ cl = plg_client m
       /\ sc = p_scope (plg_path m)).

Definition watch_ok (s : Handler) (ev : Event) (w : Watch) : Prop :=
  match w with
  | WService h key => h = InfoHash_get key /\ exists cd, looks_up s ev key cd
  | WGet key cd => looks_up s ev key cd
  | WGroups h => exists app, h = InfoHash (group_key app)
  | WZombies _ => True
  end.

Record round_facts (s : Handler) (ev : Event) (s' : Handler) (out : list (DiscOut (V := V))) : Prop := {
  rf_mac : mac_address_ s' = mac_address_ s;
  rf_host : host_address_ s' = host_address_ s;
  rf_put h v : Put h v ∈ out ->
    (exists sc, registered_at s sc /\ h = InfoHash_get (sc_key sc) /\ v = seal (sc_value sc))
    \/ (exists key value, registers s ev key value /\ h = InfoHash_get key /\ v = seal value)
    \/ (exists key, reserved s ev key /\ h = InfoHash_get key);
  rf_checkins sc : registered_at s' sc ->
    (exists sc0, registered_at s sc0 /\ sc_key sc0 = sc_key sc /\ sc_value sc0 = sc_value sc)
    \/ registers s ev (sc_key sc) (sc_value sc);
  rf_subs key cd : subscribed s' key cd -> subscribed s key cd \/ looks_up s ev key cd;
  rf_watch w : w ∈ omap watch_of out -> watch_ok s ev w;
  rf_sent sock u : ToActor sock (portUpdate u) ∈ out ->
    exists cl sc ep x, told s ev cl sc ep /\ parse_endpoint ep = Some x
      /\ portUpdate u = port_update cl sc x;
  rf_known : registered_listeners_ s ⊆ registered_listeners_ s';
  rf_listener h : h ∈ registered_listeners_ s' ->
    h ∈ registered_listeners_ s \/ exists key, h = InfoHash_get key /\ Listen h key ∈ out;
  rf_listening key cd : subscribed s' key cd ->
    subscribed s key cd \/ InfoHash_get key ∈ registered_listeners_ s';
  rf_groups sock m : ToActor sock (groupUpdate m) ∈ out -> ev = OnDht (Some (dhtGroupUpdate m));
}.

(** A handler that leaves services and subscriptions alone. *)
Lemma frame_facts s ev s' out :
  mac_address_ s' = mac_address_ s -> host_address_ s' = host_address_ s ->
  service_checkins_ s' = service_checkins_ s ->
  client_subscriptions_ s' = client_subscriptions_ s ->
  registered_listeners_ s' = registered_listeners_ s ->
  (forall h v, Put h v ∈ out -> exists key, reserved s ev key /\ h = InfoHash_get key) ->
  (forall w, w ∈ omap watch_of out -> watch_ok s ev w) ->
  (forall sock u, ToActor sock (portUpdate u) ∈ out ->
     exists cl sc ep x, told s ev cl sc ep /\ parse_endpoint ep = Some x
       /\ portUpdate u = port_update cl sc x) ->
  (forall sock m, ToActor sock (groupUpdate m) ∈ out -> ev = OnDht (Some (dhtGroupUpdate m))) ->
  round_facts s ev s' out.
Proof.
  intros E1 E2 E3 E4 E5 Hput Hw Hs Hg. split; [done|done|..].
  - intros h v Hin. right. right. eauto.
  - intros sc Hr. left. exists sc. unfold registered_at in *. by rewrite E3 in Hr.
  - intros key cd Hr. left. unfold subscribed in *. by rewrite E4 in Hr.
  - done.
  - done.
  - by rewrite E5.
  - intros h Hh. left. by rewrite <- E5.
  - intros key cd Hr. left. unfold subscribed in *. by rewrite E4 in Hr.
  - done.
Qed.

Lemma quiet_facts s ev s' out :
  mac_address_ s' = mac_address_ s -> host_address_ s' = host_address_ s ->
  service_checkins_ s' = service_checkins_ s ->
  client_subscriptions_ s' = client_subscriptions_ s ->
  registered_listeners_ s' = registered_listeners_ s ->
  (forall o, o ∈ out -> put_of o = None /\ sent_of o = None
     /\ match watch_of o with Some w => watch_ok s ev w | None => True end) ->
  round_facts s ev s' out.
Proof.
  intros E1 E2 E3 E4 E5 Hq. apply frame_facts; [done..| | | |].
  - intros h v Hin. by destruct (Hq _ Hin) as [? _].
  - intros w (o & Ho & Hw)%list_elem_of_omap. destruct (Hq o Ho) as (_ & _ & H). by rewrite Hw in H.
  - intros sock u Hin. by destruct (Hq _ Hin) as (_ & ? & _).
  - intros sock u Hin. by destruct (Hq _ Hin) as (_ & ? & _).
Qed.

Lemma maintenance_facts (b1 b2 : bool) t1 t2 s :
  let r := (when b1 (RenewServices seal InfoHash_get t1) ;;
            when b2 (modify (MaintainZombieList t2))) s in
  round_facts s Idle_ r.1 r.2.
Proof.
  assert (round_facts s Idle_ (RenewServices seal InfoHash_get t1 s).1
            (RenewServices seal InfoHash_get t1 s).2) as R.
  { unfold RenewServices. cbn [fst snd].
    assert (forall o, o ∈ (sc ← concat (map snd (zmap_to_list (service_checkins_ s)));
        if renew_due t1 sc then [Put (InfoHash_get (sc_key sc)) (seal (sc_value sc))] else []) ->
        exists sc, registered_at s sc /\ o = Put (InfoHash_get (sc_key sc)) (seal (sc_value sc))) as Ho.
    { intros o (sc & Hin & Hsc)%list_elem_of_bind. exists sc.
      destruct (renew_due t1 sc); [|by apply elem_of_nil in Hin].
      apply list_elem_of_singleton in Hin. split; [|done].
      apply list_elem_of_In, in_concat in Hsc as (l & Hl%list_elem_of_In & Hsc%list_elem_of_In).
      apply elem_of_zmap_values in Hl as [pid Hl]. by exists pid, l. }
    split; cbn [mac_address_ host_address_ set_checkins client_subscriptions_]; [done|done|..].
    - intros h v (sc & Hsc & [= -> ->])%Ho. left. by exists sc.
    - intros sc (pid & l & Hl & Hsc). left. simpl in Hl. rewrite lookup_fmap in Hl.
      destruct (service_checkins_ s !! pid) as [l0|] eqn:E0; simpl in Hl; [|done]. injection Hl as <-.
      apply list_elem_of_fmap in Hsc as (sc0 & -> & Hsc0). exists sc0. split; [by exists pid, l0|].
      unfold renewed. by destruct (renew_due _ _).
    - intros key cd H. by left.
    - intros w (o & (sc & _ & ->)%Ho & Hw)%list_elem_of_omap. done.
    - intros sock u (sc & _ & Hsc)%Ho. done.
    - done.
    - intros h H. by left.
    - intros key cd H. by left.
    - intros sock m (sc & _ & Hsc)%Ho. done. }
  intros r. subst r. unfold seq, when, modify, skip. destruct b1; simpl.
  - destruct R as [R1 R2 R3 R4 R5 R6 R7 R8 R9 R10 R11].
    destruct b2; simpl; rewrite app_nil_r; split; try done.
  - destruct b2; (apply quiet_facts; [done..|]); intros o Ho; by apply elem_of_nil in Ho.
Qed.

Lemma ActorReg_facts running socket port m ev s :
  let r := HandleActorReg (V := V) InfoHash running socket port m s in
  round_facts s ev r.1 r.2.
Proof.
  destruct (match clients_ s !! clientKeyBase (ar_appName m) (ar_actorName m) with
            | Some a => running (ad_pid a) | None => false end) eqn:Hrun; intros r; subst r.
  - unfold HandleActorReg, read at 1 3. rewrite Hrun. apply quiet_facts; [done..|].
    by intros o ->%list_elem_of_singleton.
  - rewrite (HandleActorReg_fresh InfoHash running socket port m s Hrun). cbn [fst snd].
    unfold purged. destruct (bool_decide (ar_appName m ∉ group_listeners_ s)); simpl;
      (apply quiet_facts; [done..|]); intros o Ho.
    + apply elem_of_cons in Ho as [-> | ->%list_elem_of_singleton]; [|done]. simpl. eauto.
    + by apply list_elem_of_singleton in Ho as ->.
Qed.

Lemma ActorUnreg_facts m ev s :
  let r := HandleActorUnreg seal InfoHash_get m s in round_facts s ev r.1 r.2.
Proof.
  cbv zeta. rewrite HandleActorUnreg_run. cbn [fst snd]. unfold zombie_marks.
  assert (forall o, o ∈ concat (map (fun sc =>
      [Put (InfoHash_get (match str_find_sub "127.0.0.1" (sc_value sc) with
                          | Some _ => zombielocalkey_ s | None => zombieglobalkey_ end))
         (seal (sc_value sc)); DbDel (sc_key sc)]) (default [] (service_checkins_ s !! au_pid m)))
      ++ [Replied (rep_identity_ s)
            (unreg_reply (clients_ s !! clientKeyBase (au_appName m) (au_actorName m)))] ->
      watch_of o = None /\ sent_of o = None
      /\ forall h v, o = Put h v -> exists key, reserved s ev key /\ h = InfoHash_get key) as Ho.
  { intros o [(sc & _ & Ho)%elem_of_concat_map|Ho]%elem_of_app.
    - apply elem_of_cons in Ho as [-> | ->%list_elem_of_singleton]; [|done].
      split_and!; [done..|]. intros h v [= <- _]. eexists. split; [|reflexivity].
      unfold reserved. destruct (str_find_sub _ _); tauto.
    - by apply list_elem_of_singleton in Ho as ->. }
  apply frame_facts; [done..| | | |].
  - intros h v Hin. destruct (Ho _ Hin) as (_ & _ & H). by apply (H h v).
  - intros w (o & Hin & Hw)%list_elem_of_omap. destruct (Ho o Hin) as [Hn _]. by rewrite Hn in Hw.
  - intros sock u Hin. by destruct (Ho _ Hin) as (_ & ? & _).
  - intros sock u Hin. by destruct (Ho _ Hin) as (_ & ? & _).
Qed.

Lemma registered_insert s pid sc sc' :
  registered_at (set_checkins
    (<[pid := default [] (service_checkins_ s !! pid) ++ [sc']]> (service_checkins_ s)) s) sc ->
  registered_at s sc \/ sc = sc'.
Proof.
  intros (p & l & Hl & Hsc). simpl in Hl. apply lookup_insert_Some in Hl as [[-> <-]|[_ Hl]];
    [|left; by exists p, l].
  apply elem_of_app in Hsc as [Hsc| ->%list_elem_of_singleton]; [|by right]. left.
  destruct (service_checkins_ s !! p) as [l|] eqn:E; [by exists p, l|by apply elem_of_nil in Hsc].
Qed.

Definition new_checkin (now : Z) (key value : string) : ServiceCheckins :=
  {| sc_key := key; sc_value := value; sc_createdTime := now; sc_timeout := service_timeout |}.

Lemma HandleServiceReg_run now m s :
  HandleServiceReg seal InfoHash_get now m s =
    '(key, value) ← BuildInsertKeyValuePair (mac_address_ s) (p_appName (sr_path m))
       (p_msgType (sr_path m)) (p_kind (sr_path m)) (p_scope (sr_path m)) (s_host (sr_socket m))
       (s_port (sr_socket m));
    Ok (set_checkins (<[sr_pid m := default [] (service_checkins_ s !! sr_pid m)
          ++ [new_checkin now key value]]> (service_checkins_ s)) s,
        (if bool_decide (p_kind (sr_path m) = REP) then [DbPut key value] else [])
        ++ [Put (InfoHash_get key) (seal value); Replied (rep_identity_ s) (serviceRegRep OK)]).
Proof.
  unfold HandleServiceReg. destruct (BuildInsertKeyValuePair _ _ _ _ _ _ _) as [[key value]| |]; [|done..].
  cbn -[service_timeout]. unfold when. by destruct (bool_decide _).
Qed.

Lemma ServiceReg_facts now m ev s s' out :
  request_of ev = Some (serviceReg m) ->
  HandleServiceReg seal InfoHash_get now m s = Ok (s', out) -> round_facts s ev s' out.
Proof.
  intros Hev. rewrite HandleServiceReg_run.
  destruct (BuildInsertKeyValuePair _ _ _ _ _ _ _) as [[key value]| |] eqn:E; simpl; [|done..].
  intros [= <- <-].
  assert (registers s ev key value) as Hreg by (exists m; done).
  match goal with |- round_facts _ _ _ ?out => set (o := out) end.
  assert (forall x, x ∈ o -> x = DbPut key value \/ x = Put (InfoHash_get key) (seal value)
     \/ x = Replied (rep_identity_ s) (serviceRegRep OK)) as Ho.
  { intros x [H|H]%elem_of_app.
    - destruct (bool_decide _); [apply list_elem_of_singleton in H; tauto|by apply elem_of_nil in H].
    - apply elem_of_cons in H as [?|?%list_elem_of_singleton]; tauto. }
  split; [done|done|..].
  - intros h v Hin. destruct (Ho _ Hin) as [[=]|[[= -> ->]|[=]]]. right. left. by exists key, value.
  - intros sc1 [Hr| ->]%registered_insert; [left; by exists sc1|by right].
  - intros k cd H. by left.
  - intros w (x & [-> |[-> | ->]]%Ho & Hw)%list_elem_of_omap; done.
  - intros sock u Hin. by destruct (Ho _ Hin) as [[=]|[[=]|[=]]].
  - done.
  - intros h H. by left.
  - intros k cd H. by left.
  - intros sock u Hin. by destruct (Ho _ Hin) as [[=]|[[=]|[=]]].
Qed.

Lemma HandleServiceLookup_run m s :
  HandleServiceLookup (V := V) InfoHash_get m s =
    '(key, _) ← lookup_key (mac_address_ s) m;
    let cd := lookup_client (host_address_ s) m in
    let fresh := bool_decide (InfoHash_get key ∉ registered_listeners_ s) in
    Ok (set_subscriptions
          (<[key := default [] (client_subscriptions_ s !! key) ++ [cd]]> (client_subscriptions_ s))
          (if fresh then set_registered_listeners ({[InfoHash_get key]} ∪ registered_listeners_ s) s
           else s),
        [Replied (rep_identity_ s) (serviceLookupRep OK [])]
        ++ (if fresh then [Listen (InfoHash_get key) key] else []) ++ [Get key cd]).
Proof.
  unfold HandleServiceLookup, lookup_key. destruct (BuildLookupKey _ _ _ _ _ _ _ _ _) as [[key cl]| |]; [|done..].
  simpl. unfold seq, modify, reply, emit, read, when. simpl. by destruct (bool_decide _).
Qed.

Lemma ServiceLookup_facts m ev s s' out :
  request_of ev = Some (serviceLookup m) ->
  HandleServiceLookup (V := V) InfoHash_get m s = Ok (s', out) -> round_facts s ev s' out.
Proof.
  intros Hev. rewrite HandleServiceLookup_run.
  destruct (lookup_key _ _) as [[key cl]| |] eqn:E; [|done..]. cbn zeta.
  assert (looks_up s ev key (lookup_client (host_address_ s) m)) as Hl by by exists m, cl.
  revert Hl. generalize (lookup_client (host_address_ s) m). intros cd0 Hl.
  intros [<- <-]%Ok_pair. cbn [fst snd].
  set (fresh := bool_decide (InfoHash_get key ∉ registered_listeners_ s)).
  match goal with |- round_facts _ _ _ ?out => set (o := out) end.
  assert (forall y, y ∈ o -> y = Replied (rep_identity_ s) (serviceLookupRep OK [])
    \/ (fresh = true /\ y = Listen (InfoHash_get key) key) \/ y = Get key cd0) as Ho.
  { intros y. unfold o. destruct fresh; simpl; rewrite !elem_of_cons, elem_of_nil; tauto. }
  assert (forall k cd, (exists l, <[key:=default [] (client_subscriptions_ s !! key) ++ [cd0]]>
      (client_subscriptions_ s) !! k = Some l /\ cd ∈ l) -> subscribed s k cd \/ k = key /\ cd = cd0) as Hsub.
  { intros k cd (l & H & Hcd). apply lookup_insert_Some in H as [[<- <-]|[_ H]]; [|left; by exists l].
    apply elem_of_app in Hcd as [Hcd| ->%list_elem_of_singleton]; [|by right]. left.
    destruct (client_subscriptions_ s !! key) as [l|] eqn:El; [by exists l|by apply elem_of_nil in Hcd]. }
  assert (Listen (InfoHash_get key) key ∈ o \/ fresh = false) as Hlisten.
  { unfold o. destruct fresh; [left|by right]. simpl. right. left. }
  split.
  - by destruct fresh.
  - by destruct fresh.
  - by intros h v [?|[[_ ?]|?]]%Ho.
  - intros sc H. left. exists sc. by destruct fresh.
  - intros k cd H. apply Hsub in H as [?|[-> ->]]; [by left|by right].
  - intros w (y & [->|[[_ ->]| ->]]%Ho & Hw)%list_elem_of_omap; [done|..]; injection Hw as <-; simpl; eauto.
  - by intros sock u [?|[[_ ?]|?]]%Ho.
  - destruct fresh; simpl; set_solver.
  - intros h. destruct Hlisten as [Hin| ->]; [|by left]. destruct fresh; [|by left]. simpl.
    intros [->%elem_of_singleton|?]%elem_of_union; [right; by exists key|by left].
  - intros k cd H. apply Hsub in H as [?|[-> ->]]; [by left|right]. unfold fresh.
    case_bool_decide as Hf; simpl; [set_solver|].
    by destruct (decide (InfoHash_get key ∈ registered_listeners_ s)).
  - by intros sock u [?|[[_ ?]|?]]%Ho.
Qed.

Lemma GroupJoin_facts now m ev s :
  request_of ev = Some (groupJoin m) ->
  let r := HandleGroupJoin seal InfoHash_get InfoHash pack now m s in round_facts s ev r.1 r.2.
Proof.
  intros Hev r. subst r. unfold HandleGroupJoin, seq, modify, reply, emit, read, DhtPut. simpl.
  apply frame_facts; [done..| | | |].
  - intros h v Ho. repeat (apply elem_of_cons in Ho as [Ho|Ho]; [try discriminate|]).
    + injection Ho as -> _. exists (group_key (gj_appName m)). split; [|done]. right. right. by exists m.
    + by apply elem_of_nil in Ho.
  - intros w Hw. simpl in Hw. apply list_elem_of_singleton in Hw as ->. simpl. eauto.
  - intros sock u Ho. repeat (apply elem_of_cons in Ho as [Ho|Ho]; [discriminate|]). by apply elem_of_nil in Ho.
  - intros sock u Ho. repeat (apply elem_of_cons in Ho as [Ho|Ho]; [discriminate|]). by apply elem_of_nil in Ho.
Qed.
Lemma DhtUpdate_facts m s :
  let r := HandleDhtUpdate (V := V) m s in round_facts s (OnDht (Some (providerUpdate m))) r.1 r.2.
Proof.
  cbv zeta. rewrite HandleDhtUpdate_run. cbn [fst snd].
  match goal with |- round_facts _ _ _ ?out => set (o := out) end.
  assert (forall y, y ∈ o -> exists sock cd ep x, y = ToActor sock
       (port_update (client_of cd) (if cd_is_local cd then LOCAL else GLOBAL) x)
     /\ subscribed s (plu_providerpath m) cd /\ ep ∈ plu_newvalues m /\ parse_endpoint ep = Some x) as Ho.
  { intros y (cd & Hcd & (ep & Hep & Hy)%elem_of_concat_map)%elem_of_concat_map. unfold delivery in Hy.
    destruct (usable s ep) as [x|] eqn:Hu; [|by apply elem_of_nil in Hy]. apply (usable_iff seal InfoHash_get InfoHash) in Hu as [_ Hx].
    destruct (clients_ s !! _) as [a|]; [|by apply elem_of_nil in Hy].
    apply list_elem_of_singleton in Hy as ->. exists (ad_socket a), cd, ep, x. split_and!; [done| |done..].
    destruct (client_subscriptions_ s !! plu_providerpath m) as [l|] eqn:E; [by exists l|by apply elem_of_nil in Hcd]. }
  clearbody o. apply frame_facts; [done..| | | |].
  - by intros h v (? & ? & ? & ? & [=] & _)%Ho.
  - intros w (y & (? & ? & ? & ? & -> & _)%Ho & Hw)%list_elem_of_omap. done.
  - intros sock u (sock' & cd & ep & x & E & Hs & Hep & Hx)%Ho.
    exists (client_of cd), (if cd_is_local cd then LOCAL else GLOBAL), ep, x. split_and!; [|done|congruence].
    left. by exists m, cd.
  - by intros sock g (? & ? & ? & ? & [=] & _)%Ho.
Qed.

Lemma DhtGet_facts m s :
  let r := HandleDhtGet (V := V) m s in round_facts s (OnDht (Some (providerGet m))) r.1 r.2.
Proof.
  cbv zeta. rewrite HandleDhtGet_run. cbn [fst snd].
  match goal with |- round_facts _ _ _ ?out => set (o := out) end.
  assert (forall y, y ∈ o -> exists sock ep x, y = ToActor sock
       (port_update (plg_client m) (p_scope (plg_path m)) x)
     /\ ep ∈ plg_results m /\ parse_endpoint ep = Some x) as Ho.
  { intros y (ep & Hep & Hy)%elem_of_concat_map.
    destruct (usable s ep) as [x|] eqn:Hu; [|by apply elem_of_nil in Hy]. apply (usable_iff seal InfoHash_get InfoHash) in Hu as [_ Hx].
    destruct (clients_ s !! _) as [a|]; [|by apply elem_of_nil in Hy].
    apply list_elem_of_singleton in Hy as ->. by exists (ad_socket a), ep, x. }
  clearbody o. apply frame_facts; [done..| | | |].
  - by intros h v (? & ? & ? & [=] & _)%Ho.
  - intros w (y & (? & ? & ? & -> & _)%Ho & Hw)%list_elem_of_omap. done.
  - intros sock u (sock' & ep & x & E & Hep & Hx)%Ho.
    exists (plg_client m), (p_scope (plg_path m)), ep, x. split_and!; [|done|congruence].
    right. by exists m.
  - by intros sock g (? & ? & ? & [=] & _)%Ho.
Qed.

Lemma send_group_update_elem m l cache o :
  o ∈ send_group_update (V := V) m cache l -> exists sock, o = ToActor sock (groupUpdate m).
Proof.
  revert cache. induction l as [|[k a] l IH]; intros cache; simpl; [by intros ?%elem_of_nil|].
  case_bool_decide; [case_bool_decide|]; [apply IH| |apply IH].
  intros [->|H2]%elem_of_cons; [by eexists|by eapply IH].
Qed.

Lemma DhtMessage_facts clk msg s :
  let r := HandleDhtMessage (V := V) clk msg s in round_facts s (OnDht msg) r.1 r.2.
Proof.
  destruct msg as [[m|m|l|m]|]; cbn [HandleDhtMessage].
  - apply DhtUpdate_facts.
  - apply DhtGet_facts.
  - apply quiet_facts; [done..|]. by intros o ?%elem_of_nil.
  - apply frame_facts; [done..| | | |].
    + by intros h v [? [=]]%send_group_update_elem.
    + by intros w (o & [? ->]%send_group_update_elem & Hw)%list_elem_of_omap.
    + by intros sock u [? [=]]%send_group_update_elem.
    + by intros sock g [? [= -> ->]]%send_group_update_elem.
  - apply quiet_facts; [done..|]. by intros o ?%elem_of_nil.
Qed.

Lemma PipeMessage_facts msg s s' out :
  HandlePipeMessage (V := V) msg s = Ok (s', out) -> round_facts s (OnPipe msg) s' out.
Proof.
  unfold HandlePipeMessage. destruct msg as [[|c hosts]|]; [done| |].
  - repeat case_bool_decide; intros [= <- <-]; (apply quiet_facts; [done..|]).
    + by intros o ?%elem_of_nil.
    + by intros o (h & -> & _)%list_elem_of_fmap.
    + by intros o ?%elem_of_nil.
  - intros [= <- <-]. apply quiet_facts; [done..|]. by intros o ?%elem_of_nil.
Qed.

(** A round starts with its maintenance. *)
Lemma facts_seq s s1 s2 ev o1 o2 :
  round_facts s Idle_ s1 o1 -> round_facts s1 ev s2 o2 -> round_facts s ev s2 (o1 ++ o2).
Proof.
  intros [A1 A2 A3 A4 A5 A6 A7 A8 A9 A10 A11] [B1 B2 B3 B4 B5 B6 B7 B8 B9 B10 B11].
  assert (forall k v, registers s1 ev k v -> registers s ev k v) as Hreg
    by (unfold registers; by rewrite A1).
  assert (forall k cd, looks_up s1 ev k cd -> looks_up s ev k cd) as Hlook
    by (unfold looks_up; by rewrite A1, A2).
  assert (forall k, reserved s1 ev k -> reserved s ev k) as Hres
    by (unfold reserved, zombielocalkey_; by rewrite A1).
  assert (forall sc, registered_at s1 sc ->
    exists sc0, registered_at s sc0 /\ sc_key sc0 = sc_key sc /\ sc_value sc0 = sc_value sc) as Hat.
  { intros sc [?|(m & [=] & _)]%A4. done. }
  assert (forall k cd, subscribed s1 k cd -> subscribed s k cd) as Hsub.
  { intros k cd [?|(m & cl & [=] & _)]%A5. done. }
  split; [by rewrite B1|by rewrite B2|..].
  - intros h v [Hin|Hin]%elem_of_app.
    + destruct (A3 h v Hin) as [?|[(k & x & (m & [=] & _) & _)|(k & Hk & ->)]]; [by left|].
      right. right. exists k. split; [|done]. destruct Hk as [?|[?|(m & [=] & _)]]; unfold reserved; tauto.
    + destruct (B3 h v Hin) as [(sc & Hsc & -> & ->)|[(k & x & Hk & ?)|(k & Hk & ?)]].
      * left. destruct (Hat sc Hsc) as (sc0 & ? & <- & <-). by exists sc0.
      * right. left. exists k, x. auto.
      * right. right. exists k. auto.
  - intros sc [(sc1 & Hsc & <- & <-)|?]%B4; [left; by apply Hat|right; by apply Hreg].
  - intros k cd [?|?]%B5; [left; by apply Hsub|right; by apply Hlook].
  - intros w. rewrite omap_app. intros [Hin|Hin]%elem_of_app.
    + apply A6 in Hin. destruct w as [h k|k cd| |]; simpl in *; [|destruct Hin as (? & ? & [=] & _)|done..].
      destruct Hin as (_ & ? & ? & ? & [=] & _).
    + apply B6 in Hin. destruct w as [h k|k cd| |]; simpl in *; [|auto|done..].
      destruct Hin as [-> [cd ?]]. split; [done|]. exists cd. auto.
  - intros sock u [Hin|Hin]%elem_of_app.
    + destruct (A7 sock u Hin) as (cl & sc & ep & x & [(? & ? & [=] & _)|(? & [=] & _)] & _).
    + destruct (B7 sock u Hin) as (cl & sc & ep & x & Ht & Hx). exists cl, sc, ep, x. split; [|done].
      destruct Ht as [(m & cd & ? & ? & ?)|?]; [left; exists m, cd; naive_solver|by right].
  - by transitivity (registered_listeners_ s1).
  - intros h [[?|(k & ? & ?)]%A9|(k & ? & ?)]%B9; [by left|right; exists k..];
      (split; [done|]; apply elem_of_app; tauto).
  - intros k cd [[?|?]%A10|?]%B10; [by left|right; by apply B8|by right].
  - by intros sock m [?%A11|?%B11]%elem_of_app.
Qed.

Lemma RiapsMessage_facts running socket port now msg s s' out :
  HandleRiapsMessage seal InfoHash_get InfoHash pack running socket port now msg s = Ok (s', out) ->
  round_facts s (OnRiaps msg) s' out.
Proof.
  unfold HandleRiapsMessage. destruct msg as [[identity req]|].
  - assert (round_facts s Idle_ (set_identity identity s) []) as Hid.
    { apply quiet_facts; [done..|]. by intros o ?%elem_of_nil. }
    intros E. apply (facts_seq _ _ _ _ [] out Hid). revert E.
    destruct req as [m|m|m|m|m].
    + intros [<- <-]%Ok_pair. apply ActorReg_facts.
    + by apply ServiceReg_facts.
    + by apply ServiceLookup_facts.
    + intros [<- <-]%Ok_pair. apply ActorUnreg_facts.
    + intros [<- <-]%Ok_pair. by apply GroupJoin_facts.
  - intros [= <- <-]. apply quiet_facts; [done..|]. by intros o ?%elem_of_nil.
Qed.

Lemma RunStep_facts running socket port start clk ev s s' out :
  RunStep seal InfoHash_get InfoHash pack running socket port start clk ev s = Ok (s', out) ->
  round_facts s ev s' out.
Proof.
  unfold RunStep. set (b1 := service_check_period_ <? _). set (b2 := zombie_check_period_ <? _).
  pose proof (maintenance_facts b1 b2 (clk 0%nat) (clk 1%nat) s) as Hm. cbv zeta in Hm.
  set (r1 := (when b1 _ ;; when b2 _) s) in *.
  destruct (match ev with Idle_ => _ | OnPipe _ => _ | OnDht _ => _ | OnRiaps _ => _ end)
    as [[s2 o2]| |] eqn:E; [|done..].
  cbn. intros [= <- <-]. apply (facts_seq _ r1.1); [done|].
  destruct ev as [|msg|msg|msg].
  - injection E as <- <-. apply quiet_facts; [done..|]. by intros o ?%elem_of_nil.
  - by apply PipeMessage_facts.
  - apply Ok_pair in E as [<- <-]. apply DhtMessage_facts.
  - by eapply RiapsMessage_facts.
Qed.

Lemma Init_run now services s :
  Init seal InfoHash_get now services s =
    (set_times now s,
     [GetZombies (InfoHash_get zombieglobalkey_); GetZombies (InfoHash_get (zombielocalkey_ s));
      ListenZombies (InfoHash_get zombieglobalkey_); ListenZombies (InfoHash_get (zombielocalkey_ s))]
     ++ concat (map (fun kv => [Put (InfoHash_get (match str_find_sub "127.0.0.1" kv.2 with
                                      | Some _ => zombielocalkey_ s | None => zombieglobalkey_ end))
                                  (seal kv.2); DbDel kv.1]) services)).
Proof.
  assert (Init_zombies seal InfoHash_get services (set_times now s) = (set_times now s,
    concat (map (fun kv => [Put (InfoHash_get (match str_find_sub "127.0.0.1" kv.2 with
                              | Some _ => zombielocalkey_ s | None => zombieglobalkey_ end))
                              (seal kv.2); DbDel kv.1]) services))) as E.
  { unfold Init_zombies. apply for_each_emit. intros kv _. unfold seq. by rewrite mark_zombie_run. }
  unfold Init, seq, modify, read, emit. cbn -[Init_zombies set_times]. by rewrite E.
Qed.

Lemma Init_facts now services s :
  let r := Init seal InfoHash_get now services s in round_facts s Idle_ r.1 r.2.
Proof.
  cbv zeta. rewrite Init_run. cbn [fst snd]. apply frame_facts; [done..| | | |].
  - intros h v Ho. cbn in Ho. repeat (apply elem_of_cons in Ho as [Ho|Ho]; [discriminate|]).
    apply elem_of_concat_map in Ho as (kv & _ & Ho).
    apply elem_of_cons in Ho as [[= -> _]|[=]%list_elem_of_singleton].
    eexists. split; [|done]. unfold reserved. destruct (str_find_sub _ _); tauto.
  - intros w (o & Ho & Hw)%list_elem_of_omap. cbn in Ho.
    repeat (apply elem_of_cons in Ho as [->|Ho]; [by injection Hw as <-|]).
    apply elem_of_concat_map in Ho as (kv & _ & Ho).
    by apply elem_of_cons in Ho as [->| ->%list_elem_of_singleton].
  - intros sock u Ho. cbn in Ho. repeat (apply elem_of_cons in Ho as [Ho|Ho]; [discriminate|]).
    apply elem_of_concat_map in Ho as (kv & _ & Ho).
    by apply elem_of_cons in Ho as [?|?%list_elem_of_singleton].
  - intros sock u Ho. cbn in Ho. repeat (apply elem_of_cons in Ho as [Ho|Ho]; [discriminate|]).
    apply elem_of_concat_map in Ho as (kv & _ & Ho).
    by apply elem_of_cons in Ho as [?|?%list_elem_of_singleton].
Qed.

(** ** The invariant of the network *)

(** Some node was asked to register [value] under [key]. *)
Definition offered (c : Net) (key value : string) : Prop :=
  exists id m, (id, serviceReg m) ∈ n_handled c
    /\ BuildInsertKeyValuePair (mac id) (p_appName (sr_path m)) (p_msgType (sr_path m))
         (p_kind (sr_path m)) (p_scope (sr_path m)) (s_host (sr_socket m)) (s_port (sr_socket m))
       = Ok (key, value).

(** Node [id] was asked to look [key] up for the client [cd]. *)
Definition wanted (c : Net) (id key : string) (cd : ClientDetails) : Prop :=
  exists m cl, (id, serviceLookup m) ∈ n_handled c /\ lookup_key (mac id) m = Ok (key, cl)
    /\ cd = lookup_client (host id) m.

Definition reserved_key (c : Net) (key : string) : Prop :=
  key = zombieglobalkey_ \/ (exists id, key = "/zombie/locals/" +:+ mac id)
  \/ exists id m, (id, groupJoin m) ∈ n_handled c /\ key = group_key (gj_appName m).

Definition found (c : Net) (key ep : string) : Prop :=
  exists v, (InfoHash_get key, v) ∈ n_dht c /\ unseal v = Some ep.

Definition scope_of (cd : ClientDetails) : Scope := if cd_is_local cd then LOCAL else GLOBAL.

Definition watch_meant (c : Net) (id : string) (w : Watch) : Prop :=
  match w with
  | WService h key => h = InfoHash_get key /\ exists cd, wanted c id key cd
  | WGet key cd => wanted c id key cd
  | WGroups h => exists app, h = InfoHash (group_key app)
  | WZombies _ => True
  end.

(** A group update read from the DHT, under a key that is listened to. *)
Definition group_found (c : Net) (m : GroupUpdate) : Prop :=
  exists app v raw d, (InfoHash (group_key app), v) ∈ n_dht c /\ unseal v = Some raw
    /\ unpack raw = Some d /\ m = group_update_of d.

Definition message_meant (c : Net) (id : string) (m : DhtUpdate) : Prop :=
  match m with
  | providerUpdate m => forall ep, ep ∈ plu_newvalues m -> found c (plu_providerpath m) ep
  | providerGet m => exists key cd, wanted c id key cd /\ plg_client m = client_of cd
      /\ p_scope (plg_path m) = scope_of cd /\ forall ep, ep ∈ plg_results m -> found c key ep
  | dhtGroupUpdate m => group_found c m
  | zombieList _ => True
  end.

Record node_inv (c : Net) (id : string) (s : Handler) : Prop := {
  ni_mac : mac_address_ s = mac id;
  ni_host : host_address_ s = host id;
  ni_checkins sc : registered_at s sc -> offered c (sc_key sc) (sc_value sc);
  ni_subs key cd : subscribed s key cd -> wanted c id key cd;
}.

Record net_inv (c : Net) : Prop := {
  nv_nodes id s : n_nodes c !! id = Some s -> node_inv c id s;
  nv_dht h v : (h, v) ∈ n_dht c ->
    (exists key value, offered c key value /\ h = InfoHash_get key /\ v = seal value)
    \/ (exists key, reserved_key c key /\ h = InfoHash_get key);
  nv_watches id w : (id, w) ∈ n_watches c -> watch_meant c id w;
  nv_channel id m : (id, m) ∈ n_channel c -> message_meant c id m;
  nv_sent id sock u : (id, (sock, portUpdate u)) ∈ n_sent c ->
    exists key cd ep x, wanted c id key cd /\ found c key ep /\ parse_endpoint ep = Some x
      /\ portUpdate u = port_update (client_of cd) (scope_of cd) x;
  nv_groups id sock m : (id, (sock, groupUpdate m)) ∈ n_sent c -> group_found c m;
}.

(** What was handled and what was put stays. *)
Definition grows (c c' : Net) : Prop :=
  (forall r, r ∈ n_handled c -> r ∈ n_handled c') /\ (forall p, p ∈ n_dht c -> p ∈ n_dht c').

Lemma offered_mono c c' key value : grows c c' -> offered c key value -> offered c' key value.
Proof. intros [G _] (id & m & ? & ?). exists id, m. auto. Qed.

Lemma wanted_mono c c' id key cd : grows c c' -> wanted c id key cd -> wanted c' id key cd.
Proof. intros [G _] (m & cl & ? & ?). exists m, cl. auto. Qed.

Lemma reserved_mono c c' key : grows c c' -> reserved_key c key -> reserved_key c' key.
Proof. intros [G _] [?|[?|(id & m & ? & ?)]]; [by left|right; by left|]. right. right. exists id, m. auto. Qed.

Lemma found_mono c c' key ep : grows c c' -> found c key ep -> found c' key ep.
Proof. intros [_ G] (v & ? & ?). exists v. auto. Qed.

Lemma group_found_mono c c' m : grows c c' -> group_found c m -> group_found c' m.
Proof. intros [_ G] (app & v & raw & d & ? & ?). exists app, v, raw, d. auto. Qed.

Lemma watch_mono c c' id w : grows c c' -> watch_meant c id w -> watch_meant c' id w.
Proof.
  intros G. destruct w; simpl; [|by apply wanted_mono|done..].
  intros [? [cd ?]]. split; [done|]. exists cd. by eapply wanted_mono.
Qed.

Lemma message_mono c c' id m : grows c c' -> message_meant c id m -> message_meant c' id m.
Proof.
  intros G. destruct m; simpl; [|..|done|by apply group_found_mono].
  - intros H ep Hep. eapply found_mono; eauto.
  - intros (key & cd & ? & ? & ? & H). exists key, cd. split_and!; [by eapply wanted_mono|done..|].
    intros ep Hep. eapply found_mono; eauto.
Qed.

Lemma node_mono c c' id s : grows c c' -> node_inv c id s -> node_inv c' id s.
Proof.
  intros G [? ? H1 H2]. split; [done..| |].
  - intros sc Hsc. eapply offered_mono; eauto.
  - intros key cd Hs. eapply wanted_mono; eauto.
Qed.

#[local] Hint Resolve group_found_mono offered_mono wanted_mono reserved_mono found_mono watch_mono message_mono
  node_mono : core.

Lemma absorb_grows id s out reqs c : grows c (absorb id s out reqs c).
Proof. split; intros x Hx; simpl; apply elem_of_app; by right. Qed.

Lemma node_facts c id s ev s' out reqs :
  node_inv c id s -> round_facts s ev s' out -> reqs = option_list (request_of ev) ->
  node_inv (absorb id s' out reqs c) id s'.
Proof.
  intros [N1 N2 N3 N4] F ->.
  destruct F as [F1 F2 F3 F4 F5 F6 F7 _ _ _ _].
  set (c' := absorb id s' out _ c). pose proof (absorb_grows id s' out (option_list (request_of ev)) c) as G.
  fold c' in G.
  assert (forall r, request_of ev = Some r -> (id, r) ∈ n_handled c') as Hreq.
  { intros r Hr. simpl. rewrite Hr. left. }
  split; [congruence..| |].
  - intros sc [(sc0 & Hsc & <- & <-)|(m & Hm & Hk)]%F4; [eauto|].
    exists id, m. rewrite <- N1. auto.
  - intros key cd [Hs|(m & cl & Hm & Hk & Hc)]%F5; [eauto|].
    exists m, cl. rewrite <- N1, <- N2. auto.
Qed.

Lemma wanted_now c id s ev s' out key cd :
  node_inv c id s -> looks_up s ev key cd ->
  wanted (absorb id s' out (option_list (request_of ev)) c) id key cd.
Proof.
  intros [N1 N2 _ _] (m & cl & Hm & Hk & ->). exists m, cl. rewrite <- N1, <- N2.
  split; [|done]. simpl. rewrite Hm. left.
Qed.

Lemma absorb_inv c id s ev s' out :
  net_inv c -> node_inv c id s -> round_facts s ev s' out -> may_read id ev c ->
  net_inv (absorb id s' out (option_list (request_of ev)) c).
Proof.
  intros [I1 I2 I3 I4 I5 I6] N F Hread. set (c' := absorb _ _ _ _ _).
  pose proof (absorb_grows id s' out (option_list (request_of ev)) c) as G. fold c' in G.
  pose proof (fun key cd => wanted_now c id s ev s' out key cd N) as Hnow. fold c' in Hnow.
  split.
  - intros id' s0 Hs. simpl in Hs. apply lookup_insert_Some in Hs as [[<- <-]|[_ Hs]]; [|eauto].
    by eapply node_facts.
  - intros h v Hin. simpl in Hin. apply elem_of_app in Hin as [(o & Ho & Hp)%list_elem_of_omap|Hin].
    + destruct o; try discriminate. injection Hp as -> ->.
      destruct (rf_put _ _ _ _ F h v Ho) as [(sc & Hsc & -> & ->)|[(k & x & (m & Hm & Hk) & -> & ->)|(k & Hk & ->)]].
      * left. exists (sc_key sc), (sc_value sc). split; [|done]. eapply offered_mono, (ni_checkins _ _ _ N); eauto.
      * left. exists k, x. split; [|done]. exists id, m. rewrite <- (ni_mac _ _ _ N).
        split; [|done]. simpl. rewrite Hm. left.
      * right. exists k. split; [|done]. destruct Hk as [?|[?|(m & Hm & ?)]].
        -- by left.
        -- right; left. exists id. by rewrite <- (ni_mac _ _ _ N).
        -- right; right. exists id, m. split; [|done]. simpl. rewrite Hm. left.
    + destruct (I2 h v Hin) as [(k & x & ? & ?)|(k & ? & ?)]; [left; exists k, x|right; exists k]; eauto.
  - intros id' w Hin. simpl in Hin. apply elem_of_app in Hin as [Hin|Hin]; [|eauto].
    apply list_elem_of_fmap in Hin as (w' & [= -> ->] & Hw).
    pose proof (rf_watch _ _ _ _ F w' Hw) as Hok. destruct w'; simpl in *; [|by apply Hnow|done..].
    destruct Hok as (? & cd & ?). split; [done|]. exists cd. by apply Hnow.
  - intros id' m Hin. simpl in Hin. eauto.
  - intros id' sock u Hin. simpl in Hin. apply elem_of_app in Hin as [Hin|Hin].
    2: { destruct (I5 _ _ _ Hin) as (key & cd & ep & x & ? & ? & ? & ?). exists key, cd, ep, x. split_and!; eauto. }
    apply list_elem_of_fmap in Hin as ([sk u'] & [= -> -> <-] & (o & Ho & Hp)%list_elem_of_omap).
    destruct o; try discriminate. injection Hp as -> ->.
    destruct (rf_sent _ _ _ _ F _ _ Ho) as (cl & sc & ep & x & Ht & Hx & Hu).
    destruct Ht as [(m & cd & -> & Hs & Hep & -> & ->)|(m & -> & Hep & -> & ->)]; simpl in Hread.
    + exists (plu_providerpath m), cd, ep, x. split_and!; [|..|done|done].
      * eapply wanted_mono, (ni_subs _ _ _ N); eauto.
      * eapply found_mono; [eauto|]. by apply (I4 _ _ Hread).
    + destruct (I4 _ _ Hread) as (key & cd & Hw & Hc & Hsc & Hr).
      rewrite Hc, Hsc in Hu. exists key, cd, ep, x. split_and!; eauto.
  - intros id' sock m Hin. simpl in Hin. apply elem_of_app in Hin as [Hin|Hin]; [|eauto].
    apply list_elem_of_fmap in Hin as ([sk u'] & [= -> -> <-] & (o & Ho & Hp)%list_elem_of_omap).
    destruct o; try discriminate. injection Hp as -> ->.
    pose proof (rf_groups _ _ _ _ F _ _ Ho) as ->. simpl in Hread. eapply group_found_mono; [done|].
    apply (I4 _ _ Hread).
Qed.

Lemma listen_callback_elem key values m : forall acc,
  m ∈ listen_callback unseal key acc values ->
  exists l, m = providerUpdate {| plu_providerpath := key; plu_newvalues := l |}
    /\ forall ep, ep ∈ l -> ep ∈ acc \/ exists v, v ∈ values /\ unseal v = Some ep.
Proof.
  induction values as [|v values IH]; intros acc; simpl; [by intros ?%elem_of_nil|].
  destruct (unseal v) as [x|] eqn:E.
  - intros [-> |H]%elem_of_cons.
    + eexists. split; [done|]. intros ep [?| ->%list_elem_of_singleton]%elem_of_app; [by left|].
      right. exists v. split; [left|done].
    + destruct (IH _ H) as (l & -> & Hl). eexists. split; [done|]. intros ep [Ha|(v' & ? & ?)]%Hl.
      * apply elem_of_app in Ha as [?| ->%list_elem_of_singleton]; [by left|]. right. exists v. split; [left|done].
      * right. exists v'. split; [by right|done].
  - intros H. destruct (IH _ H) as (l & -> & Hl). eexists. split; [done|]. intros ep [?|(v' & ? & ?)]%Hl; [by left|].
    right. exists v'. split; [by right|done].
Qed.

Lemma callback_meant c id w values m :
  watch_meant c id w -> Forall (fun v => (watch_hash w, v) ∈ n_dht c) values ->
  m ∈ callback w values -> message_meant c id m.
Proof.
  intros Hw Hv. rewrite Forall_forall in Hv. destruct w as [h key|key cd|h|h]; simpl in *.
  - intros (l & -> & Hl)%listen_callback_elem. intros ep Hep. destruct Hw as [-> _].
    destruct (Hl ep Hep) as [?%elem_of_nil|(v & ? & ?)]; [done|]. exists v. auto.
  - intros (v & Hin & Hm)%elem_of_concat_map. unfold get_callback in Hm.
    destruct (unseal v) as [x|] eqn:E; [|by apply elem_of_nil in Hm].
    apply list_elem_of_singleton in Hm as ->. exists key, cd. split_and!; [done..|].
    intros ep ->%list_elem_of_singleton. exists v. auto.
  - destruct Hw as [app ->]. induction values as [|v values IH]; simpl; [by intros ?%elem_of_nil|].
    assert (m ∈ PushDhtValuesToDisco unseal unpack values -> message_meant c id m) as IH'
      by (apply IH; intros; apply Hv; by right).
    destruct (unseal v) as [raw|] eqn:Er; [|done]. destruct (unpack raw) as [d|] eqn:Ed; [|by intros ?%elem_of_nil].
    intros [-> |?]%elem_of_cons; [|auto]. exists app, v, raw, d. split_and!; [|done..]. apply Hv. left.
  - unfold HandleZombieUpdate. destruct (omap _ _); [by intros ?%elem_of_nil|].
    by intros ->%list_elem_of_singleton.
Qed.

Lemma stop_inv c id : net_inv c -> net_inv (stop id c).
Proof.
  intros [I1 I2 I3 I4 I5 I6].
  assert (grows c (stop id c)) as G by (split; auto). split; simpl.
  - intros id' s [_ Hs]%lookup_delete_Some. eauto.
  - intros h v Hin. destruct (I2 h v Hin) as [(k & x & ? & ?)|(k & ? & ?)]; [left; exists k, x|right; exists k]; eauto.
  - intros id' w [_ Hin]%list_elem_of_filter. eauto.
  - intros id' m [_ Hin]%list_elem_of_filter. eauto.
  - intros id' sock u Hin. destruct (I5 _ _ _ Hin) as (key & cd & ep & x & ? & ? & ? & ?).
    exists key, cd, ep, x. split_and!; eauto.
  - eauto.
Qed.

Lemma net_step_inv c e c' : net_inv c -> net_step e c = Some c' -> net_inv c'.
Proof.
  intros I. destruct e as [id now uninit services|id|id env ev|id w values];
    cbn -[Init RunStep].
  - case_decide; [|done]. pose proof (Init_facts now services (new_Handler (mac id) (host id) uninit)) as F.
    cbv zeta in F. destruct (Init _ _ _ _ _) as [s out]. cbn [fst snd] in F. intros [= <-].
    apply (absorb_inv c id (new_Handler (mac id) (host id) uninit) Idle_); [done| |done..].
    split; [done..| |].
    + intros sc (pid & l & Hl & _). simpl in Hl. by apply lookup_empty_Some in Hl.
    + intros key cd (l & Hl & _). simpl in Hl. by apply lookup_empty_Some in Hl.
  - intros [= <-]. by apply stop_inv.
  - destruct (n_nodes c !! id) as [s|] eqn:Hs; [|done]. case_decide; [|done].
    destruct (RunStep _ _ _ _ _ _ _ _ _ _ _) as [[s' out]| |] eqn:E; intros [= <-];
      [|by apply stop_inv..].
    apply (absorb_inv c id s ev); [done|by apply nv_nodes|by eapply RunStep_facts|done].
  - case_decide as Hd; [|done]. destruct Hd as [Hw Hv]. intros [= <-].
    assert (grows c (mkNet (n_nodes c) (n_dht c) (n_watches c)
      (map (pair id) (callback w values) ++ n_channel c) (n_handled c) (n_sent c))) as G by (split; auto).
    destruct I as [I1 I2 I3 I4 I5 I6]. split; simpl; [eauto|..].
    + intros h v Hin. destruct (I2 h v Hin) as [(k & x & ? & ?)|(k & ? & ?)]; [left; exists k, x|right; exists k]; eauto.
    + eauto.
    + intros id' m [Hin|Hin]%elem_of_app; [|eauto]. apply list_elem_of_fmap in Hin as (m' & [= -> ->] & Hm).
      eapply message_mono; [done|]. eapply callback_meant; eauto.
    + intros id' sock u Hin. destruct (I5 _ _ _ Hin) as (key & cd & ep & x & ? & ? & ? & ?).
      exists key, cd, ep, x. split_and!; eauto.
    + eauto.
Qed.

Lemma net_reachable_inv c : net_reachable c -> net_inv c.
Proof.
  induction 1 as [|c e c' _ IH Hstep]; [|by eapply net_step_inv].
  split; simpl; [by intros ?? ?%lookup_empty_Some|..]; intros; by apply elem_of_nil in H.
Qed.

(** ** Whom an actor is told about *)

Definition well_named (req : DiscoReq) : Prop :=
  match req with
  | serviceReg m => no_slash (p_appName (sr_path m)) /\ no_slash (p_msgType (sr_path m))
  | serviceLookup m => no_slash (p_appName (sl_path m)) /\ no_slash (p_msgType (sl_path m))
  | groupJoin m => no_slash (gj_appName m)
  | _ => True
  end.

(** No service has a reserved key. *)
Lemma service_not_reserved c a y k n m s :
  (forall id req, (id, req) ∈ n_handled c -> well_named req) ->
  (forall id, hex_string (mac id) = true) ->
  no_slash a -> no_slash y -> kindMap k = Some n ->
  ~ reserved_key c (key_base a y (n +:+ scope_suffix m s)).
Proof.
  intros Hn Hhex Ha Hy Hk. set (z := n +:+ scope_suffix m s).
  change (key_base a y z) with (String slash (a +:+ String slash (y +:+ String slash z))).
  intros [E|[[id E]|(id & r & Hr & E)]].
  - change zombieglobalkey_ with (String slash ("zombie" +:+ String slash "globals")) in E.
    injection E as E. apply str_app_sep_inj in E as [_ E]; [|done..].
    apply (str_find_sep slash y z). by rewrite E.
  - change ("/zombie/locals/" +:+ mac id)
      with (String slash ("zombie" +:+ String slash ("locals" +:+ String slash (mac id)))) in E.
    injection E as E. apply str_app_sep_inj in E as [_ E]; [|done..].
    apply str_app_sep_inj in E as [_ E]; [|done..].
    specialize (Hhex id). rewrite <- E in Hhex. unfold z in Hhex. by rewrite (kind_not_hex k) in Hhex.
  - specialize (Hn _ _ Hr). simpl in Hn. unfold group_key in E.
    change ("/groups/" +:+ gj_appName r) with (String slash ("groups" +:+ String slash (gj_appName r))) in E.
    injection E as E. apply str_app_sep_inj in E as [_ E]; [|done..]. apply (str_find_sep slash y z). by rewrite E.
Qed.

Lemma wanted_found_offered c id key cd ep :
  Inj (=) (=) InfoHash_get ->
  (forall x y, unseal (seal x) = Some y -> y = x) ->
  (forall id req, (id, req) ∈ n_handled c -> well_named req) ->
  (forall id, mac id <> "" /\ hex_string (mac id) = true) ->
  net_inv c -> wanted c id key cd -> found c key ep ->
  exists look reg prov, (id, serviceLookup look) ∈ n_handled c /\ cd = lookup_client (host id) look
    /\ (prov, serviceReg reg) ∈ n_handled c
    /\ p_appName (sr_path reg) = p_appName (sl_path look)
    /\ p_msgType (sr_path reg) = p_msgType (sl_path look)
    /\ partner (p_kind (sl_path look)) = Some (p_kind (sr_path reg))
    /\ (p_scope (sr_path reg) = LOCAL <-> p_scope (sl_path look) = LOCAL)
    /\ (p_scope (sl_path look) = LOCAL -> mac prov = mac id)
    /\ ep = endpoint_value (s_host (sr_socket reg)) (u16 (s_port (sr_socket reg))).
Proof.
  intros Hinj Hseal Hn Hmac I (look & cl & Hlook & Hk & ->) (v & Hv & Hu).
  pose proof (Hn _ _ Hlook) as [Ha Hy]. exists look.
  destruct (nv_dht c I _ _ Hv) as [(key' & value & (prov & reg & Hreg & Hi) & <-%Hinj & ->)|(key' & Hres & <-%Hinj)].
  - apply Hseal in Hu as ->. exists reg, prov. pose proof (Hn _ _ Hreg) as [Ha' Hy'].
    unfold lookup_key in Hk.
    destruct (lookup_key_agrees _ _ _ _ _ _ _ _ _ _ _ _ _ _ _ _ _ _ _
      (proj1 (Hmac prov)) (proj1 (Hmac id)) Ha' Hy' Ha Hy Hi Hk) as (? & ? & ? & Hs & Hm).
    split_and!; try done; [tauto|]. revert Hi. unfold BuildInsertKeyValuePair.
    destruct (kindMap _); simpl; [|done]. by intros [= _ <-].
  - exfalso. revert Hk. unfold lookup_key, BuildLookupKey. rewrite kindPairs_partner.
    destruct (partner _) as [p|]; simpl; [|done]. destruct (kindMap p) as [n|] eqn:En; simpl; [|done].
    rewrite service_key. intros [= <- _]. revert Hres.
    apply (service_not_reserved c _ _ p n); [done|apply Hmac|done..].
Qed.

(** The port update answers a lookup handled by node [id], with the endpoint of
    a registration that meets it. *)
Definition answers_lookup (c : Net) (id : string) (u : PortUpd) : Prop :=
  exists look reg prov, (id, serviceLookup look) ∈ n_handled c
    /\ (prov, serviceReg reg) ∈ n_handled c
    /\ pu_client u = client_of (lookup_client (host id) look)
    /\ p_appName (sr_path reg) = p_appName (sl_path look)
    /\ p_msgType (sr_path reg) = p_msgType (sl_path look)
    /\ partner (p_kind (sl_path look)) = Some (p_kind (sr_path reg))
    /\ (p_scope (sr_path reg) = LOCAL <-> p_scope (sl_path look) = LOCAL)
    /\ (p_scope (sl_path look) = LOCAL -> mac prov = mac id)
    /\ (str_find ":"%char (s_host (sr_socket reg)) = None -> in_u 16 (s_port (sr_socket reg)) ->
        pu_socket u = sr_socket reg).


(** ** Discovery completes *)

(** What a running node listens to, it has asked the DHT for. *)
Definition node_listens (c : Net) (id : string) (s : Handler) : Prop :=
  (forall h, h ∈ registered_listeners_ s ->
     exists key, h = InfoHash_get key /\ (id, WService h key) ∈ n_watches c)
  /\ (forall key cd, subscribed s key cd -> InfoHash_get key ∈ registered_listeners_ s).

Definition all_listen (c : Net) : Prop :=
  forall id s, n_nodes c !! id = Some s -> node_listens c id s.

Lemma absorb_listens c id s ev s' out reqs :
  all_listen c -> node_listens c id s -> round_facts s ev s' out ->
  all_listen (absorb id s' out reqs c).
Proof.
  intros A [L1 L2] F id' s0 Hs. simpl in Hs. apply lookup_insert_Some in Hs as [[<- <-]|[_ Hs]].
  - split.
    + intros h [Hh|(key & -> & Ho)]%(rf_listener _ _ _ _ F).
      * destruct (L1 h Hh) as (key & ? & ?). exists key. split; [done|]. simpl. apply elem_of_app. by right.
      * exists key. split; [done|]. simpl. apply elem_of_app. left. apply list_elem_of_fmap.
        eexists. split; [done|]. apply list_elem_of_omap. by eexists.
    + intros key cd [Hk|?]%(rf_listening _ _ _ _ F); [|done].
      apply (rf_known _ _ _ _ F). eauto.
  - destruct (A _ _ Hs) as [M1 M2]. split; [|done]. intros h Hh. destruct (M1 h Hh) as (key & ? & ?).
    exists key. split; [done|]. simpl. apply elem_of_app. by right.
Qed.

Lemma stop_listens c id : all_listen c -> all_listen (stop id c).
Proof.
  intros A id' s Hs. simpl in Hs. apply lookup_delete_Some in Hs as [Hne Hs]. destruct (A _ _ Hs) as [M1 M2]. split; [|done].
  intros h Hh. destruct (M1 h Hh) as (key & ? & ?). exists key. split; [done|]. simpl.
  apply list_elem_of_filter. by split; [|done].
Qed.

Lemma net_reachable_listens c : net_reachable c -> all_listen c.
Proof.
  induction 1 as [|c e c' _ IH Hstep]; [|revert Hstep].
  { intros id s Hs. simpl in Hs. by apply lookup_empty_Some in Hs. }
  destruct e as [id now uninit services|id|id env ev|id w values]; cbn -[Init RunStep].
  - case_decide; [|done]. pose proof (Init_facts now services (new_Handler (mac id) (host id) uninit)) as F.
    cbv zeta in F. destruct (Init _ _ _ _ _) as [s out]. cbn [fst snd] in F. intros [= <-].
    eapply absorb_listens; [done| |done]. split; [by intros h ?%elem_of_empty|].
    intros key cd (l & Hl & _). simpl in Hl. by apply lookup_empty_Some in Hl.
  - intros [= <-]. by apply stop_listens.
  - destruct (n_nodes c !! id) as [s|] eqn:Hs; [|done]. case_decide; [|done].
    destruct (RunStep _ _ _ _ _ _ _ _ _ _ _) as [[s' out]| |] eqn:E; intros [= <-];
      [|by apply stop_listens..].
    eapply absorb_listens; [done|by apply IH|by eapply RunStep_facts].
  - case_decide; [|done]. intros [= <-]. done.
Qed.

Lemma subscribed_watch c id s key cd :
  Inj (=) (=) InfoHash_get -> net_reachable c -> n_nodes c !! id = Some s -> subscribed s key cd ->
  (id, WService (InfoHash_get key) key) ∈ n_watches c.
Proof.
  intros Hinj R Hs Hsub. destruct (net_reachable_listens c R id s Hs) as [L1 L2].
  by destruct (L1 _ (L2 _ _ Hsub)) as (key' & <-%Hinj & ?).
Qed.

(** The maintenance of a round keeps a provider usable. *)
Lemma maintenance_keeps (b1 b2 : bool) t1 t2 s ep :
  let r := (when b1 (RenewServices seal InfoHash_get t1) ;;
            when b2 (modify (MaintainZombieList t2))) s in
  clients_ r.1 = clients_ s /\ client_subscriptions_ r.1 = client_subscriptions_ s
  /\ (zombie_services_ s !! ep = None -> zombie_services_ r.1 !! ep = None).
Proof.
  assert (forall s', zombie_services_ s' !! ep = None ->
    zombie_services_ (MaintainZombieList t2 s') !! ep = None) as Hz.
  { intros s' H. simpl. rewrite map_lookup_filter, H. done. }
  destruct b1, b2; (split_and!; [done..|]); intros H; [by apply Hz|done|by apply Hz|done].
Qed.

Lemma fires_and_tells c id s key cd a v ep x env :
  n_nodes c !! id = Some s -> subscribed s key cd ->
  (id, WService (InfoHash_get key) key) ∈ n_watches c ->
  clients_ s !! clientKeyBase (cd_app_name cd) (cd_actor_name cd) = Some a ->
  (InfoHash_get key, v) ∈ n_dht c -> unseal v = Some ep ->
  zombie_services_ s !! ep = None -> parse_endpoint ep = Some x ->
  exists c', net_run
      [Fires id (WService (InfoHash_get key) key) [v];
       Round id env (OnDht (Some (providerUpdate
         {| plu_providerpath := key; plu_newvalues := [ep] |})))] c = Some c'
    /\ (id, (ad_socket a, port_update (client_of cd) (scope_of cd) x)) ∈ n_sent c'.
Proof.
  intros Hs Hsub Hw Ha Hv Hu Hz Hx.
  cbn -[RunStep]. rewrite decide_True by (split; [done|by constructor]).
  cbn -[RunStep]. rewrite Hs, Hu. cbn -[RunStep]. rewrite decide_True by left.
  unfold RunStep. cbv zeta.
  set (b1 := service_check_period_ <? _). set (b2 := zombie_check_period_ <? _).
  pose proof (maintenance_keeps b1 b2 (re_clk env 0%nat) (re_clk env 1%nat) s ep) as Hm. cbv zeta in Hm.
  set (r1 := (when b1 _ ;; when b2 _) s) in *. destruct Hm as (Hc & Hsubs & Hzz).
  cbn [HandleDhtMessage]. rewrite HandleDhtUpdate_run. cbn -[r1].
  eexists. split; [done|]. cbn [n_sent absorb]. apply elem_of_app. left. apply list_elem_of_fmap.
  eexists. split; [done|]. rewrite omap_app. apply elem_of_app. right. apply list_elem_of_omap.
  exists (ToActor (ad_socket a) (port_update (client_of cd) (scope_of cd) x)). split; [|done].
  rewrite Hsubs. destruct Hsub as (l & -> & Hl). apply elem_of_concat_map. exists cd. split; [done|].
  rewrite app_nil_r. unfold delivery.
  rewrite (proj2 (usable_iff seal InfoHash_get InfoHash r1.1 ep x)) by auto. rewrite Hc, Ha.
  by apply list_elem_of_singleton.
Qed.


Lemma net_run_reachable es c c' : net_reachable c -> net_run es c = Some c' -> net_reachable c'.
Proof.
  revert c. induction es as [|e es IH]; intros c R; [by intros [= <-]|].
  simpl. destruct (net_step e c) as [c1|] eqn:E; [|done]. apply IH. by eapply reach_step.
Qed.
End DhtNet.

(** ** A run of two nodes *)

Definition demo_mac (id : string) : string := if decide (id = "a") then "0a" else "0b".
Definition demo_addr (id : string) : string := if decide (id = "a") then "10.0.0.1" else "10.0.0.2".
Definition demo_pack (d : GroupDetails) : string := gd_component_id d.
Definition demo_unpack (s : string) : option GroupDetails :=
  Some {| gd_app_name := "App"; gd_component_id := s; gd_group_id := {| gid_type := "type"; gid_name := "name" |};
          gd_group_services := [] |}.
Definition demo_env : RoundEnv :=
  {| re_running := fun _ => true; re_socket := 7; re_port := 6000; re_start := 5; re_clk := fun _ => 5 |}.

Definition demo_request (id : string) (req : DiscoReq) : NetEvent (V := string) :=
  Round id demo_env (OnRiaps (Some ("peer", req))).

(** Node [b] offers a publisher of [Temp] and joins a group; on node [a] an
    actor registers and looks for the publisher. *)
Definition demo_events : list (NetEvent (V := string)) :=
  [Starts "a" 1 0 []; Starts "b" 1 0 [("/App/Old/rep", "10.0.0.2:4444")];
   demo_request "b" (serviceReg
     {| sr_path := {| p_appName := "App"; p_actorName := "Prov"; p_msgType := "Temp"; p_kind := PUB;
                      p_scope := GLOBAL |};
        sr_socket := {| s_host := "10.0.0.2"; s_port := 5555 |}; sr_pid := 9 |});
   demo_request "b" (groupJoin
     {| gj_appName := "App"; gj_groupId := {| gid_type := "type"; gid_name := "name" |}; gj_services := [];
        gj_componentId := "comp"; gj_pid := 9 |});
   demo_request "a" (actorReg {| ar_appName := "App"; ar_actorName := "Act"; ar_pid := 3 |});
   demo_request "a" (serviceLookup
     {| sl_path := {| p_appName := "App"; p_actorName := "Act"; p_msgType := "Temp"; p_kind := SUB;
                      p_scope := GLOBAL |};
        sl_client := {| c_actorHost := "h"; c_actorName := "Act"; c_instanceName := "comp1";
                        c_portName := "port1" |} |})].

Definition demo_update : Event :=
  OnDht (Some (providerUpdate
    {| plu_providerpath := "/App/Temp/pub"; plu_newvalues := ["10.0.0.2:5555"] |})).

Definition demo_group : GroupUpdate :=
  {| gu_appName := "App"; gu_groupId := {| gid_type := "type"; gid_name := "name" |}; gu_componentId := "comp"; gu_services := [] |}.

Definition demo_told : list (NetEvent (V := string)) :=
  [Fires "a" (WService "/App/Temp/pub" "/App/Temp/pub") ["10.0.0.2:5555"]; Round "a" demo_env demo_update;
   Fires "a" (WGroups "/groups/App") ["comp"];
   Round "a" demo_env (OnDht (Some (dhtGroupUpdate demo_group)))].

Definition demo_run (es : list NetEvent) : option Net :=
  net_run (fun x => x) Some (fun x => x) (fun x => x) demo_pack demo_unpack demo_mac demo_addr es empty_net.

Definition demo_net (es : list NetEvent) : Net := default empty_net (demo_run es).

Lemma demo_net_reachable es :
  is_Some (demo_run es) ->
  net_reachable (fun x => x) Some (fun x => x) (fun x => x) demo_pack demo_unpack demo_mac demo_addr
    (demo_net es).
Proof.
  intros [c Hc]. unfold demo_net. rewrite Hc. simpl. eapply net_run_reachable; [apply reach_empty|exact Hc].
Qed.

Lemma demo_mac_ok id : demo_mac id <> "" /\ hex_string (demo_mac id) = true.
Proof. unfold demo_mac. by destruct (decide (id = "a")). Qed.

Lemma demo_well_named id req : (id, req) ∈ n_handled (demo_net (demo_events ++ demo_told)) -> well_named req.
Proof.
  assert (Forall (fun r => well_named r.2) (n_handled (demo_net (demo_events ++ demo_told)))) as H
    by (vm_compute; repeat constructor).
  rewrite Forall_forall in H. apply (H (id, req)).
Qed.



