(* ===== verification/Ownership.v ===== *)
(** Ownership.v - who owns the sockets of the discovery service: the objects
    [ActorDetails] behind the [shared_ptr]s of the table of actors
    ([include/discoveryd/r_discovery_types.h]), the members that [Init] creates,
    and the destructor of [src/discoveryd/r_msghandler.cc].

    [MsgHandler.v] keeps the table of actors by value.  Here it is a table of
    pointers to counted objects in a store; an object destroys its socket when
    its last pointer goes.  A null or dangling pointer that is dereferenced, and
    a socket that is used or destroyed when it is not open, are [UB]. *)

From Stdlib Require Import ZArith Lia.
From stdpp Require Import base gmap strings list fin_maps fin_sets sorting.
From S2P Require Import Prelude.
From S2P Require Import Group.
From S2P Require Import Disco.
From S2P Require Import MsgHandler.
From S2P Require Import DiscoFacts.
From S2P Require Import DhtNet.

(** ** The store *)

(** What [Init] creates and what a registration creates; [PairSocket z] is the
    socket at the address [z]. *)
Inductive Resource :=
| UpdateSocket | RiapsSocket | Tracker | Poller
| PairSocket (z : Z).

#[export] Instance Resource_eq_dec : EqDecision Resource.
Proof. solve_decision. Defined.

#[export] Instance Resource_countable : Countable Resource.
Proof.
  refine (inj_countable'
    (fun r => match r with
              | UpdateSocket => inr 0%nat | RiapsSocket => inr 1%nat | Tracker => inr 2%nat
              | Poller => inr 3%nat | PairSocket z => inl z end)
    (fun c => match c with
              | inl z => PairSocket z | inr 0%nat => UpdateSocket | inr 1%nat => RiapsSocket
              | inr 2%nat => Tracker | inr _ => Poller end) _).
  by intros [].
Defined.

(** [ActorDetails] with the use count of its control block. *)
Record ActorObject := mkObj {
  ao_socket : option Z;
  ao_port : Z;
  ao_pid : Z;
  ao_app_name : string;
  use_count : nat;
}.

(** [table] is [clients_]; a null pointer is [None]. *)
Record Store := mkStore {
  table : gmap string (option nat);
  objects : gmap nat ActorObject;
  live : gset Resource;
}.

Definition empty_store : Store := mkStore ∅ ∅ ∅.

Definition set_table t r := mkStore t (objects r) (live r).
Definition set_objects o r := mkStore (table r) o (live r).
Definition set_live v r := mkStore (table r) (objects r) v.

(** Code that works on the store and may be undefined. *)
Definition M (A : Type) : Type := Store -> Res (A * Store).
#[export] Instance M_ret : MRet M := fun A a r => Ok (a, r).
#[export] Instance M_bind : MBind M := fun A B k m r =>
  match m r with Ok (a, r') => k a r' | Throw e => Throw e | UB => UB end.

Definition undefined {A} : M A := fun _ => UB.
Definition get : M Store := fun r => Ok (r, r).
Definition put (f : Store -> Store) : M unit := fun r => Ok (tt, f r).

Fixpoint for_all {A} (l : list A) (body : A -> M unit) : M unit :=
  match l with
  | [] => mret tt
  | x :: l' => _ ← body x; for_all l' body
  end.

(** ** Sockets *)

Definition create (x : Resource) : M unit := put (fun r => set_live ({[x]} ∪ live r) r).

(** [zsock_destroy], [zactor_destroy], [zpoller_destroy] *)
Definition destroy (x : Resource) : M unit :=
  r ← get;
  if bool_decide (x ∈ live r) then put (fun r => set_live (live r ∖ {[x]}) r) else undefined.

(** [zmsg_send] *)
Definition use (x : Resource) : M unit :=
  r ← get; if bool_decide (x ∈ live r) then mret tt else undefined.

(** ** Objects and pointers *)

Definition points_to (p : option nat) : M ActorObject :=
  r ← get;
  match l ← p; objects r !! l with Some o => mret o | None => undefined end.

Definition write (p : option nat) (f : ActorObject -> ActorObject) : M unit :=
  o ← points_to p;
  match p with
  | Some l => put (fun r => set_objects (<[l := f o]> (objects r)) r)
  | None => undefined
  end.

Definition set_count (n : nat) (o : ActorObject) : ActorObject :=
  mkObj (ao_socket o) (ao_port o) (ao_pid o) (ao_app_name o) n.
Definition set_socket (v : option Z) (o : ActorObject) : ActorObject :=
  mkObj v (ao_port o) (ao_pid o) (ao_app_name o) (use_count o).
Definition set_port (v : Z) (o : ActorObject) : ActorObject :=
  mkObj (ao_socket o) v (ao_pid o) (ao_app_name o) (use_count o).
Definition set_pid (v : Z) (o : ActorObject) : ActorObject :=
  mkObj (ao_socket o) (ao_port o) v (ao_app_name o) (use_count o).
Definition set_app_name (v : string) (o : ActorObject) : ActorObject :=
  mkObj (ao_socket o) (ao_port o) (ao_pid o) v (use_count o).

(** [std::make_shared<ActorDetails>()]: the constructor sets only the socket;
    [junk] is what the other numbers hold. *)
Definition new_ActorDetails (junk : Z) : ActorObject := mkObj None junk junk "" 1.

Definition make_shared (junk : Z) : M (option nat) :=
  r ← get;
  let l := fresh (dom (objects r)) in
  _ ← put (fun r => set_objects (<[l := new_ActorDetails junk]> (objects r)) r);
  mret (Some l).

(** [~ActorDetails] *)
Definition delete_ActorDetails (o : ActorObject) : M unit :=
  match ao_socket o with
  | Some z => destroy (PairSocket z)
  | None => mret tt
  end.

(** The destructor of a [shared_ptr]. *)
Definition release (p : option nat) : M unit :=
  match p with
  | None => mret tt
  | Some l =>
      o ← points_to p;
      if (use_count o <=? 1)%nat then
        _ ← delete_ActorDetails o;
        put (fun r => set_objects (delete l (objects r)) r)
      else write p (set_count (use_count o - 1))
  end.

(** The copy of a [shared_ptr]. *)
Definition retain (p : option nat) : M unit :=
  match p with
  | None => mret tt
  | Some _ => write p (fun o => set_count (use_count o + 1) o)
  end.

(** [clients_[k]]: inserts a null pointer if there is no such key. *)
Definition subscript (k : string) : M (option nat) :=
  r ← get;
  match table r !! k with
  | Some p => mret p
  | None => _ ← put (fun r => set_table (<[k := None]> (table r)) r); mret None
  end.

(** [clients_[k] = std::move(p)] and [clients_[k] = p] *)
Definition move_to (k : string) (p : option nat) : M unit :=
  old ← subscript k;
  _ ← put (fun r => set_table (<[k := p]> (table r)) r);
  release old.

Definition copy_to (k : string) (p : option nat) : M unit := _ ← retain p; move_to k p.

(** [clients_.erase(k)], when [find] has found the key *)
Definition erase (k : string) : M unit :=
  r ← get;
  match table r !! k with
  | Some p => _ ← put (fun r => set_table (delete k (table r)) r); release p
  | None => mret tt
  end.

(** ** The registry *)

Definition DeregisterActor_store (mac host appName actorName : string) : M Z :=
  let base := clientKeyBase appName actorName in
  r ← get;
  port ← match table r !! base with
         | Some p => o ← points_to p; mret (ao_port o)
         | None => mret (-1)
         end;
  _ ← for_all [base; base +:+ mac; base +:+ host] erase;
  mret port.

(** The new instance of an actor: its socket, its object and its first key. *)
Definition publish (base : string) (socket port junk : Z) (m : ActorRegReq) : M unit :=
  let field f := (p ← subscript base; write p f) in
  _ ← create (PairSocket socket);
  p ← make_shared junk;
  _ ← move_to base p;
  _ ← field (set_socket (Some socket));
  _ ← field (set_port port);
  _ ← field (set_pid (ar_pid m));
  field (set_app_name (ar_appName m)).

Definition RegisterActor_store (mac host : string) (socket port junk : Z) (m : ActorRegReq) : M unit :=
  let base := clientKeyBase (ar_appName m) (ar_actorName m) in
  _ ← publish base socket port junk m;
  p ← subscript base;
  _ ← copy_to (base +:+ mac) p;
  p ← subscript base;
  copy_to (base +:+ host) p.

Definition HandleActorReg_store (mac host : string) (running : Z -> bool) (socket port junk : Z)
    (m : ActorRegReq) : M unit :=
  let base := clientKeyBase (ar_appName m) (ar_actorName m) in
  r ← get;
  let registered := table r !! base in
  isRunning ← match registered with
              | Some p => o ← points_to p; mret (running (ao_pid o))
              | None => mret false
              end;
  if isRunning : bool then mret tt
  else
    _ ← match registered with
        | Some _ => _ ← DeregisterActor_store mac host (ar_appName m) (ar_actorName m); mret tt
        | None => mret tt
        end;
    RegisterActor_store mac host socket port junk m.

(** The table as [MsgHandler.v] has it. *)
Definition details (o : ActorObject) : option ActorDetails :=
  z ← ao_socket o;
  Some {| ad_socket := z; ad_port := ao_port o; ad_pid := ao_pid o; ad_app_name := ao_app_name o |}.

Definition pointee (objs : gmap nat ActorObject) (p : option nat) : option ActorDetails :=
  l ← p; o ← objs !! l; details o.

Definition view (r : Store) : gmap string ActorDetails := omap (pointee (objects r)) (table r).

(** ** The life of the service *)

Definition Init_store : M unit := for_all [UpdateSocket; RiapsSocket; Tracker; Poller] create.

(** The body of [~DiscoveryMessageHandler], and the destructor of the map
    after it. *)
Definition close_client (k : string) : M unit :=
  p ← subscript k;
  o ← points_to p;
  match ao_socket o with
  | Some z => _ ← destroy (PairSocket z); write p (set_socket None)
  | None => mret tt
  end.

Definition keys (r : Store) : list string := map fst (smap_to_list (table r)).

Definition delete_Handler : M unit :=
  _ ← for_all [Poller; UpdateSocket; RiapsSocket; Tracker] destroy;
  r ← get;
  _ ← for_all (keys r) close_client;
  for_all (keys r) erase.

Section Life.
Context {V : Type}.
Variable seal : string -> V.
Variable InfoHash_get InfoHash : string -> string.
Variable pack : GroupDetails -> string.
Implicit Type s : Handler.

Abbreviation RunStep e ev s :=
  (RunStep (V := V) seal InfoHash_get InfoHash pack (re_running e) (re_socket e) (re_port e)
     (re_start e) (re_clk e) ev s).

(** What a round does to the store: the requests that change the table, then
    the messages it sends to actors. *)
Definition request_store (e : RoundEnv) (junk : Z) (ev : Event) s : M unit :=
  match ev with
  | OnRiaps (Some (_, actorReg m)) =>
      HandleActorReg_store (mac_address_ s) (host_address_ s) (re_running e) (re_socket e)
        (re_port e) junk m
  | OnRiaps (Some (_, actorUnreg m)) =>
      _ ← DeregisterActor_store (mac_address_ s) (host_address_ s) (au_appName m) (au_actorName m);
      mret tt
  | _ => mret tt
  end.

Definition round_store (e : RoundEnv) (junk : Z) (ev : Event) s (out : list (DiscOut (V := V))) : M unit :=
  _ ← request_store e junk ev s;
  for_all out (fun o => match o with ToActor z _ => use (PairSocket z) | _ => mret tt end).

(** The service with its store: each round reads the table through the
    pointers.  A new socket has an address at which none is open. *)
Inductive serves : Handler -> Store -> Prop :=
| serves_init s r :
    clients_ s = ∅ -> Init_store empty_store = Ok (tt, r) -> serves s r
| serves_round s r e junk ev s' out r' :
    serves s r -> PairSocket (re_socket e) ∉ live r ->
    RunStep e ev (set_clients (view r) s) = Ok (s', out) ->
    round_store e junk ev s out r = Ok (tt, r') -> serves s' r'.
End Life.

(** ** Counting pointers

    [held] are the pointers in local variables; [loose] are the sockets no object
    owns yet. *)

Definition is_ptr (l : nat) (p : option nat) : nat := if decide (p = Some l) then 1 else 0.
Definition in_table (l : nat) (t : gmap string (option nat)) : nat :=
  size (filter (fun kv => kv.2 = Some l) t).
Definition in_list (l : nat) (held : list (option nat)) : nat := sum_list (map (is_ptr l) held).

Lemma is_ptr_self l : is_ptr l (Some l) = 1%nat.
Proof. unfold is_ptr. by rewrite decide_True. Qed.
Lemma is_ptr_ne l p : p <> Some l -> is_ptr l p = 0%nat.
Proof. intros. unfold is_ptr. by rewrite decide_False. Qed.

Lemma in_table_insert l k p t :
  (in_table l (<[k := p]> t) + is_ptr l (default None (t !! k)) = in_table l t + is_ptr l p)%nat.
Proof.
  assert (forall t p, t !! k = None -> in_table l (<[k := p]> t) = (in_table l t + is_ptr l p)%nat) as H.
  { intros t' p' Hk. unfold in_table, is_ptr. rewrite map_filter_insert. simpl. destruct (decide (p' = Some l)).
    - rewrite map_size_insert_None; [lia|]. apply map_lookup_filter_None. by left.
    - rewrite delete_id by done. lia. }
  destruct (t !! k) as [q|] eqn:E; simpl.
  - pose proof (H (delete k t) p (lookup_delete_eq _ _)) as Hp.
    pose proof (H (delete k t) q (lookup_delete_eq _ _)) as Hq.
    rewrite insert_delete_eq in Hp. rewrite insert_delete_id in Hq by done. lia.
  - rewrite H, (is_ptr_ne l None) by done. lia.
Qed.

Lemma in_table_delete l k t :
  (in_table l (delete k t) + is_ptr l (default None (t !! k)) = in_table l t)%nat.
Proof.
  destruct (t !! k) as [q|] eqn:E; simpl.
  - pose proof (in_table_insert l k q (delete k t)) as H. rewrite insert_delete_id in H by done.
    rewrite lookup_delete_eq in H. simpl in H. rewrite is_ptr_ne in H by done. lia.
  - rewrite delete_id, is_ptr_ne by done. lia.
Qed.

Lemma in_table_pos l k t : t !! k = Some (Some l) -> (0 < in_table l t)%nat.
Proof.
  intros H. pose proof (in_table_delete l k t) as Hd. rewrite H in Hd. cbn [default] in Hd.
  rewrite is_ptr_self in Hd. lia.
Qed.

Record wf (held : list (option nat)) (loose : gset Z) (r : Store) : Prop := {
  wf_count l : (in_table l (table r) + in_list l held =
                match objects r !! l with Some o => use_count o | None => 0 end)%nat;
  wf_used l o : objects r !! l = Some o -> (0 < use_count o)%nat;
  wf_apart l1 l2 o1 o2 z : objects r !! l1 = Some o1 -> objects r !! l2 = Some o2 ->
    ao_socket o1 = Some z -> ao_socket o2 = Some z -> l1 = l2;
  wf_live z : PairSocket z ∈ live r <->
    (exists l o, objects r !! l = Some o /\ ao_socket o = Some z) \/ z ∈ loose;
  wf_loose l o z : objects r !! l = Some o -> ao_socket o = Some z -> z ∉ loose;
}.

(** A pointer that is held or in the table points to an object. *)
Lemma wf_points held loose r l :
  wf held loose r -> (0 < in_table l (table r) + in_list l held)%nat -> is_Some (objects r !! l).
Proof. intros W H. rewrite (wf_count _ _ _ W) in H. destruct (objects r !! l); [by eexists|lia]. Qed.

Lemma points_to_run r l o : objects r !! l = Some o -> points_to (Some l) r = Ok (o, r).
Proof. intros H. unfold points_to, get, mbind, M_bind. simpl. by rewrite H. Qed.

Lemma write_run r l o f : objects r !! l = Some o ->
  write (Some l) f r = Ok (tt, set_objects (<[l := f o]> (objects r)) r).
Proof. intros H. unfold write, mbind, M_bind. by rewrite (points_to_run r l o H). Qed.

Lemma destroy_run r x : x ∈ live r -> destroy x r = Ok (tt, set_live (live r ∖ {[x]}) r).
Proof. intros H. unfold destroy, get, mbind, M_bind. by rewrite bool_decide_eq_true_2. Qed.

(** The view of a table only depends on the objects it points to. *)
Lemma view_ext (t : gmap string (option nat)) o1 o2 :
  (forall k p, t !! k = Some p -> pointee o1 p = pointee o2 p) ->
  omap (pointee o1) t = omap (pointee o2) t.
Proof.
  intros H. apply map_eq. intros k. rewrite !lookup_omap. destruct (t !! k) as [p|] eqn:E; [|done].
  simpl. by apply (H k).
Qed.

(** Writing the count of an object is not seen in the view. *)
Lemma pointee_count objs l o n p : objs !! l = Some o ->
  pointee (<[l := set_count n o]> objs) p = pointee objs p.
Proof.
  intros H. destruct p as [l'|]; [|done]. unfold pointee. simpl. destruct (decide (l = l')) as [<-|].
  - rewrite lookup_insert_eq, H. done.
  - by rewrite lookup_insert_ne.
Qed.

Lemma wf_recount held held' loose r l o n :
  wf held loose r -> objects r !! l = Some o -> (0 < n)%nat ->
  (forall l', l' <> l -> in_list l' held' = in_list l' held) ->
  (in_table l (table r) + in_list l held' = n)%nat ->
  wf held' loose (set_objects (<[l := set_count n o]> (objects r)) r).
Proof.
  intros W Ho Hn Hne Hl.
  assert (forall l' o', <[l := set_count n o]> (objects r) !! l' = Some o' ->
    exists o0, objects r !! l' = Some o0 /\ ao_socket o' = ao_socket o0) as Hs.
  { intros l' o'. destruct (decide (l = l')) as [<-|].
    - rewrite lookup_insert_eq. intros [= <-]. by exists o.
    - rewrite lookup_insert_ne by done. intros H. by exists o'. }
  split; cbn [table objects live set_objects].
  - intros l'. destruct (decide (l = l')) as [<-|].
    + by rewrite lookup_insert_eq.
    + rewrite lookup_insert_ne, Hne by done. apply (wf_count _ _ _ W).
  - intros l' o'. destruct (decide (l = l')) as [<-|].
    + rewrite lookup_insert_eq. by intros [= <-].
    + rewrite lookup_insert_ne by done. apply (wf_used _ _ _ W).
  - intros l1 l2 p1 p2 z (q1 & H1 & E1)%Hs (q2 & H2 & E2)%Hs. rewrite E1, E2.
    by apply (wf_apart _ _ _ W).
  - intros z. rewrite (wf_live _ _ _ W). split; (intros [(l' & o' & H & Hz)|]; [left|by right]).
    + destruct (decide (l = l')) as [<-|].
      * exists l, (set_count n o). rewrite lookup_insert_eq. split; [done|]. simpl. congruence.
      * exists l', o'. by rewrite lookup_insert_ne.
    + apply Hs in H as (q & H & E). exists l', q. by rewrite <- E.
  - intros l' o' z (q & H & E)%Hs. rewrite E. by apply (wf_loose _ _ _ W l').
Qed.

(** Destroying the last pointer to an object. *)
Lemma wf_drop held loose r l o :
  wf held loose r -> objects r !! l = Some o -> (in_table l (table r) + in_list l held = 0)%nat ->
  False.
Proof. intros W Ho H. pose proof (wf_count _ _ _ W l) as Hc. rewrite Ho in Hc. pose proof (wf_used _ _ _ W l o Ho). lia. Qed.

Lemma wf_free held loose r l o :
  wf (Some l :: held) loose r -> objects r !! l = Some o -> use_count o = 1%nat ->
  wf held loose (mkStore (table r) (delete l (objects r))
                   (match ao_socket o with Some z => live r ∖ {[PairSocket z]} | None => live r end)).
Proof.
  intros W Ho Hn.
  pose proof (wf_count _ _ _ W l) as Hc. rewrite Ho in Hc. unfold in_list in Hc. simpl in Hc.
  rewrite is_ptr_self in Hc.
  assert (forall l' o', delete l (objects r) !! l' = Some o' -> l <> l' /\ objects r !! l' = Some o') as Hd
    by (intros l' o'; apply lookup_delete_Some).
  split; cbn [table objects live].
  - intros l'. destruct (decide (l = l')) as [<-|Hne].
    + rewrite lookup_delete_eq. unfold in_list. lia.
    + rewrite lookup_delete_ne by done. rewrite <- (wf_count _ _ _ W l'). unfold in_list. simpl.
      rewrite (is_ptr_ne l' (Some l)) by congruence. lia.
  - intros l' o' [_ H]%Hd. by apply (wf_used _ _ _ W l').
  - intros l1 l2 o1 o2 z [_ H1]%Hd [_ H2]%Hd. by apply (wf_apart _ _ _ W).
  - intros z.
    assert (PairSocket z ∈ match ao_socket o with Some z => live r ∖ {[PairSocket z]} | None => live r end
            <-> PairSocket z ∈ live r /\ ao_socket o <> Some z) as ->.
    { destruct (ao_socket o) as [z'|]; [|by split; [|intros []]].
      rewrite elem_of_difference, elem_of_singleton. split; intros [? H]; (split; [done|]); congruence. }
    rewrite (wf_live _ _ _ W). split.
    + intros [[(l' & o' & H & Hz)|Hz] Hne]; [left|by right].
      exists l', o'. split; [|done]. apply lookup_delete_Some. split; [|done]. intros <-. congruence.
    + intros [(l' & o' & [Hne H]%Hd & Hz)|Hz].
      * split; [left; by exists l', o'|]. intros E. apply Hne. by apply (wf_apart _ _ _ W l l' o o' z).
      * split; [by right|]. intros E. by apply (wf_loose _ _ _ W l o z).
  - intros l' o' z [_ H]%Hd. by apply (wf_loose _ _ _ W l').
Qed.

(** Only sockets of actors are closed. *)
Definition closes (r r' : Store) : Prop :=
  live r' ⊆ live r /\ forall x, x ∈ live r -> (forall z, x <> PairSocket z) -> x ∈ live r'.

#[export] Instance closes_preorder : PreOrder closes.
Proof.
  split; [by split|]. intros r1 r2 r3 [S1 K1] [S2 K2]. split; [by transitivity (live r2)|]. auto.
Qed.

(** The pointer of a local variable goes out of scope. *)
Lemma release_wf p held loose r :
  wf (p :: held) loose r ->
  exists r', release p r = Ok (tt, r') /\ wf held loose r' /\ table r' = table r /\ view r' = view r
    /\ closes r r' /\ (forall l o, objects r !! l = Some o -> p <> Some l -> objects r' !! l = Some o).
Proof.
  intros W. destruct p as [l|]; [|by exists r; split_and!; [|destruct W; by split|..|by split|]].
  destruct (wf_points _ _ _ l W) as [o Ho]; [unfold in_list; simpl; rewrite is_ptr_self; lia|].
  pose proof (wf_count _ _ _ W l) as Hc. rewrite Ho in Hc. unfold in_list in Hc. simpl in Hc.
  rewrite is_ptr_self in Hc.
  unfold release, mbind, M_bind. rewrite (points_to_run r l o Ho).
  destruct (Nat.leb_spec (use_count o) 1) as [Hn|Hn].
  - assert (use_count o = 1%nat) as H1 by lia. pose proof (wf_free held loose r l o W Ho H1) as W'.
    eexists. split; [|split; [exact W'|]].
    + unfold delete_ActorDetails. destruct (ao_socket o) as [z|] eqn:E; [|reflexivity].
      rewrite destroy_run; [reflexivity|]. apply (wf_live _ _ _ W). left. by exists l, o.
    + split_and!; [done| | |intros l' o' H Hne; apply lookup_delete_Some; split; [congruence|done]].
      unfold view. cbn [table objects]. apply view_ext. intros k [l'|] Hk; [|done].
      unfold pointee. cbn. rewrite lookup_delete_ne; [done|]. intros <-. apply in_table_pos in Hk. lia.
      unfold closes. cbn [live]. destruct (ao_socket o) as [z|]; [|done]. split; [set_solver|].
      intros x Hx Hz. specialize (Hz z). set_solver.
  - rewrite (write_run r l o _ Ho). eexists. split; [reflexivity|]. split_and!; [|done| |done|].
    + eapply wf_recount; [exact W|done|lia| |unfold in_list; lia].
      intros l' Hne. unfold in_list. simpl. by rewrite (is_ptr_ne l' (Some l)) by congruence.
    + unfold view. cbn. apply view_ext. intros k p _. by apply pointee_count.
    + intros l' o' H Hne. cbn. rewrite lookup_insert_ne; [done|congruence].
Qed.

Lemma retain_wf l o held loose r :
  wf held loose r -> objects r !! l = Some o ->
  exists r', retain (Some l) r = Ok (tt, r') /\ wf (Some l :: held) loose r' /\ table r' = table r
    /\ view r' = view r /\ live r' = live r /\ (forall l', pointee (objects r') l' = pointee (objects r) l').
Proof.
  intros W Ho. unfold retain. rewrite (write_run r l o _ Ho). eexists. split; [reflexivity|].
  pose proof (wf_count _ _ _ W l) as Hc. rewrite Ho in Hc. split_and!; [|done| |done|].
  - eapply wf_recount; [exact W|done|lia| |unfold in_list in *; simpl; rewrite is_ptr_self; lia].
    intros l' Hne. unfold in_list. simpl. by rewrite (is_ptr_ne l' (Some l)) by congruence.
  - unfold view. cbn. apply view_ext. intros k p _. by apply pointee_count.
  - intros p. by apply pointee_count.
Qed.

(** Storing a pointer under a key, where the old one becomes a local variable. *)
Lemma wf_store k p held loose r :
  wf (p :: held) loose r ->
  wf (default None (table r !! k) :: held) loose (set_table (<[k := p]> (table r)) r).
Proof.
  intros W. split; cbn [table objects live set_table];
    [|apply (wf_used _ _ _ W)|apply (wf_apart _ _ _ W)|apply (wf_live _ _ _ W)|apply (wf_loose _ _ _ W)].
  intros l. rewrite <- (wf_count _ _ _ W l). pose proof (in_table_insert l k p (table r)) as H.
  unfold in_list. simpl. lia.
Qed.

Lemma wf_remove k held loose r :
  wf held loose r -> wf (default None (table r !! k) :: held) loose (set_table (delete k (table r)) r).
Proof.
  intros W. split; cbn [table objects live set_table];
    [|apply (wf_used _ _ _ W)|apply (wf_apart _ _ _ W)|apply (wf_live _ _ _ W)|apply (wf_loose _ _ _ W)].
  intros l. rewrite <- (wf_count _ _ _ W l). pose proof (in_table_delete l k (table r)) as H.
  unfold in_list. simpl. lia.
Qed.

Lemma subscript_run k r :
  subscript k r = Ok (default None (table r !! k),
    match table r !! k with Some _ => r | None => set_table (<[k := None]> (table r)) r end).
Proof. unfold subscript, get, mbind, M_bind. by destruct (table r !! k). Qed.

Lemma subscript_hit k p r : table r !! k = Some p -> subscript k r = Ok (p, r).
Proof. intros H. by rewrite subscript_run, H. Qed.

Lemma move_to_wf k p held loose r :
  wf (p :: held) loose r ->
  exists r', move_to k p r = Ok (tt, r') /\ wf held loose r' /\ table r' = <[k := p]> (table r) /\ closes r r'
    /\ view r' = partial_alter (fun _ => pointee (objects r) p) k (view r)
    /\ (forall l o, objects r !! l = Some o -> default None (table r !! k) <> Some l -> objects r' !! l = Some o).
Proof.
  intros W. pose proof (wf_store k p held loose r W) as W1.
  destruct (release_wf _ _ _ _ W1) as (r' & Hr & W' & Ht & Hv & Hc & Ho).
  exists r'. split_and!; [|done|done|done| |done].
  - unfold move_to, mbind, M_bind. rewrite subscript_run. unfold put.
    replace (set_table _ _) with (set_table (<[k := p]> (table r)) r); [done|].
    destruct (table r !! k); [done|]. cbn [table set_table]. by rewrite insert_insert_eq.
  - rewrite Hv. unfold view. cbn [table objects set_table]. apply map_eq. intros k'.
    destruct (decide (k = k')) as [<-|].
    + by rewrite lookup_partial_alter_eq, lookup_omap, lookup_insert_eq.
    + by rewrite lookup_partial_alter_ne, !lookup_omap, lookup_insert_ne.
Qed.

Lemma erase_wf k held loose r :
  wf held loose r ->
  exists r', erase k r = Ok (tt, r') /\ wf held loose r' /\ table r' = delete k (table r)
    /\ view r' = delete k (view r) /\ closes r r'.
Proof.
  intros W. unfold erase, get, mbind, M_bind. destruct (table r !! k) as [p|] eqn:E.
  - pose proof (wf_remove k held loose r W) as W1. rewrite E in W1.
    destruct (release_wf _ _ _ _ W1) as (r' & Hr & W' & Ht & Hv & Hc & _).
    exists r'. split_and!; [exact Hr|done|done| |done]. rewrite Hv. unfold view. cbn. by rewrite omap_delete.
  - exists r. split_and!; [done|done|by rewrite delete_id| |done]. rewrite delete_id; [done|].
    unfold view. by rewrite lookup_omap, E.
Qed.

(** ** The registry refines the table of [MsgHandler.v] *)

(** Every key has an object with a socket. *)
Definition full (r : Store) : Prop := forall k, is_Some (table r !! k) -> is_Some (view r !! k).

Lemma view_at r k p : table r !! k = Some p -> view r !! k = pointee (objects r) p.
Proof. intros H. unfold view. by rewrite lookup_omap, H. Qed.

(** The object behind a key of a full table. *)
Lemma full_at r k p : full r -> table r !! k = Some p ->
  exists l o a, p = Some l /\ objects r !! l = Some o /\ details o = Some a /\ view r !! k = Some a.
Proof.
  intros Hf Hk. destruct (Hf k) as [a Ha]; [by eexists|]. pose proof Ha as Hv.
  rewrite (view_at r k p Hk) in Ha. destruct p as [l|]; [|done]. unfold pointee in Ha. simpl in Ha.
  destruct (objects r !! l) as [o|] eqn:Ho; [|done]. by exists l, o, a.
Qed.

Lemma details_of o a : details o = Some a ->
  ad_port a = ao_port o /\ ad_pid a = ao_pid o /\ ao_socket o = Some (ad_socket a).
Proof. unfold details. destruct (ao_socket o); [|done]. by intros [= <-]. Qed.

Definition without (l : list string) {A} (m : gmap string A) : gmap string A :=
  foldl (fun m k => delete k m) m l.

Lemma erase_all_wf l held loose r :
  wf held loose r -> exists r', for_all l erase r = Ok (tt, r') /\ wf held loose r'
    /\ table r' = without l (table r) /\ view r' = without l (view r) /\ closes r r'.
Proof.
  revert r. induction l as [|k l IH]; intros r W; [by exists r|].
  destruct (erase_wf k held loose r W) as (r1 & E & W1 & Ht & Hv & Hc).
  destruct (IH r1 W1) as (r' & E' & W' & Ht' & Hv' & Hc'). exists r'.
  cbn [for_all]. unfold mbind, M_bind. rewrite E. unfold without. simpl.
  rewrite <- Ht, <- Hv. split_and!; [done..|]. by transitivity r1.
Qed.

Lemma full_without l r r' : full r -> table r' = without l (table r) -> view r' = without l (view r) -> full r'.
Proof.
  unfold full. intros Hf Ht Hv. rewrite Ht, Hv. clear r' Ht Hv.
  enough (forall (t : gmap string (option nat)) (v : gmap string ActorDetails),
    (forall k, is_Some (t !! k) -> is_Some (v !! k)) ->
    forall k, is_Some (without l t !! k) -> is_Some (without l v !! k)) as H by by apply H.
  clear r Hf. induction l as [|x l IH]; intros t v H; [done|]. apply IH. intros k.
  destruct (decide (x = k)) as [<-|]; [rewrite lookup_delete_eq; by intros []|].
  rewrite !lookup_delete_ne by done. apply H.
Qed.

Lemma DeregisterActor_wf s app name loose r :
  wf [] loose r -> full r -> clients_ s = view r ->
  exists r', DeregisterActor_store (mac_address_ s) (host_address_ s) app name r
             = Ok ((DeregisterActor app name s).1, r')
    /\ wf [] loose r' /\ full r' /\ closes r r' /\ view r' = clients_ (DeregisterActor app name s).2
    /\ table r' !! clientKeyBase app name = None.
Proof.
  intros W Hf Hs. set (base := clientKeyBase app name). unfold DeregisterActor_store. fold base.
  set (ks := [base; base +:+ mac_address_ s; base +:+ host_address_ s]).
  destruct (erase_all_wf ks [] loose r W) as (r' & E & W' & Ht & Hv & Hc). exists r'. split_and!.
  - unfold get, mbind at 1, M_bind at 1. unfold mbind at 1, M_bind at 1.
    replace (match table r !! base with Some p => _ | None => _ end r)
      with (Ok ((DeregisterActor app name s).1, r)).
    { unfold mbind, M_bind. by rewrite E. }
    simpl. fold base. rewrite Hs. destruct (table r !! base) as [p|] eqn:Ep.
    + destruct (full_at r base p Hf Ep) as (l & o & a & -> & Ho & Ha & ->). unfold mbind, M_bind.
      rewrite (points_to_run r l o Ho). by rewrite (proj1 (details_of o a Ha)).
    + unfold view. by rewrite lookup_omap, Ep.
  - done.
  - by apply (full_without ks r).
  - done.
  - rewrite Hv. simpl. by rewrite Hs.
  - rewrite Ht. unfold without, ks. simpl. unfold base. apply lookup_delete_None. right.
    apply lookup_delete_None. right. apply lookup_delete_eq.
Qed.

Lemma field_run base l o f r :
  table r !! base = Some (Some l) -> objects r !! l = Some o ->
  (p ← subscript base; write p f) r = Ok (tt, set_objects (<[l := f o]> (objects r)) r).
Proof. intros Ht Ho. unfold mbind, M_bind. rewrite (subscript_hit _ _ _ Ht). by apply write_run. Qed.

(** A new object without a socket, to which a variable points. *)
Lemma make_shared_wf junk held loose r :
  wf held loose r ->
  exists l, make_shared junk r = Ok (Some l, set_objects (<[l := new_ActorDetails junk]> (objects r)) r)
    /\ objects r !! l = None
    /\ wf (Some l :: held) loose (set_objects (<[l := new_ActorDetails junk]> (objects r)) r).
Proof.
  intros W. set (l := fresh (dom (objects r))). exists l.
  assert (objects r !! l = None) as Hl by apply not_elem_of_dom, is_fresh.
  split_and!; [done..|].
  assert (forall l' o', <[l := new_ActorDetails junk]> (objects r) !! l' = Some o' ->
    l' = l /\ o' = new_ActorDetails junk \/ l' <> l /\ objects r !! l' = Some o') as Hi.
  { intros l' o' [[<- <-]|[? ?]]%lookup_insert_Some; [by left|right; by split]. }
  split; cbn [table objects live set_objects].
  - intros l'. pose proof (wf_count _ _ _ W l') as Hc. unfold in_list in *. simpl.
    destruct (decide (l = l')) as [<-|].
    + rewrite lookup_insert_eq, is_ptr_self. rewrite Hl in Hc. simpl. lia.
    + rewrite lookup_insert_ne, (is_ptr_ne l' (Some l)) by congruence. lia.
  - intros l' o' [[_ ->]|[_ H]]%Hi; [simpl; lia|]. by apply (wf_used _ _ _ W l').
  - intros l1 l2 o1 o2 z [[-> ->]|[_ H1]]%Hi [[-> ->]|[_ H2]]%Hi; try done. by apply (wf_apart _ _ _ W).
  - intros z. rewrite (wf_live _ _ _ W). split; (intros [(l' & o' & H & Hz)|]; [left|by right]).
    + exists l', o'. split; [|done]. rewrite lookup_insert_ne; [done|]. intros <-. congruence.
    + apply Hi in H as [[-> ->]|[_ H]]; [done|]. by exists l', o'.
  - intros l' o' z [[-> ->]|[_ H]]%Hi; [done|]. by apply (wf_loose _ _ _ W l').
Qed.

(** The object takes the loose socket over. *)
Lemma adopt_wf held z l o o' r :
  wf held {[z]} r -> objects r !! l = Some o -> ao_socket o = None ->
  ao_socket o' = Some z -> use_count o' = use_count o ->
  wf held ∅ (set_objects (<[l := o']> (objects r)) r).
Proof.
  intros W Ho Hn Hz Hu.
  assert (forall l' p, <[l := o']> (objects r) !! l' = Some p ->
    l' = l /\ p = o' \/ l' <> l /\ objects r !! l' = Some p) as Hi.
  { intros l' p [[<- <-]|[? ?]]%lookup_insert_Some; [by left|right; by split]. }
  assert (forall l' p, objects r !! l' = Some p -> ao_socket p <> Some z) as Hother.
  { intros l' p H E. apply (wf_loose _ _ _ W l' p z H E). set_solver. }
  split; cbn [table objects live set_objects].
  - intros l'. rewrite (wf_count _ _ _ W l'). destruct (decide (l = l')) as [<-|].
    + by rewrite lookup_insert_eq, Ho.
    + by rewrite lookup_insert_ne.
  - intros l' p [[_ ->]|[_ H]]%Hi; [rewrite Hu; by apply (wf_used _ _ _ W l)|]. by apply (wf_used _ _ _ W l').
  - intros l1 l2 o1 o2 z' [[-> ->]|[_ H1]]%Hi [[-> ->]|[_ H2]]%Hi E1 E2; [done|..].
    + destruct (Hother l2 o2 H2). congruence.
    + destruct (Hother l1 o1 H1). congruence.
    + by apply (wf_apart _ _ _ W l1 l2 o1 o2 z').
  - intros z'. rewrite (wf_live _ _ _ W), elem_of_singleton. split.
    + intros [(l' & p & H & E)| ->]; left.
      * exists l', p. split; [|done]. rewrite lookup_insert_ne; [done|]. intros <-. congruence.
      * exists l, o'. by rewrite lookup_insert_eq.
    + intros [(l' & p & [[-> ->]|[_ H]]%Hi & E)|H]; [right; congruence|left; by exists l', p|set_solver].
  - set_solver.
Qed.

Lemma create_wf z held r :
  wf held ∅ r -> PairSocket z ∉ live r ->
  wf held {[z]} (set_live ({[PairSocket z]} ∪ live r) r).
Proof.
  intros W Hz. split; cbn [table objects live set_live];
    [apply (wf_count _ _ _ W)|apply (wf_used _ _ _ W)|apply (wf_apart _ _ _ W)|..].
  - intros z'. rewrite elem_of_union, elem_of_singleton, (wf_live _ _ _ W). set_solver.
  - intros l o z' H E. rewrite elem_of_singleton. intros ->. apply Hz, (wf_live _ _ _ W). left. by exists l, o.
Qed.

Lemma copy_to_wf k k0 l a held loose r :
  wf held loose r -> full r -> table r !! k0 = Some (Some l) -> view r !! k0 = Some a ->
  exists r', copy_to k (Some l) r = Ok (tt, r') /\ wf held loose r' /\ full r' /\ closes r r'
    /\ table r' = <[k := Some l]> (table r) /\ view r' = <[k := a]> (view r).
Proof.
  intros W Hf Hk0 Ha. destruct (full_at r k0 _ Hf Hk0) as (l' & o & a' & [= <-] & Ho & Hd & Hv).
  rewrite Hv in Ha. injection Ha as ->.
  destruct (retain_wf l o held loose r W Ho) as (r1 & E1 & W1 & Ht1 & Hv1 & Hl1 & Hp1).
  destruct (move_to_wf k (Some l) held loose r1 W1) as (r' & E & W' & Ht & [Hc1 Hc2] & Hv' & _).
  assert (view r' = <[k := a]> (view r)) as Hview.
  { rewrite Hv', Hp1, Hv1. unfold pointee. simpl. rewrite Ho. simpl. rewrite Hd.
    apply map_eq. intros k'. destruct (decide (k = k')) as [<-|].
    - by rewrite lookup_partial_alter_eq, lookup_insert_eq.
    - by rewrite lookup_partial_alter_ne, lookup_insert_ne. }
  exists r'. split_and!; [|done| | |by rewrite Ht, Ht1|done].
  - unfold copy_to, mbind, M_bind. by rewrite E1.
  - intros k'. rewrite Hview, Ht, Ht1. destruct (decide (k = k')) as [<-|].
    + rewrite !lookup_insert_eq. by eexists.
    + rewrite !lookup_insert_ne by done. apply Hf.
  - split; [by rewrite <- Hl1|]. intros x Hx. apply Hc2. by rewrite Hl1.
Qed.

(** No key points to an address without an object; the view does not see what
    is written to an object that no key points to. *)
Lemma unreferenced held loose r l k p :
  wf held loose r -> objects r !! l = None -> table r !! k = Some p -> p <> Some l.
Proof.
  intros W Hl Hk ->. apply in_table_pos in Hk. pose proof (wf_count _ _ _ W l) as H.
  rewrite Hl in H. lia.
Qed.

Lemma pointee_other objs l o p : p <> Some l -> pointee (<[l := o]> objs) p = pointee objs p.
Proof. destruct p as [l'|]; [|done]. intros. unfold pointee. simpl. by rewrite lookup_insert_ne by congruence. Qed.

(** The members of the service stay open. *)
Definition keeps_members (r r' : Store) : Prop :=
  forall x, x ∈ live r -> (forall z, x <> PairSocket z) -> x ∈ live r'.

(** The new object up to its first key: it has its socket and is in the view. *)
Lemma publish_wf base socket port junk m r :
  wf [] ∅ r -> full r -> PairSocket socket ∉ live r -> table r !! base = None ->
  exists l r', publish base socket port junk m r = Ok (tt, r')
    /\ wf [] ∅ r' /\ full r' /\ keeps_members r r' /\ table r' = <[base := Some l]> (table r)
    /\ view r' = <[base := actor_of socket port m]> (view r).
Proof.
  intros W Hf Hz Hb.
  pose proof (create_wf socket [] r W Hz) as W1. set (r1 := set_live _ r) in W1.
  destruct (make_shared_wf junk [] {[socket]} r1 W1) as (l & E2 & Hl & W2).
  set (r2 := set_objects _ r1) in E2, W2.
  destruct (move_to_wf base (Some l) [] {[socket]} r2 W2) as (r3 & E3 & W3 & Ht3 & [_ Hc3] & Hv3 & Ho3).
  assert (objects r3 !! l = Some (new_ActorDetails junk)) as Hl3.
  { apply Ho3; [apply lookup_insert_eq|]. cbn. by rewrite Hb. }
  assert (table r3 !! base = Some (Some l)) as Hb3 by (rewrite Ht3; apply lookup_insert_eq).
  set (o' := mkObj (Some socket) port (ar_pid m) (ar_appName m) 1).
  set (r4 := set_objects (<[l := o']> (objects r3)) r3).
  assert (view r4 = <[base := actor_of socket port m]> (view r)) as Hview.
  { apply map_eq. intros k. destruct (decide (base = k)) as [<-|Hne].
    - rewrite lookup_insert_eq, (view_at r4 base (Some l)) by done. unfold pointee. simpl.
      by rewrite lookup_insert_eq.
    - rewrite lookup_insert_ne by done. transitivity (view r3 !! k).
      + unfold view. rewrite !lookup_omap. cbn [table objects r4 set_objects].
        destruct (table r3 !! k) as [p|] eqn:Ep; [|done]. simpl. apply pointee_other.
        rewrite Ht3, lookup_insert_ne in Ep by done. by apply (unreferenced [] {[socket]} r1 l k).
      + rewrite Hv3, lookup_partial_alter_ne by done. unfold view. rewrite !lookup_omap.
        cbn [table objects r2 r1 set_objects set_live]. destruct (table r !! k) as [p|] eqn:Ep; [|done].
        simpl. apply pointee_other. by apply (unreferenced [] ∅ r l k). }
  exists l, r4. split_and!.
  - unfold publish, mbind at 1, M_bind at 1. change (create _ r) with (Ok (tt, r1)). cbv beta iota.
    unfold mbind at 1, M_bind at 1. rewrite E2. cbv beta iota.
    unfold mbind at 1, M_bind at 1. rewrite E3. cbv beta iota.
    do 3 (unfold mbind at 1, M_bind at 1;
      erewrite field_run; [|exact Hb3|first [exact Hl3|apply lookup_insert_eq]]; cbv beta iota).
    erewrite field_run; [|exact Hb3|apply lookup_insert_eq].
    unfold r4. cbn [objects set_objects]. by rewrite !insert_insert_eq.
  - by apply (adopt_wf [] socket l (new_ActorDetails junk) o' r3).
  - intros k. rewrite Hview. cbn [table r4 set_objects]. rewrite Ht3. cbn [table r2 set_objects r1 set_live].
    destruct (decide (base = k)) as [<-|]; [rewrite !lookup_insert_eq; by eexists|].
    rewrite !lookup_insert_ne by done. apply Hf.
  - intros x Hx Hp. apply Hc3; [|done]. cbn. set_solver.
  - done.
  - exact Hview.
Qed.

Lemma closes_keeps r r' : closes r r' -> keeps_members r r'.
Proof. by intros [_ H]. Qed.

Lemma RegisterActor_wf mac host socket port junk m r :
  let base := clientKeyBase (ar_appName m) (ar_actorName m) in
  let a := actor_of socket port m in
  wf [] ∅ r -> full r -> PairSocket socket ∉ live r -> table r !! base = None ->
  exists r', RegisterActor_store mac host socket port junk m r = Ok (tt, r')
    /\ wf [] ∅ r' /\ full r' /\ keeps_members r r'
    /\ view r' = <[base +:+ host := a]> (<[base +:+ mac := a]> (<[base := a]> (view r))).
Proof.
  intros base a W Hf Hz Hb.
  destruct (publish_wf base socket port junk m r W Hf Hz Hb) as (l & r1 & E1 & W1 & F1 & K1 & T1 & V1).
  assert (table r1 !! base = Some (Some l)) as Hb1 by (rewrite T1; apply lookup_insert_eq).
  assert (view r1 !! base = Some a) as Hv1 by (rewrite V1; apply lookup_insert_eq).
  destruct (copy_to_wf (base +:+ mac) base l a [] ∅ r1 W1 F1 Hb1 Hv1) as (r2 & E2 & W2 & F2 & C2 & T2 & V2).
  assert (table r2 !! base = Some (Some l)) as Hb2.
  { rewrite T2. destruct (decide (base +:+ mac = base)) as [->|]; [apply lookup_insert_eq|by rewrite lookup_insert_ne]. }
  assert (view r2 !! base = Some a) as Hv2.
  { rewrite V2. destruct (decide (base +:+ mac = base)) as [->|]; [apply lookup_insert_eq|by rewrite lookup_insert_ne]. }
  destruct (copy_to_wf (base +:+ host) base l a [] ∅ r2 W2 F2 Hb2 Hv2) as (r3 & E3 & W3 & F3 & C3 & _ & V3).
  exists r3. split_and!; [|done|done| |by rewrite V3, V2, V1].
  - unfold RegisterActor_store. fold base. unfold mbind, M_bind. rewrite E1, (subscript_hit _ _ _ Hb1).
    rewrite E2, (subscript_hit _ _ _ Hb2). exact E3.
  - intros x Hx Hp. apply (closes_keeps _ _ C3); [|done]. apply (closes_keeps _ _ C2); [|done]. by apply K1.
Qed.

(** A registration does to the store what [MsgHandler.v] does to the table. *)
Lemma HandleActorReg_wf {V} (InfoHash : string -> string) running socket port junk m s r :
  wf [] ∅ r -> full r -> clients_ s = view r -> PairSocket socket ∉ live r ->
  exists r', HandleActorReg_store (mac_address_ s) (host_address_ s) running socket port junk m r = Ok (tt, r')
    /\ wf [] ∅ r' /\ full r' /\ keeps_members r r'
    /\ view r' = clients_ (HandleActorReg (V := V) InfoHash running socket port m s).1.
Proof.
  intros W Hf Hs Hz. set (base := clientKeyBase (ar_appName m) (ar_actorName m)).
  assert (clients_ s !! base = view r !! base) as Hbase by by rewrite Hs.
  assert (forall run : bool, run = match clients_ s !! base with Some a => running (ad_pid a) | None => false end ->
    (match table r !! base with
     | Some p => o ← points_to p; mret (running (ao_pid o))
     | None => mret false
     end) r = Ok (run, r)) as Hrun.
  { intros run ->. rewrite Hbase. destruct (table r !! base) as [p|] eqn:Ep.
    - destruct (full_at r base p Hf Ep) as (l & o & a & -> & Ho & Ha & ->). unfold mbind, M_bind.
      rewrite (points_to_run r l o Ho). by rewrite (proj1 (proj2 (details_of o a Ha))).
    - unfold view. by rewrite lookup_omap, Ep. }
  unfold HandleActorReg_store. fold base. unfold get, mbind at 1, M_bind at 1. unfold mbind at 1, M_bind at 1.
  specialize (Hrun _ eq_refl).
  set (run := match clients_ s !! base with Some a => running (ad_pid a) | None => false end) in *.
  rewrite Hrun. destruct run eqn:Er.
  { exists r. split_and!; [done..|by intros x Hx|]. unfold HandleActorReg, read at 1. fold base run. by rewrite Er. }
  rewrite (HandleActorReg_fresh (V := V) InfoHash running socket port m s Er). cbn [fst clients_ set_clients].
  unfold purged. fold base. rewrite Hbase. destruct (table r !! base) as [p|] eqn:Ep.
  - destruct (DeregisterActor_wf s (ar_appName m) (ar_actorName m) ∅ r W Hf Hs)
      as (r1 & E1 & W1 & F1 & [C1 K1] & V1 & T1).
    destruct (RegisterActor_wf (mac_address_ s) (host_address_ s) socket port junk m r1 W1 F1)
      as (r2 & E2 & W2 & F2 & K2 & V2); [by intros H%C1|exact T1|].
    exists r2. split_and!; [|done|done|by intros x Hx Hp; apply K2, Hp; apply K1|].
    + unfold mbind, M_bind. rewrite E1. exact E2.
    + rewrite V2. fold base. rewrite bool_decide_eq_true_2 by (apply Hf; by eexists). by rewrite V1.
  - destruct (RegisterActor_wf (mac_address_ s) (host_address_ s) socket port junk m r W Hf Hz Ep)
      as (r2 & E2 & W2 & F2 & K2 & V2).
    exists r2. split_and!; [exact E2|done..|]. rewrite V2. fold base.
    rewrite bool_decide_eq_false_2; [by rewrite Hs|]. unfold view. rewrite lookup_omap, Ep. by intros [? ?].
Qed.

(** ** The destructor *)

Definition members : list Resource := [Poller; UpdateSocket; RiapsSocket; Tracker].

Lemma destroy_member_wf x held loose r :
  wf held loose r -> (forall z, x <> PairSocket z) -> wf held loose (set_live (live r ∖ {[x]}) r).
Proof.
  intros W Hx. split; cbn [table objects live set_live];
    [apply (wf_count _ _ _ W)|apply (wf_used _ _ _ W)|apply (wf_apart _ _ _ W)| |apply (wf_loose _ _ _ W)].
  intros z. rewrite <- (wf_live _ _ _ W). specialize (Hx z). set_solver.
Qed.

Lemma close_client_wf k l o r :
  wf [] ∅ r -> table r !! k = Some (Some l) -> objects r !! l = Some o ->
  exists r', close_client k r = Ok (tt, r') /\ wf [] ∅ r' /\ table r' = table r
    /\ objects r' = <[l := set_socket None o]> (objects r) /\ live r' ⊆ live r.
Proof.
  intros W Hk Ho. unfold close_client, mbind, M_bind. rewrite (subscript_hit _ _ _ Hk), (points_to_run r l o Ho).
  destruct (ao_socket o) as [z|] eqn:Ez.
  2: { exists r. split_and!; [done..| |done]. rewrite insert_id; [done|]. destruct o as [v ? ? ? ?]. simpl in Ez. by subst v. }
  rewrite destroy_run by (apply (wf_live _ _ _ W); left; by exists l, o).
  rewrite (write_run (set_live _ r) l o _ Ho). eexists. split; [reflexivity|]. split_and!; [|reflexivity|reflexivity|cbn; set_solver].
  assert (forall l' o' z', <[l := set_socket None o]> (objects r) !! l' = Some o' -> ao_socket o' = Some z' ->
    l' <> l /\ objects r !! l' = Some o') as Hi.
  { intros l' o' z' [[<- <-]|[? ?]]%lookup_insert_Some; [done|by split]. }
  split; cbn [table objects live set_objects set_live].
  - intros l'. rewrite (wf_count _ _ _ W l'). destruct (decide (l = l')) as [<-|].
    + by rewrite lookup_insert_eq, Ho.
    + by rewrite lookup_insert_ne.
  - intros l' o' [[<- <-]|[_ H]]%lookup_insert_Some; [exact (wf_used _ _ _ W l o Ho)|by apply (wf_used _ _ _ W l')].
  - intros l1 l2 o1 o2 z' H1 H2 E1 E2. destruct (Hi _ _ _ H1 E1) as [_ H1'], (Hi _ _ _ H2 E2) as [_ H2'].
    by apply (wf_apart _ _ _ W l1 l2 o1 o2 z').
  - intros z'. rewrite elem_of_difference, elem_of_singleton, (wf_live _ _ _ W). split.
    + intros [[(l' & o' & H & E)|[]%not_elem_of_empty] Hne]. left. exists l', o'. split; [|done].
      rewrite lookup_insert_ne; [done|]. intros <-. congruence.
    + intros [(l' & o' & H & E)|[]%not_elem_of_empty]. destruct (Hi _ _ _ H E) as [Hne H'].
      split; [left; by exists l', o'|]. intros [= ->]. apply Hne. by apply (wf_apart _ _ _ W l' l o' o z).
  - intros l' o' z' _ _. apply not_elem_of_empty.
Qed.

(** Every pointer of the table points to an object. *)
Definition no_null (r : Store) : Prop :=
  forall k p, table r !! k = Some p -> exists l o, p = Some l /\ objects r !! l = Some o.
(** The object behind a key has no socket any more. *)
Definition closed_at (r : Store) (k : string) : Prop :=
  forall l o, table r !! k = Some (Some l) -> objects r !! l = Some o -> ao_socket o = None.

Lemma close_all_wf l r :
  wf [] ∅ r -> no_null r -> (forall k, k ∈ l -> is_Some (table r !! k)) ->
  exists r', for_all l close_client r = Ok (tt, r') /\ wf [] ∅ r' /\ no_null r' /\ table r' = table r
    /\ live r' ⊆ live r /\ forall k, (k ∈ l \/ closed_at r k) -> closed_at r' k.
Proof.
  revert r. induction l as [|k l IH]; intros r W Hn Hl.
  { exists r. split_and!; [done..|]. by intros k [?%elem_of_nil|?]. }
  destruct (Hl k) as [p Hp]; [left|]. destruct (Hn k p Hp) as (i & o & -> & Ho).
  destruct (close_client_wf k i o r W Hp Ho) as (r1 & E1 & W1 & T1 & O1 & L1).
  assert (forall k', k' = k \/ closed_at r k' -> closed_at r1 k') as Hc.
  { intros k' Hk' l' o' Ht. rewrite O1, T1 in *. intros [[<- <-]|[Hne H]]%lookup_insert_Some; [done|].
    destruct Hk' as [->|Hk']; [congruence|by eapply Hk']. }
  destruct (IH r1 W1) as (r' & E' & W' & N' & T' & L' & C').
  - intros k' p' Hk'. rewrite T1 in Hk'. destruct (Hn k' p' Hk') as (l' & o' & -> & H). exists l'.
    destruct (decide (i = l')) as [<-|]; rewrite O1.
    + eexists. by rewrite lookup_insert_eq.
    + exists o'. by rewrite lookup_insert_ne.
  - intros k' Hk'. rewrite T1. apply Hl. by right.
  - exists r'. split_and!; [|done|done|by rewrite T', T1|by transitivity (live r1)|].
    + cbn [for_all]. unfold mbind, M_bind. by rewrite E1.
    + intros k' [[->|Hk']%elem_of_cons|Hk']; apply C'; [right; apply Hc; by left|by left|right; apply Hc; by right].
Qed.

Lemma in_table_exists l t : (0 < in_table l t)%nat -> exists k, t !! k = Some (Some l).
Proof.
  intros H. destruct (decide (filter (fun kv => kv.2 = Some l) t = ∅)) as [E|E].
  - unfold in_table in H. rewrite E, map_size_empty in H. lia.
  - apply map_choose in E as (k & p & Hk). apply map_lookup_filter_Some in Hk as [Hk Hp]. simpl in Hp.
    exists k. by rewrite Hk, Hp.
Qed.

(** Every object has a key. *)
Lemma object_has_key loose r l o : wf [] loose r -> objects r !! l = Some o -> exists k, table r !! k = Some (Some l).
Proof.
  intros W Ho. apply in_table_exists. pose proof (wf_count _ _ _ W l) as H. rewrite Ho in H.
  pose proof (wf_used _ _ _ W l o Ho). unfold in_list in H. simpl in H. lia.
Qed.

Lemma without_keys {A} (m : gmap string A) l : (forall k, is_Some (m !! k) -> k ∈ l) -> without l m = ∅.
Proof.
  revert m. induction l as [|x l IH]; intros m H.
  - apply map_empty. intros k. apply eq_None_not_Some. intros Hk. by apply H, elem_of_nil in Hk.
  - apply IH. intros k [a [Hne Hk]%lookup_delete_Some].
    assert (k ∈ x :: l) as [->|?]%elem_of_cons by (apply H; by eexists); [congruence|done].
Qed.

Lemma keys_spec r k : k ∈ keys r <-> is_Some (table r !! k).
Proof.
  unfold keys. split.
  - intros ([k' p] & -> & H)%list_elem_of_fmap. apply elem_of_smap_to_list in H. by eexists.
  - intros [p H]. apply list_elem_of_fmap. exists (k, p). split; [done|]. by apply elem_of_smap_to_list.
Qed.

Lemma delete_Handler_run r :
  wf [] ∅ r -> full r -> (forall x, x ∈ members -> x ∈ live r) ->
  exists r', delete_Handler r = Ok (tt, r') /\ live r' = ∅ /\ objects r' = ∅ /\ table r' = ∅.
Proof.
  intros W Hf Hm.
  set (r1 := set_live (live r ∖ {[Poller]} ∖ {[UpdateSocket]} ∖ {[RiapsSocket]} ∖ {[Tracker]}) r).
  assert (for_all members destroy r = Ok (tt, r1)) as E1.
  { unfold members. cbn [for_all]. unfold mbind, M_bind.
    assert (forall x y r0, x <> y -> x ∈ live r0 -> x ∈ live (set_live (live r0 ∖ {[y]}) r0)) as Hd
      by (intros x y r0 Hxy Hx; cbn; set_solver).
    assert (forall x, x ∈ members -> x ∈ live r) as H by exact Hm. unfold members in H.
    rewrite (destroy_run r) by (apply H; set_solver).
    rewrite !destroy_run by (repeat (apply Hd; [done|]); apply H; set_solver). done. }
  assert (wf [] ∅ r1) as W1 by (do 4 (apply (destroy_member_wf _ [] ∅ (mkStore _ _ _)); [|done]); by destruct r).
  destruct (close_all_wf (keys r) r1 W1) as (r2 & E2 & W2 & N2 & T2 & L2 & C2).
  { intros k p Hk. destruct (full_at r k p Hf Hk) as (l & o & a & -> & Ho & _). by exists l, o. }
  { intros k Hk. by apply keys_spec in Hk. }
  destruct (erase_all_wf (keys r) [] ∅ r2 W2) as (r3 & E3 & W3 & T3 & _ & [L3 _]).
  exists r3. split.
  { unfold delete_Handler. fold members. unfold mbind at 1, M_bind at 1. rewrite E1. unfold get, mbind, M_bind.
    change (keys r1) with (keys r). by rewrite E2. }
  assert (table r3 = ∅) as Ht.
  { rewrite T3, T2. apply without_keys. intros k Hk. by apply keys_spec. }
  assert (objects r3 = ∅) as Ho.
  { apply map_empty. intros l. apply eq_None_not_Some. intros [o H].
    apply (object_has_key ∅ r3 l o W3) in H as [k Hk]. by rewrite Ht in Hk. }
  split_and!; [|done|done].
  apply elem_of_equiv_empty_L. intros x Hx.
  assert (x ∈ live r1) as Hx1 by auto. destruct x as [| | | |z]; [set_solver..|].
  apply (wf_live _ _ _ W3) in Hx as [(l & o & H & _)|H]; [by rewrite Ho in H|by apply elem_of_empty in H].
Qed.

(** ** Rounds *)

Section Rounds.
Context {V : Type}.
Variable seal : string -> V.
Variable InfoHash_get InfoHash : string -> string.
Variable pack : GroupDetails -> string.
Implicit Type s : Handler.

Abbreviation RunStep e ev s :=
  (RunStep (V := V) seal InfoHash_get InfoHash pack (re_running e) (re_socket e) (re_port e)
     (re_start e) (re_clk e) ev s).
Abbreviation serves := (serves (V := V) seal InfoHash_get InfoHash pack).

(** The table after an event. *)
Definition table_after (e : RoundEnv) (ev : Event) s : gmap string ActorDetails :=
  match ev with
  | OnRiaps (Some (_, actorReg m)) =>
      clients_ (HandleActorReg (V := V) InfoHash (re_running e) (re_socket e) (re_port e) m s).1
  | OnRiaps (Some (_, actorUnreg m)) => clients_ (DeregisterActor (au_appName m) (au_actorName m) s).2
  | _ => clients_ s
  end.

Definition sent_within (t : gmap string ActorDetails) (out : list (DiscOut (V := V))) : Prop :=
  forall z u, ToActor z u ∈ out -> exists k a, t !! k = Some a /\ ad_socket a = z.

Lemma HandleActorReg_same e m s1 s2 :
  clients_ s1 = clients_ s2 -> mac_address_ s1 = mac_address_ s2 -> host_address_ s1 = host_address_ s2 ->
  clients_ (HandleActorReg (V := V) InfoHash (re_running e) (re_socket e) (re_port e) m s1).1
  = clients_ (HandleActorReg (V := V) InfoHash (re_running e) (re_socket e) (re_port e) m s2).1.
Proof.
  intros Hc Hm Hh. set (base := clientKeyBase (ar_appName m) (ar_actorName m)).
  destruct (match clients_ s1 !! base with Some a => re_running e (ad_pid a) | None => false end) eqn:E.
  - unfold HandleActorReg, read at 1 3. fold base. rewrite <- Hc, E. exact Hc.
  - pose proof E as E2. rewrite Hc in E2. apply map_eq. intros k.
    rewrite (HandleActorReg_clients (V := V) InfoHash _ _ _ m s1 k E).
    rewrite (HandleActorReg_clients (V := V) InfoHash _ _ _ m s2 k E2).
    unfold actor_keys. by rewrite Hc, Hm, Hh.
Qed.

Lemma table_after_same e ev s1 s2 :
  clients_ s1 = clients_ s2 -> mac_address_ s1 = mac_address_ s2 -> host_address_ s1 = host_address_ s2 ->
  table_after e ev s1 = table_after e ev s2.
Proof.
  intros Hc Hm Hh. unfold table_after. destruct ev as [|?|?|[[? []]|]]; try done.
  - by apply HandleActorReg_same.
  - simpl. by rewrite Hc, Hm, Hh.
Qed.

Lemma group_update_within m l cache t :
  (forall k a, (k, a) ∈ l -> t !! k = Some a) -> sent_within t (send_group_update (V := V) m cache l).
Proof.
  revert cache. induction l as [|[k a] l IH]; intros cache H z u; simpl; [by intros ?%elem_of_nil|].
  assert (forall k a, (k, a) ∈ l -> t !! k = Some a) as Hl by (intros k' a' Hin; apply H; by right).
  case_bool_decide; [case_bool_decide|]; [by apply IH| |by apply IH].
  intros [[= -> ->]|Hin]%elem_of_cons; [|by eapply IH]. exists k, a. split; [|done]. apply H. left.
Qed.

(** Nothing is sent to actors but updates from the DHT. *)
Definition quiet (out : list (DiscOut (V := V))) : Prop := forall z u, ToActor z u ∉ out.

Lemma quiet_within t out : quiet out -> sent_within t out.
Proof. intros H z u Hin. by destruct (H z u). Qed.

Lemma facts_quiet s ev s' out :
  (forall m, ev <> OnDht m) -> round_facts seal InfoHash_get InfoHash s ev s' out -> quiet out.
Proof.
  intros Hev F z [u|u] Hin.
  - destruct (rf_sent _ _ _ _ _ _ _ F z u Hin) as (? & ? & ? & ? & [(? & ? & -> & _)|(? & -> & _)] & _);
      by eapply Hev.
  - apply (Hev (Some (dhtGroupUpdate u))). by eapply (rf_groups _ _ _ _ _ _ _ F).
Qed.

Lemma DhtMessage_within clk msg s :
  clients_ (HandleDhtMessage (V := V) clk msg s).1 = clients_ s
  /\ sent_within (clients_ s) (HandleDhtMessage (V := V) clk msg s).2.
Proof.
  destruct msg as [[m|m|l|m]|]; cbn [HandleDhtMessage].
  - rewrite HandleDhtUpdate_run. split; [done|]. cbn [snd].
    intros z u (c & _ & (ep & _ & Hin)%elem_of_concat_map)%elem_of_concat_map. unfold delivery in Hin.
    destruct (usable s ep); [|by apply elem_of_nil in Hin].
    destruct (clients_ s !! _) as [a|] eqn:Ha; [|by apply elem_of_nil in Hin].
    apply list_elem_of_singleton in Hin as [= -> ->]. by eexists _, a.
  - rewrite HandleDhtGet_run. split; [done|]. cbn [snd]. intros z u (ep & _ & Hin)%elem_of_concat_map.
    destruct (usable s ep); [|by apply elem_of_nil in Hin].
    destruct (clients_ s !! _) as [a|] eqn:Ha; [|by apply elem_of_nil in Hin].
    apply list_elem_of_singleton in Hin as [= -> ->]. by eexists _, a.
  - split; [done|]. intros z u ?%elem_of_nil. done.
  - split; [done|]. apply group_update_within. intros k a. apply elem_of_smap_to_list.
  - split; [done|]. intros z u ?%elem_of_nil. done.
Qed.

Lemma event_table e ev s s' out :
  match ev with
  | Idle_ => Ok (s, [])
  | OnPipe msg => HandlePipeMessage msg s
  | OnDht msg => Ok (HandleDhtMessage (re_clk e) msg s)
  | OnRiaps msg =>
      HandleRiapsMessage seal InfoHash_get InfoHash pack (re_running e) (re_socket e) (re_port e)
        (re_clk e 2%nat) msg s
  end = Ok (s', out) -> clients_ s' = table_after e ev s /\ sent_within (clients_ s') out.
Proof.
  intros H. destruct ev as [|msg|msg|msg].
  - injection H as <- <-. split; [done|]. by intros z u ?%elem_of_nil.
  - split.
    + revert H. unfold HandlePipeMessage. destruct msg as [[|c hosts]|]; [done| |by intros [= <- _]].
      repeat case_bool_decide; by intros [= <- _].
    + apply quiet_within. eapply (facts_quiet s (OnPipe msg)); [done|].
      by apply (PipeMessage_facts seal InfoHash_get InfoHash msg).
  - apply Ok_pair in H as [<- <-]. destruct (DhtMessage_within (re_clk e) msg s) as [E ?]. by rewrite E.
  - split; [|apply quiet_within; eapply (facts_quiet s (OnRiaps msg)); [done|];
      exact (RiapsMessage_facts seal (fun _ => None) InfoHash_get InfoHash pack (fun _ => None) id id _ _ _ _ _ _ _ _ H)].
    revert H. unfold HandleRiapsMessage. destruct msg as [[identity [m|m|m|m|m]]|]; simpl.
    + intros [<- _]%Ok_pair. by apply HandleActorReg_same.
    + rewrite HandleServiceReg_run. destruct (BuildInsertKeyValuePair _ _ _ _ _ _ _) as [[k v]| |]; [|done..].
      by intros [= <- _].
    + rewrite HandleServiceLookup_run. destruct (lookup_key _ _) as [[k v]| |]; [|done..].
      intros [<- _]%Ok_pair. simpl. by destruct (bool_decide _).
    + rewrite HandleActorUnreg_run. by intros [= <- _].
    + by intros [= <- _].
    + by intros [= <- _].
Qed.

Lemma RunStep_table e ev s s' out :
  RunStep e ev s = Ok (s', out) -> clients_ s' = table_after e ev s /\ sent_within (clients_ s') out.
Proof.
  unfold MsgHandler.RunStep. set (b1 := service_check_period_ <? _). set (b2 := zombie_check_period_ <? _).
  set (r1 := (when b1 _ ;; when b2 _)%riaps s).
  assert (clients_ r1.1 = clients_ s /\ mac_address_ r1.1 = mac_address_ s /\ host_address_ r1.1 = host_address_ s)
    as (Hc & Hm & Hh) by (subst r1; by destruct b1, b2).
  assert (sent_within (clients_ s') r1.2) as H1.
  { intros z u Hin. pose proof (maintenance_facts seal InfoHash_get InfoHash b1 b2 (re_clk e 0%nat) (re_clk e 1%nat) s) as F.
    destruct u as [u|u].
    - by destruct (rf_sent _ _ _ _ _ _ _ F z u Hin) as (? & ? & ? & ? & [(? & ? & [=] & _)|(? & [=] & _)] & _).
    - by pose proof (rf_groups _ _ _ _ _ _ _ F z u Hin). }
  rewrite (table_after_same e ev s r1.1) by congruence. intros H.
  apply bind_Ok in H as ([s2 o2] & H & [= <- <-]).
  assert (clients_ s2 = table_after e ev r1.1 /\ sent_within (clients_ s2) o2) as [H2 H3]; [|split; [done|]].
  2: { intros z u [Hin|Hin]%elem_of_app; [by eapply H1|by eapply H3]. }
  clear H1. clearbody r1. revert H. apply event_table.
Qed.
(** What holds of the service and of its store between two rounds. *)
Record in_step s (r : Store) : Prop := {
  is_wf : wf [] ∅ r;
  is_full : full r;
  is_view : view r = clients_ s;
  is_members x : x ∈ members -> x ∈ live r;
}.

(** The open sockets are those of the table. *)
Lemma live_view r z :
  wf [] ∅ r -> full r -> PairSocket z ∈ live r <-> exists k a, view r !! k = Some a /\ ad_socket a = z.
Proof.
  intros W Hf. rewrite (wf_live _ _ _ W). split.
  - intros [(l & o & Ho & Hz)|[]%not_elem_of_empty]. destruct (object_has_key ∅ r l o W Ho) as [k Hk].
    destruct (full_at r k _ Hf Hk) as (l' & o' & a & [= <-] & Ho' & Ha & Hv). exists k, a.
    split; [done|]. destruct (details_of o' a Ha) as (_ & _ & E). congruence.
  - intros (k & a & Hv & <-). left.
    destruct (table r !! k) as [p|] eqn:Hk; [|unfold view in Hv; by rewrite lookup_omap, Hk in Hv].
    destruct (full_at r k p Hf Hk) as (l & o & a' & -> & Ho & Ha & Hv'). exists l, o. split; [done|].
    rewrite Hv' in Hv. injection Hv as ->.
    by destruct (details_of o a Ha) as (_ & _ & E).
Qed.

Lemma uses_run t (out : list (DiscOut (V := V))) r :
  sent_within t out -> (forall k a, t !! k = Some a -> PairSocket (ad_socket a) ∈ live r) ->
  for_all out (fun o => match o with ToActor z _ => use (PairSocket z) | _ => mret tt end) r = Ok (tt, r).
Proof.
  intros Hs Hl. induction out as [|o out IH]; [done|]. cbn [for_all]. unfold mbind, M_bind.
  assert (sent_within t out) as Hs' by (intros z u Hin; eapply Hs; right; exact Hin).
  destruct o; try by apply IH.
  destruct (Hs socket m) as (k & a & Hk & <-); [left|].
  unfold use, get, mbind, M_bind. rewrite bool_decide_eq_true_2 by by eapply Hl. by apply IH.
Qed.

(** The requests that change the table. *)
Lemma request_store_run s r e junk ev :
  in_step s r -> PairSocket (re_socket e) ∉ live r ->
  exists r', request_store e junk ev s r = Ok (tt, r')
    /\ wf [] ∅ r' /\ full r' /\ keeps_members r r' /\ view r' = table_after e ev s.
Proof.
  intros [W F E Hm] Hz. unfold table_after, request_store.
  assert (wf [] ∅ r /\ full r /\ keeps_members r r /\ view r = clients_ s) as H by (by split_and!; [..|intros x Hx|]).
  destruct ev as [|?|?|[[? [m|m|m|m|m]]|]]; try by exists r.
  - by apply HandleActorReg_wf.
  - destruct (DeregisterActor_wf s (au_appName m) (au_actorName m) ∅ r W F (eq_sym E))
      as (r' & E' & W' & F' & C & V' & _).
    exists r'. unfold mbind, M_bind. rewrite E'. split_and!; [done..|by apply closes_keeps|done].
Qed.

Lemma round_in_step s r e junk ev s' out :
  in_step s r -> PairSocket (re_socket e) ∉ live r -> RunStep e ev s = Ok (s', out) ->
  exists r', round_store e junk ev s out r = Ok (tt, r') /\ in_step s' r'.
Proof.
  intros I Hz H. destruct (RunStep_table e ev s s' out H) as [Hc Hs].
  destruct (request_store_run s r e junk ev I Hz) as (r' & E & W' & F' & K & V').
  assert (view r' = clients_ s') as Hv by congruence. exists r'. split.
  - unfold round_store, mbind, M_bind. rewrite E. apply (uses_run (clients_ s')); [done|].
    intros k a Hk. apply (live_view r' _ W' F'). exists k, a. by rewrite Hv.
  - split; [done..|]. intros x Hx. apply K; [by apply (is_members _ _ I)|].
    intros z ->. unfold members in Hx. set_solver.
Qed.

Lemma set_clients_id s t : t = clients_ s -> set_clients t s = s.
Proof. intros ->. by destruct s. Qed.

Lemma serves_in_step s r : serves s r -> in_step s r.
Proof.
  induction 1 as [s r Hc Hi|s r e junk ev s' out r' _ IH Hz H Hr].
  - injection Hi as <-. split.
    + split; cbn; [done|by intros l o|by intros l1 l2 o1 o2 z H1|intros z; set_solver|by intros l o z H].
    + intros k [p Hk]. done.
    + by rewrite Hc.
    + intros x Hx. unfold members in Hx. cbn. set_solver.
  - rewrite (set_clients_id s _ (is_view _ _ IH)) in H.
    destruct (round_in_step s r e junk ev s' out IH Hz H) as (r1 & E & I). congruence.
Qed.

(** C20. Each socket has one owner: however actors come and go, the table of
    pointers is the table by value that the other theorems are about; the open
    sockets of actors are exactly those of the actors in it; no round uses or
    destroys a socket that is not open, and the destructor destroys each one
    that is left once, with all that [Init] created, and leaves no object. *)
Theorem sockets_owned s r :
  serves s r ->
  view r = clients_ s
  /\ (forall z, PairSocket z ∈ live r <-> exists k a, clients_ s !! k = Some a /\ ad_socket a = z)
  /\ (forall e junk ev s' out,
        PairSocket (re_socket e) ∉ live r -> RunStep e ev s = Ok (s', out) ->
        exists r', round_store e junk ev s out r = Ok (tt, r') /\ serves s' r')
  /\ exists r', delete_Handler r = Ok (tt, r') /\ live r' = ∅ /\ objects r' = ∅ /\ table r' = ∅.
Proof.
  intros Hr. pose proof (serves_in_step s r Hr) as I. destruct I as [W F E Hm] eqn:EI. split_and!.
  - done.
  - intros z. rewrite <- E. by apply live_view.
  - intros e junk ev s' out Hz H.
    destruct (round_in_step s r e junk ev s' out (Build_in_step s r W F E Hm) Hz H) as (r' & E' & _).
    exists r'. split; [done|]. eapply serves_round; [done|exact Hz| |exact E'].
    by rewrite (set_clients_id s _ E).
  - by apply delete_Handler_run.
Qed.
End Rounds.

(** ** Witness

    An actor registers, and registers again when its process is gone. *)

Definition own_env (z : Z) : RoundEnv :=
  {| re_running := fun _ => false; re_socket := z; re_port := 4000 + z; re_start := 0; re_clk := fun _ => 0 |}.
Definition own_event : Event := OnRiaps (Some ("id", actorReg demo_reg)).

Definition own_round (z : Z) (sr : Handler * Store) : Handler * Store :=
  match RunStep (V := string) id demo_hash demo_hash demo_pack (fun _ => false) z (4000 + z) 0 (fun _ => 0)
          own_event (set_clients (view sr.2) sr.1) with
  | Ok (s', out) =>
      match round_store (own_env z) 0 own_event sr.1 out sr.2 with Ok (_, r') => (s', r') | _ => sr end
  | _ => sr
  end.

Definition own_start : Handler * Store :=
  (demo_handler, match Init_store empty_store with Ok (_, r) => r | _ => empty_store end).

Lemma own_round_serves z sr :
  serves (V := string) id demo_hash demo_hash demo_pack sr.1 sr.2 -> PairSocket z ∉ live sr.2 ->
  serves (V := string) id demo_hash demo_hash demo_pack (own_round z sr).1 (own_round z sr).2.
Proof.
  intros Hs Hz. unfold own_round.
  destruct (RunStep _ _ _ _ _ _ _ _ _ _ _) as [[s' out]| |] eqn:E1; [|done..].
  destruct (round_store _ _ _ _ _ _) as [[[] r']| |] eqn:E2; [|done..].
  exact (serves_round _ _ _ _ sr.1 sr.2 (own_env z) 0 own_event s' out r' Hs Hz E1 E2).
Qed.

Lemma sockets_owned_witness :
  let sr := own_round 8 (own_round 7 own_start) in
  (forall z, PairSocket z ∈ live sr.2 <-> exists k a, clients_ sr.1 !! k = Some a /\ ad_socket a = z)
  /\ live sr.2 = {[PairSocket 8; UpdateSocket; RiapsSocket; Tracker; Poller]}
  /\ exists r', delete_Handler sr.2 = Ok (tt, r') /\ live r' = ∅.
Proof.
  intros sr.
  assert (serves (V := string) id demo_hash demo_hash demo_pack sr.1 sr.2) as Hs.
  { apply own_round_serves; [apply own_round_serves; [by apply serves_init|]|];
      apply (bool_decide_unpack _); vm_compute; exact I. }
  destruct (sockets_owned id demo_hash demo_hash demo_pack sr.1 sr.2 Hs) as (_ & Hl & _ & r' & E & L & _).
  split; [exact Hl|]. split; [vm_compute; reflexivity|]. exists r'. split; [exact E|exact L].
Defined.
