(* ===== verification/Utils.v ===== *)
(** Utils.v - the helpers of [src/utils/r_utils.cc] ([include/utils/r_utils.h]):
    the caches of the discovery service, the arithmetic of [timespec], the
    directory of an application. *)

From Stdlib Require Import ZArith Lia Ascii.
From stdpp Require Import base gmap strings list fin_maps.
From S2P Require Import Prelude.
From S2P Require Import Timeout.

#[local] Open Scope riaps_scope.

Definition IPCACHE_TIMEOUT : Z := 30000.

(** ** Caches *)

Definition unexpired {T} (now : Z) (e : string * Timeout T) : Prop := IsTimeout now e.2 = false.
#[export] Instance unexpired_dec {T} now (e : string * Timeout T) : Decision (unexpired now e).
Proof. unfold unexpired. apply _. Defined.

(** [maintain_cache]: whether something was removed, and the cache. *)
Definition maintain_cache (now : Z) (ipcache : gmap string (Timeout milliseconds))
    : bool * gmap string (Timeout milliseconds) :=
  let marked_for_delete := filter (fun e => ~ unexpired now e) (smap_to_list ipcache) in
  (negb (bool_decide (marked_for_delete = [])),
   foldl (fun m e => delete e.1 m) ipcache marked_for_delete).

(** [maintain_servicecache]: the keys removed, and the cache. *)
Definition maintain_servicecache (time : Z) (servicecache : gmap string Z)
    : list string * gmap string Z :=
  let outdated := map fst (filter (fun e => 10000 < time - e.2) (smap_to_list servicecache)) in
  (outdated, foldl (fun m k => delete k m) servicecache outdated).

Lemma foldl_delete_lookup {A B} (f : B -> string) (l : list B) (m : gmap string A) k :
  foldl (fun m e => delete (f e) m) m l !! k = if decide (k ∈ map f l) then None else m !! k.
Proof.
  revert m. induction l as [|e l IH]; intros m; simpl; [done|].
  rewrite IH. destruct (decide (k ∈ map f l)) as [Hin|Hin].
  - by rewrite decide_True by by right.
  - destruct (decide (f e = k)) as [<-|Hne].
    + rewrite decide_True by left. apply lookup_delete_eq.
    + rewrite lookup_delete_ne by done. rewrite decide_False; [done|].
      by intros [->|?]%elem_of_cons.
Qed.

(** Deleting the entries that a test picks leaves those it does not. *)
Lemma delete_filtered {A} (P : string * A -> Prop) `{forall e, Decision (P e)} (m : gmap string A) :
  foldl (fun m e => delete e.1 m) m (filter (fun e => ~ P e) (smap_to_list m)) = filter P m.
Proof.
  apply map_eq. intros k. rewrite (foldl_delete_lookup fst), map_lookup_filter.
  destruct (m !! k) as [x|] eqn:Hk; simpl; [|by destruct (decide _)].
  destruct (decide (P (k, x))) as [HP|HP].
  - rewrite option_guard_True by done. rewrite decide_False; [done|].
    intros ([k' y] & -> & [HnP Hy%elem_of_smap_to_list]%list_elem_of_filter)%list_elem_of_fmap.
    simpl in *. congruence.
  - rewrite option_guard_False by done. rewrite decide_True; [done|].
    apply list_elem_of_fmap. exists (k, x). split; [done|].
    apply list_elem_of_filter. split; [done|]. by apply elem_of_smap_to_list.
Qed.

(** The cache afterwards holds exactly the entries whose deadline is not over. *)
Lemma maintain_cache_filter now ipcache :
  (maintain_cache now ipcache).2 = filter (unexpired now) ipcache.
Proof. apply delete_filtered. Qed.

Lemma maintain_cache_changed now ipcache :
  (maintain_cache now ipcache).1 = true <->
  exists k t, ipcache !! k = Some t /\ IsTimeout now t = true.
Proof.
  unfold maintain_cache. simpl. rewrite negb_true_iff, bool_decide_eq_false. split.
  - intros Hne. destruct (filter _ _) as [|[k t] l] eqn:E; [done|].
    assert ((k, t) ∈ filter (fun e => ~ unexpired now e) (smap_to_list ipcache)) as Hin
      by (rewrite E; left).
    apply list_elem_of_filter in Hin as [HP Hin%elem_of_smap_to_list]. exists k, t. split; [done|].
    unfold unexpired in HP. simpl in HP. by destruct (IsTimeout now t).
  - intros (k & t & Hk & Ht) E.
    assert ((k, t) ∈ filter (fun e => ~ unexpired now e) (smap_to_list ipcache)) as Hin.
    { apply list_elem_of_filter. unfold unexpired. simpl. rewrite Ht.
      split; [done|]. by apply elem_of_smap_to_list. }
    rewrite E in Hin. by apply elem_of_nil in Hin.
Qed.

(** ** [timespec]: the members are 64-bit signed integers *)

Record timespec := mkTimespec { tv_sec : Z; tv_nsec : Z }.

Definition BILLION : Z := 1000000000.

(** [operator-]; the differences and the two corrections. *)
Definition timespec_sub (ts1 ts2 : timespec) : timespec :=
  let diffSec := tv_sec ts1 - tv_sec ts2 in
  let diffNSec := tv_nsec ts1 - tv_nsec ts2 in
  let '(diffSec, diffNSec) :=
    if diffNSec <? 0 then (diffSec - 1, diffNSec + BILLION) else (diffSec, diffNSec) in
  let '(diffSec, diffNSec) :=
    if diffSec <? 0 then (diffSec + 1, diffNSec - BILLION) else (diffSec, diffNSec) in
  mkTimespec diffSec diffNSec.

(** [operator>] *)
Definition timespec_gt (ts1 ts2 : timespec) : bool :=
  if tv_sec ts2 <? tv_sec ts1 then true
  else if (tv_sec ts1 =? tv_sec ts2) && (tv_nsec ts2 <? tv_nsec ts1) then true
  else false.

(** The nanoseconds that a [timespec] stands for, and the normal form. *)
Definition nanos (ts : timespec) : Z := tv_sec ts * BILLION + tv_nsec ts.
Definition normal (ts : timespec) : Prop := 0 <= tv_nsec ts < BILLION.

(** Subtraction of time stamps is exact, and its two members never have
    opposite signs; the nanoseconds stay below a second, except that a
    difference of a whole number of seconds below zero is written with
    [tv_nsec] equal to minus one second.  With [operator>] the sign of the
    difference is the order of the time stamps. *)
Theorem timespec_sub_spec ts1 ts2 :
  normal ts1 -> normal ts2 ->
  let d := timespec_sub ts1 ts2 in
  nanos d = nanos ts1 - nanos ts2
  /\ (0 <= tv_sec d /\ 0 <= tv_nsec d < BILLION \/ tv_sec d <= 0 /\ - BILLION <= tv_nsec d < 0)
  /\ (tv_nsec d = - BILLION <-> nanos d < 0 /\ tv_nsec ts1 = tv_nsec ts2)
  /\ (timespec_gt ts1 ts2 = true <-> 0 < nanos d).
Proof.
  unfold normal, nanos, timespec_sub, timespec_gt. destruct ts1 as [s1 n1], ts2 as [s2 n2].
  cbn [tv_sec tv_nsec]. unfold BILLION in *. intros H1 H2.
  destruct (Z.ltb_spec (n1 - n2) 0); destruct (Z.ltb_spec (s1 - s2) 0);
    try destruct (Z.ltb_spec (s1 - s2 - 1) 0); cbn [tv_sec tv_nsec]; try lia;
    destruct (Z.ltb_spec s2 s1); destruct (Z.eqb_spec s1 s2); destruct (Z.ltb_spec n2 n1);
    cbn [andb]; (split_and!; [lia|lia|lia|split; [intros|]; first [done | lia]]).
Qed.

Lemma timespec_sub_spec_witness :
  let d := timespec_sub (mkTimespec 1 0) (mkTimespec 4 0) in
  d = mkTimespec (-2) (-1000000000)
  /\ nanos d = nanos (mkTimespec 1 0) - nanos (mkTimespec 4 0).
Proof.
  split; [reflexivity|].
  apply (timespec_sub_spec (mkTimespec 1 0) (mkTimespec 4 0)); unfold normal, BILLION; simpl; lia.
Defined.

(** ** The directory of an application

    [env] is the value of [RIAPSAPPS].  [back] of an empty string is undefined. *)

Fixpoint str_last (s : string) : option ascii :=
  match s with
  | EmptyString => None
  | String c EmptyString => Some c
  | String _ s' => str_last s'
  end.

Definition GetAppPath (env : option string) (appName : string) : Res string :=
  match env with
  | None => Ok ""
  | Some p =>
      c ← deref (str_last p);
      let p := if decide (c = "/"%char) then str_take (String.length p - 1) p else p in
      Ok (p +:+ "/" +:+ appName)
  end.

Lemma GetAppPath_examples :
  GetAppPath (Some "/home/riaps/apps/") "A" = Ok "/home/riaps/apps/A"
  /\ GetAppPath (Some "/home/riaps/apps") "A" = Ok "/home/riaps/apps/A"
  /\ GetAppPath None "A" = Ok "" /\ GetAppPath (Some "") "A" = UB.
Proof. by vm_compute. Qed.
