(* ===== verification/Lmdb.v ===== *)
(** Lmdb.v - the local data base of the discovery service
    ([include/utils/r_lmdb.h], [src/utils/r_lmdb.cc]).

    LMDB itself is a parameter: the type of its data bases and of its cursors,
    and the calls the wrapper makes, with the laws of its documentation as the
    class [MdbLaws].  The wrapper opens a transaction in every operation; what
    it leaves open is part of its state, since a thread may only have one. *)

From Stdlib Require Import ZArith Lia Ascii.
From stdpp Require Import base strings list sets.
From S2P Require Import Prelude.
From S2P Require Import Utils.

#[local] Open Scope riaps_scope.

(** The cursor operations that the wrapper uses. *)
Inductive MdbOp :=
| MDB_FIRST
| MDB_NEXT
| MDB_SET_KEY (key : string)
| MDB_NEXT_DUP.

(** ** What the wrapper relies on of LMDB *)

Class Mdb (Db Cursor : Type) := {
  mdb_put : string -> string -> Db -> Db;
  mdb_cursor_open : Db -> Cursor;
  mdb_cursor_get : MdbOp -> Cursor -> Cursor * option (string * string);
  mdb_cursor_del_nodup : Cursor -> Cursor;
  mdb_txn_db : Cursor -> Db;
}.

(** With [MDB_DUPSORT] a key has one or more distinct values, and the data
    base is the sequence of its keys with their values. *)
Abbreviation Groups := (list (string * list string)).


Definition values_of (key : string) (g : Groups) : list string :=
  concat (map snd (filter (fun e => e.1 = key) g)).

Definition group_items (e : string * list string) : list (string * string) := map (pair e.1) e.2.

Definition flat_items (g : Groups) : list (string * string) := concat (map group_items g).

(** A cursor has passed some items, stands on one, and has others before it;
    [cu_dups] are those of the current key, [cu_rest] the later keys. *)
Record CursorView := mkView {
  cu_all : Groups;
  cu_at : option (string * list string * Groups);
}.

Class MdbLaws (Db Cursor : Type) `{Mdb Db Cursor} := {
  db_view : Db -> Groups;
  cursor_view : Cursor -> CursorView;
  view_keys d : NoDup (map fst (db_view d));
  view_values d e : e ∈ db_view d -> e.2 <> [] /\ NoDup e.2;
  put_values key val d k v :
    v ∈ values_of k (db_view (mdb_put key val d)) <->
    v ∈ values_of k (db_view d) \/ (k = key /\ v = val);
  open_view d : cu_all (cursor_view (mdb_cursor_open d)) = db_view d;
  txn_view c : db_view (mdb_txn_db c) = cu_all (cursor_view c);
  get_keeps op c : cu_all (cursor_view (mdb_cursor_get op c).1) = cu_all (cursor_view c);
  get_first c :
    match cu_all (cursor_view c) with
    | (k, v :: vs) :: g =>
        (mdb_cursor_get MDB_FIRST c).2 = Some (k, v)
        /\ cu_at (cursor_view (mdb_cursor_get MDB_FIRST c).1) = Some (k, vs, g)
    | _ => (mdb_cursor_get MDB_FIRST c).2 = None
    end;
  get_next c :
    match cu_at (cursor_view c) with
    | Some (k, v :: vs, g) | Some (_, [], (k, v :: vs) :: g) =>
        (mdb_cursor_get MDB_NEXT c).2 = Some (k, v)
        /\ cu_at (cursor_view (mdb_cursor_get MDB_NEXT c).1) = Some (k, vs, g)
    | Some (_, [], _) => (mdb_cursor_get MDB_NEXT c).2 = None
    | None => True
    end;
  get_set_key key c :
    match values_of key (cu_all (cursor_view c)) with
    | v :: vs =>
        (mdb_cursor_get (MDB_SET_KEY key) c).2 = Some (key, v)
        /\ exists g, cu_at (cursor_view (mdb_cursor_get (MDB_SET_KEY key) c).1) = Some (key, vs, g)
    | [] => (mdb_cursor_get (MDB_SET_KEY key) c).2 = None
    end;
  get_next_dup c :
    match cu_at (cursor_view c) with
    | Some (k, v :: vs, g) =>
        (mdb_cursor_get MDB_NEXT_DUP c).2 = Some (k, v)
        /\ cu_at (cursor_view (mdb_cursor_get MDB_NEXT_DUP c).1) = Some (k, vs, g)
    | Some (_, [], _) => (mdb_cursor_get MDB_NEXT_DUP c).2 = None
    | None => True
    end;
  del_nodup c k vs g :
    cu_at (cursor_view c) = Some (k, vs, g) ->
    cu_all (cursor_view (mdb_cursor_del_nodup c)) = filter (fun e => e.1 <> k) (cu_all (cursor_view c))
    /\ cu_at (cursor_view (mdb_cursor_del_nodup c)) = Some (k, [], g);
}.

(** ** The wrapper *)

Section Lmdb.
Context {Db Cursor : Type} `{Mdb Db Cursor}.

(** The error codes of the calls of one operation; any code but 0 makes
    [if_lmdb_error] throw [lmdb_error], which is a [runtime_error]. *)
Record Codes := {
  txn_rc : Z; dbi_rc : Z; cursor_rc : Z; put_rc : Z; commit_rc : Z;
}.

Definition no_errors : Codes :=
  {| txn_rc := 0; dbi_rc := 0; cursor_rc := 0; put_rc := 0; commit_rc := 0 |}.

(** The data base, and whether a transaction is open. *)
Record Lmdb := mkLmdb { store : Db; txn_open : bool }.

(** An operation changes the state also when it throws. *)
Definition LCmd (A : Type) : Type := Lmdb -> Lmdb * Res A.

Definition set_open (b : bool) (s : Lmdb) : Lmdb := mkLmdb (store s) b.

(** [OpenTxn]: a thread may only have one transaction at a time. *)
Definition OpenTxn (r : Codes) : LCmd unit := fun s =>
  if txn_open s then (s, UB)
  else if negb (txn_rc r =? 0) then (s, Throw runtime_error)
  else if negb (dbi_rc r =? 0) then (set_open true s, Throw runtime_error)
  else (set_open true s, Ok tt).

Definition with_txn {A} (r : Codes) (k : Lmdb -> Lmdb * Res A) : LCmd A := fun s =>
  match OpenTxn r s with
  | (s, Ok _) => k s
  | (s, Throw e) => (s, Throw e)
  | (s, UB) => (s, UB)
  end.

Definition Put (r : Codes) (skey sval : string) : LCmd unit := with_txn r (fun s =>
  if negb (put_rc r =? 0) then (s, Throw runtime_error)
  else if negb (commit_rc r =? 0) then (set_open false s, Throw runtime_error)
  else (mkLmdb (mdb_put skey sval (store s)) false, Ok tt)).

Definition with_cursor {A} (r : Codes) (k : Cursor -> Lmdb -> Lmdb * Res A) : LCmd A :=
  with_txn r (fun s =>
    if negb (cursor_rc r =? 0) then (s, Throw runtime_error)
    else k (mdb_cursor_open (store s)) s).

(** The loop over [mdb_cursor_get]: the items read, the first one included. *)
Fixpoint read_items (fuel : nat) (op : MdbOp) (got : Cursor * option (string * string))
    : list (string * string) :=
  match fuel, got.2 with
  | S f, Some item => item :: read_items f op (mdb_cursor_get op got.1)
  | _, _ => []
  end.

Definition GetAll (fuel : nat) (r : Codes) : LCmd (list (string * string)) := with_cursor r (fun c s =>
  (set_open false s, Ok (read_items fuel MDB_NEXT (mdb_cursor_get MDB_FIRST c)))).

(** When the key is not found, neither cursor nor transaction is closed. *)
Definition Get (fuel : nat) (r : Codes) (skey : string) : LCmd (list string) := with_cursor r (fun c s =>
  let got := mdb_cursor_get (MDB_SET_KEY skey) c in
  match got.2 with
  | None => (s, Ok [])
  | Some _ => (set_open false s, Ok (map snd (read_items fuel MDB_NEXT_DUP got)))
  end).

(** The loop of [Del]: the cursor after it. *)
Fixpoint del_items (fuel : nat) (got : Cursor * option (string * string)) : Cursor :=
  match fuel, got.2 with
  | S f, Some _ => del_items f (mdb_cursor_get MDB_NEXT_DUP (mdb_cursor_del_nodup got.1))
  | _, _ => got.1
  end.

(** The result of the commit is not looked at. *)
Definition Del (fuel : nat) (r : Codes) (skey : string) : LCmd unit := with_cursor r (fun c s =>
  let c' := del_items fuel (mdb_cursor_get (MDB_SET_KEY skey) c) in
  (mkLmdb (if commit_rc r =? 0 then mdb_txn_db c' else store s) false, Ok tt)).
End Lmdb.

(** ** Opening *)

Definition DB_DIR : string := "riaps-disco.lmdb".

(** [Init]: the directory.  The comparison with [""] compares addresses, and
    is false: an empty variable reaches [back()] of an empty string. *)
Definition Lmdb_Init (riapsapps : option string) (create_rc open_rc : Z) : Res string :=
  match riapsapps with
  | None => Throw runtime_error
  | Some p =>
      match str_last p with
      | None => UB
      | Some c =>
          let p := if decide (c = "/"%char) then str_take (String.length p - 1) p else p in
          if negb (create_rc =? 0) || negb (open_rc =? 0) then Throw runtime_error
          else Ok (p +:+ "/" +:+ DB_DIR)
      end
  end.

(** [db()]: the singleton is stored before it is initialised; [Some b] tells
    whether its initialisation succeeded. *)
Definition db (init : Res string) (singleton : option bool) : option bool * Res unit :=
  match singleton with
  | None => match init with
            | Ok _ => (Some true, Ok tt)
            | Throw e => (Some false, Throw e)
            | UB => (Some false, UB)
            end
  | Some b => (Some b, Ok tt)
  end.

(** ** Theorems *)

Section Facts.
Context {Db Cursor : Type} `{MdbLaws Db Cursor}.

Abbreviation contents s k := (values_of k (db_view (store (Db := Db) s))).

Lemma elem_of_values_of v k g : v ∈ values_of k g <-> exists vs, (k, vs) ∈ g /\ v ∈ vs.
Proof.
  unfold values_of. rewrite elem_of_concat_map. split.
  - intros ([k' vs] & [Hk Hin]%list_elem_of_filter & Hv). simpl in *. subst. by exists vs.
  - intros (vs & Hin & Hv). exists (k, vs). split; [|done]. by apply list_elem_of_filter.
Qed.

Lemma elem_of_flat_items k v g : (k, v) ∈ flat_items g <-> v ∈ values_of k g.
Proof.
  unfold flat_items. rewrite elem_of_concat_map, elem_of_values_of. split.
  - intros ([k' vs] & Hin & (v' & [= -> ->] & Hv)%list_elem_of_fmap). by exists vs.
  - intros (vs & Hin & Hv). exists (k, vs). split; [done|]. apply list_elem_of_fmap. by exists v.
Qed.

Lemma values_of_filter k k' g :
  values_of k' (filter (fun e => e.1 <> k) g) = if decide (k' = k) then [] else values_of k' g.
Proof.
  unfold values_of. induction g as [|[k1 vs] g IH]; [by destruct (decide _)|].
  rewrite filter_cons. simpl. destruct (decide (k1 <> k)) as [Hne|Heq].
  - rewrite !filter_cons. simpl. destruct (decide (k1 = k')) as [->|Hk'].
    + rewrite decide_False by done. simpl. rewrite IH. by rewrite decide_False by done.
    + exact IH.
  - rewrite IH. destruct (decide (k' = k)); [done|]. rewrite filter_cons. simpl.
    destruct (decide (k1 = k')) as [->|]; [|done]. exfalso. by apply Heq.
Qed.

Lemma values_of_length k g : (length (values_of k g) <= length (flat_items g))%nat.
Proof.
  unfold values_of, flat_items, group_items. induction g as [|[k1 vs] g IH]; [done|].
  rewrite filter_cons. simpl. rewrite length_app, length_map.
  destruct (decide (k1 = k)); simpl; rewrite ?length_app; lia.
Qed.

(** The values of the current key, from the cursor on. *)
Lemma read_dups c k v vs g fuel :
  cu_at (cursor_view c) = Some (k, vs, g) -> (length vs < fuel)%nat ->
  read_items fuel MDB_NEXT_DUP (c, Some (k, v)) = map (pair k) (v :: vs).
Proof.
  revert c v fuel. induction vs as [|v' vs IH]; intros c v fuel Hc Hf; (destruct fuel; [simpl in Hf; lia|]);
    simpl; pose proof (get_next_dup c) as Hn; rewrite Hc in Hn.
  - destruct (mdb_cursor_get MDB_NEXT_DUP c) as [c' o]. simpl in Hn. subst o. by destruct fuel.
  - destruct Hn as [Ho Hc']. destruct (mdb_cursor_get MDB_NEXT_DUP c) as [c' o]. simpl in *. subst o.
    f_equal. apply IH; [done|lia].
Qed.

(** All items, from the cursor on. *)
Lemma read_all c k v vs g fuel :
  cu_at (cursor_view c) = Some (k, vs, g) -> Forall (fun e => e.2 <> []) g ->
  (length vs + length (flat_items g) < fuel)%nat ->
  read_items fuel MDB_NEXT (c, Some (k, v)) = map (pair k) (v :: vs) ++ flat_items g.
Proof.
  revert c k v vs fuel. induction g as [|[k1 vs1] g IHg].
  - intros c k v vs. revert c v. induction vs as [|v' vs IH]; intros c v fuel Hc Hg Hf;
      (destruct fuel; [simpl in Hf; lia|]); simpl; pose proof (get_next c) as Hn; rewrite Hc in Hn.
    + destruct (mdb_cursor_get MDB_NEXT c) as [c' o]. simpl in Hn. subst o. by destruct fuel.
    + destruct Hn as [Ho Hc']. destruct (mdb_cursor_get MDB_NEXT c) as [c' o]. simpl in *. subst o.
      f_equal. apply IH; [done..|]. simpl in *. lia.
  - intros c k v vs. revert c v. induction vs as [|v' vs IH]; intros c v fuel Hc Hg Hf;
      (destruct fuel; [simpl in Hf; lia|]); simpl; pose proof (get_next c) as Hn; rewrite Hc in Hn.
    + apply Forall_cons in Hg as [Hne Hg]. destruct vs1 as [|v1 vs1]; [done|]. destruct Hn as [Ho Hc'].
      destruct (mdb_cursor_get MDB_NEXT c) as [c' o]. simpl in *. subst o. f_equal.
      apply (IHg c' k1 v1 vs1); [done..|]. unfold flat_items in *. simpl in Hf. rewrite length_app, length_map in Hf. simpl in Hf. lia.
    + destruct Hn as [Ho Hc']. destruct (mdb_cursor_get MDB_NEXT c) as [c' o]. simpl in *. subst o.
      f_equal. apply IH; [done..|lia].
Qed.

Lemma nonempty_groups d : Forall (fun e => e.2 <> []) (db_view d).
Proof. apply Forall_forall. intros e He. by destruct (view_values d e He). Qed.

Lemma GetAll_items d fuel :
  (length (flat_items (db_view d)) < fuel)%nat ->
  read_items fuel MDB_NEXT (mdb_cursor_get MDB_FIRST (mdb_cursor_open d)) = flat_items (db_view d).
Proof.
  intros Hf. pose proof (get_first (mdb_cursor_open d)) as Hg. rewrite open_view in Hg.
  pose proof (nonempty_groups d) as Hne. destruct (db_view d) as [|[k vs] g].
  - destruct (mdb_cursor_get MDB_FIRST _) as [c o]. simpl in Hg. subst o. by destruct fuel.
  - apply Forall_cons in Hne as [Hv Hne]. destruct vs as [|v vs]; [done|]. destruct Hg as [Ho Hc].
    destruct (mdb_cursor_get MDB_FIRST _) as [c o]. simpl in *. subst o. apply read_all; [done..|].
    unfold flat_items in *. simpl in Hf. rewrite length_app, length_map in Hf. simpl in Hf. lia.
Qed.

Lemma Get_values d key fuel :
  (length (flat_items (db_view d)) < fuel)%nat ->
  let got := mdb_cursor_get (MDB_SET_KEY key) (mdb_cursor_open d) in
  match values_of key (db_view d) with
  | [] => got.2 = None
  | vs => (exists item, got.2 = Some item) /\ map snd (read_items fuel MDB_NEXT_DUP got) = vs
  end.
Proof.
  intros Hf got. subst got. pose proof (get_set_key key (mdb_cursor_open d)) as Hg. rewrite open_view in Hg.
  pose proof (values_of_length key (db_view d)) as Hlen.
  destruct (values_of key (db_view d)) as [|v vs]; [done|]. destruct Hg as [Ho [g Hc]].
  destruct (mdb_cursor_get (MDB_SET_KEY key) _) as [c o]. simpl in *. subst o. split; [by eexists|].
  rewrite (read_dups c key v vs g) by (done || lia). simpl. f_equal. rewrite map_map. apply map_id.
Qed.

Lemma Del_view d key fuel :
  (2 <= fuel)%nat ->
  let c := del_items fuel (mdb_cursor_get (MDB_SET_KEY key) (mdb_cursor_open d)) in
  forall k, values_of k (db_view (mdb_txn_db c)) = if decide (k = key) then [] else values_of k (db_view d).
Proof.
  intros Hf c k. subst c. rewrite txn_view.
  pose proof (get_set_key key (mdb_cursor_open d)) as Hg. rewrite open_view in Hg.
  pose proof (get_keeps (MDB_SET_KEY key) (mdb_cursor_open d)) as Hk. rewrite open_view in Hk.
  destruct (mdb_cursor_get (MDB_SET_KEY key) _) as [c o]. simpl in Hg, Hk.
  destruct fuel as [|[|fuel]]; [lia..|].
  destruct (values_of key (db_view d)) as [|v vs] eqn:Ev; simpl.
  - subst o. rewrite Hk. destruct (decide (k = key)) as [->|]; done.
  - destruct Hg as [-> [g Hc]].
    destruct (del_nodup c key vs g Hc) as [Ha Hd].
    pose proof (get_next_dup (mdb_cursor_del_nodup c)) as Hn. rewrite Hd in Hn.
    pose proof (get_keeps MDB_NEXT_DUP (mdb_cursor_del_nodup c)) as Hk2.
    destruct (mdb_cursor_get MDB_NEXT_DUP _) as [c2 o2]. simpl in *. subst o2.
    by rewrite Hk2, Ha, Hk, values_of_filter.
Qed.

Lemma Put_effect k v s :
  txn_open s = false ->
  exists s', Put no_errors k v s = (s', Ok tt) /\ txn_open s' = false
    /\ forall k' v', v' ∈ contents s' k' <-> v' ∈ contents s k' \/ (k' = k /\ v' = v).
Proof.
  destruct s as [d b]. simpl. intros ->. unfold Put, with_txn. simpl. eexists. split; [done|].
  split; [done|]. intros k' v'. apply put_values.
Qed.

Lemma Del_effect k s fuel :
  txn_open s = false -> (2 <= fuel)%nat ->
  exists s', Del fuel no_errors k s = (s', Ok tt) /\ txn_open s' = false
    /\ forall k', contents s' k' = if decide (k' = k) then [] else contents s k'.
Proof.
  destruct s as [d b]. simpl. intros -> Hf. unfold Del, with_cursor, with_txn. simpl. eexists.
  split; [done|]. split; [done|]. intros k'. by apply (Del_view d k fuel).
Qed.

(** C33. The wrapper implements a multimap: without errors of LMDB, [Put] adds
    one value under its key, [Get] returns the values of a key, [GetAll] all
    pairs, and [Del] removes the key with all its values; nothing else
    changes.  Every loop ends within as many rounds as there are items, and a
    transaction is left open only by the [Get] of a key without values. *)
Theorem lmdb_multimap s fuel :
  txn_open s = false -> (S (length (flat_items (db_view (store s)))) < fuel)%nat ->
  (forall k v, exists s', Put no_errors k v s = (s', Ok tt) /\ txn_open s' = false
     /\ forall k' v', v' ∈ contents s' k' <-> v' ∈ contents s k' \/ (k' = k /\ v' = v))
  /\ (exists l, GetAll fuel no_errors s = (s, Ok l) /\ forall k v, (k, v) ∈ l <-> v ∈ contents s k)
  /\ (forall k, exists s', Get fuel no_errors k s = (s', Ok (contents s k)) /\ store s' = store s
        /\ (txn_open s' = true <-> contents s k = []))
  /\ (forall k, exists s', Del fuel no_errors k s = (s', Ok tt) /\ txn_open s' = false
        /\ forall k', contents s' k' = if decide (k' = k) then [] else contents s k').
Proof.
  intros Ho Hf. split_and!; [intros k v; by apply Put_effect| | |intros k; apply Del_effect; [done|lia]];
    destruct s as [d b]; simpl in *; subst b; unfold GetAll, Get, with_cursor, with_txn; simpl.
  - exists (flat_items (db_view d)). rewrite GetAll_items by lia. split; [done|]. intros k v. apply elem_of_flat_items.
  - intros k. pose proof (Get_values d k fuel) as Hg. cbv zeta in Hg. specialize (Hg ltac:(lia)).
    destruct (values_of k (db_view d)) as [|v vs].
    + rewrite Hg. by eexists.
    + destruct Hg as [[item ->] ->]. eexists. split; [done|]. by split; [|split].
Qed.

(** A transaction is leaked: after [Get] of a key that is not there, and
    after a write that LMDB refuses, every further operation of the thread
    opens a second transaction, which LMDB forbids. *)
Theorem leaked_transaction s s1 fuel k v r :
  txn_open s = false ->
  (s1 = (Get fuel no_errors k s).1 /\ contents s k = [])
  \/ (txn_rc r = 0 /\ put_rc r <> 0 /\ s1 = (Put r k v s).1) ->
  forall r' k' v',
    (Put r' k' v' s1).2 = UB /\ (GetAll fuel r' s1).2 = UB /\ (Get fuel r' k' s1).2 = UB
    /\ (Del fuel r' k' s1).2 = UB.
Proof.
  destruct s as [d b]. simpl. intros -> Hs r' k' v'.
  assert (txn_open s1 = true) as Ho.
  { destruct Hs as [[-> Hc]|(Ht & Hp & ->)].
    - unfold Get, with_cursor, with_txn. simpl. pose proof (get_set_key k (mdb_cursor_open d)) as Hg.
      rewrite open_view, Hc in Hg. by rewrite Hg.
    - unfold Put, with_txn, OpenTxn. simpl. rewrite Ht. simpl. destruct (dbi_rc r =? 0); simpl; [|done].
      apply Z.eqb_neq in Hp. by rewrite Hp. }
  unfold Put, GetAll, Get, Del, with_cursor, with_txn, OpenTxn. by rewrite Ho.
Qed.
End Facts.

(** The failure of the first [Init] is forgotten: [db()] throws once, and from
    then on hands out the object that was never initialised. *)
Theorem failed_init_forgotten init e :
  init = Throw e -> db init None = (Some false, Throw e) /\ db init (db init None).1 = (Some false, Ok tt).
Proof. by intros ->. Qed.

(** ** A data base with these laws *)

Definition groups_wf (g : Groups) : Prop :=
  NoDup (map fst g) /\ Forall (fun e => e.2 <> [] /\ NoDup e.2) g.

Record ListDb := mkListDb { ld_groups : Groups; ld_wf : bool_decide (groups_wf ld_groups) = true }.
Record ListCursor := mkListCursor { lc_db : ListDb; lc_at : option (string * list string * Groups) }.

Definition add_value (v : string) (vs : list string) : list string :=
  if decide (v ∈ vs) then vs else vs ++ [v].

Fixpoint list_put (k v : string) (g : Groups) : Groups :=
  match g with
  | [] => [(k, [v])]
  | (k', vs) :: g' => if decide (k' = k) then (k', add_value v vs) :: g' else (k', vs) :: list_put k v g'
  end.

Lemma list_put_keys k v g x : x ∈ map fst (list_put k v g) <-> x = k \/ x ∈ map fst g.
Proof.
  induction g as [|[k' vs] g IH]; simpl; [by rewrite list_elem_of_singleton, elem_of_nil; tauto|].
  destruct (decide (k' = k)) as [->|]; simpl; rewrite !elem_of_cons; [tauto|]. rewrite IH. tauto.
Qed.

Lemma list_put_wf k v g : groups_wf g -> groups_wf (list_put k v g).
Proof.
  intros [Hk Hv]. induction g as [|[k' vs] g IH]; simpl.
  { split; repeat constructor; [by intros ?%elem_of_nil|done|by intros ?%elem_of_nil]. }
  apply NoDup_cons in Hk as [Hk' Hk]. apply Forall_cons in Hv as [[Hne Hnd] Hv]. simpl in *.
  destruct (decide (k' = k)) as [->|Hkk].
  - split; [by apply NoDup_cons|]. constructor; [|done]. simpl. unfold add_value.
    destruct (decide (v ∈ vs)); [done|]. split; [by destruct vs|]. apply NoDup_app.
    split_and!; [done| |apply NoDup_singleton]. by intros x Hx ->%list_elem_of_singleton.
  - destruct (IH Hk Hv) as [IH1 IH2]. split; [|by constructor]. simpl. apply NoDup_cons.
    split; [|done]. rewrite list_put_keys. naive_solver.
Qed.

Lemma list_put_values k v g k' v' :
  v' ∈ values_of k' (list_put k v g) <-> v' ∈ values_of k' g \/ (k' = k /\ v' = v).
Proof.
  assert (forall e (l : Groups), values_of k' (e :: l) =
    (if decide (e.1 = k') then e.2 else []) ++ values_of k' l) as Hc.
  { intros e l. unfold values_of. rewrite filter_cons. by destruct (decide (e.1 = k')). }
  induction g as [|[k1 vs] g IH]; simpl; rewrite ?Hc; simpl.
  - unfold values_of. simpl. destruct (decide (k = k')) as [->|]; simpl; set_solver.
  - destruct (decide (k1 = k)) as [->|Hne]; rewrite !Hc; simpl; rewrite !elem_of_app.
    + unfold add_value. destruct (decide (k = k')) as [->|]; destruct (decide (v ∈ vs)); set_solver.
    + rewrite IH. tauto.
Qed.

Definition list_db_put (k v : string) (d : ListDb) : ListDb :=
  mkListDb (list_put k v (ld_groups d))
    (bool_decide_eq_true_2 _ (list_put_wf k v _ (bool_decide_eq_true_1 _ (ld_wf d)))).

Lemma filter_wf k g : groups_wf g -> groups_wf (filter (fun e => e.1 <> k) g).
Proof.
  intros [Hk Hv]. split.
  - apply (sublist_NoDup _ (map fst g)); [done|]. induction g as [|e g IH]; [done|].
    rewrite filter_cons. apply NoDup_cons in Hk as [_ Hk]. apply Forall_cons in Hv as [_ Hv].
    case_decide; simpl; [apply sublist_skip|apply sublist_cons]; auto.
  - apply Forall_forall. intros e [_ He]%list_elem_of_filter. rewrite Forall_forall in Hv. auto.
Qed.

Definition list_db_del (k : string) (d : ListDb) : ListDb :=
  mkListDb (filter (fun e => e.1 <> k) (ld_groups d))
    (bool_decide_eq_true_2 _ (filter_wf k _ (bool_decide_eq_true_1 _ (ld_wf d)))).

Definition list_start (g : Groups) (c : ListCursor) : ListCursor * option (string * string) :=
  match g with
  | (k, v :: vs) :: g' => (mkListCursor (lc_db c) (Some (k, vs, g')), Some (k, v))
  | _ => (c, None)
  end.

Definition list_get (op : MdbOp) (c : ListCursor) : ListCursor * option (string * string) :=
  match op, lc_at c with
  | MDB_FIRST, _ => list_start (ld_groups (lc_db c)) c
  | MDB_SET_KEY key, _ =>
      match values_of key (ld_groups (lc_db c)) with
      | v :: vs => (mkListCursor (lc_db c) (Some (key, vs, [])), Some (key, v))
      | [] => (c, None)
      end
  | (MDB_NEXT | MDB_NEXT_DUP), Some (k, v :: vs, g) =>
      (mkListCursor (lc_db c) (Some (k, vs, g)), Some (k, v))
  | MDB_NEXT, Some (_, [], g) => list_start g c
  | _, _ => (c, None)
  end.

#[export] Instance list_mdb : Mdb ListDb ListCursor := {
  mdb_put := list_db_put;
  mdb_cursor_open d := mkListCursor d None;
  mdb_cursor_get := list_get;
  mdb_cursor_del_nodup c :=
    match lc_at c with
    | Some (k, _, g) => mkListCursor (list_db_del k (lc_db c)) (Some (k, [], g))
    | None => c
    end;
  mdb_txn_db := lc_db;
}.

#[export, program] Instance list_mdb_laws : MdbLaws ListDb ListCursor := {
  db_view := ld_groups;
  cursor_view c := mkView (ld_groups (lc_db c)) (lc_at c);
}.
Next Obligation. intros d. by destruct (bool_decide_eq_true_1 _ (ld_wf d)). Qed.
Next Obligation.
  intros d e He. destruct (bool_decide_eq_true_1 _ (ld_wf d)) as [_ Hv]. rewrite Forall_forall in Hv.
  by apply Hv.
Qed.
Next Obligation. intros. apply list_put_values. Qed.
Next Obligation. done. Qed.
Next Obligation. done. Qed.
Next Obligation.
  intros op [d a]. destruct op; simpl; unfold list_start.
  - by destruct (ld_groups d) as [|[? [|]] ?] eqn:E; simpl; rewrite ?E.
  - by destruct a as [[[? [|]] [|[? [|]] ?]]|].
  - by destruct (values_of _ _).
  - by destruct a as [[[? [|]] ?]|].
Qed.
Next Obligation. intros [d a]. simpl. by destruct (ld_groups d) as [|[? [|]] ?]. Qed.
Next Obligation. intros [d a]. by destruct a as [[[? [|]] [|[? [|]] ?]]|]. Qed.
Next Obligation. intros key [d a]. simpl. destruct (values_of _ _); [done|]. split; [done|]. by exists []. Qed.
Next Obligation. intros [d a]. by destruct a as [[[? [|]] ?]|]. Qed.
Next Obligation. intros [d a] k vs g Ha. simpl in *. by subst a. Qed.

(** ** Witnesses *)

Definition empty_db : ListDb := mkListDb [] eq_refl.
Definition demo_db : Lmdb := mkLmdb (list_db_put "k" "v" (list_db_put "k" "w" empty_db)) false.

Lemma lmdb_multimap_witness :
  (Get 9 no_errors "k" demo_db).2 = Ok ["w"; "v"]
  /\ exists s', Del 9 no_errors "k" demo_db = (s', Ok tt) /\ values_of "k" (db_view (store s')) = [].
Proof.
  split; [reflexivity|].
  destruct (lmdb_multimap (Cursor := ListCursor) demo_db 9) as (_ & _ & _ & Hdel);
    [done|vm_compute; lia|].
  destruct (Hdel "k") as (s' & Hs & _ & Hv). exists s'. split; [exact Hs|]. rewrite Hv. reflexivity.
Defined.

Lemma leaked_transaction_witness :
  (GetAll 9 no_errors (Get 9 no_errors "other" demo_db).1).2 = UB.
Proof.
  destruct (leaked_transaction (Cursor := ListCursor) demo_db (Get 9 no_errors "other" demo_db).1 9
    "other" "" no_errors) with (r' := no_errors) (k' := "") (v' := "") as (_ & Hall & _).
  - reflexivity.
  - left. split; [reflexivity|by vm_compute].
  - exact Hall.
Defined.

Lemma failed_init_forgotten_witness :
  db (Lmdb_Init None 0 0) (db (Lmdb_Init None 0 0) None).1 = (Some false, Ok tt).
Proof. apply (failed_init_forgotten (Lmdb_Init None 0 0) runtime_error). reflexivity. Defined.
