(* ===== verification/Restart.v ===== *)
(** Restart.v - the discovery service and its local data base across restarts.

    The message handler of [MsgHandler.v] logs what it does to the data base;
    here these effects are carried out by the wrapper of [Lmdb.v], and
    abstracted to a set of pairs.  After a restart the services that are left
    in the data base are declared zombies. *)

From Stdlib Require Import ZArith Lia.
From stdpp Require Import base gmap strings list sets.
From S2P Require Import Prelude.
From S2P Require Import Group.
From S2P Require Import Disco.
From S2P Require Import MsgHandler.
From S2P Require Import DiscoFacts.
From S2P Require Import DhtNet.
From S2P Require Import Lmdb.

#[local] Open Scope riaps_scope.

Section Restart.
Context {V : Type}.
Context {Db Cursor : Type} `{MdbLaws Db Cursor}.
Variable seal : string -> V.
Variable InfoHash_get InfoHash : string -> string.
Variable pack : GroupDetails -> string.
Implicit Type s : Handler.

(** The effects of the handler on the data base, one after the other; the loop
    of [Del] ends in its second round. *)
Definition db_step (o : DiscOut (V := V)) (d : Lmdb (Db := Db)) : Lmdb :=
  match o with
  | DbPut key value => (Put no_errors key value d).1
  | DbDel key => (Del 2 no_errors key d).1
  | _ => d
  end.

Definition db_follow (out : list (DiscOut (V := V))) (d : Lmdb) : Lmdb :=
  fold_left (fun d o => db_step o d) out d.

(** The same on a set of pairs. *)
Definition pairs_step (o : DiscOut (V := V)) (P : string -> string -> Prop) : string -> string -> Prop :=
  match o with
  | DbPut key value => fun k v => P k v \/ (k = key /\ v = value)
  | DbDel key => fun k v => P k v /\ k <> key
  | _ => P
  end.

Definition pairs_follow (out : list (DiscOut (V := V))) (P : string -> string -> Prop) :=
  fold_left (fun P o => pairs_step o P) out P.

(** The data base holds the pairs, and no transaction is open. *)
Definition holds (d : Lmdb (Db := Db)) (P : string -> string -> Prop) : Prop :=
  txn_open d = false /\ forall k v, v ∈ values_of k (db_view (store d)) <-> P k v.

Lemma db_step_holds o d P : holds d P -> holds (db_step o d) (pairs_step o P).
Proof.
  intros [Ho Hd]. destruct o; simpl; try by split.
  - destruct (Put_effect key value d Ho) as (d' & E & ? & Hv). rewrite E. split; [done|].
    intros k v. by rewrite Hv, Hd.
  - destruct (Del_effect key d 2 Ho ltac:(lia)) as (d' & E & ? & Hv). rewrite E. split; [done|].
    intros k v. rewrite Hv. destruct (decide (k = key)) as [->|]; [rewrite elem_of_nil; tauto|].
    rewrite Hd. tauto.
Qed.

Lemma db_follow_holds out d P : holds d P -> holds (db_follow out d) (pairs_follow out P).
Proof.
  revert d P. induction out as [|o out IH]; intros d P Hd; [done|]. by apply IH, db_step_holds.
Qed.

Lemma pairs_follow_app a b P : pairs_follow (a ++ b) P = pairs_follow b (pairs_follow a P).
Proof. apply fold_left_app. Qed.

(** A list of keys that are declared zombies and deleted. *)
Lemma pairs_marks {A} (key : A -> string) (put : A -> DiscOut) l P k v :
  (forall a P, pairs_step (put a) P = P) ->
  pairs_follow (concat (map (fun a => [put a; DbDel (key a)]) l)) P k v <-> P k v /\ k ∉ map key l.
Proof.
  intros Hput. revert P. induction l as [|a l IH]; intros P; simpl.
  - rewrite elem_of_nil. tauto.
  - change (pairs_follow (put a :: DbDel (key a) :: ?out) P)
      with (pairs_follow out (pairs_step (DbDel (key a)) (pairs_step (put a) P))).
    rewrite Hput. rewrite (IH (pairs_step (DbDel (key a)) P)). simpl. rewrite not_elem_of_cons. tauto.
Qed.

(** ** What the requests do to the data base *)


(** A restart: when the service starts on the data base its predecessor
    left, it declares exactly the services found there zombies, each under
    the key of its scope, and leaves the data base empty. *)
Theorem restart_marks_zombies s d P l fuel now :
  holds d P -> (S (length (flat_items (db_view (store d)))) < fuel)%nat ->
  (GetAll fuel no_errors d).2 = Ok l ->
  let r := Init seal InfoHash_get now l s in
  (forall h v, MsgHandler.Put h v ∈ r.2 <->
     exists key value, P key value /\ v = seal value
       /\ h = InfoHash_get (match str_find_sub "127.0.0.1" value with
                            | Some _ => zombielocalkey_ s | None => zombieglobalkey_ end))
  /\ holds (db_follow r.2 d) (fun _ _ => False).
Proof.
  intros [Ho Hd] Hf Hall r.
  assert (forall k v, (k, v) ∈ l <-> P k v) as Hl.
  { intros k v. rewrite <- Hd, <- elem_of_flat_items. revert Hall. destruct d as [db b]. simpl in *. subst b.
    unfold GetAll, with_cursor, with_txn. simpl. rewrite GetAll_items by lia. by intros [= <-]. }
  subst r. rewrite Init_run. cbn [snd]. split.
  - intros h v. rewrite elem_of_app, !elem_of_cons, elem_of_nil, elem_of_concat_map. split.
    + intros [[[=]|[[=]|[[=]|[[=]|[]]]]]|([k x] & Hin%Hl & Hp)]. exists k, x.
      apply elem_of_cons in Hp as [[= -> ->]|[=]%list_elem_of_singleton]. done.
    + intros (k & x & Hin%Hl & -> & ->). right. exists (k, x). split; [done|]. left.
  - destruct (db_follow_holds ([GetZombies (V := V) (InfoHash_get zombieglobalkey_);
      GetZombies (InfoHash_get (zombielocalkey_ s)); ListenZombies (InfoHash_get zombieglobalkey_);
      ListenZombies (InfoHash_get (zombielocalkey_ s))] ++ concat (map (fun kv =>
        [MsgHandler.Put (InfoHash_get (match str_find_sub "127.0.0.1" kv.2 with
            | Some _ => zombielocalkey_ s | None => zombieglobalkey_ end)) (seal kv.2); DbDel kv.1]) l)) d P)
      as [H1 H2]; [done|]. split; [done|]. intros k v. rewrite H2, pairs_follow_app. simpl.
    rewrite pairs_marks by done. rewrite <- Hl. split; [|done]. intros [Hin Hn]. apply Hn.
    apply list_elem_of_fmap. by exists (k, v).
Qed.
End Restart.

(** ** Witnesses *)

(** Two processes have registered response ports of the same type. *)
Definition two_servers : Handler :=
  set_checkins {[ 1 := [new_checkin 0 "/App/Temp/rep" "10.0.0.1:1111"];
                  2 := [new_checkin 0 "/App/Temp/rep" "10.0.0.1:2222"] ]} demo_handler.

Definition two_rows : Lmdb (Db := ListDb) :=
  mkLmdb (list_db_put "/App/Temp/rep" "10.0.0.1:2222"
            (list_db_put "/App/Temp/rep" "10.0.0.1:1111" empty_db)) false.

Definition row (k v : string) : Prop :=
  k = "/App/Temp/rep" /\ (v = "10.0.0.1:1111" \/ v = "10.0.0.1:2222").

Lemma two_rows_hold : holds two_rows row.
Proof.
  split; [done|]. intros k v. change (db_view (store two_rows)) with
    (list_put "/App/Temp/rep" "10.0.0.1:2222" (list_put "/App/Temp/rep" "10.0.0.1:1111" [])).
  rewrite !list_put_values. unfold values_of, row. simpl. rewrite elem_of_nil. tauto.
Qed.


Lemma restart_marks_zombies_witness :
  MsgHandler.Put (demo_hash "/zombie/globals") "10.0.0.1:1111" ∈
    (Init (V := string) id demo_hash 0 [("/App/Temp/rep", "10.0.0.1:1111"); ("/App/Temp/rep", "10.0.0.1:2222")]
       demo_handler).2.
Proof.
  apply (restart_marks_zombies (V := string) (Cursor := ListCursor) id demo_hash demo_hash demo_handler two_rows row
    _ 9 0 two_rows_hold).
  - vm_compute. lia.
  - by vm_compute.
  - exists "/App/Temp/rep", "10.0.0.1:1111". split; [by split; [|left]|]. by vm_compute.
Defined.
