(* ===== verification/Timers.v ===== *)
(** Timers.v - the periodic and sporadic timer of a component
    ([include/componentmodel/ports/r_periodictimer.h],
    [src/componentmodel/ports/r_periodictimer.cc]) and the absolute wake-up
    times of [src/componentmodel/r_componentbase.cc].

    The state is the timer object, the pipe to its thread (a queue of
    commands), and the variables of the thread.  The calls of the owner and the
    rounds of the thread's loop are interleaved in any order. *)

From Stdlib Require Import ZArith Lia.
From stdpp Require Import base strings list.
From S2P Require Import Prelude.
From S2P Require Import Utils.

Definition CMD_START : string := "$START".
Definition CMD_HALT : string := "$HALT".

Record PeriodicTimer := mkTimer {
  interval_ : Z;
  delay_ : timespec;
  has_started_ : bool;
  pipe : list string;
  thr_started : bool;
  thr_terminated : bool;
  thr_now : timespec;
  thr_period : timespec;
}.

Definition has_delay (s : PeriodicTimer) : bool := interval_ s =? 0.

Definition interval_period (interval : Z) : timespec :=
  mkTimespec (interval / 1000) ((interval mod 1000) * 1000000).

(** The constructor, and the thread up to its loop; [period] is the interval in
    milliseconds. *)
Definition new_PeriodicTimer (clock : timespec) (period : Z) : PeriodicTimer :=
  mkTimer period (mkTimespec 0 0) false [] false false clock (interval_period period).

(** ** Calls of the owner *)

Definition Start (clock : timespec) (s : PeriodicTimer) : PeriodicTimer :=
  if has_started_ s then s
  else mkTimer (interval_ s) (delay_ s) true (pipe s ++ [CMD_START]) (thr_started s)
         (thr_terminated s) clock (thr_period s).

Definition Halt (s : PeriodicTimer) : PeriodicTimer :=
  if has_started_ s
  then mkTimer (interval_ s) (delay_ s) false (pipe s ++ [CMD_HALT]) (thr_started s)
         (thr_terminated s) (thr_now s) (thr_period s)
  else s.

Definition set_delay (value : timespec) (s : PeriodicTimer) : PeriodicTimer :=
  mkTimer (interval_ s) value (has_started_ s) (pipe s) (thr_started s) (thr_terminated s)
    (thr_now s) (thr_period s).

(** [Stop]: [zactor_destroy] sends the command and waits for the thread. *)
Definition Stop (s : PeriodicTimer) : PeriodicTimer :=
  mkTimer (interval_ s) (delay_ s) (has_started_ s) (pipe s ++ ["$TERM"]) (thr_started s)
    (thr_terminated s) (thr_now s) (thr_period s).

(** ** The thread *)

(** [now += period]; the test compares doubles, exact at this size. *)
Definition advance (now period : timespec) : timespec :=
  let sec := tv_sec now + tv_sec period in
  if BILLION <=? tv_nsec now + tv_nsec period
  then mkTimespec (sec + 1) (tv_nsec now + tv_nsec period - BILLION)
  else mkTimespec sec (tv_nsec now + tv_nsec period).

Definition set_thread (now period : timespec) (s : PeriodicTimer) : PeriodicTimer :=
  mkTimer (interval_ s) (delay_ s) (has_started_ s) (pipe s) (thr_started s) (thr_terminated s)
    now period.

(** The command at the head of the pipe. *)
Definition read_pipe (clock : timespec) (s : PeriodicTimer) : PeriodicTimer :=
  match pipe s with
  | [] => s
  | command :: rest =>
      let s := mkTimer (interval_ s) (delay_ s) (has_started_ s) rest (thr_started s)
                 (thr_terminated s) (thr_now s) (thr_period s) in
      if bool_decide (command = "$TERM") then
        mkTimer (interval_ s) (delay_ s) (has_started_ s) (pipe s) (thr_started s) true
          (thr_now s) (thr_period s)
      else if bool_decide (command = CMD_START) then
        mkTimer (interval_ s) (delay_ s) (has_started_ s) (pipe s) true (thr_terminated s)
          clock (thr_period s)
      else if bool_decide (command = CMD_HALT) then
        mkTimer (interval_ s) (delay_ s) (has_started_ s) (pipe s) false (thr_terminated s)
          (thr_now s) (thr_period s)
      else s
  end.

(** One round of the loop of [ptimeractor]: the clock read in the sporadic
    branch and by [$START]; the times at which the timer fires. *)
Definition Round (clock1 clock2 : timespec) (s : PeriodicTimer) : PeriodicTimer * list timespec :=
  if thr_started s then
    if has_delay s then
      let period := delay_ s in
      if (tv_sec period =? 0) && (tv_nsec period =? 0)
      then (set_thread (thr_now s) period s, [])
      else
        let now := advance clock1 period in
        (read_pipe clock2 (Halt (set_thread now period s)), [now])
    else
      let now := advance (thr_now s) (thr_period s) in
      (read_pipe clock2 (set_thread now (thr_period s) s), [now])
  else (read_pipe clock2 s, []).

(** The interleaving of the owner and of the thread. *)
Inductive TimerOp :=
| OpStart (clock : timespec)
| OpHalt
| OpDelay (value : timespec)
| OpStop
| OpRound (clock1 clock2 : timespec).

Definition timer_step (op : TimerOp) (s : PeriodicTimer) : PeriodicTimer * list timespec :=
  match op with
  | OpStart c => (Start c s, [])
  | OpHalt => (Halt s, [])
  | OpDelay v => (set_delay v s, [])
  | OpStop => (Stop s, [])
  | OpRound c1 c2 => if thr_terminated s then (s, []) else Round c1 c2 s
  end.

Fixpoint timer_run (ops : list TimerOp) (s : PeriodicTimer) : PeriodicTimer * list timespec :=
  match ops with
  | [] => (s, [])
  | op :: ops' =>
      let '(s1, f1) := timer_step op s in
      let '(s2, f2) := timer_run ops' s1 in
      (s2, f1 ++ f2)
  end.

(** ** Facts *)

Lemma advance_nanos now period : nanos (advance now period) = nanos now + nanos period.
Proof. unfold advance, nanos. destruct (_ <=? _); cbn [tv_sec tv_nsec]; lia. Qed.

Lemma advance_normal now period : normal now -> normal period -> normal (advance now period).
Proof.
  unfold advance, normal. intros H1 H2. destruct (_ <=? _) eqn:E; bool_to_prop; cbn [tv_nsec]; lia.
Qed.

Lemma interval_period_nanos i : nanos (interval_period i) = i * 1000000.
Proof.
  unfold nanos, interval_period, BILLION. cbn [tv_sec tv_nsec].
  pose proof (Z.div_mod i 1000). lia.
Qed.

Lemma interval_period_normal i : normal (interval_period i).
Proof.
  unfold normal, interval_period, BILLION. cbn [tv_nsec]. pose proof (Z.mod_pos_bound i 1000). lia.
Qed.

(** The rounds of a running periodic timer, at any clock readings. *)
Definition rounds (clocks : list (timespec * timespec)) : list TimerOp :=
  map (fun c => OpRound c.1 c.2) clocks.

(** No drift: once a periodic timer runs, and nobody talks to it, round
    [k] fires at the start time plus [k] intervals, written in normal form,
    whatever the clock shows: a late round does not delay the later ones. *)
Theorem periodic_no_drift clocks s k :
  interval_ s <> 0 -> thr_period s = interval_period (interval_ s) ->
  thr_started s = true -> thr_terminated s = false -> pipe s = [] -> normal (thr_now s) ->
  (k < length clocks)%nat ->
  exists t, (timer_run (rounds clocks) s).2 !! k = Some t
    /\ nanos t = nanos (thr_now s) + (Z.of_nat k + 1) * (interval_ s * 1000000) /\ normal t.
Proof.
  intros Hi Hp Hs Ht Hq. revert s k Hi Hp Hs Ht Hq.
  induction clocks as [|[c1 c2] clocks IH]; intros s k Hi Hp Hs Ht Hq Hn Hk; [simpl in Hk; lia|].
  cbn [rounds map timer_run timer_step fst snd]. rewrite Ht. unfold Round, has_delay. rewrite Hs.
  rewrite (proj2 (Z.eqb_neq _ _) Hi). unfold read_pipe. cbn [pipe set_thread]. rewrite Hq.
  set (now := advance (thr_now s) (thr_period s)).
  assert (nanos now = nanos (thr_now s) + interval_ s * 1000000) as Hnow
    by (subst now; by rewrite advance_nanos, Hp, interval_period_nanos).
  assert (normal now) as Hnorm
    by (subst now; rewrite Hp; by apply advance_normal, interval_period_normal).
  destruct k as [|k].
  - exists now. change (map _ clocks) with (rounds clocks).
    destruct (timer_run (rounds clocks) _). simpl. split_and!; [done|rewrite Hnow; lia|done].
  - destruct (IH (set_thread now (thr_period s) s) k) as (t & Hk' & Hv & Hnt);
      [done..|simpl in Hk; lia|].
    exists t. change (map _ clocks) with (rounds clocks).
    destruct (timer_run (rounds clocks) (set_thread now (thr_period s) s)). simpl in *.
    split_and!; [done|rewrite Hv, Hnow; lia|done].
Qed.

(** A sporadic timer at rest. *)
Definition at_rest (s : PeriodicTimer) : Prop :=
  interval_ s = 0 /\ has_started_ s = false /\ pipe s = [] /\ thr_started s = false
  /\ thr_terminated s = false.

Lemma rest_rounds clocks s : at_rest s -> timer_run (rounds clocks) s = (s, []).
Proof.
  intros (Hi & Hh & Hq & Hs & Ht). induction clocks as [|[c1 c2] clocks IH]; [done|].
  cbn [rounds map timer_run timer_step fst snd]. rewrite Ht. unfold Round. rewrite Hs.
  unfold read_pipe. rewrite Hq. change (map _ clocks) with (rounds clocks). by rewrite IH.
Qed.

(** One shot: a sporadic timer with a delay that is started while it is at
    rest fires once, at the clock of its first round after the command plus
    the delay, and is at rest again, ready to be started. *)
Theorem sporadic_one_shot clock c1 c2 clocks s :
  at_rest s -> nanos (delay_ s) <> 0 ->
  let r := timer_run (OpStart clock :: OpRound c1 c2 :: rounds clocks) s in
  match clocks with
  | [] => r.2 = [] /\ thr_started r.1 = true
  | c :: _ => r.2 = [advance c.1 (delay_ s)] /\ at_rest r.1
  end.
Proof.
  intros (Hi & Hh & Hq & Hs & Ht) Hd. destruct s as [i d h q ts tt nw pd]. simpl in *. subst.
  destruct clocks as [|[d1 d2] clocks]; [done|].
  cbn -[rounds advance bool_decide]. rewrite bool_decide_eq_false_2 by done.
  rewrite bool_decide_eq_true_2 by done. cbn -[rounds advance bool_decide].
  change (rounds ((d1, d2) :: clocks)) with (OpRound d1 d2 :: rounds clocks).
  cbn -[rounds advance bool_decide Z.eqb]. unfold Round, has_delay. cbn -[rounds advance bool_decide Z.eqb].
  destruct ((tv_sec d =? 0) && (tv_nsec d =? 0)) eqn:E.
  { exfalso. apply andb_true_iff in E as [E1%Z.eqb_eq E2%Z.eqb_eq]. apply Hd. unfold nanos. lia. }
  rewrite (Z.eqb_refl 0). unfold Halt. cbn -[rounds advance bool_decide].
  unfold read_pipe. cbn -[rounds advance bool_decide].
  rewrite !bool_decide_eq_false_2, bool_decide_eq_true_2 by done. cbn -[rounds advance].
  rewrite rest_rounds by done. by split.
Qed.

(** A sporadic timer that is started while its delay is zero spins without
    reading its pipe: no command reaches it any more, not even the one by which
    [Stop] ends the thread it then waits for. *)
Theorem zero_delay_spins clocks s :
  interval_ s = 0 -> delay_ s = mkTimespec 0 0 -> thr_started s = true -> thr_terminated s = false ->
  let r := timer_run (OpStop :: rounds clocks) s in
  r.2 = [] /\ thr_terminated r.1 = false /\ thr_started r.1 = true /\ pipe r.1 = pipe s ++ ["$TERM"].
Proof.
  intros Hi Hd Hs Ht. destruct s as [i d h q ts tt nw pd]. simpl in *. subst.
  enough (forall q pd, exists pd', timer_run (rounds clocks)
      (mkTimer 0 (mkTimespec 0 0) h q true false nw pd) =
      (mkTimer 0 (mkTimespec 0 0) h q true false nw pd', [])) as H.
  { cbn -[rounds]. destruct (H (q ++ ["$TERM"]) pd) as [pd' E]. unfold Stop. simpl. rewrite E. done. }
  induction clocks as [|[c1 c2] clocks IH]; intros q' pd0; [by exists pd0|].
  cbn [rounds map timer_run timer_step fst snd thr_terminated]. unfold Round, has_delay, set_thread. cbn.
  destruct (IH q' (mkTimespec 0 0)) as [pd' E]. exists pd'. change (map _ clocks) with (rounds clocks).
  by rewrite E.
Qed.

(** ** Wake-up times

    [ScheduleAbsTimer] and [ScheduleAction] sleep until [tp] minus an offset in
    nanoseconds; [WaitUntil] spins until 50 microseconds before its target. *)

Definition TIMER_ACCURACY : Z := 50 * 1000.

Definition borrow (t : timespec) : timespec :=
  if tv_nsec t <? 0 then mkTimespec (tv_sec t - 1) (tv_nsec t + BILLION) else t.

(** The offset is unsigned; the members wrap around to signed 64-bit values. *)
Definition earlyWakeup (tp : timespec) (wakeupOffset : Z) : timespec :=
  borrow (mkTimespec (i64 (tv_sec tp - wakeupOffset / BILLION))
                     (i64 (tv_nsec tp - wakeupOffset mod BILLION))).

Fixpoint WaitUntil (clock : nat -> timespec) (target : timespec) (i fuel : nat) : option timespec :=
  match fuel with
  | O => None
  | S f =>
      let early := borrow (mkTimespec (tv_sec target) (tv_nsec target - TIMER_ACCURACY)) in
      if timespec_gt (clock i) early then Some (clock i) else WaitUntil clock target (S i) f
  end.

Lemma borrow_spec t :
  - BILLION <= tv_nsec t < BILLION -> nanos (borrow t) = nanos t /\ normal (borrow t).
Proof.
  unfold borrow, nanos, normal. intros H. destruct (_ <? _) eqn:E; bool_to_prop; cbn [tv_sec tv_nsec]; lia.
Qed.

Lemma timespec_gt_nanos a b : normal a -> normal b -> timespec_gt a b = true <-> nanos b < nanos a.
Proof.
  unfold normal, timespec_gt, nanos, BILLION. destruct a as [s1 n1], b as [s2 n2]. cbn [tv_sec tv_nsec].
  intros H1 H2. destruct (Z.ltb_spec s2 s1); destruct (Z.eqb_spec s1 s2); destruct (Z.ltb_spec n2 n1);
    cbn [andb]; (split; [intros|]; first [done|lia]).
Qed.

(** C40. Timed wake-ups: a scheduled timer sleeps until exactly the offset
    before its time, in normal form; the busy wait ends at the first reading
    later than 50 microseconds before the target, so it ends as soon as the
    clock gets there, never earlier, and possibly before the target itself. *)
Theorem wakeups tp offset clock :
  normal tp -> 0 <= tv_sec tp < 2 ^ 62 -> 0 <= offset < 2 ^ 62 -> (forall i, normal (clock i)) ->
  let w := earlyWakeup tp offset in
  (nanos w = nanos tp - offset /\ normal w)
  /\ (forall fuel now, WaitUntil clock tp 0 fuel = Some now -> nanos tp - TIMER_ACCURACY < nanos now)
  /\ (forall n, nanos tp - TIMER_ACCURACY < nanos (clock n) ->
        exists k, (k <= n)%nat /\ WaitUntil clock tp 0 (S n) = Some (clock k)
          /\ forall j, (j < k)%nat -> nanos (clock j) <= nanos tp - TIMER_ACCURACY).
Proof.
  intros Htp Hs Ho Hc w. split.
  { subst w. unfold earlyWakeup. pose proof (Z.mod_pos_bound offset BILLION ltac:(done)) as Hm.
    pose proof (Z.div_mod offset BILLION ltac:(done)) as Hdm.
    assert (0 <= offset / BILLION <= offset) as Hq
      by (split; [apply Z.div_pos; lia|apply Z.div_le_upper_bound; unfold BILLION; lia]).
    unfold normal in Htp. rewrite !swrap_id by (unfold in_s, BILLION in *; lia).
    destruct (borrow_spec (mkTimespec (tv_sec tp - offset / BILLION) (tv_nsec tp - offset mod BILLION)))
      as [-> Hn]; [simpl; lia|]. split; [|done]. unfold nanos. cbn [tv_sec tv_nsec]. lia. }
  set (early := borrow (mkTimespec (tv_sec tp) (tv_nsec tp - TIMER_ACCURACY))).
  destruct (borrow_spec (mkTimespec (tv_sec tp) (tv_nsec tp - TIMER_ACCURACY))) as [He Hen];
    [unfold normal, TIMER_ACCURACY, BILLION in *; simpl; lia|]. fold early in He, Hen.
  replace (nanos (mkTimespec (tv_sec tp) (tv_nsec tp - TIMER_ACCURACY)))
    with (nanos tp - TIMER_ACCURACY) in He by (unfold nanos; simpl; lia).
  assert (forall i, timespec_gt (clock i) early = true <-> nanos tp - TIMER_ACCURACY < nanos (clock i)) as Hgt
    by (intros i; rewrite timespec_gt_nanos, He; done).
  split.
  - intros fuel now. generalize 0%nat. induction fuel as [|f IH]; intros i; [done|]. cbn [WaitUntil]. fold early.
    destruct (timespec_gt (clock i) early) eqn:E; [intros [= <-]; by apply Hgt|apply IH].
  - enough (forall f i n, (n = i + f)%nat -> nanos tp - TIMER_ACCURACY < nanos (clock n) ->
      exists k, (i <= k <= n)%nat /\ WaitUntil clock tp i (S f) = Some (clock k)
        /\ forall j, (i <= j < k)%nat -> nanos (clock j) <= nanos tp - TIMER_ACCURACY) as H.
    { intros n Hn. destruct (H n 0%nat n eq_refl Hn) as (k & Hk & Hw & Hj). exists k.
      split_and!; [lia|done|]. intros j Hjk. apply Hj. lia. }
    induction f as [|f IH]; intros i n Hn Hlt; cbn [WaitUntil]; fold early;
      destruct (timespec_gt (clock i) early) eqn:E.
    + exists i. split_and!; [lia|lia|done|intros; lia].
    + exfalso. rewrite Nat.add_0_r in Hn. subst n. apply Hgt in Hlt. congruence.
    + exists i. split_and!; [lia|lia|done|intros; lia].
    + destruct (IH (S i) n) as (k & Hk & Hw & Hj); [lia|done|]. cbn [WaitUntil] in Hw. fold early in Hw.
      exists k. split_and!; [lia|lia|exact Hw|]. intros j Hjk.
      destruct (decide (j = i)) as [->|]; [|apply Hj; lia].
      apply Z.nlt_ge. rewrite <- Hgt. congruence.
Qed.

(** ** Witnesses *)

Definition demo_running : PeriodicTimer :=
  mkTimer 500 (mkTimespec 0 0) true [] true false (mkTimespec 10 900000000) (interval_period 500).

Definition zt : timespec := mkTimespec 0 0.

Lemma periodic_no_drift_witness :
  exists t, (timer_run (rounds [(zt, zt); (zt, zt)]) demo_running).2 !! 1%nat = Some t
    /\ nanos t = 11900000000 /\ t = mkTimespec 11 900000000.
Proof.
  destruct (periodic_no_drift [(zt, zt); (zt, zt)] demo_running 1) as (t & Ht & Hn & _);
    [discriminate|reflexivity|reflexivity|reflexivity|reflexivity|vm_compute; split; done|simpl; lia|].
  exists t. split_and!; [exact Ht|exact Hn|]. vm_compute in Ht. by injection Ht as <-.
Defined.

Definition demo_sporadic : PeriodicTimer :=
  set_delay (mkTimespec 0 5) (new_PeriodicTimer zt 0).

Lemma sporadic_one_shot_witness :
  (timer_run (OpStart zt :: OpRound zt zt :: rounds [(mkTimespec 7 0, zt); (zt, zt)]) demo_sporadic).2
    = [mkTimespec 7 5].
Proof.
  apply (sporadic_one_shot zt zt zt [(mkTimespec 7 0, zt); (zt, zt)] demo_sporadic);
    [by split_and!|discriminate].
Defined.

Lemma zero_delay_spins_witness :
  thr_terminated (timer_run (OpStop :: rounds [(zt, zt)])
    (mkTimer 0 zt true [] true false zt zt)).1 = false.
Proof. apply (zero_delay_spins [(zt, zt)] (mkTimer 0 zt true [] true false zt zt)); reflexivity. Defined.

Lemma wakeups_witness :
  nanos (earlyWakeup (mkTimespec 5 100) 2000000) = nanos (mkTimespec 5 100) - 2000000
  /\ exists k, (k <= 1)%nat
     /\ WaitUntil (fun i => mkTimespec (Z.of_nat i * 5) 0) (mkTimespec 5 0) 0 2
        = Some (mkTimespec (Z.of_nat k * 5) 0).
Proof.
  split.
  - apply (wakeups (mkTimespec 5 100) 2000000 (fun _ => zt)); [vm_compute; split; done|simpl; lia|lia|].
    intros _. vm_compute. split; done.
  - destruct (wakeups (mkTimespec 5 0) 0 (fun i => mkTimespec (Z.of_nat i * 5) 0)) as (_ & _ & H);
      [vm_compute; split; done|simpl; lia|lia|intros i; unfold normal, BILLION; simpl; lia|].
    destruct (H 1%nat) as (k & Hk & Hw & _); [vm_compute; done|]. by exists k.
Defined.
