(* ===== verification/TimerThreads.v ===== *)
(** TimerThreads.v - the timers that run a [std::thread] of their own
    ([src/componentmodel/r_oneshottimer.cc],
    [src/componentmodel/r_callbacktimer.cc] with their headers).

    Both classes guard their thread in the same way: an atomic flag, [start],
    [stop] and a destructor.  The class [Thread] is what a timer puts into the
    thread; the owner's calls, cut into their accesses to what the two threads
    share, are interleaved with the steps of the thread in any order. *)

From Stdlib Require Import ZArith Lia.
From stdpp Require Import base strings list.
From S2P Require Import Prelude.
From S2P Require Import Utils.

(** A message and the clock when it is sent. *)
Definition Fired : Type := string * Z.

(** What a step of the thread meets: the clock in nanoseconds, the result of
    the sleep, whether ZeroMQ takes the message. *)
Record Env := { clock : Z; rc : Z; accepted : bool }.

(** The function of a thread: [T] is where it stands, [A] what [start] passes
    to it.  [thread_step] reads the flag if it reads anything; [None] means that
    it waits.  [own_sock] tells whether it sends on a socket of the object. *)
Class Thread (T A : Type) := {
  thread_start : A -> T;
  thread_step : bool -> Env -> T -> option (T * list Fired);
  thread_done : T -> bool;
  own_sock : bool;
}.

(** ** The object and its owner *)

(** The accesses that the calls consist of. *)
Inductive Access (A : Type) :=
| StopIfExecuting      (* if (_execute.load()) stop(); *)
| StoreExecute (b : bool)
| Join                 (* if (_thd.joinable()) _thd.join(); *)
| Spawn (a : A)        (* _thd = std::thread(...) *)
| DestroySock
| EndThread.           (* ~thread *)
Arguments StopIfExecuting {A}.
Arguments StoreExecute {A} b.
Arguments Join {A}.
Arguments Spawn {A} a.
Arguments DestroySock {A}.
Arguments EndThread {A}.

Section Object.
Context {T A : Type} `{Thread T A}.

(** [doing] is what is left of the owner's call; [destroyed] is set when the
    destructor is called. *)
Record TimerObject := mkObject {
  execute : bool;
  thd : option T;
  sock : bool;
  doing : list (Access A);
  destroyed : bool;
}.

(** The constructors. *)
Definition new_timer : TimerObject := mkObject false None own_sock [] false.

Definition start (a : A) : list (Access A) := [StopIfExecuting; StoreExecute true; Spawn a].
Definition stop : list (Access A) := [StoreExecute false; Join].
Definition destructor : list (Access A) :=
  StopIfExecuting :: (if own_sock then [DestroySock] else []) ++ [EndThread].

Definition is_running (o : TimerObject) : bool :=
  execute o && match thd o with Some _ => true | None => false end.

(** [std::terminate] is called when a thread that was not joined is overwritten
    or destroyed; a message on a destroyed socket ends the process too. *)
Inductive Outcome :=
| Waits
| Terminates
| Next (o : TimerObject) (out : list Fired).

Definition set_doing k o := mkObject (execute o) (thd o) (sock o) k (destroyed o).

(** One access of the owner. *)
Definition owner_step (o : TimerObject) : Outcome :=
  match doing o with
  | [] => Waits
  | StopIfExecuting :: k => Next (set_doing (if execute o then stop ++ k else k) o) []
  | StoreExecute b :: k => Next (mkObject b (thd o) (sock o) k (destroyed o)) []
  | Join :: k =>
      match thd o with
      | None => Next (set_doing k o) []
      | Some t => if thread_done t then Next (mkObject (execute o) None (sock o) k (destroyed o)) []
                  else Waits
      end
  | Spawn a :: k =>
      match thd o with
      | None => Next (mkObject (execute o) (Some (thread_start a)) (sock o) k (destroyed o)) []
      | Some _ => Terminates
      end
  | DestroySock :: k => Next (mkObject (execute o) (thd o) false k (destroyed o)) []
  | EndThread :: k => match thd o with None => Next (set_doing k o) [] | Some _ => Terminates end
  end.

(** One step of the thread. *)
Definition timer_thread_step (e : Env) (o : TimerObject) : Outcome :=
  match thd o with
  | Some t =>
      if thread_done t then Waits
      else match thread_step (execute o) e t with
           | None => Waits
           | Some (t', out) =>
               if own_sock && negb (sock o) then Terminates
               else Next (mkObject (execute o) (Some t') (sock o) (doing o) (destroyed o)) out
           end
  | None => Waits
  end.

Inductive Move :=
| CallStart (a : A) | CallStop | CallDelete
| OwnerMoves
| ThreadMoves (e : Env).

Definition call (c : list (Access A)) (last : bool) (o : TimerObject) : Outcome :=
  match doing o with
  | [] => if destroyed o then Waits else Next (mkObject (execute o) (thd o) (sock o) c last) []
  | _ => Waits
  end.

Definition move (m : Move) (o : TimerObject) : Outcome :=
  match m with
  | CallStart a => call (start a) false o
  | CallStop => call stop false o
  | CallDelete => call destructor true o
  | OwnerMoves => owner_step o
  | ThreadMoves e => timer_thread_step e o
  end.

(** A run; a move that has to wait does not happen. *)
Fixpoint moves (ms : list Move) (o : TimerObject) : option (TimerObject * list Fired) :=
  match ms with
  | [] => Some (o, [])
  | m :: ms' =>
      match move m o with
      | Next o1 out1 => '(o2, out2) ← moves ms' o1; Some (o2, out1 ++ out2)
      | _ => None
      end
  end.

Definition reachable (o : TimerObject) : Prop := exists ms out, moves ms new_timer = Some (o, out).
End Object.

(** What the theorems use of the function of a thread: how many messages it may
    still send and how many steps it still takes once the flag is cleared, and
    when it need not wait. *)
Class ThreadLaws (T A : Type) `{Thread T A} := {
  pending : T -> nat;
  steps_left : T -> nat;
  can_run : Env -> T -> bool;
  pending_le_1 t : (pending t <= 1)%nat;
  pending_step e t t' out :
    thread_step false e t = Some (t', out) -> (length out + pending t' <= pending t)%nat;
  steps_left_step e t t' out :
    thread_step false e t = Some (t', out) -> (steps_left t' < steps_left t)%nat;
  can_run_step e t t' out :
    can_run e t = true -> thread_step false e t = Some (t', out) -> can_run e t' = true;
  can_run_runs e t :
    thread_done t = false -> can_run e t = true -> is_Some (thread_step false e t);
}.

(** ** [OneShotTimer] *)

Section OneShot.
Variable timerid : string.
Variable wakeuptime : timespec.

Inductive OneShotThread := OneShotSleeps | OneShotSends | OneShotEnds.

(** [clock_nanosleep] returns 0 once the clock has reached the wake-up time, and
    an error earlier; [zmsg_send] waits until the message is taken. *)
Definition oneshot_step (flag : bool) (e : Env) (t : OneShotThread) : option (OneShotThread * list Fired) :=
  match t with
  | OneShotSleeps =>
      if (rc e =? 0) && (clock e <? nanos wakeuptime) then None else Some (OneShotSends, [])
  | OneShotSends => if accepted e then Some (OneShotEnds, [(timerid, clock e)]) else None
  | OneShotEnds => None
  end.

#[export] Instance OneShotTimer : Thread OneShotThread unit := {
  thread_start _ := OneShotSleeps;
  thread_step := oneshot_step;
  thread_done t := match t with OneShotEnds => true | _ => false end;
  own_sock := true;
}.
End OneShot.

(** ** [CallBackTimer] *)

Section CallBack.
Variable portName : string.

(** The thread keeps its interval and the time it sleeps until; the socket is
    its own, from [CallBackBegins] to [CallBackEnds]. *)
Inductive CallBackThread :=
| CallBackBegins (interval : Z)
| CallBackTests (interval now : Z)
| CallBackSleeps (interval now : Z)
| CallBackEnds.

(** Intervals are milliseconds; a message that is not taken is dropped. *)
Definition callback_step (flag : bool) (e : Env) (t : CallBackThread) : option (CallBackThread * list Fired) :=
  match t with
  | CallBackBegins i => Some (CallBackTests i (clock e), [])
  | CallBackTests i now =>
      Some (if flag then CallBackSleeps i (now + i * 1000000) else CallBackEnds, [])
  | CallBackSleeps i now =>
      if clock e <? now then None
      else Some (CallBackTests i now, if accepted e then [(portName, clock e)] else [])
  | CallBackEnds => None
  end.

#[export] Instance CallBackTimer : Thread CallBackThread Z := {
  thread_start := CallBackBegins;
  thread_step := callback_step;
  thread_done t := match t with CallBackEnds => true | _ => false end;
  own_sock := false;
}.
End CallBack.

(** ** What the owner may rely on *)

Section Safety.
Context {T A : Type} `{ThreadLaws T A}.
Implicit Type o : TimerObject (T := T) (A := A).

(** The rest of a call is safe, for the flag [e] and a joinable thread [j]: no
    thread is overwritten, and the object is left with its flag set if it has a
    thread, and without one if it is destroyed ([d]). *)
Fixpoint safe (d e j : bool) (k : list (Access A)) : Prop :=
  match k with
  | [] => j = true -> e = true /\ d = false
  | StopIfExecuting :: k => if e then safe d false false k else safe d false j k
  | StoreExecute b :: k => safe d b j k
  | Join :: k => e = false /\ safe d e false k
  | Spawn _ :: k => j = false /\ e = true /\ safe d e true k
  | DestroySock :: k => j = false /\ d = true /\ k = [EndThread]
  | EndThread :: k => j = false /\ k = []
  end.

Definition joinable o : bool := match thd o with Some _ => true | None => false end.

Record object_safe o : Prop := {
  os_doing : safe (destroyed o) (execute o) (joinable o) (doing o);
  os_sock : own_sock = true -> sock o = false ->
    destroyed o = true /\ thd o = None /\ (doing o = [] \/ doing o = [EndThread]);
}.

(** A move that does not end the process, and keeps the object safe. *)
Definition fine (x : Outcome (T := T) (A := A)) : Prop :=
  match x with Waits => True | Terminates => False | Next o _ => object_safe o end.


Lemma call_fine o c last :
  object_safe o -> (forall e j, (j = true -> e = true) -> safe last e j c) -> fine (call c last o).
Proof.
  intros [Hd Hs] Hc. unfold call, fine. destruct (doing o) as [|? ?] eqn:Ek; [|done].
  destruct (destroyed o) eqn:Ed; [done|]. simpl in Hd. split; cbn.
  - apply Hc. intros Hj. by apply Hd.
  - intros Ho Hf. destruct (Hs Ho Hf) as [? _]. congruence.
Qed.

Lemma owner_fine o : object_safe o -> fine (owner_step o).
Proof.
  intros [Hd Hs]. unfold owner_step, fine. destruct (doing o) as [|[|b| |a| |] k] eqn:Ek; simpl in Hd; [done|..].
  - split; cbn.
    + by destruct (execute o); simpl.
    + intros Ho Hf. destruct (Hs Ho Hf) as (? & ? & [[=]|[=]]).
  - split; cbn; [done|]. intros Ho Hf. destruct (Hs Ho Hf) as (? & ? & [[=]|[=]]).
  - destruct Hd as [He Hd]. destruct (thd o) as [t|] eqn:Et.
    + destruct (thread_done t); [|done]. split; cbn; [done|].
      intros Ho Hf. destruct (Hs Ho Hf) as (? & ? & [[=]|[=]]).
    + split; cbn; [by unfold joinable; cbn; rewrite Et|]. intros Ho Hf. destruct (Hs Ho Hf) as (? & ? & [[=]|[=]]).
  - destruct Hd as (Hj & He & Hd). unfold joinable in Hj. destruct (thd o) as [t|] eqn:Et; [done|].
    split; cbn; [done|]. intros Ho Hf. destruct (Hs Ho Hf) as (? & ? & [[=]|[=]]).
  - destruct Hd as (Hj & Hd & ->). split; cbn.
    + rewrite Hd. unfold joinable in *. cbn. by rewrite Hj.
    + intros _ _. unfold joinable in Hj. destruct (thd o); [done|]. by split_and!; [|..|right].
  - destruct Hd as [Hj ->]. unfold joinable in Hj. destruct (thd o) eqn:Et; [done|].
    split; cbn; [by unfold joinable; cbn; rewrite Et|].
    intros Ho Hf. destruct (Hs Ho Hf) as (? & ? & _). by split_and!; [|..|left].
Qed.

Lemma thread_fine e o : object_safe o -> fine (timer_thread_step e o).
Proof.
  intros [Hd Hs]. unfold timer_thread_step, fine. destruct (thd o) as [t|] eqn:Et; [|done].
  destruct (thread_done t); [done|]. destruct (thread_step _ e t) as [[t' out]|]; [|done].
  assert (own_sock = true -> sock o = true) as Hk.
  { intros Ho. destruct (sock o); [done|]. destruct (Hs Ho eq_refl) as (_ & [=] & _). }
  assert (own_sock && negb (sock o) = false) as -> by (destruct own_sock, (sock o); try done; by discriminate Hk).
  split; cbn.
  - unfold joinable in *. cbn. by rewrite Et in Hd.
  - intros Ho Hf. rewrite (Hk Ho) in Hf. done.
Qed.

Lemma move_fine m o : object_safe o -> fine (move m o).
Proof.
  intros Ho. destruct m as [a| | | |e]; simpl.
  - apply call_fine; [done|]. intros [] []; simpl; intuition.
  - apply call_fine; [done|]. intros [] []; simpl; intuition.
  - apply call_fine; [done|]. intros e j Hj. unfold destructor. destruct own_sock, e, j; simpl; intuition congruence.
  - by apply owner_fine.
  - by apply thread_fine.
Qed.

Lemma new_timer_safe : object_safe (new_timer (T := T) (A := A)).
Proof. split; cbn; [done|congruence]. Qed.

Lemma moves_safe ms o o' out : object_safe o -> moves ms o = Some (o', out) -> object_safe o'.
Proof.
  revert o out. induction ms as [|m ms IH]; intros o out Ho; simpl; [by intros [= <- _]|].
  pose proof (move_fine m o Ho) as Hm. destruct (move m o) as [| |o1 out1]; [done..|].
  destruct (moves ms o1) as [[o2 out2]|] eqn:E; simpl; [|done]. intros [= <- _]. by eapply IH.
Qed.

(** The thread a caller of [stop] waits for. *)
Definition may_run (e : Env) o : Prop := forall t, thd o = Some t -> can_run e t = true.
Definition to_do o : nat := match thd o with Some t => steps_left t | None => 0 end.
Definition to_send o : nat := match thd o with Some t => pending t | None => 0 end.

Lemma join_returns e o k :
  object_safe o -> doing o = Join :: k -> may_run e o ->
  exists n o' out, (n <= to_do o)%nat /\ moves (repeat (ThreadMoves e) n ++ [OwnerMoves]) o = Some (o', out)
    /\ thd o' = None /\ doing o' = k.
Proof.
  remember (to_do o) as n0 eqn:En. revert o En. induction (lt_wf n0) as [n0 _ IH]. intros o -> Hs Hk Hr.
  pose proof (os_doing o Hs) as Hd. rewrite Hk in Hd. destruct Hd as [He _].
  destruct (thd o) as [t|] eqn:Et.
  - destruct (thread_done t) eqn:Edone.
    + eexists 0%nat, _, _. split; [lia|]. simpl. unfold owner_step. rewrite Hk, Et, Edone. simpl. done.
    + destruct (can_run_runs e t Edone (Hr t Et)) as [[t' out] Es].
      pose proof (thread_fine e o Hs) as Hf. unfold timer_thread_step in Hf.
      rewrite Et, Edone, He, Es in Hf. destruct (own_sock && negb (sock o)) eqn:Ek; [done|].
      set (o1 := mkObject (execute o) (Some t') (sock o) (doing o) (destroyed o)).
      assert (object_safe o1) as Hs1 by (unfold o1; rewrite He; exact Hf).
      assert (to_do o1 < to_do o)%nat as Hlt by (unfold to_do; rewrite Et; by eapply steps_left_step).
      destruct (IH (to_do o1) Hlt o1 eq_refl Hs1 Hk) as (n & o' & out' & Hn & Hm & H1 & H2).
      { intros t0 [= <-]. eapply can_run_step; [by apply Hr|exact Es]. }
      exists (S n), o', (out ++ out'). split; [lia|]. split; [|done]. simpl. unfold timer_thread_step.
      rewrite Et, Edone, He, Es, Ek. fold o1. rewrite <- He. fold o1. by rewrite Hm.
  - eexists 0%nat, _, _. split; [lia|]. simpl. unfold owner_step. rewrite Hk, Et. split; [reflexivity|done].
Qed.

(** The flag is clear, and the call that is under way does not set it. *)
Definition keeps_flag (a : Access A) : Prop := match a with StoreExecute true | Spawn _ => False | _ => True end.
Definition stopping o : Prop := execute o = false /\ Forall keeps_flag (doing o).
Definition not_start (m : Move (A := A)) : Prop := match m with CallStart _ => False | _ => True end.

Lemma stopping_move m o o' out :
  stopping o -> not_start m -> move m o = Next o' out -> stopping o' /\ (length out + to_send o' <= to_send o)%nat.
Proof.
  intros [He Hf] Hm. destruct m as [a| | | |e]; simpl; [done|..].
  1, 2: unfold call; destruct (doing o); [|done]; destruct (destroyed o); [done|]; intros [= <- <-];
    (split; [split; [done|]|exact (le_n _)]); unfold stop, destructor; try destruct own_sock; repeat constructor.
  - unfold owner_step. destruct (doing o) as [|a k]; [done|]. inversion_clear Hf as [|? ? Ha Hk].
    assert (forall o1, execute o1 = false -> doing o1 = k -> stopping o1) as Hst
      by (intros o1 E1 E2; split; [done|by rewrite E2]).
    unfold to_send. destruct a as [|[]| |a| |]; simpl in Ha; try done; rewrite ?He.
    + intros [= <- <-]. split; [by apply Hst|exact (le_n _)].
    + intros [= <- <-]. split; [by apply Hst|exact (le_n _)].
    + destruct (thd o) as [t|] eqn:Et; [destruct (thread_done t); [|done]|]; intros [= <- <-];
        (split; [by apply Hst|simpl; rewrite ?Et; lia]).
    + intros [= <- <-]. split; [by apply Hst|exact (le_n _)].
    + destruct (thd o) eqn:Et; [done|]. intros [= <- <-]. split; [by apply Hst|]. simpl. by rewrite Et.
  - unfold timer_thread_step. destruct (thd o) as [t|] eqn:Et; [|done]. destruct (thread_done t); [done|].
    rewrite He. destruct (thread_step false e t) as [[t' out']|] eqn:Es; [|done].
    destruct (own_sock && _); [done|]. intros [= <- <-]. split; [by split|].
    unfold to_send. cbn. rewrite Et. by eapply pending_step.
Qed.

Lemma stopping_moves ms o o' out :
  stopping o -> Forall not_start ms -> moves ms o = Some (o', out) -> (length out + to_send o' <= to_send o)%nat.
Proof.
  revert o out. induction ms as [|m ms IH]; intros o out Ho Hm; simpl; [intros [= <- <-]; simpl; lia|].
  inversion_clear Hm as [|? ? Hm1 Hm2]. destruct (move m o) as [| |o1 out1] eqn:E; [done..|].
  destruct (moves ms o1) as [[o2 out2]|] eqn:E2; simpl; [|done]. intros [= <- <-].
  destruct (stopping_move m o o1 out1 Ho Hm1 E) as [Ho1 H1]. specialize (IH o1 out2 Ho1 Hm2 E2).
  rewrite length_app. lia.
Qed.

(** C39. A timer with a thread of its own, however its owner and its thread
    interleave: no move ends the process by overwriting or destroying a thread
    that was not joined, or by a message on a destroyed socket; when [stop] waits
    for a thread that need not wait itself, it returns after a bounded number of
    the thread's steps; from the moment [stop] clears the flag until the next
    [start], at most one more message is sent; after the destructor there is no
    thread. *)
Theorem timer_thread_life o :
  reachable o ->
  (forall m, move m o <> Terminates)
  /\ (forall e k, doing o = Join :: k -> may_run e o ->
        exists n o' out, (n <= to_do o)%nat
          /\ moves (repeat (ThreadMoves e) n ++ [OwnerMoves]) o = Some (o', out)
          /\ thd o' = None /\ doing o' = k)
  /\ (forall ms o' out, stopping o -> Forall not_start ms -> moves ms o = Some (o', out) ->
        (length out <= 1)%nat)
  /\ (destroyed o = true -> doing o = [] -> thd o = None).
Proof.
  intros (ms0 & out0 & Hr). pose proof (moves_safe _ _ _ _ new_timer_safe Hr) as Hs. split_and!.
  - intros m E. pose proof (move_fine m o Hs) as Hm. by rewrite E in Hm.
  - intros e k. by apply join_returns.
  - intros ms o' out Ho Hm E. pose proof (stopping_moves ms o o' out Ho Hm E) as Hn.
    unfold to_send in Hn at 2. destruct (thd o) as [t|]; [pose proof (pending_le_1 t)|]; lia.
  - intros Hd Hk. pose proof (os_doing o Hs) as H1. rewrite Hk, Hd in H1. unfold joinable in H1.
    destruct (thd o); [|done]. by destruct H1.
Qed.
End Safety.

(** ** The two timers *)

#[export] Instance OneShotTimer_laws timerid wakeuptime :
  ThreadLaws OneShotThread unit (H := OneShotTimer timerid wakeuptime).
Proof.
  refine {| pending t := match t with OneShotEnds => 0 | _ => 1 end;
            steps_left t := match t with OneShotSleeps => 2 | OneShotSends => 1 | OneShotEnds => 0 end;
            can_run e t := accepted e && (negb (rc e =? 0)%Z || (nanos wakeuptime <=? clock e)%Z) |}%nat.
  - intros []; simpl; lia.
  - intros e [] t' out; cbn; [destruct (_ && _)|destruct (accepted e)|]; intros [= <- <-]; simpl; lia.
  - intros e [] t' out; cbn; [destruct (_ && _)|destruct (accepted e)|]; intros [= <- <-]; simpl; lia.
  - done.
  - intros e [] Hd; cbn in *; [|intros [-> _]%andb_true_iff; by eexists|done].
    intros [_ Hr]%andb_true_iff. destruct (rc e =? 0); [|by eexists]. simpl in *.
    apply Z.leb_le in Hr. rewrite (proj2 (Z.ltb_ge _ _)) by done. by eexists.
Defined.

#[export] Instance CallBackTimer_laws portName : ThreadLaws CallBackThread Z (H := CallBackTimer portName).
Proof.
  refine {| pending t := match t with CallBackSleeps _ _ => 1 | _ => 0 end;
            steps_left t := match t with CallBackBegins _ | CallBackSleeps _ _ => 2 | CallBackTests _ _ => 1
                            | CallBackEnds => 0 end;
            can_run e t := match t with CallBackSleeps _ now => (now <=? clock e)%Z | _ => true end |}%nat.
  - intros []; simpl; lia.
  - intros e [] t' out; cbn; [| |destruct (_ <? _), (accepted e)|]; intros [= <- <-]; simpl; lia.
  - intros e [] t' out; cbn; [| |destruct (_ <? _), (accepted e)|]; intros [= <- <-]; simpl; lia.
  - intros e [] t' out Hc; cbn; [| |destruct (_ <? _)|]; by intros [= <- <-].
  - intros e [] Hd Hc; cbn in *; try done; try by eexists. apply Z.leb_le in Hc.
    rewrite (proj2 (Z.ltb_ge _ _)) by done. by eexists.
Defined.

(** ** What each timer sends *)

Section OneShotFacts.
Variable timerid : string.
Variable wakeuptime : timespec.
Implicit Type o : TimerObject (T := OneShotThread) (A := unit).

Abbreviation moves := (moves (H := OneShotTimer timerid wakeuptime)).
Abbreviation move := (move (H := OneShotTimer timerid wakeuptime)).
Abbreviation fresh_timer := (new_timer (H := OneShotTimer timerid wakeuptime)).

(** The threads that a run starts. *)
Fixpoint spawns (ms : list (Move (A := unit))) o : nat :=
  match ms with
  | [] => 0
  | m :: ms' =>
      match m, doing o with OwnerMoves, Spawn _ :: _ => 1 | _, _ => 0 end
      + match move m o with Next o1 _ => spawns ms' o1 | _ => 0 end
  end.

Definition unsent o : nat := match thd o with Some OneShotEnds | None => 0 | Some _ => 1 end.

Lemma oneshot_move m o o' out :
  object_safe (H := OneShotTimer timerid wakeuptime) o -> move m o = Next o' out ->
  (length out + unsent o'
   = unsent o + match m, doing o with OwnerMoves, Spawn _ :: _ => 1 | _, _ => 0 end)%nat.
Proof.
  intros Hs. destruct m as [a| | | |e]; simpl.
  1, 2, 3: unfold call; destruct (doing o); [|done]; destruct (destroyed o); [done|]; intros [= <- <-]; unfold unsent; simpl; lia.
  - unfold owner_step, unsent. destruct (doing o) as [|[] k] eqn:Ek; [done|..]; try (intros [= <- <-]; simpl; lia).
    + destruct (thd o) as [[]|] eqn:Et; simpl; try done; intros [= <- <-]; simpl; rewrite ?Et; lia.
    + destruct (thd o) eqn:Et; [done|]. intros [= <- <-]. done.
    + destruct (thd o) eqn:Et; [done|]. intros [= <- <-]. simpl. by rewrite Et.
  - unfold timer_thread_step, unsent. destruct (thd o) as [[]|]; simpl; try done.
    + destruct (_ && _); [done|]. destruct (negb _); [done|]. intros [= <- <-]. done.
    + destruct (accepted e); [|done]. destruct (negb _); [done|]. intros [= <- <-]. done.
Qed.

(** A one-shot timer fires once for each thread that was started, and [stop]
    does not cancel it: what is not sent yet is sent by the thread that [stop]
    waits for. *)
Theorem oneshot_fires_once ms o out :
  moves ms fresh_timer = Some (o, out) ->
  (length out + unsent o = spawns ms fresh_timer)%nat
  /\ (unsent o = 0%nat <-> thd o = None \/ thd o = Some OneShotEnds).
Proof.
  intros E. split.
  - enough (forall o0, object_safe (H := OneShotTimer timerid wakeuptime) o0 -> forall o out,
      moves ms o0 = Some (o, out) -> length out + unsent o = unsent o0 + spawns ms o0)%nat as H
      by exact (H _ new_timer_safe _ _ E).
    clear o out E. induction ms as [|m ms IH]; intros o0 Hs o out; simpl; [intros [= <- <-]; simpl; lia|].
    pose proof (move_fine m o0 Hs) as Hf. destruct (move m o0) as [| |o1 out1] eqn:E1; [done..|].
    destruct (moves ms o1) as [[o2 out2]|] eqn:E2; simpl; [|done]. intros [= <- <-].
    pose proof (oneshot_move m o0 o1 out1 Hs E1). specialize (IH o1 Hf o2 out2 E2).
    rewrite length_app. lia.
  - unfold unsent. destruct (thd o) as [[]|]; intuition congruence.
Qed.
End OneShotFacts.

Section CallBackFacts.
Variable portName : string.
Implicit Type o : TimerObject (T := CallBackThread) (A := Z).

Abbreviation moves := (moves (H := CallBackTimer portName)).

(** When the [k]-th message of a thread may be sent at the earliest. *)
Definition not_before (p : CallBackThread) (k : nat) (t : Fired) : Prop :=
  match p with
  | CallBackBegins _ => True
  | CallBackTests i now => 0 <= i -> now + (Z.of_nat k + 1) * (i * 1000000) <= t.2
  | CallBackSleeps i now => 0 <= i -> now + Z.of_nat k * (i * 1000000) <= t.2
  | CallBackEnds => False
  end.

Lemma callback_times es o o' out k t p :
  thd o = Some p -> moves (map ThreadMoves es) o = Some (o', out) -> out !! k = Some t -> not_before p k t.
Proof.
  revert o out k p. induction es as [|e es IH]; intros o out k p Hp; simpl; [by intros [= <- <-]|].
  unfold timer_thread_step. rewrite Hp. destruct (thread_done p) eqn:Ed; [done|].
  destruct (thread_step (execute o) e p) as [[p' out1]|] eqn:E1; [|done]. simpl.
  set (o1 := mkObject _ _ _ _ _). destruct (moves _ o1) as [[o2 out2]|] eqn:E2; simpl; [|done].
  intros [= <- <-] Hk.
  assert (forall k, out2 !! k = Some t -> not_before p' k t) as H by (intros k' Hk'; by apply (IH o1 out2)).
  destruct p as [i|i now|i now|]; simpl in *; [done|..|done].
  - destruct (execute o); injection E1 as <- <-; simpl in Hk; apply H in Hk; simpl in Hk; [|done].
    intros Hi. specialize (Hk Hi). lia.
  - destruct (Z.ltb_spec (clock e) now) as [|Hc]; [done|]. injection E1 as <- <-. intros Hi.
    destruct (accepted e); [destruct k as [|k]|]; simpl in Hk.
    + injection Hk as <-. simpl. lia.
    + apply H in Hk. specialize (Hk Hi). lia.
    + apply H in Hk. specialize (Hk Hi). lia.
Qed.

(** No drift: as long as its thread runs, the [k]-th message of a callback timer
    is not sent before [k] intervals after the thread began, however late the
    ones before it were. *)
Theorem callback_no_drift i now es o o' out k t :
  thd o = Some (CallBackTests i now) -> 0 <= i ->
  moves (map ThreadMoves es) o = Some (o', out) -> out !! k = Some t ->
  now + (Z.of_nat k + 1) * (i * 1000000) <= t.2.
Proof.
  intros Ht Hi Hm Hk. pose proof (callback_times es o o' out k t _ Ht Hm Hk) as H. by apply H.
Qed.
End CallBackFacts.

(** ** Witnesses

    A one-shot timer that is stopped long before its wake-up time: its owner
    waits, and the message is sent all the same. *)

Definition at_time (c : Z) : Env := {| clock := c; rc := 0; accepted := true |}.

Definition started_and_stopped : list (Move (A := unit)) :=
  [CallStart tt; OwnerMoves; OwnerMoves; OwnerMoves; CallStop; OwnerMoves].

Abbreviation demo_oneshot := (OneShotTimer "t1" (mkTimespec 5 0)).

Definition waiting_object : TimerObject (T := OneShotThread) (A := unit) :=
  mkObject false (Some OneShotSleeps) true [Join] false.

Lemma timer_thread_life_witness :
  (forall m, move (H := demo_oneshot) m waiting_object <> Terminates)
  /\ (exists n o' out, (n <= 2)%nat
        /\ moves (H := demo_oneshot) (repeat (ThreadMoves (at_time 6000000000)) n ++ [OwnerMoves]) waiting_object
           = Some (o', out) /\ thd o' = None /\ doing o' = [])
  /\ (length [("t1", 6000000000%Z)] <= 1)%nat.
Proof.
  assert (reachable (H := demo_oneshot) waiting_object) as Hr
    by (exists started_and_stopped, []; reflexivity).
  destruct (timer_thread_life (H0 := OneShotTimer_laws "t1" (mkTimespec 5 0)) waiting_object Hr) as (H1 & H2 & H3 & _).
  split; [exact H1|]. split.
  - apply (H2 (at_time 6000000000) [] eq_refl). intros t [= <-]. reflexivity.
  - apply (H3 [ThreadMoves (at_time 6000000000); ThreadMoves (at_time 6000000000); OwnerMoves]
              (mkObject false None true [] false)).
    + split; [reflexivity|]. repeat constructor.
    + repeat constructor.
    + reflexivity.
Defined.

Lemma oneshot_fires_once_witness :
  (length [("t1", 6000000000%Z)] + 0 = 1)%nat.
Proof.
  apply (oneshot_fires_once "t1" (mkTimespec 5 0)
    (started_and_stopped ++ [ThreadMoves (at_time 6000000000); ThreadMoves (at_time 6000000000); OwnerMoves])
    (mkObject false None true [] false)).
  reflexivity.
Defined.

Lemma callback_no_drift_witness :
  100 + (Z.of_nat 1 + 1) * (2 * 1000000) <= 4000200.
Proof.
  apply (callback_no_drift "c1" 2 100 (map at_time [150; 3000000; 3000001; 4000200])
    (mkObject true (Some (CallBackTests 2 100)) false [] false)
    (mkObject true (Some (CallBackTests 2 4000100)) false [] false)
    [("c1", 3000000); ("c1", 4000200)] 1 ("c1", 4000200)); [reflexivity|lia|reflexivity|reflexivity].
Defined.
