(* ===== verification/Ini.v ===== *)
(** Ini.v - the reader of [riaps.conf]: [include/INIReader.h].

    [ini_parse_stream] reads a stream line by line with [fgets] and calls a
    handler for each [name=value]; [INIReader] collects the values under
    case-insensitive keys.  A file is its content, [None] when it cannot be
    opened. *)

From Stdlib Require Import ZArith Lia Ascii.
From stdpp Require Import base gmap strings list fin_maps.
From S2P Require Import Prelude.

(** ** C strings *)

Definition NUL : ascii := "000"%char.
Definition NL : ascii := "010"%char.

(** What a [char*] that points to these bytes denotes. *)
Fixpoint c_str (s : string) : string :=
  match s with
  | EmptyString => ""
  | String c s' => if decide (c = NUL) then "" else String c (c_str s')
  end.

(** [*s == c] *)
Definition head_is (c : ascii) (s : string) : bool :=
  match s with EmptyString => false | String d _ => bool_decide (d = c) end.

Fixpoint rstrip (s : string) : string :=
  match s with
  | EmptyString => ""
  | String c s' =>
      match rstrip s' with
      | EmptyString => if is_space c then "" else String c ""
      | r => String c r
      end
  end.

Definition lskip : string -> string := skip_space.

(** [strchr(chars, c) != NULL] for a character that is not NUL. *)
Fixpoint strchr (chars : string) (c : ascii) : bool :=
  match chars with
  | EmptyString => false
  | String d chars' => bool_decide (c = d) || strchr chars' c
  end.

Definition INI_INLINE_COMMENT_PREFIXES : string := ";".

(** The characters before the pointer that the function returns, and those
    from it on.  Without [chars] only a comment ends the search. *)
Fixpoint find_go (was_space : bool) (chars : option string) (s : string) : string * string :=
  match s with
  | EmptyString => ("", "")
  | String c s' =>
      if match chars with Some cs => strchr cs c | None => false end
         || was_space && strchr INI_INLINE_COMMENT_PREFIXES c
      then ("", s)
      else let '(a, b) := find_go (is_space c) chars s' in (String c a, b)
  end.

Definition find_chars_or_comment (s : string) (chars : option string) : string * string :=
  find_go false chars s.

(** What [strncpy0] leaves in a buffer of [size] characters. *)
Definition strncpy0 (src : string) (size : nat) : string := str_take (size - 1) src.

(** [fgets]: at most [num - 1] characters, up to a newline, which is kept. *)
Fixpoint get_chars (n : nat) (s : string) : string * string :=
  match n, s with
  | S n', String c s' =>
      if decide (c = NL) then (String c "", s')
      else let '(a, b) := get_chars n' s' in (String c a, b)
  | _, _ => ("", s)
  end.

Definition fgets (num : nat) (stream : string) : option (string * string) :=
  match stream with EmptyString => None | _ => Some (get_chars (num - 1) stream) end.

(** ** [ini_parse_stream] *)

Definition INI_MAX_LINE : nat := 200.
Definition MAX_SECTION : nat := 50.
Definition MAX_NAME : nat := 50.
Definition BOM : string := String "239" (String "187" (String "191" "")).

Section Parser.
Context {U : Type} (handler : U -> string -> string -> string -> U * bool).

Record IniState := mkIni {
  section : string;
  prev_name : string;
  lineno : Z;
  error : Z;
  user : U;
}.

(** [if (!error) error = lineno;] *)
Definition syntax_error (st : IniState) : IniState :=
  if error st =? 0 then mkIni (section st) (prev_name st) (lineno st) (lineno st) (user st) else st.

Definition call_handler (name value : string) (st : IniState) : IniState :=
  let '(u, ok) := handler (user st) (section st) name value in
  let st := mkIni (section st) (prev_name st) (lineno st) (error st) u in
  if ok then st else syntax_error st.

(** A line that is neither a comment nor a continuation. *)
Definition ini_statement (start : string) (st : IniState) : IniState :=
  if head_is "[" start then
    let '(name, rest) := find_chars_or_comment (str_drop 1 start) (Some "]") in
    if head_is "]" rest then
      mkIni (strncpy0 name MAX_SECTION) "" (lineno st) (error st) (user st)
    else syntax_error st
  else if bool_decide (start <> "") then
    let '(name, rest) := find_chars_or_comment start (Some "=:") in
    if head_is "=" rest || head_is ":" rest then
      let name := rstrip name in
      let '(value, _) := find_chars_or_comment (lskip (str_drop 1 rest)) None in
      call_handler name (rstrip value)
        (mkIni (section st) (strncpy0 name MAX_NAME) (lineno st) (error st) (user st))
    else syntax_error st
  else st.

(** The body of the loop. *)
Definition ini_line (line : string) (st : IniState) : IniState :=
  let st := mkIni (section st) (prev_name st) (lineno st + 1) (error st) (user st) in
  let line := c_str line in
  let bom := (lineno st =? 1) && String.prefix BOM line in
  let unspaced := rstrip (if bom then str_drop 3 line else line) in
  let start := lskip unspaced in
  let indented := bom || (String.length start <? String.length unspaced)%nat in
  if head_is ";" start || head_is "#" start then st
  else if bool_decide (prev_name st <> "") && bool_decide (start <> "") && indented then
    let '(text, _) := find_chars_or_comment start None in
    call_handler (prev_name st) (rstrip text) st
  else ini_statement start st.

Fixpoint ini_loop (fuel : nat) (stream : string) (st : IniState) : IniState :=
  match fuel with
  | O => st
  | S fuel' =>
      match fgets INI_MAX_LINE stream with
      | None => st
      | Some (line, rest) => ini_loop fuel' rest (ini_line line st)
      end
  end.

(** A turn of the loop reads a character at least. *)
Definition ini_parse_stream (stream : string) (u : U) : Z * U :=
  let st := ini_loop (String.length stream) stream (mkIni "" "" 0 0 u) in
  (error st, user st).

Definition ini_parse (file : option string) (u : U) : Z * U :=
  match file with None => (-1, u) | Some stream => ini_parse_stream stream u end.
End Parser.
Arguments IniState : clear implicits.

(** ** [INIReader] *)

Record INIReader := mkReader {
  _error : Z;
  _values : gmap string string;
  _sections : gset string;
}.

Definition tolower (c : ascii) : ascii :=
  let n := nat_of_ascii c in
  if ((65 <=? n) && (n <=? 90))%nat then ascii_of_nat (n + 32) else c.

Fixpoint lower (s : string) : string :=
  match s with EmptyString => "" | String c s' => String (tolower c) (lower s') end.

Definition MakeKey (section name : string) : string := lower (section +:+ "=" +:+ name).

Definition ValueHandler (r : INIReader) (section name value : string) : INIReader * bool :=
  let key := MakeKey section name in
  let old := default "" (_values r !! key) in
  let sep := if decide (old = "") then "" else String NL "" in
  (mkReader (_error r) (<[key := old +:+ sep +:+ value]> (_values r)) ({[section]} ∪ _sections r), true).

(** The constructor. *)
Definition INIReader_file (file : option string) : INIReader :=
  let '(e, r) := ini_parse ValueHandler file (mkReader 0 ∅ ∅) in
  mkReader e (_values r) (_sections r).

Definition ParseError (r : INIReader) : Z := _error r.
Definition Sections (r : INIReader) : gset string := _sections r.

Definition Get (r : INIReader) (section name default_value : string) : string :=
  default default_value (_values r !! MakeKey section name).

Definition GetBoolean (r : INIReader) (section name : string) (default_value : bool) : bool :=
  let valstr := lower (Get r section name "") in
  if bool_decide (valstr ∈ ["true"; "yes"; "on"; "1"]) then true
  else if bool_decide (valstr ∈ ["false"; "no"; "off"; "0"]) then false
  else default_value.

(** [strtol(s, &end, 0)]: the number and whether [end > s]; the base is told by
    a prefix, and the number is clamped to [long]. *)
Definition digit_in (base : Z) (c : ascii) : option Z :=
  let n := Z.of_nat (nat_of_ascii (tolower c)) in
  let d := if (48 <=? n) && (n <=? 57) then n - 48
           else if (97 <=? n) && (n <=? 122) then n - 87 else base in
  if d <? base then Some d else None.

Fixpoint digits_in (base acc : Z) (s : string) : Z :=
  match s with
  | String c s' => match digit_in base c with Some d => digits_in base (base * acc + d) s' | None => acc end
  | EmptyString => acc
  end.

Definition starts_in (base : Z) (s : string) : bool :=
  match s with String c _ => bool_decide (is_Some (digit_in base c)) | EmptyString => false end.

Definition clamp_long (z : Z) : Z := Z.max (- 2 ^ 63) (Z.min z (2 ^ 63 - 1)).

Definition strtol0 (s : string) : option Z :=
  let '(sign, s) :=
    match skip_space s with
    | String "-" s' => (-1, s')
    | String "+" s' => (1, s')
    | s => (1, s)
    end in
  let hex := (String.prefix "0x" s || String.prefix "0X" s) && starts_in 16 (str_drop 2 s) in
  let '(base, s) := if hex then (16, str_drop 2 s) else if String.prefix "0" s then (8, s) else (10, s) in
  if starts_in base s then Some (clamp_long (sign * digits_in base 0 s)) else None.

Definition GetInteger (r : INIReader) (section name : string) (default_value : Z) : Z :=
  default default_value (strtol0 (c_str (Get r section name ""))).

(** ** Lemmas on stripped strings *)

Lemma skip_space_head s : skip_space s = "" \/ exists c t, skip_space s = String c t /\ is_space c = false.
Proof.
  induction s as [|c s IH]; simpl; [by left|]. destruct (is_space c) eqn:E; [done|]. right. by exists c, s.
Qed.

(** No white space at either end. *)
Definition trimmed (s : string) : Prop := rstrip s = s /\ skip_space s = s.

#[export] Instance trimmed_dec s : Decision (trimmed s).
Proof. unfold trimmed. apply _. Defined.

(** The characters of [s] all satisfy [P]. *)
Fixpoint str_all (P : ascii -> bool) (s : string) : bool :=
  match s with EmptyString => true | String c s' => P c && str_all P s' end.

Lemma str_all_app P s t : str_all P (s +:+ t) = str_all P s && str_all P t.
Proof. induction s as [|c s IH]; [done|]. rewrite str_app_cons. simpl. by rewrite IH, andb_assoc. Qed.

Lemma str_length_app s t : String.length (s +:+ t) = (String.length s + String.length t)%nat.
Proof. induction s as [|c s IH]; [done|]. rewrite str_app_cons. simpl. by rewrite IH. Qed.

Lemma rstrip_cons c s : rstrip s <> "" -> rstrip (String c s) = String c (rstrip s).
Proof. intros H. simpl. by destruct (rstrip s). Qed.

Lemma rstrip_app s t : rstrip t <> "" -> rstrip (s +:+ t) = s +:+ rstrip t.
Proof.
  intros Ht. induction s as [|c s IH]; [done|]. rewrite !str_app_cons.
  rewrite rstrip_cons; rewrite IH; [done|]. destruct s; [done|]. by rewrite str_app_cons.
Qed.

Lemma rstrip_app_nil s t : rstrip t = "" -> rstrip (s +:+ t) = rstrip s.
Proof.
  intros Ht. induction s as [|c s IH]; [done|]. rewrite str_app_cons. simpl. by rewrite IH.
Qed.

(** A character that neither a C string nor a line ends with. *)
Definition in_line (c : ascii) : bool := bool_decide (c <> NUL) && bool_decide (c <> NL).

Lemma c_str_id s : str_all in_line s = true -> c_str (s +:+ String NL "") = s +:+ String NL "".
Proof.
  induction s as [|c s IH]; [done|]. rewrite str_app_cons. simpl. unfold in_line at 1.
  intros [[Hc _]%andb_true_iff Hs]%andb_true_iff. apply bool_decide_eq_true in Hc.
  rewrite decide_False by done. by rewrite IH.
Qed.

Lemma get_chars_line n s t :
  str_all in_line s = true -> (String.length s < n)%nat ->
  get_chars n (s +:+ String NL t) = (s +:+ String NL "", t).
Proof.
  revert n. induction s as [|c s IH]; intros [|n]; rewrite ?str_app_nil, ?str_app_cons; simpl; try lia.
  - done.
  - unfold in_line at 1. intros [[_ Hc]%andb_true_iff Hs]%andb_true_iff Hn.
    apply bool_decide_eq_true in Hc. rewrite decide_False by done. rewrite IH by (done || lia). done.
Qed.

(** [find_chars_or_comment] goes through a string in which there is neither
    one of the characters nor a comment. *)
Lemma find_go_app w chars s c t :
  find_go w chars s = (s, "") ->
  match chars with Some cs => strchr cs c | None => false end = true ->
  find_go w chars (s +:+ String c t) = (s, String c t).
Proof.
  intros H Hc. revert w H. induction s as [|d s IH]; intros w; rewrite ?str_app_nil, ?str_app_cons; simpl.
  - by rewrite Hc.
  - destruct (_ || _); [done|]. destruct (find_go (is_space d) chars s) as [a b] eqn:E.
    intros [= -> ->]. by rewrite (IH _ E).
Qed.

(** ** The loop over the lines *)

Fixpoint unlines (ls : list string) : string :=
  match ls with [] => "" | l :: ls' => l +:+ String NL (unlines ls') end.

(** A line that [fgets] reads in one piece. *)
Definition line_ok (l : string) : Prop :=
  str_all in_line l = true /\ (String.length l < INI_MAX_LINE - 1)%nat.

#[export] Instance line_ok_dec l : Decision (line_ok l).
Proof. unfold line_ok. apply _. Defined.

Section Loop.
Context {U : Type} (handler : U -> string -> string -> string -> U * bool).
Implicit Type st : IniState U.

Lemma ini_loop_line fuel l rest st :
  line_ok l ->
  ini_loop handler (S fuel) (l +:+ String NL rest) st
  = ini_loop handler fuel rest (ini_line handler (l +:+ String NL "") st).
Proof.
  intros [Hl Hn]. cbn [ini_loop]. unfold fgets.
  destruct (l +:+ String NL rest) as [|c s] eqn:E; [by destruct l|].
  rewrite <- E, get_chars_line by done. done.
Qed.

Lemma ini_loop_unlines ls fuel st :
  Forall line_ok ls -> (String.length (unlines ls) <= fuel)%nat ->
  ini_loop handler fuel (unlines ls) st
  = foldl (fun st l => ini_line handler (l +:+ String NL "") st) st ls.
Proof.
  intros Hls. revert fuel st. induction Hls as [|l ls Hl Hls IH]; intros fuel st Hf.
  - by destruct fuel.
  - cbn [unlines] in Hf. rewrite str_length_app in Hf. simpl in Hf.
    destruct fuel as [|fuel]; [lia|]. cbn [unlines]. rewrite ini_loop_line by done. simpl. apply IH. lia.
Qed.

(** A line is never read across a newline. *)
Lemma get_chars_newline n s t a b :
  get_chars n (s +:+ String NL t) = (a, b) -> (0 < n)%nat ->
  exists s', b = s' +:+ String NL t /\ (String.length s' < String.length s)%nat \/ b = t.
Proof.
  revert s a b. induction n as [|n IH]; intros s a b H Hn; [lia|].
  destruct s as [|c s]; rewrite ?str_app_nil, ?str_app_cons in H; cbn [get_chars] in H.
  { injection H as <- <-. exists "". by right. }
  destruct (decide (c = NL)); [injection H as <- <-; exists s; left; split; [done|simpl; lia]|].
  destruct (get_chars n (s +:+ String NL t)) as [a' b'] eqn:E. injection H as <- <-.
  destruct n as [|n]; [simpl in E; injection E as <- <-; exists s; left; split; [done|simpl; lia]|].
  destruct (IH _ _ _ E ltac:(lia)) as (s' & [[-> Hl]| ->]); exists s'; [left|by right].
  split; [done|simpl; lia].
Qed.

Lemma ini_line_lineno l st :
  lineno (ini_line handler l st) = lineno st + 1
  /\ (error st <> 0 -> error (ini_line handler l st) = error st).
Proof.
  destruct st as [sec prev ln er u]. unfold ini_line, ini_statement, call_handler, syntax_error.
  split; [|intros Her%Z.eqb_neq; simpl in Her];
    repeat (case_bool_decide || case_match); simpl in *; try done; try congruence.
Qed.

Lemma ini_loop_error fuel s st :
  error st <> 0 -> error (ini_loop handler fuel s st) = error st.
Proof.
  revert s st. induction fuel as [|fuel IH]; intros s st He; [done|]. cbn [ini_loop].
  destruct (fgets _ s) as [[l rest]|]; [|done].
  pose proof (proj2 (ini_line_lineno l st) He) as E. by rewrite IH, E by (by rewrite E).
Qed.

(** The loop comes to what follows a newline. *)
Lemma ini_loop_reaches fuel pre rest st :
  (String.length (pre +:+ String NL rest) <= fuel)%nat -> 0 <= lineno st ->
  exists fuel' st', (String.length rest <= fuel')%nat /\ 0 <= lineno st'
    /\ ini_loop handler fuel (pre +:+ String NL rest) st = ini_loop handler fuel' rest st'.
Proof.
  revert pre st. induction fuel as [fuel IH] using lt_wf_ind. intros pre st Hf Hn.
  rewrite str_length_app in Hf. simpl in Hf. destruct fuel as [|fuel]; [lia|]. cbn [ini_loop].
  unfold fgets. destruct (pre +:+ String NL rest) as [|c s] eqn:E; [by destruct pre|]. rewrite <- E.
  destruct (get_chars (INI_MAX_LINE - 1) (pre +:+ String NL rest)) as [l b] eqn:G.
  destruct (ini_line_lineno l st) as [Hln _].
  destruct (get_chars_newline _ _ _ _ _ G) as (pre' & [[-> Hl]| ->]); [unfold INI_MAX_LINE; lia| |].
  - apply (IH fuel); [lia| |lia]. rewrite str_length_app. simpl. lia.
  - eexists fuel, _. split_and!; [|  |done]; lia.
Qed.
End Loop.

(** ** Lines as they are printed *)

Definition section_line (s : string) : string := "[" +:+ s +:+ "]".
Definition setting_line (name value : string) : string := name +:+ "=" +:+ value.

Definition section_ok (s : string) : Prop :=
  find_chars_or_comment s (Some "]") = (s, "") /\ (String.length s < MAX_SECTION)%nat
  /\ str_all in_line s = true.

Definition name_ok (n : string) : Prop :=
  n <> "" /\ trimmed n /\ find_chars_or_comment n (Some "=:") = (n, "")
  /\ head_is ";" n = false /\ head_is "#" n = false /\ head_is "[" n = false
  /\ str_all in_line n = true.

Definition value_ok (v : string) : Prop :=
  trimmed v /\ find_chars_or_comment v None = (v, "") /\ str_all in_line v = true.

Definition setting_ok (nv : string * string) : Prop :=
  name_ok nv.1 /\ value_ok nv.2
  /\ (String.length nv.1 + String.length nv.2 < INI_MAX_LINE - 2)%nat.

#[export] Instance section_ok_dec s : Decision (section_ok s).
Proof. unfold section_ok. apply _. Defined.
#[export] Instance setting_ok_dec nv : Decision (setting_ok nv).
Proof. unfold setting_ok, name_ok, value_ok. apply _. Defined.

Lemma rstrip_newline s : rstrip (s +:+ String NL "") = rstrip s.
Proof. by apply rstrip_app_nil. Qed.

Lemma skip_space_length s : (String.length (skip_space s) <= String.length s)%nat.
Proof. induction s as [|c s IH]; simpl; [done|]. destruct (is_space c); simpl; lia. Qed.

Lemma skip_space_app s t : s <> "" -> skip_space s = s -> skip_space (s +:+ t) = s +:+ t.
Proof.
  destruct s as [|c s]; [done|]. intros _. rewrite str_app_cons. simpl.
  destruct (is_space c); [|done]. intros E. pose proof (skip_space_length s) as Hl.
  rewrite E in Hl. simpl in Hl. lia.
Qed.

Lemma head_is_app c s t : s <> "" -> head_is c (s +:+ t) = head_is c s.
Proof. by destruct s. Qed.

Lemma rstrip_equals v : rstrip v = v -> rstrip ("=" +:+ v) = "=" +:+ v.
Proof. intros Hv. rewrite str_app_cons, str_app_nil. simpl. rewrite Hv. by destruct v. Qed.

Section Lines.
Context {U : Type} (handler : U -> string -> string -> string -> U * bool).
Implicit Type st : IniState U.

Definition next_line st : IniState U :=
  mkIni (section st) (prev_name st) (lineno st + 1) (error st) (user st).

(** A line that is not indented, without a byte order mark. *)
Lemma ini_line_plain l st :
  str_all in_line l = true -> skip_space (rstrip l) = rstrip l ->
  (lineno st = 0 -> String.prefix BOM (l +:+ String NL "") = false) ->
  head_is ";" (rstrip l) = false -> head_is "#" (rstrip l) = false ->
  ini_line handler (l +:+ String NL "") st = ini_statement handler (rstrip l) (next_line st).
Proof.
  intros Hl Hs Hb H1 H2. unfold ini_line. rewrite c_str_id by done. cbn [lineno].
  assert ((lineno st + 1 =? 1) && String.prefix BOM (l +:+ String NL "") = false) as ->.
  { destruct (Z.eqb_spec (lineno st + 1) 1); [|done]. apply Hb. lia. }
  unfold lskip. rewrite rstrip_newline, Hs, H1, H2. cbn [orb].
  by rewrite Nat.ltb_irrefl, andb_false_r.
Qed.

Lemma section_line_spec s st :
  section_ok s ->
  ini_line handler (section_line s +:+ String NL "") st
  = mkIni s "" (lineno st + 1) (error st) (user st).
Proof.
  intros (Hf & Hn & Hl).
  assert (rstrip (section_line s) = section_line s) as Hr.
  { assert (rstrip (s +:+ "]") = s +:+ "]") as E by by rewrite rstrip_app.
    unfold section_line. rewrite rstrip_app; rewrite E; [done|]. by destruct s. }
  rewrite ini_line_plain; rewrite ?Hr; try done.
  - unfold ini_statement, section_line. rewrite !str_app_cons, str_app_nil. cbn [head_is str_drop].
    rewrite bool_decide_eq_true_2 by done. unfold find_chars_or_comment in *.
    rewrite (find_go_app _ _ _ "]" "") by done. cbn [head_is].
    rewrite bool_decide_eq_true_2 by done. cbn [section prev_name lineno error user next_line].
    f_equal. unfold strncpy0. apply str_take_all. lia.
  - unfold section_line. by rewrite !str_all_app, Hl.
Qed.

Lemma setting_line_spec n v st :
  setting_ok (n, v) -> 0 < lineno st ->
  ini_line handler (setting_line n v +:+ String NL "") st
  = call_handler handler n v
      (mkIni (section st) (strncpy0 n MAX_NAME) (lineno st + 1) (error st) (user st)).
Proof.
  intros ((Hne & [Hr Hk] & Hf & H1 & H2 & H3 & Hl) & ([Hvr Hvk] & Hvf & Hvl) & _) Hln.
  cbn [fst snd] in *. assert (rstrip (setting_line n v) = setting_line n v) as Hsr.
  { unfold setting_line. by rewrite rstrip_app; rewrite rstrip_equals. }
  rewrite ini_line_plain; rewrite ?Hsr; unfold setting_line; rewrite ?head_is_app by done; try done; try lia.
  - unfold ini_statement. rewrite head_is_app, H3 by done. rewrite bool_decide_eq_true_2 by by destruct n.
    unfold find_chars_or_comment in *. rewrite str_app_cons, str_app_nil.
    rewrite (find_go_app _ _ _ "=" v) by done. cbn [head_is].
    rewrite bool_decide_eq_true_2 by done. cbn [orb str_drop]. unfold lskip.
    by rewrite Hr, Hvk, Hvf, Hvr.
  - by rewrite !str_all_app, Hl, Hvl.
  - by apply skip_space_app.
Qed.
End Lines.

(** ** Whole files *)

(** The sections of a file with their settings. *)
Abbreviation Doc := (list (string * list (string * string))).
Abbreviation Setting := (string * string * string)%type.

Definition doc_lines (d : Doc) : list string :=
  d ≫= fun sl => section_line sl.1 :: map (fun nv => setting_line nv.1 nv.2) sl.2.
Definition print_doc (d : Doc) : string := unlines (doc_lines d).
Definition doc_ok (d : Doc) : Prop := Forall (fun sl => section_ok sl.1 /\ Forall setting_ok sl.2) d.

#[export] Instance doc_ok_dec d : Decision (doc_ok d).
Proof. unfold doc_ok. apply _. Defined.

Definition settings (d : Doc) : list Setting :=
  d ≫= fun sl => map (fun nv => (sl.1, nv.1, nv.2)) sl.2.
Definition key_of (e : Setting) : string := MakeKey e.1.1 e.1.2.

Lemma doc_line_ok d : doc_ok d -> Forall line_ok (doc_lines d).
Proof.
  induction 1 as [|[s l] d [Hs Hl] Hd IH]; [done|]. unfold doc_lines. cbn [mbind list_bind fst snd].
  apply Forall_app. split; [|done]. constructor.
  - cbn [fst] in *. destruct Hs as (_ & Hn & Hs). split; unfold section_line.
    + by rewrite !str_all_app, Hs.
    + rewrite !str_length_app. unfold MAX_SECTION, INI_MAX_LINE in *. simpl. lia.
  - apply Forall_map. eapply Forall_impl; [exact Hl|].
    intros [n v] ((_ & _ & _ & _ & _ & _ & Hn) & (_ & _ & Hv) & Hlen). cbn [fst snd] in *.
    split; unfold setting_line.
    + by rewrite !str_all_app, Hn, Hv.
    + rewrite !str_length_app. unfold INI_MAX_LINE in *. simpl. lia.
Qed.

Section Documents.
Context {U : Type} (handler : U -> string -> string -> string -> U * bool).
Context (handles : forall u s n v, (handler u s n v).2 = true).

Definition settle (u : U) (e : Setting) : U := (handler u e.1.1 e.1.2 e.2).1.

Lemma section_settings_parse s l st :
  Forall setting_ok l -> 0 < lineno st -> error st = 0 -> section st = s ->
  let st' := foldl (fun st l => ini_line handler (l +:+ String NL "") st) st
               (map (fun nv => setting_line nv.1 nv.2) l) in
  error st' = 0 /\ 0 < lineno st' /\ user st' = foldl settle (user st) (map (fun nv => (s, nv.1, nv.2)) l).
Proof.
  intros Hl. revert st. induction Hl as [|[n v] l Hnv Hl IH]; intros st Hn He Hs; [done|]. simpl.
  rewrite setting_line_spec by done. unfold call_handler, settle at 2. cbn [section user fst snd]. rewrite Hs.
  pose proof (handles (user st) s n v) as Hh. destruct (handler (user st) s n v) as [u ok].
  simpl in *. subst ok. apply IH; simpl; [lia|done|done].
Qed.

Lemma doc_parse d u :
  doc_ok d -> ini_parse_stream handler (print_doc d) u = (0, foldl settle u (settings d)).
Proof.
  intros Hd. unfold ini_parse_stream, print_doc. rewrite ini_loop_unlines by (done || by apply doc_line_ok).
  assert (forall st, 0 <= lineno st -> error st = 0 ->
    let st' := foldl (fun st l => ini_line handler (l +:+ String NL "") st) st (doc_lines d) in
    error st' = 0 /\ user st' = foldl settle (user st) (settings d)) as H.
  { induction Hd as [|[s l] d [Hs Hl] Hd IH]; intros st Hn He; [done|].
    unfold doc_lines, settings. cbn [mbind list_bind fst snd]. rewrite !foldl_app. cbn [foldl].
    rewrite section_line_spec by done.
    destruct (section_settings_parse s l (mkIni s "" (lineno st + 1) (error st) (user st))) as (E1 & E2 & E3);
      [done|simpl; lia|done|done|]. cbn [user] in E3. rewrite <- E3. apply IH; [lia|done]. }
  destruct (H (mkIni "" "" 0 0 u)) as [-> ->]; done.
Qed.
End Documents.

(** The values of a key, put together: a line each. *)
Definition join_value (old v : string) : string :=
  old +:+ (if decide (old = "") then "" else String NL "") +:+ v.
Definition joined (vs : list string) : string := foldl join_value "" vs.

Definition values_of (key : string) (l : list Setting) : list string :=
  snd <$> filter (fun e => key_of e = key) l.

Definition read_settings (r : INIReader) (l : list Setting) : INIReader := foldl (settle ValueHandler) r l.

Lemma read_settings_lookup l r key :
  _values (read_settings r l) !! key
  = match values_of key l with
    | [] => _values r !! key
    | vs => Some (foldl join_value (default "" (_values r !! key)) vs)
    end.
Proof.
  revert r. induction l as [|e l IH]; intros r; [done|]. unfold read_settings. cbn [foldl].
  fold (read_settings (settle ValueHandler r e) l). rewrite IH. unfold values_of.
  change (_values (settle ValueHandler r e))
    with (<[key_of e := join_value (default "" (_values r !! key_of e)) e.2]> (_values r)).
  rewrite filter_cons. destruct (decide (key_of e = key)) as [<-|Hne].
  - rewrite lookup_insert_eq. cbn [fmap list_fmap default from_option id foldl].
    by destruct (snd <$> filter _ l).
  - by rewrite lookup_insert_ne.
Qed.

Lemma read_settings_sections l r :
  _sections (read_settings r l) = list_to_set (map (fun e => e.1.1) l) ∪ _sections r.
Proof.
  revert r. induction l as [|e l IH]; intros r; unfold read_settings in *; simpl; [set_solver|].
  rewrite IH. simpl. set_solver.
Qed.

Lemma values_of_unique l e :
  NoDup (map key_of l) -> e ∈ l -> values_of (key_of e) l = [e.2].
Proof.
  intros Hnd He. unfold values_of. induction l as [|e' l IH]; [by apply elem_of_nil in He|].
  apply NoDup_cons in Hnd as [Hnin Hnd]. rewrite filter_cons. apply elem_of_cons in He as [->|He].
  - rewrite decide_True by done. cbn [fmap list_fmap]. f_equal.
    destruct (filter _ l) as [|x l'] eqn:E; [done|]. exfalso. apply Hnin.
    assert (x ∈ filter (fun e => key_of e = key_of e') l) as [<- Hx]%list_elem_of_filter by (rewrite E; left).
    by apply (list_elem_of_fmap_2 key_of) in Hx.
  - rewrite decide_False; [by apply IH|]. intros E. apply Hnin. rewrite E.
    by apply (list_elem_of_fmap_2 key_of).
Qed.

(** The file of settings that [INIReader] reads back. *)
Lemma reads_doc d :
  doc_ok d -> INIReader_file (Some (print_doc d)) = read_settings (mkReader 0 ∅ ∅) (settings d).
Proof.
  intros Hd. unfold INIReader_file, ini_parse. rewrite doc_parse by done.
  assert (forall l r, _error r = 0 -> _error (read_settings r l) = 0) as He.
  { induction l as [|e l IH]; intros r Hr; [done|]. unfold read_settings in *. simpl. by apply IH. }
  specialize (He (settings d) (mkReader 0 ∅ ∅) eq_refl). unfold read_settings in *.
  destruct (foldl _ _ _). simpl in *. by subst.
Qed.

(** The characters before the separator are none of the separators. *)
Lemma find_go_none w cs s c :
  find_go w (Some cs) s = (s, "") -> strchr cs c = true -> str_find c s = None.
Proof.
  revert w. induction s as [|d s IH]; intros w H Hc; [done|]. simpl in *.
  destruct (strchr cs d) eqn:Ed; [done|]. simpl in H. destruct (_ && _); [done|].
  destruct (find_go (is_space d) (Some cs) s) as [a b] eqn:E. injection H as -> ->.
  rewrite decide_False by (intros ->; congruence). by rewrite (IH _ E Hc).
Qed.

(** Two strings split at the last occurrence of a separator. *)
Lemma str_app_sep_inj_last c a b s t :
  str_find c s = None -> str_find c t = None ->
  a +:+ String c s = b +:+ String c t -> a = b /\ s = t.
Proof.
  intros Hs Ht. revert b. induction a as [|d a IH]; intros [|e b]; rewrite ?str_app_nil, ?str_app_cons; intros E.
  - by simplify_eq.
  - exfalso. injection E as -> ->. by eapply str_find_sep.
  - exfalso. injection E as -> <-. by eapply str_find_sep.
  - injection E as -> E. destruct (IH _ E) as [-> ->]. done.
Qed.

Lemma lower_app s t : lower (s +:+ t) = lower s +:+ lower t.
Proof. induction s as [|c s IH]; [done|]. rewrite !str_app_cons. simpl. by rewrite IH. Qed.

Lemma tolower_equals c : tolower c = "="%char -> c = "="%char.
Proof. by destruct c as [[] [] [] [] [] [] [] []]; vm_compute. Qed.

Lemma lower_no_equals s : str_find "=" s = None -> str_find "=" (lower s) = None.
Proof.
  induction s as [|c s IH]; [done|]. cbn [str_find lower]. destruct (decide ("="%char = c)); [done|].
  intros H%fmap_None. rewrite decide_False by (intros Hc; symmetry in Hc; by apply tolower_equals in Hc).
  by rewrite IH.
Qed.

(** Keys tell settings apart, up to case. *)
Lemma MakeKey_inj s n s' n' :
  str_find "=" n = None -> str_find "=" n' = None -> MakeKey s n = MakeKey s' n' ->
  lower s = lower s' /\ lower n = lower n'.
Proof.
  intros Hn Hn'. unfold MakeKey. rewrite !lower_app.
  apply str_app_sep_inj_last; by apply lower_no_equals.
Qed.

Lemma settings_names d e : doc_ok d -> e ∈ settings d -> str_find "=" e.1.2 = None.
Proof.
  intros Hd ([s l] & He & Hsl)%list_elem_of_bind. apply list_elem_of_fmap in He as ([n v] & -> & Hnv).
  unfold doc_ok in Hd. rewrite Forall_forall in Hd. destruct (Hd _ Hsl) as [_ Hl]. rewrite Forall_forall in Hl.
  destruct (Hl _ Hnv) as ((_ & _ & Hf & _) & _). by eapply find_go_none.
Qed.

Lemma key_of_inj d e s n :
  doc_ok d -> e ∈ settings d -> str_find "=" n = None -> key_of e = MakeKey s n ->
  lower e.1.1 = lower s /\ lower e.1.2 = lower n.
Proof. intros Hd He Hn. apply MakeKey_inj; [by eapply settings_names|done]. Qed.

Lemma filter_filter_sub {A} (P Q : A -> Prop) `{forall x, Decision (P x), forall x, Decision (Q x)} (l : list A) :
  (forall x, x ∈ l -> P x -> Q x) -> filter P (filter Q l) = filter P l.
Proof.
  intros HPQ. induction l as [|x l IH]; [done|]. rewrite (filter_cons Q), (filter_cons P x l).
  rewrite <- IH by (intros y Hy; apply HPQ; by right).
  destruct (decide (Q x)) as [HQ|HQ]; [by rewrite filter_cons|].
  rewrite decide_False; [done|]. intros HP. apply HQ, HPQ; [left|done].
Qed.

(** A line that is no comment, heading, setting or continuation. *)
Definition malformed (l : string) : bool :=
  let start := rstrip l in
  bool_decide (start <> "") && bool_decide (skip_space start = start) && negb (String.prefix BOM (l +:+ String NL ""))
  && negb (head_is ";" start) && negb (head_is "#" start)
  && (if head_is "[" start
      then negb (head_is "]" (find_chars_or_comment (str_drop 1 start) (Some "]")).2)
      else let rest := (find_chars_or_comment start (Some "=:")).2 in
           negb (head_is "=" rest || head_is ":" rest)).

Lemma malformed_fails {U} (handler : U -> string -> string -> string -> U * bool) l st :
  line_ok l -> malformed l = true -> 0 <= lineno st ->
  error (ini_line handler (l +:+ String NL "") st) <> 0.
Proof.
  intros [Hl _] Hm Hn. unfold malformed in Hm. rewrite !andb_true_iff, !negb_true_iff in Hm.
  destruct Hm as [[[[[Hne Hs] Hb] H1] H2] Hr]. apply bool_decide_eq_true in Hne, Hs.
  rewrite ini_line_plain by done. unfold ini_statement.
  assert (error (syntax_error (next_line st)) <> 0) as He.
  { unfold syntax_error. simpl. destruct (Z.eqb_spec (error st) 0); simpl; lia. }
  destruct (head_is "[" (rstrip l)).
  - destruct (find_chars_or_comment _ _) as [a b]. simpl in Hr. apply negb_true_iff in Hr. by rewrite Hr.
  - rewrite bool_decide_eq_true_2 by done. destruct (find_chars_or_comment _ _) as [a b].
    simpl in Hr. apply negb_true_iff in Hr. by rewrite Hr.
Qed.

(** The beginning of a line of a file. *)
Definition at_line (lead : string) : Prop := lead = "" \/ exists pre, lead = pre +:+ String NL "".

Lemma malformed_reported lead l post :
  at_line lead -> line_ok l -> malformed l = true ->
  ParseError (INIReader_file (Some (lead +:+ l +:+ String NL post))) <> 0.
Proof.
  intros Hlead Hl Hm. unfold INIReader_file, ini_parse, ini_parse_stream. simpl.
  set (st0 := mkIni "" "" 0 0 (mkReader 0 ∅ ∅)).
  assert (forall fuel st, (String.length (l +:+ String NL post) <= fuel)%nat -> 0 <= lineno st ->
    error (ini_loop ValueHandler fuel (l +:+ String NL post) st) <> 0) as Hmain.
  { intros [|fuel] st Hf Hn; rewrite str_length_app in Hf; simpl in Hf; [lia|].
    rewrite ini_loop_line by done. pose proof (malformed_fails ValueHandler l st Hl Hm Hn) as He.
    by rewrite ini_loop_error. }
  destruct Hlead as [->|[pre ->]]; [by apply Hmain|].
  rewrite str_app_assoc, str_app_cons, str_app_nil.
  destruct (ini_loop_reaches ValueHandler (String.length (pre +:+ String NL (l +:+ String NL post)))
    pre (l +:+ String NL post) st0) as (fuel & st & Hf & Hn & ->); [done..|]. by apply Hmain.
Qed.

(** ** Theorems *)

Lemma INIReader_doc d :
  doc_ok d ->
  let r := INIReader_file (Some (print_doc d)) in
  ParseError r = 0
  /\ forall section name dflt,
       Get r section name dflt
       = match values_of (MakeKey section name) (settings d) with [] => dflt | vs => joined vs end.
Proof.
  intros Hd r. unfold r. pose proof (doc_parse ValueHandler (fun _ _ _ _ => eq_refl) d (mkReader 0 ∅ ∅) Hd) as Hp.
  split; [unfold INIReader_file, ini_parse; by rewrite Hp|]. rewrite reads_doc by done.
  intros sec name dflt. unfold Get. rewrite read_settings_lookup. simpl. rewrite lookup_empty.
  by destruct (values_of _ _).
Qed.


Definition demo_doc : Doc :=
  [("RIAPS", [("nic_name", "eth0"); ("security", "on")]); ("logging", [("level", "info"); ("level", "x = y")])].

