(* ===== verification/Validator.v ===== *)
(** Validator.v - the validation of the nodes that announce themselves
    ([include/discoveryd/r_validator.h], [src/discoveryd/r_validator.cc]).

    The keys of the cluster belong to OpenDHT: [sign] is the private key's
    signature of some data, [checkSignature] its verification by the public
    key.  A node's request socket is named by the address of the node.  Each
    member function reads the clock once for all its tests. *)

From Stdlib Require Import ZArith Lia Ascii.
From stdpp Require Import base gmap strings list fin_maps.
From S2P Require Import Prelude.
From S2P Require Import Timeout.
From S2P Require Import Utils.

#[local] Open Scope riaps_scope.

Definition IDENTIFY_MESSAGE : string := "Identify yourself!".

(** ** Addresses *)

(** [inet_pton(AF_INET, s, _)]: four decimal numbers below 256, separated by
    dots, without superfluous zeros. *)
Fixpoint split_on (c : ascii) (s : string) : list string :=
  match s with
  | EmptyString => [""]
  | String d s' =>
      if decide (c = d) then "" :: split_on c s'
      else match split_on c s' with
           | w :: ws => String d w :: ws
           | [] => [String d ""]
           end
  end.

Fixpoint all_digits (s : string) : bool :=
  match s with
  | EmptyString => true
  | String c s' => bool_decide (is_Some (digit_val c)) && all_digits s'
  end.

Definition octet (s : string) : bool :=
  all_digits s && starts_with_digit s && (read_digits 0 s <? 256)
  && negb (String.prefix "0" s && (1 <? Z.of_nat (String.length s))).

Definition inet_pton4 (s : string) : bool :=
  (Z.of_nat (length (split_on "."%char s)) =? 4) && forallb octet (split_on "."%char s).

(** [stoi] may throw. *)
Definition IsValidZmqAddress (zmq_address : string) : Res bool :=
  match str_find_sub "tcp://" zmq_address with
  | None => Ok false
  | Some tcp_idx =>
      let address_port := str_drop (tcp_idx + String.length "tcp://") zmq_address in
      match str_find ":"%char address_port with
      | None => Ok false
      | Some colon_idx =>
          let address := str_take colon_idx address_port in
          port ← stoi (str_drop (colon_idx + 1) address_port);
          if (port <=? 0) || (65535 <=? port) then Ok false else Ok (inet_pton4 address)
      end
  end.

Lemma IsValidZmqAddress_examples :
  IsValidZmqAddress "tcp://10.0.0.1:5555" = Ok true
  /\ IsValidZmqAddress "tcp://10.0.0.1:65535" = Ok false
  /\ IsValidZmqAddress "tcp://10.0.0.01:5555" = Ok false
  /\ IsValidZmqAddress "tcp://10.0.0.1:x" = Throw invalid_argument
  /\ IsValidZmqAddress "tcp://10.0.0.1:99999999999" = Throw out_of_range
  /\ IsValidZmqAddress "udp://10.0.0.1:5555" = Ok false.
Proof. by vm_compute. Qed.

(** ** State *)

Record node_info := { check_period : Timeout seconds; validated : bool }.

Section Validator.
Context {Sig : Type}.
Variable sign : string -> Sig.
Variable checkSignature : string -> Sig -> bool.

(** [cluster_nodes_] maps to pointers. *)
Record Validator := mkValidator {
  has_security_ : bool;
  validator_address_ : string;
  signature_ : option Sig;
  last_delete_ : Timeout minutes;
  cluster_nodes_ : gmap string (option node_info);
}.

Definition set_last_delete t v :=
  mkValidator (has_security_ v) (validator_address_ v) (signature_ v) t (cluster_nodes_ v).
Definition set_nodes m v :=
  mkValidator (has_security_ v) (validator_address_ v) (signature_ v) (last_delete_ v) m.

Inductive VOut :=
| Watch (node : string)
| Unwatch (node : string)
| Connect (node : string)
| Ask (node : string)
| Disconnect (node : string)
| Identified (identity address : string) (s : option Sig).

Definition new_Validator (now junk : Z) (has_security : bool) : Validator :=
  mkValidator has_security "" None (Timeout_default now junk) ∅.

Definition InitNoSecurity (HasSecurity : bool) : bool := negb HasSecurity.

(** [endpoint] is the address the router socket is bound to. *)
Definition InitWithSecurity (HasSecurity : bool) (now : Z) (endpoint : string) (v : Validator)
    : bool * Validator :=
  if negb HasSecurity then (false, v)
  else (true, mkValidator (has_security_ v) endpoint (Some (sign endpoint))
                (new_timeout now 1) (cluster_nodes_ v)).

Definition CreateNode (draw : Z) : node_info :=
  {| check_period := Timeout_random draw 0; validated := false |}.

Definition node_at (a : string) (v : Validator) : option node_info :=
  mjoin (cluster_nodes_ v !! a).

Definition IsUptodate (node_address : string) (v : Validator) : bool :=
  bool_decide (is_Some (node_at node_address v)).

Definition put_node (a : string) (n : node_info) (v : Validator) : Validator :=
  set_nodes (<[a := Some n]> (cluster_nodes_ v)) v.

Definition Validate (now : Z) (a : string) (v : Validator) : Res (Validator * list VOut) :=
  node ← deref (node_at a v);
  if IsTimeout now (check_period node) then
    Ok (put_node a {| check_period := Reset now (check_period node); validated := false |} v,
        [Connect a; Ask a])
  else Ok (v, []).

(** The loop of [DeleteOldNodes], over the nodes in their order. *)
Fixpoint old_nodes (now : Z) (l : list (string * option node_info)) : Res (list string) :=
  match l with
  | [] => Ok []
  | (a, p) :: l' =>
      n ← deref p;
      rest ← old_nodes now l';
      Ok (if IsTimeout now (check_period n) then a :: rest else rest)
  end.

Definition DeleteOldNodes (now : Z) (v : Validator) : Res (Validator * list VOut) :=
  old ← (if IsTimeout now (last_delete_ v) then old_nodes now (smap_to_list (cluster_nodes_ v))
         else Ok []);
  Ok (set_last_delete (Reset now (last_delete_ v))
        (set_nodes (foldl (fun m a => delete a m) (cluster_nodes_ v) old) v),
      map Unwatch old).

(** [draw] is the random period of a new node. *)
Definition IsValid (clk : nat -> Z) (draw : Z) (a : string) (v : Validator)
    : Res (bool * Validator * list VOut) :=
  if negb (has_security_ v) then Ok (true, v, [])
  else
    valid ← IsValidZmqAddress a;
    if negb valid then Ok (false, v, [])
    else
      '(v, o1) ← DeleteOldNodes (clk 0%nat) v;
      let '(v, o2) :=
        if IsUptodate a v then (v, []) else (put_node a (CreateNode draw) v, [Watch a]) in
      current_node ← deref (node_at a v);
      '(v, o3) ← (if negb (validated current_node) || IsTimeout (clk 1%nat) (check_period current_node)
                  then Validate (clk 2%nat) a v else Ok (v, []));
      node ← deref (node_at a v);
      Ok (validated node, v, o1 ++ o2 ++ o3).

(** What [zpoller_wait] returned within [ReplyAll]: nothing, a request on the
    validator's own socket, or an answer on a request socket ([None] is a
    receive that failed). *)
Inductive VEvent :=
| VIdle
| OnValidator (msg : option (list string))
| OnRequest (answer : option (string * Sig)).

Definition ReplyAll (ev : VEvent) (v : Validator) : Res (Validator * list VOut) :=
  if negb (has_security_ v) then Ok (v, [])
  else match ev with
       | VIdle => Ok (v, [])
       | OnValidator None => Ok (v, [])
       | OnValidator (Some []) => Ok (v, [])
       | OnValidator (Some [_]) => UB
       | OnValidator (Some (identity :: command :: _)) =>
           if bool_decide (command = IDENTIFY_MESSAGE)
           then Ok (v, [Identified identity (validator_address_ v) (signature_ v)])
           else Ok (v, [])
       | OnRequest None => Ok (v, [])
       | OnRequest (Some (ip_str, s)) =>
           if bool_decide (is_Some (cluster_nodes_ v !! ip_str)) then
             if checkSignature ip_str s then
               node ← deref (node_at ip_str v);
               Ok (put_node ip_str {| check_period := check_period node; validated := true |} v,
                   [Disconnect ip_str])
             else Ok (v, [])
           else Ok (v, [])
       end.

(** The life of a validator: the calls of the discovery service. *)
Inductive VOp :=
| AskValid (clk : nat -> Z) (draw : Z) (a : string)
| Replies (ev : VEvent).

Definition vstep (op : VOp) (v : Validator) : Res (Validator * list VOut) :=
  match op with
  | AskValid clk draw a => '(_, v', o) ← IsValid clk draw a v; Ok (v', o)
  | Replies ev => ReplyAll ev v
  end.

Fixpoint vrun (ops : list VOp) (v : Validator) : Res (Validator * list VOut) :=
  match ops with
  | [] => Ok (v, [])
  | op :: ops' =>
      '(v', o) ← vstep op v;
      '(v'', o') ← vrun ops' v';
      Ok (v'', o ++ o')
  end.
End Validator.
Arguments Validator : clear implicits.
Arguments VOut : clear implicits.
Arguments VEvent : clear implicits.
Arguments VOp : clear implicits.

Section ValidatorFacts.
Context {Sig : Type}.
Variable checkSignature : string -> Sig -> bool.
Implicit Type v : Validator Sig.

Abbreviation vstep := (vstep checkSignature).
Abbreviation vrun := (vrun checkSignature).

(** No node is a null pointer. *)
Definition nodes_wf v : Prop := forall a, cluster_nodes_ v !! a <> Some None.

Lemma node_at_insert a b n v :
  node_at b (put_node a n v) = if decide (a = b) then Some n else node_at b v.
Proof.
  unfold node_at. simpl. destruct (decide (a = b)) as [->|Hne].
  - by rewrite lookup_insert_eq.
  - by rewrite lookup_insert_ne.
Qed.

Lemma node_at_present a v : nodes_wf v -> is_Some (cluster_nodes_ v !! a) -> is_Some (node_at a v).
Proof.
  intros W [[n|] E]; [|by destruct (W a)]. exists n. unfold node_at. by rewrite E.
Qed.

Lemma nodes_wf_put a n v : nodes_wf v -> nodes_wf (put_node a n v).
Proof.
  intros W b. simpl. destruct (decide (a = b)) as [->|Hne];
    [by rewrite lookup_insert_eq|by rewrite lookup_insert_ne by done].
Qed.

Lemma old_nodes_elem now l old :
  old_nodes now l = Ok old ->
  forall a, a ∈ old <-> exists n, (a, Some n) ∈ l /\ IsTimeout now (check_period n) = true.
Proof.
  revert old. induction l as [|[b p] l IH]; intros old Hold a; simpl in Hold.
  { injection Hold as <-. split; [by intros ?%elem_of_nil|by intros (? & ?%elem_of_nil & _)]. }
  inv_bind Hold. apply deref_Ok in E as ->. inv_bind Hold. injection Hold as <-.
  specialize (IH _ E a). destruct (IsTimeout now (check_period x)) eqn:Et; rewrite ?elem_of_cons, IH.
  - split; [intros [->|(n & ? & ?)]; [exists x; by split; [left|]|exists n; by split; [right|]]|].
    intros (n & [[= -> ->]|?]%elem_of_cons & ?); [by left|right; by exists n].
  - split; [intros (n & ? & ?); exists n; by split; [right|]|].
    intros (n & [[= -> ->]|?]%elem_of_cons & ?); [congruence|by exists n].
Qed.

Lemma old_nodes_Ok now l :
  Forall (fun e => e.2 <> None) l -> exists old, old_nodes now l = Ok old.
Proof.
  induction 1 as [|[b [p|]] l Hp _ [old IH]]; simpl; [by eexists| |done].
  rewrite IH. simpl. by eexists.
Qed.

(** Whether the purge at [now] removes a node. *)
Definition purges now v (n : node_info) : bool :=
  IsTimeout now (last_delete_ v) && IsTimeout now (check_period n).

Lemma DeleteOldNodes_run now v v' o :
  DeleteOldNodes now v = Ok (v', o) ->
  has_security_ v' = has_security_ v
  /\ last_delete_ v' = Reset now (last_delete_ v)
  /\ (forall a, node_at a v' = (n ← node_at a v; if purges now v n then None else Some n))
  /\ (nodes_wf v -> nodes_wf v')
  /\ (forall x, x ∈ o -> exists a n, x = Unwatch a /\ node_at a v = Some n /\ purges now v n = true).
Proof.
  unfold DeleteOldNodes. intros H. inv_bind H. injection H as <- <-. rename x into old.
  assert (forall a, a ∈ old <-> exists n, node_at a v = Some n /\ purges now v n = true) as Hold.
  { intros a. unfold purges, node_at. destruct (IsTimeout now (last_delete_ v)).
    - rewrite (old_nodes_elem now _ old E a). split; intros (n & Hn & Ht); exists n; (split; [|done]).
      + apply elem_of_smap_to_list in Hn. by rewrite Hn.
      + apply elem_of_smap_to_list. destruct (cluster_nodes_ v !! a) as [[m|]|]; simpl in Hn; congruence.
    - injection E as <-. split; [by intros ?%elem_of_nil|by intros (? & _ & ?)]. }
  assert (forall a, (foldl (fun m a => delete a m) (cluster_nodes_ v) old) !! a =
            if decide (a ∈ old) then None else cluster_nodes_ v !! a) as Hl.
  { intros a. rewrite (foldl_delete_lookup (fun x => x)), map_id. done. }
  split_and!; [done..| | |].
  - intros a. unfold node_at at 1. simpl. rewrite Hl. destruct (decide (a ∈ old)) as [Hin|Hin].
    + apply Hold in Hin as (n & -> & Hp). simpl. by rewrite Hp.
    + fold (node_at a v). destruct (node_at a v) as [n|] eqn:En; simpl; [|done].
      destruct (purges now v n) eqn:Ep; [|done]. exfalso. apply Hin, Hold. by exists n.
  - intros W a. simpl. rewrite Hl. destruct (decide _); [done|apply W].
  - intros x (a & -> & Ha)%list_elem_of_fmap. apply Hold in Ha as (n & ? & ?). by exists a, n.
Qed.

Lemma DeleteOldNodes_Ok now v : nodes_wf v -> exists v' o, DeleteOldNodes now v = Ok (v', o).
Proof.
  intros W. unfold DeleteOldNodes. destruct (IsTimeout now (last_delete_ v)); [|by eexists _, _].
  destruct (old_nodes_Ok now (smap_to_list (cluster_nodes_ v))) as [old ->]; [|by eexists _, _].
  apply Forall_forall. intros [a [n|]] Hin; [done|].
  apply elem_of_smap_to_list in Hin. by destruct (W a).
Qed.

(** The record of the node during the call, whether it is asked, and the
    record afterwards. *)
Definition record_of clk draw a v : node_info :=
  match node_at a v with
  | Some n => if purges (clk 0%nat) v n then CreateNode draw else n
  | None => CreateNode draw
  end.

Definition asks (clk : nat -> Z) (n : node_info) : bool :=
  (negb (validated n) || IsTimeout (clk 1%nat) (check_period n))
  && IsTimeout (clk 2%nat) (check_period n).

Definition asked (clk : nat -> Z) (n : node_info) : node_info :=
  if asks clk n then {| check_period := Reset (clk 2%nat) (check_period n); validated := false |} else n.

Lemma Validate_run now a v n :
  node_at a v = Some n ->
  Validate now a v =
    Ok (if IsTimeout now (check_period n)
        then (put_node a {| check_period := Reset now (check_period n); validated := false |} v,
              [Connect a; Ask a])
        else (v, [])).
Proof. intros Hn. unfold Validate. rewrite Hn. simpl. by destruct (IsTimeout _ _). Qed.

Lemma IsValid_run clk draw a v :
  has_security_ v = true -> IsValidZmqAddress a = Ok true -> nodes_wf v ->
  exists v' o,
    IsValid clk draw a v = Ok (validated (asked clk (record_of clk draw a v)), v', o)
    /\ has_security_ v' = true /\ nodes_wf v'
    /\ last_delete_ v' = Reset (clk 0%nat) (last_delete_ v)
    /\ (forall b, node_at b v' =
          if decide (a = b) then Some (asked clk (record_of clk draw a v))
          else n ← node_at b v; if purges (clk 0%nat) v n then None else Some n)
    /\ (forall b, Ask b ∈ o <-> b = a /\ asks clk (record_of clk draw a v) = true)
    /\ (forall b, Unwatch b ∈ o -> exists n, node_at b v = Some n /\ purges (clk 0%nat) v n = true).
Proof.
  intros Hs Ha W. unfold IsValid. rewrite Hs, Ha. simpl.
  destruct (DeleteOldNodes_Ok (clk 0%nat) v W) as (v1 & o1 & Hd). rewrite Hd. simpl.
  destruct (DeleteOldNodes_run _ _ _ _ Hd) as (Es & El & En & Ew & Eo).
  set (r := if IsUptodate a v1 then (v1, []) else (put_node a (CreateNode draw) v1, [Watch a])).
  assert (node_at a r.1 = Some (record_of clk draw a v)) as Hr.
  { subst r. unfold IsUptodate, record_of. specialize (En a).
    destruct (node_at a v) as [n|]; simpl in En; [destruct (purges _ v n)|];
      rewrite En; simpl; rewrite ?En, ?node_at_insert, ?decide_True; done. }
  assert (nodes_wf r.1 /\ has_security_ r.1 = true /\ last_delete_ r.1 = last_delete_ v1
          /\ (forall b, a <> b -> node_at b r.1 = node_at b v1)
          /\ (forall b, Ask b ∉ r.2) /\ (forall b, Unwatch b ∉ r.2)) as (Wr & Hsr & Hlr & Hbr & Har & Hur).
  { subst r. destruct (IsUptodate a v1); simpl; rewrite ?Es.
    - split_and!; try done; [by apply Ew|intros b; apply not_elem_of_nil|intros b; apply not_elem_of_nil].
    - split_and!; try done; [apply nodes_wf_put; by apply Ew| |intros b; set_solver..].
      intros b Hne. by rewrite node_at_insert, decide_False. }
  assert (forall b, Ask b ∉ o1) as Ho1 by (intros b Hb; by apply Eo in Hb as (? & ? & ? & _)).
  assert (forall b, Unwatch b ∈ o1 -> exists n, node_at b v = Some n /\ purges (clk 0%nat) v n = true) as Hu1
    by (intros b Hb; apply Eo in Hb as (? & n & [= <-] & ?); by exists n).
  destruct r as [v2 o2]. cbn [fst snd] in *. rewrite Hr. simpl.
  set (n := record_of clk draw a v) in *. unfold asked, asks.
  assert (forall v3 o3 m,
    node_at a v3 = Some m -> nodes_wf v3 -> has_security_ v3 = true -> last_delete_ v3 = last_delete_ v2 ->
    (forall b, a <> b -> node_at b v3 = node_at b v2) -> (forall b, Unwatch b ∉ o3) ->
    exists v' o,
      (node ← deref (node_at a v3); Ok (validated node, v3, o1 ++ o2 ++ o3)) = Ok (validated m, v', o)
      /\ has_security_ v' = true /\ nodes_wf v' /\ last_delete_ v' = Reset (clk 0%nat) (last_delete_ v)
      /\ (forall b, node_at b v' = if decide (a = b) then Some m
           else n ← node_at b v; if purges (clk 0%nat) v n then None else Some n)
      /\ (forall b, Ask b ∈ o <-> Ask b ∈ o3)
      /\ (forall b, Unwatch b ∈ o -> exists n, node_at b v = Some n /\ purges (clk 0%nat) v n = true)) as Hfin.
  { intros v3 o3 m Hm W3 Hs3 Hl3 Hb3 Hu3. exists v3, (o1 ++ o2 ++ o3). rewrite Hm. split_and!; try done.
    - by rewrite Hl3, Hlr, El.
    - intros b. destruct (decide (a = b)) as [<-|Hne]; [done|]. by rewrite Hb3, Hbr, En by done.
    - intros b. rewrite !elem_of_app. split; [|by auto]. intros [Hb|[Hb|Hb]]; [by destruct (Ho1 b)|by destruct (Har b)|done].
    - intros b. rewrite !elem_of_app. intros [Hb|[Hb|Hb]]; [by apply Hu1|by destruct (Hur b)|by destruct (Hu3 b)]. }
  destruct (negb (validated n) || IsTimeout (clk 1%nat) (check_period n)) eqn:Ec; cbn [andb].
  - rewrite (Validate_run _ _ _ _ Hr). destruct (IsTimeout (clk 2%nat) (check_period n)) eqn:Et; simpl.
    + edestruct (Hfin (put_node a {| check_period := Reset (clk 2%nat) (check_period n);
        validated := false |} v2) [Connect a; Ask a]) as (v' & o & E & ? & ? & ? & ? & Hask & ?);
        [by rewrite node_at_insert, decide_True|by apply nodes_wf_put|done|done
        |intros b Hne; by rewrite node_at_insert, decide_False|intros b; set_solver|].
      exists v', o. simpl in E. split_and!; [exact E|done..| |done]. intros b. rewrite Hask. set_solver.
    + edestruct (Hfin v2 []) as (v' & o & E & ? & ? & ? & ? & Hask & ?); [done..|intros b; set_solver|].
      exists v', o. split_and!; [exact E|done..| |done]. intros b. rewrite Hask. set_solver.
  - edestruct (Hfin v2 []) as (v' & o & E & ? & ? & ? & ? & Hask & ?); [done..|intros b; set_solver|].
    exists v', o. split_and!; [exact E|done..| |done]. intros b. rewrite Hask. set_solver.
Qed.

(** Trust in a node: with security on, [IsValid] answers for every
    well-formed address; it trusts the node exactly if its signature has been
    checked and the check period is not over; the node is asked to identify
    itself when it is new or a period is over, and at most once per period. *)
Theorem IsValid_spec clk draw a v :
  has_security_ v = true -> IsValidZmqAddress a = Ok true -> nodes_wf v ->
  0 < clk 0%nat -> clk 0%nat <= clk 1%nat -> clk 1%nat <= clk 2%nat ->
  exists trusted v' o,
    IsValid clk draw a v = Ok (trusted, v', o) /\ nodes_wf v'
    /\ (trusted = true <-> exists n, node_at a v = Some n /\ validated n = true
                                   /\ clk 1%nat <= m_endPoint (check_period n))
    /\ (Ask a ∈ o <-> match node_at a v with
                      | None => True
                      | Some n => m_endPoint (check_period n) <
                                    (if validated n then clk 1%nat else clk 2%nat)
                      end)
    /\ (forall n', Ask a ∈ o -> node_at a v' = Some n' ->
          validated n' = false
          /\ m_endPoint (check_period n') = clk 2%nat + m_timeout (check_period n') * ticks seconds).
Proof.
  intros Hs Ha W H0 H1 H2.
  destruct (IsValid_run clk draw a v Hs Ha W) as (v' & o & E & _ & W' & _ & En & Eask & _).
  eexists _, v', o. split; [exact E|]. split; [done|].
  rewrite Eask, (En a), decide_True by done.
  assert (asks clk (record_of clk draw a v) = true <-> match node_at a v with
            | None => True
            | Some n => m_endPoint (check_period n) < (if validated n then clk 1%nat else clk 2%nat)
            end) as Hasks.
  { unfold asks, record_of, purges, IsTimeout.
    destruct (node_at a v) as [n|]; [|cbn -[Z.ltb]; rewrite Z.ltb_lt; split; [done|lia]].
    destruct ((m_endPoint (last_delete_ v) <? clk 0%nat) && (m_endPoint (check_period n) <? clk 0%nat))
      eqn:Ep; bool_to_prop; cbn -[Z.ltb]; [rewrite Z.ltb_lt; destruct (validated n); lia|].
    destruct (validated n); simpl; [|by rewrite Z.ltb_lt].
    rewrite andb_true_iff, !Z.ltb_lt. lia. }
  split_and!; [|rewrite Hasks; tauto|].
  - unfold asked. destruct (asks _ _) eqn:Ea.
    + simpl. split; [done|]. intros (n & Hn & Hv & Hle). rewrite Hn in Hasks.
      destruct Hasks as [Hasks _]. specialize (Hasks eq_refl). rewrite Hv in Hasks. lia.
    + assert (~ false = true) as Hno by done. rewrite Hasks in Hno.
      unfold record_of, purges, IsTimeout. destruct (node_at a v) as [n|]; [|by destruct Hno].
      assert ((m_endPoint (check_period n) <? clk 0%nat) = false) as Ht0
        by (apply Z.ltb_ge; destruct (validated n); lia).
      rewrite Ht0, andb_false_r. split.
      * intros Hv. exists n. rewrite Hv in Hno. split_and!; [done..|lia].
      * by intros (n' & [= <-] & ? & _).
  - intros n' [_ Ht]%Eask. intros [= <-]. unfold asked. rewrite Ht. by simpl.
Qed.

(** A node on record that has been checked. *)
Definition trusts a v : Prop := exists n, node_at a v = Some n /\ validated n = true.

(** The calls that leave the nodes alone. *)
Definition asks_valid v (a : string) : bool :=
  has_security_ v && match IsValidZmqAddress a with Ok b => b | _ => false end.

Lemma IsValid_other clk draw a v r v' o :
  asks_valid v a = false -> IsValid clk draw a v = Ok (r, v', o) -> v' = v /\ o = [].
Proof.
  unfold asks_valid, IsValid. destruct (has_security_ v); simpl; [|by intros _ [= _ <- <-]].
  destruct (IsValidZmqAddress a) as [[]| |]; simpl; [done|by intros _ [= _ <- <-]|done..].
Qed.

Lemma asks_valid_true v a :
  asks_valid v a = true -> has_security_ v = true /\ IsValidZmqAddress a = Ok true.
Proof.
  unfold asks_valid. intros [Hs Ha]%andb_true_iff. split; [done|].
  by destruct (IsValidZmqAddress a) as [[]| |].
Qed.

Lemma ReplyAll_run ev v v' o :
  ReplyAll checkSignature ev v = Ok (v', o) ->
  v' = v /\ (forall a, Ask a ∉ o /\ Unwatch a ∉ o)
  \/ exists ip s n, ev = OnRequest (Some (ip, s)) /\ checkSignature ip s = true
       /\ node_at ip v = Some n /\ o = [Disconnect ip]
       /\ v' = put_node ip {| check_period := check_period n; validated := true |} v.
Proof.
  unfold ReplyAll. intros H.
  assert (forall x : VOut Sig, (forall a, x <> Ask a /\ x <> Unwatch a) ->
    forall a, Ask a ∉ [x] /\ Unwatch a ∉ [x]) as H1.
  { intros x Hx a. destruct (Hx a). split; by intros ?%list_elem_of_singleton. }
  repeat (match type of H with
          | (if ?b then _ else _) = _ => destruct b eqn:?
          | (match ?b with _ => _ end) = _ => destruct b eqn:?
          end; try done);
    try (injection H as <- <-; left; split; [done|];
         first [apply H1; intros a; by split | intros a; split; apply not_elem_of_nil]).
  inv_bind H. injection H as <- <-. apply deref_Ok in E. right. subst. eexists _, _, _. by split_and!.
Qed.

Lemma vstep_trusts op v v' o a :
  nodes_wf v -> vstep op v = Ok (v', o) -> trusts a v' ->
  trusts a v /\ Ask a ∉ o
  \/ exists s, op = Replies (OnRequest (Some (a, s))) /\ checkSignature a s = true.
Proof.
  intros W Hstep Ht. destruct op as [clk draw b|ev]; simpl in Hstep.
  - left. inv_bind Hstep. destruct x as [[r v1] o1]. injection Hstep as <- <-.
    destruct (asks_valid v b) eqn:Hb;
      [|destruct (IsValid_other _ _ _ _ _ _ _ Hb E) as [-> ->]; split; [done|apply not_elem_of_nil]].
    apply asks_valid_true in Hb as [Hs Hb].
    destruct (IsValid_run clk draw b v Hs Hb W) as (v2 & o2 & E2 & _ & _ & _ & En & Eask & _).
    rewrite E2 in E. injection E as _ <- <-. destruct Ht as (n & Hn & Hv). rewrite En in Hn. rewrite Eask.
    unfold trusts. destruct (decide (b = a)) as [->|Hne].
    + injection Hn as <-. unfold asked in Hv. unfold record_of in *.
      destruct (asks _ _) eqn:Ea; [done|]. split; [|by intros [_ ?]].
      destruct (node_at a v) as [m|]; [|done]. destruct (purges _ _ _); [done|]. by exists m.
    + split; [|by intros [-> _]]. destruct (node_at a v) as [m|] eqn:Em; [|done]. simpl in Hn.
      destruct (purges _ _ _); [done|]. injection Hn as ->. by exists n.
  - destruct (ReplyAll_run ev v v' o Hstep) as [[-> Ho]|(ip & s & n & -> & Hs & Hn & -> & ->)].
    + left. split; [done|apply Ho].
    + destruct (decide (ip = a)) as [->|Hne]; [right; by exists s|left].
      destruct Ht as (m & Hm & Hv). rewrite node_at_insert, decide_False in Hm by done.
      split; [by exists m|set_solver].
Qed.

Lemma vstep_wf op v v' o : nodes_wf v -> vstep op v = Ok (v', o) -> nodes_wf v'.
Proof.
  intros W Hstep. destruct op as [clk draw b|ev]; simpl in Hstep.
  - inv_bind Hstep. destruct x as [[r v1] o1]. injection Hstep as <- <-.
    destruct (asks_valid v b) eqn:Hb; [|by destruct (IsValid_other _ _ _ _ _ _ _ Hb E) as [-> _]].
    apply asks_valid_true in Hb as [Hs Hb].
    destruct (IsValid_run clk draw b v Hs Hb W) as (v2 & o2 & E2 & _ & W2 & _).
    rewrite E2 in E. by injection E as _ <- _.
  - destruct (ReplyAll_run ev v v' o Hstep) as [[-> _]|(ip & s & n & _ & _ & _ & _ & ->)]; [done|].
    by apply nodes_wf_put.
Qed.

Lemma vrun_snoc ops op v :
  vrun (ops ++ [op]) v =
    ('(v1, o1) ← vrun ops v; '(v2, o2) ← vstep op v1; Ok (v2, o1 ++ o2)).
Proof.
  revert v. induction ops as [|op' ops IH]; intros v; simpl.
  - destruct (Validator.vstep _ op v) as [[v1 o1]| |]; simpl; try done. by rewrite app_nil_r.
  - destruct (Validator.vstep _ op' v) as [[v1 o1]| |]; simpl; try done. rewrite IH.
    destruct (Validator.vrun _ ops v1) as [[v2 o2]| |]; simpl; try done.
    destruct (Validator.vstep _ op v2) as [[v3 o3]| |]; simpl; try done. by rewrite app_assoc.
Qed.

Lemma vrun_wf ops v v' o : nodes_wf v -> vrun ops v = Ok (v', o) -> nodes_wf v'.
Proof.
  revert v' o. induction ops as [|op ops IH] using rev_ind; intros v' o W H.
  { by injection H as <- <-. }
  rewrite vrun_snoc in H. inv_bind H. destruct x as [v1 o1]. inv_bind H. destruct x as [v2 o2].
  injection H as <- <-. eapply vstep_wf; [|done]. by eapply IH.
Qed.

(** C10. Only the holders of the cluster's key are trusted: when a validator
    that started without nodes trusts a node, an answer with a correct
    signature of the node's own address has arrived, and the node has not
    been asked again since then. *)
Theorem trusted_signed ops v0 v out a :
  cluster_nodes_ v0 = ∅ -> vrun ops v0 = Ok (v, out) -> trusts a v ->
  exists ops1 s ops2 v1 out1 v2 out2,
    ops = ops1 ++ Replies (OnRequest (Some (a, s))) :: ops2
    /\ checkSignature a s = true
    /\ vrun (ops1 ++ [Replies (OnRequest (Some (a, s)))]) v0 = Ok (v1, out1)
    /\ vrun ops2 v1 = Ok (v2, out2) /\ v2 = v /\ Ask a ∉ out2.
Proof.
  intros H0. assert (nodes_wf v0) as W0 by (intros b; by rewrite H0, lookup_empty).
  revert v out. induction ops as [|op ops IH] using rev_ind; intros v out Hrun Ht.
  { injection Hrun as <- <-. destruct Ht as (n & Hn & _). unfold node_at in Hn.
    by rewrite H0, lookup_empty in Hn. }
  assert (Hrun' := Hrun). rewrite vrun_snoc in Hrun.
  inv_bind Hrun. destruct x as [w o1]. inv_bind Hrun. destruct x as [w2 o2]. injection Hrun as <- <-.
  destruct (vstep_trusts op w w2 o2 a) as [[Hw Hask]|(s & -> & Hs)]; [by eapply vrun_wf|done|done|..].
  - destruct (IH w o1 E Hw) as (ops1 & s & ops2 & v1 & out1 & v2 & out2 & -> & Hs & R1 & R2 & -> & Ha).
    exists ops1, s, (ops2 ++ [op]), v1, out1, w2, (out2 ++ o2). split_and!; [by rewrite <- app_assoc|done..| |done|].
    + rewrite vrun_snoc, R2. simpl. rewrite E0. done.
    + by intros [?|?]%elem_of_app.
  - exists ops, s, [], w2, (o1 ++ o2), w2, []. split_and!; try done. apply not_elem_of_nil.
Qed.

(** The calls of [IsValid] follow each other within a minute. *)
Fixpoint paced (last : Z) (ops : list (VOp Sig)) : Prop :=
  match ops with
  | [] => True
  | AskValid clk _ a :: ops' =>
      match IsValidZmqAddress a with
      | Ok true => clk 0%nat <= last + ticks minutes /\ paced (clk 0%nat) ops'
      | _ => paced last ops'
      end
  | Replies _ :: ops' => paced last ops'
  end.

(** The purge of old nodes: every valid beacon postpones it by a minute,
    so as long as beacons keep coming, no node is ever removed. *)
Theorem beacons_postpone_purge ops v v' out last :
  has_security_ v = true -> nodes_wf v ->
  last_delete_ v = Reset last (new_timeout last 1) -> paced last ops ->
  vrun ops v = Ok (v', out) ->
  (forall a, Unwatch a ∉ out)
  /\ (forall a, is_Some (node_at a v) -> is_Some (node_at a v')).
Proof.
  revert v out last. induction ops as [|op ops IH]; intros v out last Hs W Hl Hp Hrun.
  { injection Hrun as <- <-. split; [intros a; apply not_elem_of_nil|done]. }
  simpl in Hrun. inv_bind Hrun. destruct x as [v1 o1]. inv_bind Hrun. destruct x as [v2 o2].
  injection Hrun as -> <-. pose proof (vstep_wf _ _ _ _ W E) as W1.
  enough (exists last', has_security_ v1 = true /\ last_delete_ v1 = Reset last' (new_timeout last' 1)
    /\ paced last' ops /\ (forall a, Unwatch a ∉ o1)
    /\ (forall a, is_Some (node_at a v) -> is_Some (node_at a v1))) as (last' & Hs1 & Hl1 & Hp1 & Hu & Hn).
  { destruct (IH v1 o2 last' Hs1 W1 Hl1 Hp1 E0) as [Hu2 Hn2].
    split; [intros a [?|?]%elem_of_app; [by destruct (Hu a)|by destruct (Hu2 a)]|auto]. }
  clear IH E0. destruct op as [clk draw b|ev]; simpl in E, Hp.
  - inv_bind E. destruct x as [[r w] o]. injection E as <- <-.
    destruct (asks_valid v b) eqn:Hb.
    + apply asks_valid_true in Hb as [_ Hb]. rewrite Hb in Hp. destruct Hp as [Hle Hp].
      destruct (IsValid_run clk draw b v Hs Hb W) as (w' & o' & E' & Hs' & _ & Hl' & Hn' & _ & Hu').
      rewrite E' in E0. injection E0 as _ <- <-.
      assert (forall n, purges (clk 0%nat) v n = false) as Hno.
      { intros n. unfold purges. rewrite Hl. apply andb_false_iff. left.
        apply IsTimeout_false. change (m_endPoint _) with (last + 1 * ticks minutes). unfold ticks. lia. }
      exists (clk 0%nat). split_and!; [done|by rewrite Hl', Hl|done| |].
      * intros a Ha. apply Hu' in Ha as (n & _ & Ha). by rewrite Hno in Ha.
      * intros a [n Hna]. rewrite Hn', Hna. simpl. rewrite Hno. by destruct (decide _).
    + destruct (IsValid_other _ _ _ _ _ _ _ Hb E0) as [-> ->]. exists last.
      unfold asks_valid in Hb. rewrite Hs in Hb. simpl in Hb.
      split_and!; [done..| |intros a; apply not_elem_of_nil|done].
      by destruct (IsValidZmqAddress b) as [[]| |].
  - exists last. destruct (ReplyAll_run ev v v1 o1 E) as [[-> Ho]|(ip & s & n & _ & _ & _ & -> & ->)].
    + split_and!; [done..| |done]. intros a. apply Ho.
    + split_and!; [done..|intros a; set_solver|]. intros a Ha. rewrite node_at_insert. by destruct (decide _).
Qed.
End ValidatorFacts.

(** ** Witnesses *)

Definition demo_check (a s : string) : bool := bool_decide (s = "sig:" +:+ a).

Definition demo_validator : Validator string :=
  mkValidator true "tcp://10.0.0.9:4000" (Some "s") (new_timeout 1 1) ∅.

Definition demo_node : string := "tcp://10.0.0.1:5555".

Definition demo_ops : list (VOp string) :=
  [AskValid (fun _ => 2) 50 demo_node; Replies (OnRequest (Some (demo_node, "sig:" +:+ demo_node)));
   AskValid (fun _ => 3) 50 demo_node].

Lemma IsValid_spec_witness :
  exists trusted v' o, IsValid (fun _ => 2) 50 demo_node demo_validator = Ok (trusted, v', o)
    /\ nodes_wf v' /\ trusted = false /\ Ask demo_node ∈ o.
Proof.
  destruct (IsValid_spec demo_check (fun _ => 2) 50 demo_node demo_validator) as (t & v' & o & E & W & Ht & Ha & _);
    [reflexivity|reflexivity|intros a; vm_compute; discriminate|lia|lia|lia|].
  exists t, v', o. split_and!; [exact E|exact W| |by apply Ha].
  vm_compute in E. by injection E as <- _ _.
Defined.

Lemma trusted_signed_witness :
  exists v out, vrun demo_check demo_ops demo_validator = Ok (v, out) /\ trusts demo_node v
    /\ exists ops1 s ops2, demo_ops = ops1 ++ Replies (OnRequest (Some (demo_node, s))) :: ops2
        /\ demo_check demo_node s = true.
Proof.
  destruct (vrun demo_check demo_ops demo_validator) as [[v out]| |] eqn:E; [|by vm_compute in E..].
  exists v, out. assert (trusts demo_node v) as Ht.
  { vm_compute in E. injection E as <- _. eexists. split; reflexivity. }
  split_and!; [done|done|].
  destruct (trusted_signed demo_check demo_ops demo_validator v out demo_node)
    as (ops1 & s & ops2 & ? & ? & ? & ? & H1 & H2 & _); [reflexivity|done..|].
  by exists ops1, s, ops2.
Defined.

Lemma beacons_postpone_purge_witness :
  exists v out, vrun demo_check demo_ops demo_validator = Ok (v, out)
    /\ (forall a, Unwatch a ∉ out).
Proof.
  destruct (vrun demo_check demo_ops demo_validator) as [[v out]| |] eqn:E; [|by vm_compute in E..].
  exists v, out. split; [done|].
  apply (beacons_postpone_purge demo_check demo_ops demo_validator v out 1);
    [reflexivity|intros a; vm_compute; discriminate|reflexivity| |done].
  vm_compute. by split_and!.
Defined.
