(* ===== verification/DhtTracker.v ===== *)
(** DhtTracker.v - the thread that decides whether the DHT is stable
    ([src/discoveryd/r_dhttracker.cc]) and the client that asks it
    ([DiscoveryMessageHandler::WaitForDht] of [src/discoveryd/r_msghandler.cc]).

    The answers of OpenDHT are the argument [found]: whether a search for a
    node's address returns a value.  The messages a search sends to the
    tracker's own channel are effects; they come back as events. *)

From Stdlib Require Import ZArith Lia.
From stdpp Require Import base gmap strings list fin_maps.
From S2P Require Import Prelude.
From S2P Require Import Timeout.
From S2P Require Import Utils.

#[local] Open Scope riaps_scope.

Definition CMD_BEACON_IP : string := "CMD_BEACON_IP".
Definition CMD_DHT_IP : string := "CMD_DHT_IP".
Definition CMD_QUERY_STABLE : string := "CMD_QUERY_STABLE".

(** The nodes heard of: whether the DHT knows them, and their time out. *)
Abbreviation NodeList := (gmap string (bool * Timeout minutes)).

Record Tracker := mkTracker {
  node_list : NodeList;
  isStable : bool;
  terminated : bool;
  publish_ip_to : Timeout minutes;
  last_refresh : Timeout seconds;
}.

Definition set_node_list v s :=
  mkTracker v (isStable s) (terminated s) (publish_ip_to s) (last_refresh s).
Definition set_isStable v s :=
  mkTracker (node_list s) v (terminated s) (publish_ip_to s) (last_refresh s).
Definition set_tracker_terminated v s :=
  mkTracker (node_list s) (isStable s) v (publish_ip_to s) (last_refresh s).
Definition set_publish_ip_to v s :=
  mkTracker (node_list s) (isStable s) (terminated s) v (last_refresh s).
Definition set_last_refresh v s :=
  mkTracker (node_list s) (isStable s) (terminated s) (publish_ip_to s) v.

Inductive TrackerOut :=
| PublishSelf
| SearchNode (ip : string)
| PushDhtIp (ip : string)
| StableReply (frm : string) (stable : bool).

Definition is_stable_node (e : string * (bool * Timeout minutes)) : Prop := e.2.1 = true.
#[export] Instance is_stable_node_dec e : Decision (is_stable_node e).
Proof. unfold is_stable_node. apply _. Defined.

(** [check_state]: the nodes are visited in the order of the hash table, for
    which [map_to_list] stands. *)
Definition check_state (found : string -> bool) (l : NodeList) : bool * list TrackerOut :=
  let stableCount := length (filter is_stable_node (map_to_list l)) in
  let unstable := filter (fun e => ~ is_stable_node e) (map_to_list l) in
  if ((length unstable =? 0) && (0 <? stableCount))%nat then (true, [])
  else
    let waitList := map fst unstable in
    (false, map SearchNode waitList ++ map PushDhtIp (List.filter found waitList)).

Definition TCmd : Type := Cmd Tracker TrackerOut.

Definition recheck (found : string -> bool) : TCmd := fun s =>
  let '(stable, out) := check_state found (node_list s) in (set_isStable stable s, out).

Definition republish (now : Z) : TCmd :=
  emit PublishSelf ;; modify (fun s => set_publish_ip_to (Reset now (publish_ip_to s)) s).

(** The state before the first round. *)
Definition Tracker_start (now : Z) : Tracker * list TrackerOut :=
  republish now (mkTracker ∅ false false (new_timeout now 10) (new_timeout now 30)).

(** What [zpoller_wait] returned: nothing, a command on the pipe ([None] is a
    message without a frame) or a message of three frames. *)
Inductive TEvent :=
| TIdle
| TPipe (command : option string)
| TMsg (frm command param : string).

Definition on_message (found : string -> bool) (now : Z) (frm command sparam : string) : TCmd :=
  read (fun s =>
  if bool_decide (command = CMD_BEACON_IP) then
    when (bool_decide (node_list s !! sparam = None))
      (modify (fun s => set_node_list (<[sparam := (false, new_timeout now 10)]> (node_list s)) s) ;;
       recheck found)
  else if bool_decide (command = CMD_DHT_IP) then
    match node_list s !! sparam with
    | Some (false, t) =>
        modify (fun s => set_node_list (<[sparam := (true, t)]> (node_list s)) s) ;; recheck found
    | _ => skip
    end
  else if bool_decide (command = CMD_QUERY_STABLE) then emit (StableReply frm (isStable s))
  else skip).

Definition fresh_node (now : Z) (e : string * (bool * Timeout minutes)) : Prop :=
  IsTimeout now e.2.2 = false.
#[export] Instance fresh_node_dec now e : Decision (fresh_node now e).
Proof. unfold fresh_node. apply _. Defined.

(** The refresh, every 30 seconds. *)
Definition refresh (found : string -> bool) (now : Z) : TCmd :=
  read (fun s => when (IsTimeout now (last_refresh s))
    (modify (fun s => set_last_refresh (Reset now (last_refresh s)) s) ;;
     modify (fun s => set_node_list (filter (fresh_node now) (node_list s)) s) ;;
     read (fun s => when (IsTimeout now (publish_ip_to s)) (republish now)) ;;
     read (fun s => when (negb (isStable s)) (recheck found)))).

(** One round of the loop of [dht_tracker]; [t1] and [t2] are the clock when
    the message and when the refresh is handled. *)
Definition TrackerStep (found : string -> bool) (t1 t2 : Z) (ev : TEvent) (s : Tracker)
    : Res (Tracker * list TrackerOut) :=
  match ev with
  | TIdle => Ok (refresh found t2 s)
  | TPipe None => UB
  | TPipe (Some command) =>
      Ok ((when (bool_decide (command = "$TERM")) (modify (set_tracker_terminated true)) ;;
           refresh found t2) s)
  | TMsg frm command param => Ok ((on_message found t1 frm command param ;; refresh found t2) s)
  end.

Record TRound := { r_found : string -> bool; r_t1 : Z; r_t2 : Z; r_ev : TEvent }.

(** The loop, until it is told to stop. *)
Fixpoint TrackerRun (rounds : list TRound) (s : Tracker) : Res (Tracker * list TrackerOut) :=
  match rounds with
  | [] => Ok (s, [])
  | r :: rounds' =>
      if terminated s then Ok (s, [])
      else
        '(s1, o1) ← TrackerStep (r_found r) (r_t1 r) (r_t2 r) (r_ev r) s;
        '(s2, o2) ← TrackerRun rounds' s1;
        Ok (s2, o1 ++ o2)
  end.

(** [WaitForDht]: the number of queries sent and the result, [answer i] being
    the reply to query [i]; the clock is let run 500 ms after a refusal. *)
Fixpoint wait_go (answer : nat -> bool) (retry : nat) (i : nat) (result : bool) : nat * bool :=
  match retry with
  | O => (i, result)
  | S retry' => if result then (i, result) else wait_go answer retry' (S i) (answer i)
  end.

Definition WaitForDht (answer : nat -> bool) : nat * bool := wait_go answer 10 0 false.

(** ** Facts *)

(** The nodes are known to the DHT, and there are some. *)
Definition all_known (l : NodeList) : Prop :=
  forall ip b t, l !! ip = Some (b, t) -> b = true.

Lemma check_state_true found l : (check_state found l).1 = true <-> l <> ∅ /\ all_known l.
Proof.
  unfold check_state. destruct (_ && _)%nat eqn:E; simpl.
  - apply andb_true_iff in E as [E1%Nat.eqb_eq E2%Nat.ltb_lt]. split; [|done]. intros _. split.
    + intros ->. rewrite map_to_list_empty in E2. simpl in E2. lia.
    + intros ip b t Hin%elem_of_map_to_list. destruct b; [done|]. exfalso.
      apply length_zero_iff_nil in E1. apply (elem_of_nil (ip, (false, t))). rewrite <- E1.
      apply list_elem_of_filter. by split.
  - split; [done|]. intros [Hne Hall]. exfalso. apply andb_false_iff in E as [E%Nat.eqb_neq|E%Nat.ltb_ge].
    + apply E, length_zero_iff_nil, elem_of_nil_inv. intros [ip [b t]] [Hb Hin%elem_of_map_to_list]%list_elem_of_filter.
      apply Hb. by eapply Hall.
    + apply map_choose in Hne as (ip & [b t] & Hip).
      assert ((ip, (b, t)) ∈ filter is_stable_node (map_to_list l)) as Hin.
      { apply list_elem_of_filter. split; [by eapply Hall|by apply elem_of_map_to_list]. }
      destruct (filter _ _); [by apply elem_of_nil in Hin|simpl in E; lia].
Qed.

(** The answer of the tracker agrees with its nodes, except that the answer
    "stable" outlives the nodes. *)
Definition tracker_wf (s : Tracker) : Prop :=
  (isStable s = true -> all_known (node_list s))
  /\ (node_list s <> ∅ -> all_known (node_list s) -> isStable s = true).

Lemma recheck_wf found s : tracker_wf (recheck found s).1.
Proof.
  unfold recheck. pose proof (check_state_true found (node_list s)) as H.
  destruct (check_state found (node_list s)) as [b out]. simpl in *. split; simpl; [intros Hb; by apply H|].
  intros. by apply H.
Qed.

Lemma recheck_run found s :
  recheck found s = (set_isStable (check_state found (node_list s)).1 s, (check_state found (node_list s)).2).
Proof. unfold recheck. by destruct (check_state _ _). Qed.

(** The state after the refresh. *)
Definition refreshed (found : string -> bool) (now : Z) (s : Tracker) : Tracker :=
  if IsTimeout now (last_refresh s) then
    let kept := filter (fresh_node now) (node_list s) in
    mkTracker kept (isStable s || (check_state found kept).1) (terminated s)
      (if IsTimeout now (publish_ip_to s) then Reset now (publish_ip_to s) else publish_ip_to s)
      (Reset now (last_refresh s))
  else s.

Lemma refresh_state found now s : (refresh found now s).1 = refreshed found now s.
Proof.
  unfold refresh, refreshed, read. destruct (IsTimeout now (last_refresh s)); [|done].
  unfold seq, modify, when. simpl. destruct (IsTimeout now (publish_ip_to s)); simpl;
    destruct (isStable s) eqn:Es; simpl; rewrite ?recheck_run;
    unfold set_isStable, set_publish_ip_to, set_node_list, set_last_refresh; simpl; by rewrite ?Es.
Qed.

Lemma all_known_filter P `{forall e, Decision (P e)} l : all_known l -> all_known (filter P l).
Proof. intros H1 ip b t [Hl _]%map_lookup_filter_Some. by eapply H1. Qed.

Lemma refreshed_wf found now s : tracker_wf s -> tracker_wf (refreshed found now s).
Proof.
  intros [W1 W2]. unfold refreshed. destruct (IsTimeout now (last_refresh s)); [|done].
  split; simpl; destruct (isStable s) eqn:E; simpl.
  - intros _. by apply all_known_filter, W1.
  - intros H%check_state_true. apply H.
  - done.
  - intros. by apply check_state_true.
Qed.

(** The state after a message. *)
Definition noted (now : Z) (command ip : string) (l : NodeList) : option NodeList :=
  if bool_decide (command = CMD_BEACON_IP) then
    match l !! ip with None => Some (<[ip := (false, new_timeout now 10)]> l) | Some _ => None end
  else if bool_decide (command = CMD_DHT_IP) then
    match l !! ip with Some (false, t) => Some (<[ip := (true, t)]> l) | _ => None end
  else None.

Lemma on_message_state found now frm command ip s :
  (on_message found now frm command ip s).1 =
    match noted now command ip (node_list s) with
    | Some l => set_isStable (check_state found l).1 (set_node_list l s)
    | None => s
    end.
Proof.
  unfold on_message, noted, read. case_bool_decide as H1.
  - destruct (node_list s !! ip) as [x|] eqn:E; [by rewrite bool_decide_eq_false_2|].
    rewrite bool_decide_eq_true_2 by done. simpl. unfold seq, modify. simpl. by rewrite recheck_run.
  - case_bool_decide as H2; [|by case_bool_decide].
    destruct (node_list s !! ip) as [[[] t]|] eqn:E; [done| |done].
    unfold seq, modify. simpl. by rewrite recheck_run.
Qed.

Lemma on_message_wf found now frm command ip s :
  tracker_wf s -> tracker_wf (on_message found now frm command ip s).1.
Proof.
  intros W. rewrite on_message_state. destruct (noted _ _ _ _) as [l|]; [|done].
  pose proof (check_state_true found l) as H. split; simpl; [intros Hb; by apply H|intros; by apply H].
Qed.

Lemma TrackerStep_wf found t1 t2 ev s s' out :
  tracker_wf s -> TrackerStep found t1 t2 ev s = Ok (s', out) -> tracker_wf s'.
Proof.
  intros W. destruct ev as [|[command|]|frm command ip]; simpl; [..|done|].
  - intros [= H]. apply (f_equal fst) in H. rewrite refresh_state in H. simpl in H. subst s'. by apply refreshed_wf.
  - intros [= <- _]. rewrite refresh_state. apply refreshed_wf. by case_bool_decide.
  - intros [= <- _]. rewrite refresh_state. by apply refreshed_wf, on_message_wf.
Qed.

Lemma TrackerRun_wf rounds s s' out :
  tracker_wf s -> TrackerRun rounds s = Ok (s', out) -> tracker_wf s'.
Proof.
  revert s s' out. induction rounds as [|r rounds IH]; intros s s' out W; simpl; [by intros [= <- _]|].
  destruct (terminated s); [by intros [= <- _]|]. intros H. inv_bind H. destruct x as [s1 o1].
  inv_bind H. destruct x as [s2 o2]. injection H as <- _. eapply IH; [|done]. by eapply TrackerStep_wf.
Qed.

(** Where the entries of the table come from. *)
Definition heard (command ip : string) (rounds : list TRound) : Prop :=
  exists r frm, r ∈ rounds /\ r_ev r = TMsg frm command ip.

Lemma refreshed_nodes found now s ip b t :
  node_list (refreshed found now s) !! ip = Some (b, t) -> node_list s !! ip = Some (b, t).
Proof.
  unfold refreshed. destruct (IsTimeout _ _); [|done]. simpl. by intros [? _]%map_lookup_filter_Some.
Qed.

Lemma noted_nodes now command ip l l' ip' b t :
  noted now command ip l = Some l' -> l' !! ip' = Some (b, t) ->
  (exists b', l !! ip' = Some (b', t) /\ (b = true -> b' = true \/ (command = CMD_DHT_IP /\ ip = ip')))
  \/ (command = CMD_BEACON_IP /\ ip = ip' /\ b = false).
Proof.
  unfold noted. case_bool_decide as H1; [|case_bool_decide as H2; [|done]].
  - destruct (l !! ip) eqn:E; [done|]. intros [= <-] [[<- [= <- _]]|[_ H]]%lookup_insert_Some; [by right|].
    left. exists b. split; [done|by left].
  - destruct (l !! ip) as [[[] t0]|] eqn:E; [done| |done].
    intros [= <-] [[<- [= <- <-]]|[_ H]]%lookup_insert_Some; left; [exists false|exists b]; split; auto.
Qed.

Lemma TrackerStep_nodes found t1 t2 ev s s' out ip b t :
  TrackerStep found t1 t2 ev s = Ok (s', out) -> node_list s' !! ip = Some (b, t) ->
  (exists b', node_list s !! ip = Some (b', t)
      /\ (b = true -> b' = true \/ exists frm, ev = TMsg frm CMD_DHT_IP ip))
  \/ (exists frm, ev = TMsg frm CMD_BEACON_IP ip) /\ b = false.
Proof.
  intros Hstep Hn. destruct ev as [|[command|]|frm command ip']; simpl in Hstep; [..|done|].
  - injection Hstep as Hs. apply (f_equal fst) in Hs. rewrite refresh_state in Hs. simpl in Hs. subst s'. apply refreshed_nodes in Hn.
    left. exists b. split; [done|by left].
  - injection Hstep as <- _. rewrite refresh_state in Hn. apply refreshed_nodes in Hn.
    left. exists b. split; [by case_bool_decide|by left].
  - injection Hstep as <- _. rewrite refresh_state, on_message_state in Hn. apply refreshed_nodes in Hn.
    destruct (noted _ _ _ _) as [l|] eqn:E; [|left; exists b; split; [done|by left]].
    simpl in Hn. destruct (noted_nodes _ _ _ _ _ _ _ _ E Hn) as [(b' & Hb & Himp)|(-> & -> & ->)].
    + left. exists b'. split; [done|]. intros Hb'. destruct (Himp Hb') as [|[-> ->]]; [by left|right; by exists frm].
    + right. split; [by exists frm|done].
Qed.

Lemma Tracker_start_wf now : tracker_wf (Tracker_start now).1.
Proof. split; simpl; [done|]. intros H. by destruct H. Qed.


(** The rounds report nodes that the DHT has found, and no refresh is due. *)
Definition reports_only (deadline : Z) (rounds : list TRound) : Prop :=
  Forall (fun r => r_t2 r <= deadline /\ exists frm ip, r_ev r = TMsg frm CMD_DHT_IP ip) rounds.

(** Stability is reached: once the DHT has reported every node that the
    tracker still waits for, in any order and with any repetition, the answer
    is "stable". *)
Theorem tracker_converges rounds s :
  tracker_wf s -> terminated s = false -> node_list s <> ∅ ->
  reports_only (m_endPoint (last_refresh s)) rounds ->
  (forall ip t, node_list s !! ip = Some (false, t) -> heard CMD_DHT_IP ip rounds) ->
  exists s' out, TrackerRun rounds s = Ok (s', out) /\ isStable s' = true
    /\ dom (node_list s') = dom (node_list s).
Proof.
  revert s. induction rounds as [|r rounds IH]; intros s W Ht Hne Hrep Hall.
  { exists s, []. split_and!; [done| |done]. apply W; [done|]. intros ip b t Hip. destruct b; [done|].
    by destruct (Hall ip t Hip) as (? & ? & ?%elem_of_nil & _). }
  apply Forall_cons in Hrep as [[Hr (frm & ip & Hev)] Hrep]. simpl. rewrite Ht.
  rewrite Hev. cbn [TrackerStep mbind Res_bind].
  set (st := (on_message (r_found r) (r_t1 r) frm CMD_DHT_IP ip ;; refresh (r_found r) (r_t2 r)) s).
  assert (st.1 = match noted (r_t1 r) CMD_DHT_IP ip (node_list s) with
                 | Some l => set_isStable (check_state (r_found r) l).1 (set_node_list l s)
                 | None => s
                 end) as Hst.
  { subst st. unfold seq. cbn [fst]. rewrite refresh_state, on_message_state. unfold refreshed.
    destruct (noted _ _ _ _); cbn [last_refresh set_isStable set_node_list];
      by rewrite (proj2 (IsTimeout_false _ _)). }
  assert (tracker_wf st.1) as W1
    by (subst st; unfold seq; cbn [fst]; rewrite refresh_state; by apply refreshed_wf, on_message_wf).
  clearbody st. destruct st as [s1 o1]. cbn [fst] in *.
  assert (last_refresh s1 = last_refresh s /\ terminated s1 = false /\ dom (node_list s1) = dom (node_list s)
    /\ forall ip' t, node_list s1 !! ip' = Some (false, t) -> node_list s !! ip' = Some (false, t) /\ ip <> ip')
    as (El & Et & Ed & Hw).
  { subst s1. unfold noted. simpl. destruct (node_list s !! ip) as [[[] t0]|] eqn:E; simpl.
    - split_and!; [done..|]. intros ip' t Hip. split; [done|]. intros ->. congruence.
    - split_and!; [done..| |].
      + rewrite dom_insert_L. apply subseteq_union_1_L, singleton_subseteq_l, elem_of_dom. by exists (false, t0).
      + by intros ip' t [[? ?]|[? ?]]%lookup_insert_Some.
    - split_and!; [done..|]. intros ip' t Hip. split; [done|]. intros ->. congruence. }
  destruct (IH s1 W1 Et) as (s' & out & Hrun & Hs & Hd).
  - intros E. apply Hne. apply dom_empty_iff_L. rewrite <- Ed. by apply dom_empty_iff_L.
  - by rewrite El.
  - intros ip' t Hip. destruct (Hw ip' t Hip) as [Hip' Hneq].
    destruct (Hall ip' t Hip') as (r' & frm' & [->|Hin]%elem_of_cons & Hr'); [|by exists r', frm'].
    congruence.
  - exists s', (o1 ++ out). cbn [mbind Res_bind]. rewrite Hrun. cbn. split_and!; [done..|]. by rewrite Hd.
Qed.

Lemma wait_go_spec answer retry i :
  let '(n, b) := wait_go answer retry i false in
  (i <= n <= i + retry)%nat
  /\ (b = true <-> exists k, (i <= k < i + retry)%nat /\ answer k = true)
  /\ (b = true -> (i < n)%nat /\ answer (n - 1)%nat = true).
Proof.
  revert i. induction retry as [|retry IH]; intros i; simpl.
  { split_and!; [lia..| |done]. split; [done|]. intros (k & ? & _). lia. }
  destruct (answer i) eqn:Ea.
  - assert (wait_go answer retry (S i) true = (S i, true)) as -> by by destruct retry.
    split_and!; [lia..| |]; [split; [|done]; intros _; exists i; split; [lia|done]|].
    intros _. split; [lia|]. by replace (S i - 1)%nat with i by lia.
  - specialize (IH (S i)). destruct (wait_go answer retry (S i) false) as [n b]. destruct IH as (H1 & H2 & H3).
    split_and!; [lia..| |].
    + rewrite H2. split; intros (k & Hk & Hak); exists k; (split; [|done]); [lia|].
      destruct (decide (k = i)) as [->|]; [congruence|lia].
    + intros Hb. destruct (H3 Hb). split; [lia|done].
Qed.

(** A service waits for the DHT with at most ten queries, and is told
    that it is ready exactly if one of the answers was "stable"; it stops at
    that answer. *)
Theorem WaitForDht_spec answer :
  let '(n, ready) := WaitForDht answer in
  (n <= 10)%nat
  /\ (ready = true <-> exists k, (k < 10)%nat /\ answer k = true)
  /\ (ready = true -> (0 < n)%nat /\ answer (n - 1)%nat = true).
Proof.
  unfold WaitForDht. pose proof (wait_go_spec answer 10 0) as H.
  destruct (wait_go answer 10 0 false) as [n b]. destruct H as (H1 & H2 & H3). split_and!; [lia| |done].
  rewrite H2. split; intros (k & ? & ?); exists k; (split; [lia|done]).
Qed.

(** ** Witnesses *)

Definition demo_round (now : Z) (command ip : string) : TRound :=
  {| r_found := fun _ => true; r_t1 := now; r_t2 := now; r_ev := TMsg "f" command ip |}.


Definition demo_tracker : Tracker :=
  mkTracker {[ "10.0.0.1" := (false, new_timeout 1 10) ]} false false (new_timeout 1 10) (new_timeout 1 30).

Lemma tracker_converges_witness :
  exists s out, TrackerRun [demo_round 3 CMD_DHT_IP "10.0.0.1"] demo_tracker = Ok (s, out)
    /\ isStable s = true.
Proof.
  destruct (tracker_converges [demo_round 3 CMD_DHT_IP "10.0.0.1"] demo_tracker) as (s & out & E & Hs & _).
  - split; [done|]. intros _ H. exfalso.
    specialize (H "10.0.0.1" false (new_timeout 1 10) eq_refl). done.
  - reflexivity.
  - apply map_non_empty_singleton.
  - apply Forall_singleton. split; [vm_compute; discriminate|]. by exists "f", "10.0.0.1".
  - intros ip t H. unfold demo_tracker in H. cbn [node_list] in H.
    apply lookup_singleton_Some in H as [<- _]. exists (demo_round 3 CMD_DHT_IP "10.0.0.1"), "f".
    split; [left|reflexivity].
  - exists s, out. split; [exact E|exact Hs].
Defined.
