(* ===== verification/Framework.v ===== *)
(** Framework.v - the host that a node runs on: its network interfaces
    ([src/framework/rfw_network_interfaces.cc]), its configuration and keys
    ([src/framework/rfw_configuration.cc], [src/framework/rfw_security.cc],
    [include/const/r_const.h]).  [riaps.conf] is read in two ways, by [INIReader]
    ([Ini.v]) and line by line with a regular expression.

    What the code reads from the host is the record [Host]; [ziflist] of CZMQ
    is a list of names and addresses. *)

From Stdlib Require Import ZArith Lia Ascii.
From stdpp Require Import base strings list.
From S2P Require Import Prelude.
From S2P Require Import Utils.
From S2P Require Import Ini.

Record Host := {
  conf_text : option string;              (** [riaps.conf], when it can be opened *)
  sys_address : string -> option string;  (** the first line of [/sys/class/net/x/address] *)
  iflist : list (string * string);
  env_riapsapps : option string;
}.

(** ** Configuration *)

Definition DISCOVERY_ENDPOINT : string := "tcp://127.0.0.1:9700".
Definition DEVMANAGER_ENDPOINT : string := "tcp://127.0.0.1:9790".
Definition DEPLO_ENDPOINT : string := "tcp://127.0.0.1:9780".
Definition KEY_FOLDER : string := "/usr/local/riaps/keys".
Definition KEY_FILE : string := "id_rsa.key".
Definition CURVE_KEY : string := "riaps-app.cert".

Definition GetDiscoveryEndpoint : string := DISCOVERY_ENDPOINT.
Definition GetDeviceManagerEndpoint : string := DEVMANAGER_ENDPOINT.
Definition GetDeploEndpoint : string := DEPLO_ENDPOINT.

(** [operator/=] of [fs::path], for a relative right-hand side. *)
Definition path_append (p q : string) : string :=
  match str_last p with
  | None => q
  | Some c => if decide (c = "/"%char) then p +:+ q else p +:+ "/" +:+ q
  end.

Definition key_path : string := path_append KEY_FOLDER KEY_FILE.

Definition curve_key_path (h : Host) (app_name : string) : Res string :=
  p ← GetAppPath (env_riapsapps h) app_name; Ok (path_append p CURVE_KEY).

Definition HasSecurity (h : Host) : bool :=
  let reader := INIReader_file (conf_text h) in
  if negb (ParseError reader =? 0) then false
  else let security := Get reader "RIAPS" "security" "off" in
       bool_decide (security = "on") || bool_decide (security = "True").

(** ** Interfaces *)

Definition is_alnum (c : ascii) : bool :=
  let n := nat_of_ascii c in
  (((48 <=? n) && (n <=? 57)) || ((65 <=? n) && (n <=? 90)) || ((97 <=? n) && (n <=? 122)))%nat.

Fixpoint span_alnum (s : string) : string * string :=
  match s with
  | String c s' =>
      if is_alnum c then let '(a, b) := span_alnum s' in (String c a, b) else ("", s)
  | EmptyString => ("", s)
  end.

(** The first group of [^nic_name\s*=\s*([a-zA-Z0-9]+)\s*$]; the classes that
    follow each other are disjoint, so no backtracking is needed. *)
Definition match_nic_name (line : string) : option string :=
  if String.prefix "nic_name" line then
    match skip_space (str_drop (String.length "nic_name") line) with
    | String "=" rest =>
        let '(name, rest) := span_alnum (skip_space rest) in
        if bool_decide (name <> "") && bool_decide (skip_space rest = "") then Some name else None
    | _ => None
    end
  else None.

Fixpoint first_nic (lines : list string) : string :=
  match lines with
  | [] => ""
  | l :: lines' => match match_nic_name l with Some n => n | None => first_nic lines' end
  end.

(** The lines that [std::getline] reads from a file. *)
Fixpoint getlines (s : string) : list string :=
  match s with
  | EmptyString => []
  | String c s' =>
      if decide (c = NL) then "" :: getlines s'
      else match getlines s' with [] => [String c ""] | l :: ls => String c l :: ls end
  end.

Definition GetConfiguredIface (h : Host) : string :=
  match conf_text h with Some text => first_nic (getlines text) | None => "" end.

Definition CheckIfaceName (h : Host) (ifacename : string) : bool :=
  if bool_decide (ifacename = "") then false else bool_decide (is_Some (sys_address h ifacename)).

(** The name and the address of the first interface that is not the loopback. *)
Fixpoint first_global (l : list (string * string)) : Res (string * string) :=
  match l with
  | [] => Throw runtime_error
  | (name, address) :: l' =>
      if bool_decide (address <> "127.0.0.1") then Ok (name, address) else first_global l'
  end.

Definition GetFirstGlobalIface (h : Host) : Res (string * string) := first_global (iflist h).

(** The first address of that interface that is not empty. *)
Fixpoint address_of (name : string) (l : list (string * string)) : string :=
  match l with
  | [] => ""
  | (n, a) :: l' =>
      if bool_decide (n = name) && bool_decide (a <> "") then a else address_of name l'
  end.

Definition GetIPAddress (h : Host) (ifacename : string) : Res string :=
  let configuredIface := GetConfiguredIface h in
  if bool_decide (ifacename = "") then
    if bool_decide (configuredIface = "") || negb (CheckIfaceName h configuredIface) then
      '(_, ipaddress) ← GetFirstGlobalIface h; Ok ipaddress
    else Ok (address_of configuredIface (iflist h))
  else Ok (address_of ifacename (iflist h)).

Definition GetMacAddress (h : Host) (ifacename : string) : Res string :=
  name ← (if bool_decide (ifacename = "") then
            let configuredIface := GetConfiguredIface h in
            if bool_decide (configuredIface = "") || negb (CheckIfaceName h configuredIface) then
              '(name, _) ← GetFirstGlobalIface h; Ok name
            else Ok configuredIface
          else Ok ifacename);
  Ok (str_take 255 (default "" (sys_address h name))).

Fixpoint str_remove (c : ascii) (s : string) : string :=
  match s with
  | EmptyString => ""
  | String d s' => if decide (c = d) then str_remove c s' else String d (str_remove c s')
  end.

Definition GetMacAddressStripped (h : Host) (ifacename : string) : Res string :=
  mac_address ← GetMacAddress h ifacename; Ok (str_remove ":"%char mac_address).

(** ** Facts *)

Lemma first_global_spec l :
  (exists l1 name address l2, l = l1 ++ (name, address) :: l2 /\ address <> "127.0.0.1"
     /\ Forall (fun e => e.2 = "127.0.0.1") l1 /\ first_global l = Ok (name, address))
  \/ (Forall (fun e => e.2 = "127.0.0.1") l /\ first_global l = Throw runtime_error).
Proof.
  induction l as [|[name address] l IH]; simpl; [by right|].
  case_bool_decide as Ha; [left; by exists [], name, address, l|].
  assert (address = "127.0.0.1") as -> by (by destruct (decide (address = "127.0.0.1"))).
  destruct IH as [(l1 & n & a & l2 & -> & ? & ? & ?)|[? ?]].
  - left. exists ((name, "127.0.0.1") :: l1), n, a, l2. split_and!; [done..| |done]. by constructor.
  - right. split; [by constructor|done].
Qed.

Lemma str_remove_find c s : str_find c (str_remove c s) = None.
Proof.
  induction s as [|d s IH]; [done|]. simpl. destruct (decide (c = d)); [done|]. simpl.
  rewrite decide_False by done. by rewrite IH.
Qed.

(** The address of a node: a configured interface that exists is used,
    otherwise the first one that is not the loopback; the node runs on the
    loopback only when it is configured to, and without any other interface
    the call throws.  The hardware address used in keys has no colon. *)
Theorem node_address h :
  let conf := GetConfiguredIface h in
  match GetIPAddress h "" with
  | Ok ip =>
      (conf <> "" /\ CheckIfaceName h conf = true /\ ip = address_of conf (iflist h))
      \/ ((conf = "" \/ CheckIfaceName h conf = false) /\ ip <> "127.0.0.1"
          /\ exists name, (name, ip) ∈ iflist h)
  | Throw e => e = runtime_error /\ (conf = "" \/ CheckIfaceName h conf = false)
               /\ forall name ip, (name, ip) ∈ iflist h -> ip = "127.0.0.1"
  | UB => False
  end
  /\ (forall mac, GetMacAddressStripped h "" = Ok mac -> str_find ":"%char mac = None).
Proof.
  intros conf. split.
  - unfold GetIPAddress. rewrite bool_decide_eq_true_2 by done. fold conf.
    destruct (bool_decide (conf = "") || negb (CheckIfaceName h conf)) eqn:E.
    + assert (conf = "" \/ CheckIfaceName h conf = false) as Hc
        by (apply orb_true_iff in E as [E|E]; bool_to_prop; [by left|by right; destruct (CheckIfaceName h conf)]).
      unfold GetFirstGlobalIface.
      destruct (first_global_spec (iflist h)) as [(l1 & name & a & l2 & El & Ha & _ & ->)|[Hall ->]]; simpl.
      * right. split_and!; [done..|]. exists name. rewrite El. apply elem_of_app. right. left.
      * split_and!; [done..|]. intros name ip Hin. rewrite Forall_forall in Hall. exact (Hall _ Hin).
    + apply orb_false_iff in E as [E1 E2]. bool_to_prop. left. split_and!; done.
  - intros mac H. unfold GetMacAddressStripped in H. apply bind_Ok in H as (m & _ & [= <-]).
    apply str_remove_find.
Qed.

(** ** Who reads [riaps.conf] *)

Lemma getlines_unlines ls : Forall line_ok ls -> getlines (unlines ls) = ls.
Proof.
  induction 1 as [|l ls [Hl _] Hls IH]; [done|]. cbn [unlines].
  induction l as [|c l IHl]; rewrite ?str_app_nil, ?str_app_cons; cbn [getlines].
  - by rewrite decide_True, IH.
  - simpl in Hl. apply andb_true_iff in Hl as [[_ Hc]%andb_true_iff Hl].
    rewrite decide_False by (by apply bool_decide_eq_true in Hc). by rewrite IHl.
Qed.

(** A setting that names an interface. *)
Definition names_nic (nv : string * string) : Prop :=
  nv.1 = "nic_name" /\ nv.2 <> "" /\ str_all is_alnum nv.2 = true.
#[export] Instance names_nic_dec nv : Decision (names_nic nv).
Proof. unfold names_nic. apply _. Defined.

Lemma span_alnum_spec s :
  let '(a, b) := span_alnum s in s = a +:+ b /\ str_all is_alnum a = true
    /\ (str_all is_alnum s = true -> b = "").
Proof.
  induction s as [|c s IH]; simpl; [done|]. destruct (is_alnum c) eqn:E; [|done].
  destruct (span_alnum s) as [a b]. destruct IH as (-> & Ha & Hb). rewrite str_app_cons. simpl.
  split_and!; [done|by rewrite E|done].
Qed.

Lemma rstrip_blank s : skip_space s = "" -> rstrip s = "".
Proof.
  induction s as [|c s IH]; [done|]. simpl. destruct (is_space c) eqn:E; [|done].
  intros Hs. by rewrite IH.
Qed.

Lemma rstrip_tail a b : rstrip (a +:+ b) = a +:+ b -> b <> "" -> skip_space b <> "".
Proof.
  intros Hr Hb Hs%rstrip_blank. rewrite (rstrip_app_nil _ _ Hs) in Hr.
  assert (forall s, (String.length (rstrip s) <= String.length s)%nat) as Hlen.
  { induction s as [|c s IH]; [done|]. simpl. destruct (rstrip s); [destruct (is_space c)|]; simpl in *; lia. }
  specialize (Hlen a). rewrite Hr, str_length_app in Hlen. destruct b; [done|simpl in Hlen; lia].
Qed.

Lemma match_nic_value v :
  trimmed v ->
  (let '(name, rest) := span_alnum (skip_space v) in
   if bool_decide (name <> "") && bool_decide (skip_space rest = "") then Some name else None)
  = if decide (v <> "" /\ str_all is_alnum v = true) then Some v else None.
Proof.
  intros [Hr ->]. pose proof (span_alnum_spec v) as H. destruct (span_alnum v) as [a b].
  destruct H as (-> & Ha & Hb). destruct (decide (b = "")) as [->|Hne].
  - assert (a +:+ "" = a) as E by (clear; induction a as [|c a IH]; [done|by rewrite str_app_cons, IH]).
    rewrite E, (bool_decide_eq_true_2 (skip_space "" = "")), andb_true_r by done.
    repeat case_decide; repeat case_bool_decide; naive_solver.
  - rewrite (bool_decide_eq_false_2 (skip_space b = "")), andb_false_r by by eapply rstrip_tail.
    rewrite decide_False; [done|]. intros [_ ?%Hb]. done.
Qed.
Lemma skip_space_app_ne s t : skip_space s <> "" -> skip_space (s +:+ t) = skip_space s +:+ t.
Proof.
  induction s as [|c s IH]; [done|]. rewrite str_app_cons. simpl. by destruct (is_space c).
Qed.

Lemma str_find_skip c s : str_find c s = None -> str_find c (skip_space s) = None.
Proof.
  induction s as [|d s IH]; [done|]. intros H. simpl. destruct (is_space d); [|done]. apply IH.
  simpl in H. destruct (decide (c = d)); [done|]. by apply fmap_None in H.
Qed.

Lemma str_find_app_r c a b : str_find c (a +:+ b) = None -> str_find c b = None.
Proof.
  induction a as [|d a IH]; [done|]. rewrite str_app_cons. simpl. destruct (decide (c = d)); [done|].
  intros H%fmap_None. by apply IH.
Qed.

Lemma match_nic_name_setting n v :
  setting_ok (n, v) ->
  match_nic_name (setting_line n v) = if decide (names_nic (n, v)) then Some v else None.
Proof.
  intros ((Hne & [Hr Hk] & Hf & _) & (Hv & _) & _). cbn [fst snd] in *. unfold setting_line, match_nic_name.
  apply (find_go_none _ _ _ "="%char) in Hf; [|done].
  destruct (String.prefix "nic_name" (n +:+ "=" +:+ v)) eqn:Hp.
  - assert (exists n', n = "nic_name" +:+ n') as [n' ->].
    { clear -Hp Hf. do 8 (destruct n as [|? n];
        [exfalso; by vm_compute in Hp|rewrite str_app_cons in Hp; cbn [String.prefix] in Hp;
         destruct (ascii_dec _ _) as [<-|]; [|done]]). by exists n. }
    rewrite str_app_assoc, str_drop_app. destruct n' as [|c n'].
    + rewrite str_app_nil, str_app_cons, str_app_nil. change (skip_space (String "=" v)) with (String "=" v). cbv beta iota. rewrite match_nic_value by done.
      unfold names_nic. cbn [fst snd]. repeat case_decide; naive_solver.
    + assert (skip_space (String c n') <> "") as Hs by by eapply rstrip_tail.
      rewrite skip_space_app_ne by done.
      assert (str_find "=" (skip_space (String c n')) = None) as Hq.
      { by apply str_find_skip, (str_find_app_r _ "nic_name"). }
      destruct (skip_space (String c n')) as [|d t]; [done|]. rewrite str_app_cons.
      assert (d <> "="%char) as Hd by (by intros ->).
      rewrite decide_False by (intros [[=] _]).
      clear -Hd. destruct d as [[] [] [] [] [] [] [] []]; done.
  - rewrite decide_False; [done|]. intros (Hn & _). simpl in Hn. subst n. by vm_compute in Hp.
Qed.
(** The interface that a list of settings names: the first name that a
    [nic_name] of any section gives. *)
Definition nic_of (l : list Setting) : string :=
  match filter (fun e : Setting => names_nic (e.1.2, e.2)) l with [] => "" | e :: _ => e.2 end.

Lemma first_nic_settings s l rest :
  Forall setting_ok l ->
  first_nic (map (fun nv => setting_line nv.1 nv.2) l ++ rest)
  = match filter (fun e : Setting => names_nic (e.1.2, e.2)) (map (fun nv => (s, nv.1, nv.2)) l) with
    | [] => first_nic rest | e :: _ => e.2 end.
Proof.
  induction 1 as [|[n v] l Hnv Hl IH]; [done|]. cbn [map app first_nic fst snd].
  rewrite match_nic_name_setting by done. rewrite filter_cons. cbn [fst snd].
  by destruct (decide (names_nic (n, v))).
Qed.

Lemma first_nic_doc d : doc_ok d -> first_nic (doc_lines d) = nic_of (settings d).
Proof.
  unfold nic_of. induction 1 as [|[s l] d [_ Hl] Hd IH]; [done|]. unfold doc_lines, settings.
  cbn [mbind list_bind fst snd app first_nic].
  assert (match_nic_name (section_line s) = None) as -> by done.
  rewrite filter_app, (first_nic_settings s) by done. by destruct (filter _ (map _ _)).
Qed.

(** Both readers of [riaps.conf] see the same interface: when the file has one
    setting whose name is [nic_name] in any spelling, it is in the section
    [RIAPS] and gives the name of an interface, the line by line search and
    [INIReader] return that name.  In general the search returns the first
    such name, whatever its section. *)
Theorem conf_readers_agree h d :
  doc_ok d -> conf_text h = Some (print_doc d) ->
  GetConfiguredIface h = nic_of (settings d)
  /\ forall v, names_nic ("nic_name", v) ->
       filter (fun e : Setting => lower e.1.2 = "nic_name") (settings d) = [("RIAPS", "nic_name", v)] ->
       GetConfiguredIface h = v
       /\ Get (INIReader_file (conf_text h)) "RIAPS" "nic_name" "" = v.
Proof.
  intros Hd Hc. unfold GetConfiguredIface. rewrite Hc. unfold print_doc at 1 2.
  rewrite getlines_unlines, first_nic_doc by (done || by apply doc_line_ok).
  split; [done|]. intros v Hv Hone. split.
  - unfold nic_of. destruct (filter (fun e : Setting => names_nic _) (settings d)) as [|e l] eqn:E.
    + assert (("RIAPS", "nic_name", v) ∈ settings d) as Hin
        by (eapply (list_elem_of_filter (fun e : Setting => lower e.1.2 = "nic_name")); rewrite Hone; left).
      assert (("RIAPS", "nic_name", v) ∈ @nil Setting) as H
        by (rewrite <- E; by apply list_elem_of_filter). by apply elem_of_nil in H.
    + assert (e ∈ filter (fun e : Setting => names_nic (e.1.2, e.2)) (settings d)) as He by (rewrite E; left).
      apply list_elem_of_filter in He as [(Hn & _) He]. cbn [fst] in Hn.
      assert (e ∈ [("RIAPS", "nic_name", v)]) as ->%list_elem_of_singleton; [|done].
      rewrite <- Hone. apply list_elem_of_filter. by rewrite Hn.
  - rewrite reads_doc by done. unfold Get. rewrite read_settings_lookup.
    assert (values_of (MakeKey "RIAPS" "nic_name") (settings d) = [v]) as ->; [|done].
    unfold values_of. rewrite <- (filter_filter_sub _ (fun e : Setting => lower e.1.2 = "nic_name")), Hone; [done|].
    intros e He Hk. by apply (key_of_inj d) in Hk as [_ ?].
Qed.
(** ** The security switch *)

(** A value put together from several has a newline in it. *)
Lemma joined_newline old vs :
  str_find NL old <> None -> str_find NL (foldl join_value old vs) <> None.
Proof.
  revert old. induction vs as [|v vs IH]; intros old H; [done|]. apply IH. unfold join_value.
  intros Hf. apply H. clear -Hf. revert Hf. generalize ((if decide (old = "") then "" else String NL "") +:+ v).
  intros t. induction old as [|c old IHo]; [done|]. rewrite str_app_cons. simpl.
  destruct (decide (NL = c)); [done|]. intros ?%fmap_None. by rewrite IHo.
Qed.

Lemma joined_word w vs :
  w <> "" -> str_find NL w = None ->
  joined vs = w <-> exists k, vs = replicate k "" ++ [w].
Proof.
  intros Hw Hn. unfold joined. induction vs as [|v vs IH]; simpl.
  { split; [by intros <-|]. intros [[|k] [=]]. }
  assert (join_value "" v = v) as -> by done. destruct (decide (v = "")) as [->|Hv].
  - rewrite IH. split; [intros [k ->]; by exists (S k)|]. intros [[|k] E]; simpl in E; [congruence|].
    injection E as ->. by exists k.
  - split.
    + destruct vs as [|v' vs]; [intros <-; by exists 0%nat|]. intros E. exfalso.
      simpl in E. pose proof (joined_newline (join_value v v') vs) as Hj. rewrite E in Hj. apply Hj; [|done].
      unfold join_value. rewrite decide_False by done. rewrite str_app_cons, str_app_nil. apply str_find_sep.
    + intros [[|k] E]; simpl in E; [by injection E as -> ->|]. injection E as -> _. done.
Qed.

(** C27. Security is on exactly when [riaps.conf] says so in one of two
    spellings, once: in a file of settings, [security] of the section [RIAPS]
    has the value [on] or [True] (empty values before it do not count).  A file
    that cannot be opened turns security off, and so does one malformed line
    anywhere, whatever the other lines say. *)
Theorem security_switch h :
  (forall d, doc_ok d -> conf_text h = Some (print_doc d) ->
     HasSecurity h = true <->
     exists k w, (w = "on" \/ w = "True")
       /\ values_of (MakeKey "RIAPS" "security") (settings d) = replicate k "" ++ [w])
  /\ (conf_text h = None -> HasSecurity h = false)
  /\ (forall lead l post, at_line lead -> line_ok l -> malformed l = true ->
        conf_text h = Some (lead +:+ l +:+ String NL post) -> HasSecurity h = false).
Proof.
  split_and!.
  - intros d Hd Hc. unfold HasSecurity. rewrite Hc.
    destruct (INIReader_doc d Hd) as (He & Hg). rewrite He. cbn [negb Z.eqb]. rewrite Hg.
    rewrite orb_true_iff, !bool_decide_eq_true. set (vs := values_of _ _).
    assert (match vs with [] => "off" | v :: l => joined (v :: l) end = "on" <->
            exists k, vs = replicate k "" ++ ["on"]) as ->
      by (rewrite <- (joined_word "on") by done; by destruct vs).
    assert (match vs with [] => "off" | v :: l => joined (v :: l) end = "True" <->
            exists k, vs = replicate k "" ++ ["True"]) as ->
      by (rewrite <- (joined_word "True") by done; by destruct vs).
    naive_solver.
  - intros Hc. unfold HasSecurity. by rewrite Hc.
  - intros lead l post Hlead Hl Hm Hc. unfold HasSecurity. rewrite Hc.
    assert (ParseError (INIReader_file (Some (lead +:+ l +:+ String NL post))) <> 0) as He
      by by apply malformed_reported.
    apply Z.eqb_neq in He. by rewrite He.
Qed.
Definition demo_host : Host :=
  {| conf_text := Some (unlines ["# comment"; "[RIAPS]"; "nic_name = eth0 "; "security: on ; yes"]);
     sys_address := fun n => if bool_decide (n = "eth0") then Some "08:00:27:aa" else None;
     iflist := [("lo", "127.0.0.1"); ("eth0", "10.0.0.1")]; env_riapsapps := Some "/apps/" |}.

Definition doc_host (text : string) : Host :=
  {| conf_text := Some text; sys_address := sys_address demo_host; iflist := iflist demo_host;
     env_riapsapps := env_riapsapps demo_host |}.

Lemma conf_readers_agree_witness :
  doc_ok demo_doc
  /\ Get (INIReader_file (conf_text (doc_host (print_doc demo_doc)))) "RIAPS" "nic_name" "" = "eth0".
Proof.
  assert (doc_ok demo_doc) as Hd by (apply (bool_decide_unpack _); by vm_compute).
  split; [exact Hd|].
  destruct (conf_readers_agree (doc_host (print_doc demo_doc)) demo_doc Hd eq_refl) as [_ H].
  apply (H "eth0"); [apply (bool_decide_unpack _)|]; by vm_compute.
Defined.

Lemma security_switch_witness :
  HasSecurity (doc_host (print_doc demo_doc)) = true
  /\ malformed "enabled" = true
  /\ HasSecurity (doc_host (print_doc demo_doc +:+ "enabled" +:+ String NL "")) = false.
Proof.
  assert (doc_ok demo_doc) as Hd by (apply (bool_decide_unpack _); by vm_compute).
  split_and!; [|by vm_compute|].
  - destruct (security_switch (doc_host (print_doc demo_doc))) as (H & _).
    apply (H demo_doc Hd eq_refl). exists 0%nat, "on". split; [by left|]. by vm_compute.
  - destruct (security_switch (doc_host (print_doc demo_doc +:+ "enabled" +:+ String NL ""))) as (_ & _ & H).
    apply (H (print_doc demo_doc) "enabled" ""); [right| | |done]; [|apply (bool_decide_unpack _)|];
      [|by vm_compute..]. exists (unlines (removelast (doc_lines demo_doc)) +:+ "level=x = y"). by vm_compute.
Defined.

(** Other spellings do not switch security on, and neither does setting it
    twice; a byte order mark, comments, [name: value] and indentation are fine. *)
Lemma security_examples :
  map (fun v => HasSecurity (doc_host (print_doc [("RIAPS", [("security", v)])])))
    ["on"; "True"; "ON"; "true"; "yes"; "1"; "off"] = [true; true; false; false; false; false; false]
  /\ HasSecurity (doc_host (print_doc [("RIAPS", [("security", "on"); ("security", "on")])])) = false
  /\ HasSecurity (doc_host (BOM +:+ unlines ["  [riaps]"; "; c"; "Security : on ; c"; "#"; "x = 1"; "  2"])) = true
  /\ GetBoolean (INIReader_file (Some (print_doc [("RIAPS", [("security", "Yes")])]))) "RIAPS" "security" false = true
  /\ GetInteger (INIReader_file (Some (print_doc [("a", [("b", "0x1F z")])]))) "a" "b" 7 = 31.
Proof. by vm_compute. Qed.

Lemma Framework_examples :
  GetConfiguredIface demo_host = "eth0" /\ GetIPAddress demo_host "" = Ok "10.0.0.1"
  /\ GetMacAddressStripped demo_host "" = Ok "080027aa" /\ HasSecurity demo_host = true
  /\ curve_key_path demo_host "A" = Ok "/apps/A/riaps-app.cert"
  /\ key_path = "/usr/local/riaps/keys/id_rsa.key".
Proof. by vm_compute. Qed.
