(* ===== verification/Service.v ===== *)
(** Service.v - the thread of the discovery service
    ([src/discoveryd/r_riaps_actor.cc] and the loop [Run] of
    [src/discoveryd/r_msghandler.cc]): from the start of the DHT node to the
    end of the loop. *)

From Stdlib Require Import ZArith Lia.
From stdpp Require Import base gmap strings list.
From S2P Require Import Prelude.
From S2P Require Import Group.
From S2P Require Import Disco.
From S2P Require Import MsgHandler.
From S2P Require Import DiscoFacts.
From S2P Require Import DhtNet.
From S2P Require Import Utils.
From S2P Require Import Framework.

#[local] Open Scope riaps_scope.

Section Service.
Context {V : Type}.
Variable seal : string -> V.
Variable InfoHash_get InfoHash : string -> string.
Variable pack : GroupDetails -> string.
Implicit Type s : Handler.

Abbreviation RunStep e ev s :=
  (RunStep (V := V) seal InfoHash_get InfoHash pack (re_running e) (re_socket e) (re_port e)
     (re_start e) (re_clk e) ev s).

(** The loop, for what it is given in each round; it may end earlier. *)
Fixpoint Run (rounds : list (RoundEnv * Event)) (s : Handler) : Res (Handler * list (DiscOut (V := V))) :=
  match rounds with
  | [] => Ok (s, [])
  | (e, ev) :: rounds' =>
      if terminated_ s then Ok (s, [])
      else
        '(s1, o1) ← RunStep e ev s;
        '(s2, o2) ← Run rounds' s1;
        Ok (s2, o1 ++ o2)
  end.

(** The thread: what it tells its starter, the final state and the effects.
    [dht_runs] tells whether the two DHT nodes start without an exception. *)
Definition riaps_actor (h : Host) (dht_runs : bool) (now uninit : Z)
    (services : list (string * string)) (rounds : list (RoundEnv * Event))
    : Res (Z * option Handler * list (DiscOut (V := V))) :=
  mac_address ← GetMacAddressStripped h "";
  host_address ← GetIPAddress h "";
  if dht_runs then
    let '(s, o1) := Init seal InfoHash_get now services (new_Handler mac_address host_address uninit) in
    '(s', o2) ← Run rounds s;
    Ok (1, Some s', o1 ++ o2)
  else Ok (0, None, []).

(** The events after which the loop ends. *)
Definition ends (ev : Event) : bool :=
  match ev with
  | OnPipe None | OnRiaps None => true
  | OnPipe (Some (command :: _)) => bool_decide (command = "$TERM")
  | _ => false
  end.

Lemma maintenance_terminated (b1 b2 : bool) t1 t2 s :
  terminated_ ((when b1 (RenewServices seal InfoHash_get t1) ;;
                when b2 (modify (MaintainZombieList t2))) s).1 = terminated_ s.
Proof. by destruct b1, b2. Qed.

(** The requests and messages that do not end the loop. *)
Lemma keeps_running running socket port clk ev s s' o :
  match ev with
  | Idle_ => Ok (s, [])
  | OnPipe msg => HandlePipeMessage msg s
  | OnDht msg => Ok (HandleDhtMessage clk msg s)
  | OnRiaps msg => HandleRiapsMessage seal InfoHash_get InfoHash pack running socket port (clk 2%nat) msg s
  end = Ok (s', o) -> terminated_ s' = terminated_ s || ends ev.
Proof.
  destruct ev as [|[[|command hosts]|]|[[m|m|l|m]|]|[[identity req]|]]; simpl; rewrite ?orb_false_r;
    try done; try by intros [<- <-]%Ok_pair.
  - case_bool_decide; [intros [= <- <-]; by rewrite orb_true_r|rewrite orb_false_r].
    case_bool_decide; by intros [= <- <-].
  - intros [= <- <-]. by rewrite orb_true_r.
  - rewrite HandleDhtUpdate_run. by intros [= <- <-].
  - rewrite HandleDhtGet_run. by intros [= <- <-].
  - destruct req as [m|m|m|m|m].
    + intros [<- _]%Ok_pair. unfold HandleActorReg, read, seq, modify, reply, when, emit, skip. simpl.
      destruct (match _ with Some _ => _ | None => _ end); [done|].
      by destruct (_ && _), (bool_decide _).
    + rewrite HandleServiceReg_run. destruct (BuildInsertKeyValuePair _ _ _ _ _ _ _) as [[k v]| |]; [|done..].
      by intros [= <- <-].
    + rewrite HandleServiceLookup_run. destruct (lookup_key _ _) as [[k v]| |]; [|done..].
      intros [<- _]%Ok_pair. simpl. by destruct (bool_decide _).
    + rewrite HandleActorUnreg_run. by intros [= <- <-].
    + by intros [= <- <-].
  - intros [= <- <-]. by rewrite orb_true_r.
Qed.

Lemma RunStep_terminated e ev s s' out :
  RunStep e ev s = Ok (s', out) -> terminated_ s' = terminated_ s || ends ev.
Proof.
  unfold MsgHandler.RunStep. cbv zeta.
  set (b1 := service_check_period_ <? _). set (b2 := zombie_check_period_ <? _).
  pose proof (maintenance_terminated b1 b2 (re_clk e 0%nat) (re_clk e 1%nat) s) as Hm.
  set (r1 := (when b1 _ ;; when b2 _) s) in *. intros H.
  apply bind_Ok in H as ([s2 o2] & H & [= <- _]). rewrite <- Hm. by eapply keeps_running.
Qed.

End Service.

