(* ===== verification/Discoveryd.v ===== *)
(** Discoveryd.v - the main program of the discovery service
    ([src/discoveryd/r_discoveryd.cc]): its start, and the loop that turns UDP
    beacons and commands into nodes the DHT is told to join.

    The state is the two caches and the validator; a round first answers the
    validator's own messages, then handles what the poller returned. *)

From Stdlib Require Import ZArith Lia Ascii.
From stdpp Require Import base gmap strings list fin_maps.
From S2P Require Import Prelude.
From S2P Require Import Timeout.
From S2P Require Import Utils.
From S2P Require Import Framework.
From S2P Require Import Validator.
From S2P Require Import MsgHandler.

#[local] Open Scope riaps_scope.

(** The payload of a beacon without security: two box characters in UTF-8. *)
Definition announcement : string :=
  String (ascii_of_nat 226) (String (ascii_of_nat 149) (String (ascii_of_nat 169)
    (String (ascii_of_nat 226) (String (ascii_of_nat 150) (String (ascii_of_nat 160) ""))))).

Section Discoveryd.
Context {Sig : Type}.
Variable sign : string -> Sig.
Variable checkSignature : string -> Sig -> bool.

Record Discoveryd := mkDiscoveryd {
  address : string;
  has_security : bool;
  validator : Validator Sig;
  ipcache : gmap string (Timeout milliseconds);
  externalipcache : gmap string Z;
}.

Definition set_validator v s :=
  mkDiscoveryd (address s) (has_security s) v (ipcache s) (externalipcache s).
Definition set_ipcache m s :=
  mkDiscoveryd (address s) (has_security s) (validator s) m (externalipcache s).
Definition set_externalipcache m s :=
  mkDiscoveryd (address s) (has_security s) (validator s) (ipcache s) m.

(** ** The start *)

(** The choice of the interface; [None] is a failed assertion. *)
Definition choose_interface (h : Host) : Res (option (string * string)) :=
  let iface := GetConfiguredIface h in
  if bool_decide (iface <> "") then
    address ← GetIPAddress h iface; Ok (Some (iface, address))
  else
    '(iface, address) ← GetFirstGlobalIface h;
    Ok (if bool_decide (iface <> "") then Some (iface, address) else None).

(** What the program finds out while it starts: whether the DHT thread runs,
    whether the key was loaded, whether security is still on when the
    validator asks again, the validator's endpoint, and whether the two
    beacon actors have a host name. *)
Record StartUp := {
  su_dhtStarted : bool;
  su_private_key : bool;
  su_HasSecurity : bool;
  su_endpoint : string;
  su_listener : bool;
  su_speaker : bool;
}.

(** The exit status, or the state of the loop and the payload that the
    beacons of this node carry. *)
Inductive Started :=
| Exits (status : Z)
| Runs (s : Discoveryd) (udp_payload : string).

Definition start (now : Z) (has_security : bool) (address : string) (u : StartUp) : Started :=
  if negb (su_dhtStarted u) then Exits (-1)
  else if has_security && negb (su_private_key u) then Exits (-1)
  else
    let v := new_Validator now 0 has_security in
    let '(ok, v) :=
      if has_security then InitWithSecurity sign (su_HasSecurity u) now (su_endpoint u) v
      else (InitNoSecurity (su_HasSecurity u), v) in
    if negb ok then Exits (-1)
    else if negb (su_listener u) then Exits (-1)
    else if negb (su_speaker u) then Exits (-1)
    else Runs (mkDiscoveryd address has_security v ∅ ∅)
           (if has_security then validator_address_ v else announcement).

(** ** The loop *)

(** What the poller returned: the control socket, the beacon listener (the
    address and the payload, null when interrupted), or nothing. *)
Inductive DEvent :=
| OnControl (msg : option (list string))
| OnBeacon (ipaddress payload : option string)
| OnNothing.

Inductive DOut :=
| VOutput (o : VOut Sig)
| TrackBeacon (ip : string)
| Join (host : string).

(** A join command of an external script: header, command, host. *)
Definition on_control (now : Z) (msg : option (list string)) (s : Discoveryd)
    : Res (Discoveryd * list DOut) :=
  match msg with
  | None => Ok (s, [])
  | Some (_ :: command :: rest) =>
      if bool_decide (command = CMD_DISCO_JOIN) then
        match rest with
        | newhost :: _ =>
            if bool_decide (externalipcache s !! newhost = None)
            then Ok (set_externalipcache (<[newhost := now]> (externalipcache s)) s, [Join newhost])
            else Ok (s, [])
        | [] => Ok (s, [])
        end
      else Ok (s, [])
  | Some _ => UB
  end.

(** A beacon of a trusted node: the cache, and whether the node is new. *)
Definition note_peer (now : Z) (ipaddress : string) (s : Discoveryd) : Discoveryd * list DOut :=
  if bool_decide (ipaddress <> address s) then
    let is_newitem := bool_decide (ipcache s !! ipaddress = None) in
    let cache := <[ipaddress := Timeout_duration now IPCACHE_TIMEOUT 0]> (ipcache s) in
    let '(_, cache) := maintain_cache now cache in
    (set_ipcache cache s, if is_newitem then [Join ipaddress] else [])
  else (s, []).

(** Comparing a null payload with the announcement is undefined. *)
Definition payload_fits (s : Discoveryd) (payload : option string) : Res bool :=
  if has_security s then Ok (bool_decide (is_Some payload))
  else p ← deref payload; Ok (bool_decide (p = announcement)).

Definition on_beacon (clk : nat -> Z) (draw now : Z) (ipaddress payload : option string)
    (s : Discoveryd) : Res (Discoveryd * list DOut) :=
  match ipaddress with
  | None => Ok (s, [])
  | Some ip =>
      fits ← payload_fits s payload;
      if negb fits then Ok (s, [TrackBeacon ip])
      else
        p ← deref payload;
        '(trusted, v, vo) ← IsValid clk draw p (validator s);
        let s := set_validator v s in
        let '(s, o) := if (trusted : bool) then note_peer now ip s else (s, []) in
        Ok (s, TrackBeacon ip :: map VOutput vo ++ o)
  end.

(** One round: [vev] is what [ReplyAll] finds, [now] the clock when the caches
    are looked at. *)
Definition DStep (vev : VEvent Sig) (clk : nat -> Z) (draw now : Z) (ev : DEvent) (s : Discoveryd)
    : Res (Discoveryd * list DOut) :=
  '(v, vo) ← ReplyAll checkSignature vev (validator s);
  let s := set_validator v s in
  '(s, o) ← match ev with
            | OnControl msg => on_control now msg s
            | OnBeacon ip payload => on_beacon clk draw now ip payload s
            | OnNothing => Ok (set_ipcache (maintain_cache now (ipcache s)).2 s, [])
            end;
  Ok (s, map VOutput vo ++ o).

(** ** Facts *)

Lemma in_VOutput o l : VOutput o ∈ map VOutput l <-> o ∈ l.
Proof. rewrite list_elem_of_fmap. split; [by intros (? & [= ->] & ?)|by exists o]. Qed.

Lemma Join_VOutput h l : Join h ∉ map VOutput l.
Proof. by intros (? & [=] & _)%list_elem_of_fmap. Qed.

Lemma ReplyAll_run_security vev v v' vo :
  ReplyAll checkSignature vev v = Ok (v', vo) -> has_security_ v' = has_security_ v.
Proof.
  intros H. destruct (ReplyAll_run checkSignature vev v v' vo H)
    as [[-> _]|(? & ? & ? & _ & _ & _ & _ & ->)]; done.
Qed.

(** What a beacon does: the node is announced to the DHT tracker in any
    case; it joins the DHT exactly when the validator trusts it, it is not
    this node, and it was not in the cache; then the cache holds it and the
    nodes heard of within the last 30 seconds, and otherwise it is left as it
    was. *)
Theorem on_beacon_spec clk draw now ip payload s trusted v vo :
  payload_fits s (Some payload) = Ok true ->
  IsValid clk draw payload (validator s) = Ok (trusted, v, vo) ->
  exists s' out,
    on_beacon clk draw now (Some ip) (Some payload) s = Ok (s', out)
    /\ TrackBeacon ip ∈ out /\ validator s' = v
    /\ (forall h, Join h ∈ out <-> h = ip /\ trusted = true /\ ip <> address s /\ ipcache s !! ip = None)
    /\ ipcache s' =
         if decide (trusted = true /\ ip <> address s)
         then <[ip := Timeout_duration now IPCACHE_TIMEOUT 0]> (filter (unexpired now) (ipcache s))
         else ipcache s.
Proof.
  intros Hfit Hv. unfold on_beacon. rewrite Hfit. cbn [mbind Res_bind negb deref].
  rewrite Hv. cbn [mbind Res_bind].
  assert (forall h o, Join h ∈ TrackBeacon ip :: map VOutput vo ++ o <-> Join h ∈ o) as Hj.
  { intros h o. rewrite elem_of_cons, elem_of_app. split; [|by auto].
    intros [[=]|[H|H]]; [by destruct (Join_VOutput h vo)|done]. }
  destruct trusted; cbn [note_peer].
  - unfold note_peer. cbn [address set_validator]. case_bool_decide as Hip.
    + assert (maintain_cache now (<[ip := Timeout_duration now IPCACHE_TIMEOUT 0]> (ipcache s))
        = ((maintain_cache now (<[ip := Timeout_duration now IPCACHE_TIMEOUT 0]> (ipcache s))).1,
           <[ip := Timeout_duration now IPCACHE_TIMEOUT 0]> (filter (unexpired now) (ipcache s)))) as Em.
      { rewrite <- (map_filter_insert_True (unexpired now)), <- maintain_cache_filter;
          [by destruct (maintain_cache _ _)|].
        apply IsTimeout_false. change (m_endPoint _) with (now + IPCACHE_TIMEOUT * ticks milliseconds).
        unfold IPCACHE_TIMEOUT, ticks. lia. }
      cbn [ipcache set_validator]. rewrite Em. eexists _, _. split; [reflexivity|].
      split_and!; [left|done| |by rewrite decide_True].
      intros h. rewrite Hj. case_bool_decide as Hn; rewrite ?list_elem_of_singleton.
      * split; [by intros [= ->]|by intros (-> & _)].
      * split; [by intros ?%elem_of_nil|by intros (_ & _ & _ & ?)].
    + eexists _, _. split; [reflexivity|]. split_and!; [left|done| |].
      * intros h. rewrite Hj. split; [by intros ?%elem_of_nil|by intros (_ & _ & ? & _)].
      * rewrite decide_False; [done|]. by intros [_ ?].
  - eexists _, _. split; [reflexivity|]. split_and!; [left|done| |].
    + intros h. rewrite Hj. split; [by intros ?%elem_of_nil|by intros (_ & ? & _)].
    + rewrite decide_False; [done|]. by intros [? _].
Qed.

(** An announced address can stop the service: with security on, the
    round throws exactly when the port of the announced endpoint is not a
    number that fits an [int]; nothing catches the exception. *)
Theorem beacon_throws clk draw now ip payload s e :
  has_security s = true -> has_security_ (validator s) = true -> nodes_wf (validator s) ->
  on_beacon clk draw now (Some ip) (Some payload) s = Throw e
  <-> IsValidZmqAddress payload = Throw e.
Proof.
  intros Hs Hv W. unfold on_beacon, payload_fits. rewrite Hs. rewrite bool_decide_eq_true_2 by done.
  cbn [mbind Res_bind negb deref].
  destruct (IsValidZmqAddress payload) as [[]|e'|] eqn:E.
  - destruct (IsValid_run checkSignature clk draw payload (validator s) Hv E W) as (v' & o & -> & _).
    cbn [mbind Res_bind]. by case_match.
  - unfold IsValid. rewrite Hv, E. by cbn.
  - unfold IsValid. rewrite Hv, E. cbn. split; congruence.
  - unfold IsValid. rewrite Hv, E. by cbn.
Qed.
End Discoveryd.

(** ** Witnesses *)

Definition demo_open : Discoveryd (Sig := string) :=
  mkDiscoveryd "10.0.0.9" false (mkValidator false "" None (new_timeout 1 1) ∅) ∅ ∅.

Definition demo_secure : Discoveryd (Sig := string) :=
  mkDiscoveryd "10.0.0.9" true demo_validator ∅ ∅.

Lemma on_beacon_spec_witness :
  exists s' out, on_beacon (fun _ => 2) 50 2 (Some "10.0.0.1") (Some announcement) demo_open = Ok (s', out)
    /\ Join "10.0.0.1" ∈ out.
Proof.
  destruct (on_beacon_spec (fun _ => 2) 50 2 "10.0.0.1" announcement demo_open true
    (validator demo_open) []) as (s' & out & E & _ & _ & Hj & _); [reflexivity|reflexivity|].
  exists s', out. split; [exact E|]. apply Hj. split_and!; [reflexivity|reflexivity|discriminate|reflexivity].
Defined.

Lemma beacon_throws_witness :
  on_beacon (fun _ => 2) 50 2 (Some "10.0.0.1") (Some "tcp://10.0.0.1:x") demo_secure
    = Throw invalid_argument.
Proof.
  apply (beacon_throws demo_check);
    [reflexivity|reflexivity|intros a; vm_compute; discriminate|reflexivity].
Defined.
