(* ===== verification/DiscoApi.v ===== *)
(** DiscoApi.v - the client side of the discovery protocol
    ([include/componentmodel/r_discoverdapi.h],
    [src/componentmodel/r_discoverdapi.cc]) and the ports' way of naming their
    services; the request each function sends and what it makes of the reply.
    Together with [MsgHandler.v] it gives the calls of an actor end to end. *)

From Stdlib Require Import ZArith Lia Ascii.
From stdpp Require Import base gmap strings list.
From S2P Require Import Prelude.
From S2P Require Import Timeout.
From S2P Require Import Ports.
From S2P Require Import Group.
From S2P Require Import Disco.
From S2P Require Import MsgHandler.
From S2P Require Import DiscoFacts.

Module Api.

(** [RegisterActor]: the endpoint of the PAIR socket that is opened. *)
Definition RegisterActor_req (pid : Z) (app_name actor_name : string) : DiscoReq :=
  actorReg {| ar_appName := app_name; ar_actorName := actor_name; ar_pid := pid |}.

Definition RegisterActor_rep (rep : DiscoRep) : option string :=
  match rep with
  | actorRegRep ERR _ => None
  | actorRegRep OK port => Some ("tcp://localhost:" +:+ to_string port)
  | _ => None
  end.

(** [DeregisterActor]: whether an error is logged. *)
Definition DeregisterActor_req (pid : Z) (actor_name app_name : string) : DiscoReq :=
  actorUnreg {| au_appName := app_name; au_actorName := actor_name; au_pid := pid |}.

Definition DeregisterActor_rep (rep : DiscoRep) : bool :=
  match rep with actorUnregRep ERR _ => true | _ => false end.

(** [RegisterService]; the port is a [uint16_t]. *)
Definition RegisterService_req (pid : Z) (app_name actor_name message_type ip_address : string)
    (port : Z) (kind : Kind) (scope : Scope) : DiscoReq :=
  serviceReg
    {| sr_path := {| p_appName := app_name; p_actorName := actor_name; p_msgType := message_type;
                     p_kind := kind; p_scope := scope |};
       sr_socket := {| s_host := ip_address; s_port := i32 (u16 port) |}; sr_pid := pid |}.

Definition RegisterService_rep (rep : DiscoRep) : bool :=
  match rep with serviceRegRep status => bool_decide (status = OK) | _ => false end.

Record ServiceLookupResult := {
  lr_host_name : string; lr_port : Z; lr_part_name : string; lr_port_name : string;
}.

Definition SubscribeToService_req (app_name part_name actor_name ip_address : string)
    (kind : Kind) (scope : Scope) (port_name msg_type : string) : DiscoReq :=
  serviceLookup
    {| sl_path := {| p_appName := app_name; p_actorName := ""; p_msgType := msg_type;
                     p_kind := kind; p_scope := scope |};
       sl_client := {| c_actorHost := ip_address; c_actorName := actor_name;
                       c_instanceName := part_name; c_portName := port_name |} |}.

Definition SubscribeToService_rep (part_name port_name : string) (rep : DiscoRep)
    : list ServiceLookupResult :=
  match rep with
  | serviceLookupRep OK sockets =>
      map (fun s => {| lr_host_name := s_host s; lr_port := s_port s;
                       lr_part_name := part_name; lr_port_name := port_name |}) sockets
  | _ => []
  end.

(** [JoinGroup]: the reply is read after its frame is destroyed; [memory] is
    what is found there. *)
Definition JoinGroup_req (pid : Z) (app_name component_id : string) (gid : GroupId)
    (services : list GroupService) : DiscoReq :=
  groupJoin {| gj_appName := app_name; gj_groupId := gid; gj_services := services;
               gj_componentId := component_id; gj_pid := pid |}.

Definition JoinGroup_rep (memory : DiscoRep) : bool :=
  match memory with groupJoinRep status => bool_decide (status = OK) | _ => false end.

(** The endpoint a client port connects to when it is told of a provider
    ([Init] and the port update of the component). *)
Definition endpoint (host : string) (port : Z) : string := tcp_endpoint host port.

End Api.

(** ** Calls against the discovery service *)

Section EndToEnd.
Context {V : Type}.
Variable seal : string -> V.
Variable InfoHash_get InfoHash : string -> string.
Variable pack : GroupDetails -> string.
Implicit Type s : Handler.

Abbreviation serve running socket port now req s :=
  (HandleRiapsMessage (V := V) seal InfoHash_get InfoHash pack running socket port now
     (Some ("client", req)) s).

(** The reply among the effects of a request. *)
Definition replies (out : list (DiscOut (V := V))) : list DiscoRep :=
  omap (fun o => match o with Replied _ rep => Some rep | _ => None end) out.

Lemma replies_app a b : replies (a ++ b) = replies a ++ replies b.
Proof. apply omap_app. Qed.

Lemma replies_zombie_marks s l : replies (zombie_marks seal InfoHash_get s l) = [].
Proof. induction l as [|x l IH]; [done|]. simpl. exact IH. Qed.

Lemma ActorReg_replies running socket port m s :
  replies (HandleActorReg (V := V) InfoHash running socket port m s).2 =
    [if match clients_ s !! clientKeyBase (ar_appName m) (ar_actorName m) with
        | Some a => running (ad_pid a) | None => false end
     then actorRegRep ERR 0 else actorRegRep OK port].
Proof.
  destruct (match clients_ s !! _ with Some a => running (ad_pid a) | None => false end) eqn:E.
  - unfold HandleActorReg, read at 1. by rewrite E.
  - rewrite (HandleActorReg_fresh InfoHash running socket port m s E). cbn [snd].
    rewrite replies_app. by destruct (bool_decide _).
Qed.


(** Registration of an actor end to end: the actor gets an endpoint to
    listen to exactly if no running process holds its name, and then the
    service writes its updates to the socket behind that endpoint. *)
Theorem register_end_to_end running socket port now pid app actor s :
  let base := clientKeyBase app actor in
  let free := match clients_ s !! base with Some a => negb (running (ad_pid a)) | None => true end in
  exists s' out rep,
    serve running socket port now (Api.RegisterActor_req pid app actor) s = Ok (s', out)
    /\ replies out = [rep]
    /\ Api.RegisterActor_rep rep =
         (if free then Some ("tcp://localhost:" +:+ to_string port) else None)
    /\ (free = true -> exists a, clients_ s' !! base = Some a /\ ad_socket a = socket /\ ad_port a = port)
    /\ (free = false -> clients_ s' = clients_ s).
Proof.
  intros base free.
  set (m := {| ar_appName := app; ar_actorName := actor; ar_pid := pid |}).
  set (s1 := set_identity "client" s).
  set (r := HandleActorReg (V := V) InfoHash running socket port m s1).
  pose proof (ActorReg_replies running socket port m s1) as Hrep. fold r in Hrep.
  exists r.1, r.2. eexists. split; [simpl; fold m s1 r; by destruct r|]. split; [exact Hrep|].
  change (clients_ s1) with (clients_ s) in *. simpl in *. fold base in Hrep |- *.
  subst free. destruct (clients_ s !! base) as [a|] eqn:Ea.
  - destruct (running (ad_pid a)) eqn:Er; simpl; (split_and!; [done|intros H|intros H]; try done).
    + subst r. unfold HandleActorReg, read at 1. simpl. fold base. by rewrite Ea, Er.
    + exists (actor_of socket port m). split_and!; [|done..]. subst r.
      rewrite HandleActorReg_clients by (unfold s1, m; simpl; fold base; by rewrite Ea, Er).
      rewrite decide_True; [done|left].
  - simpl. split_and!; [done| |done]. intros _. exists (actor_of socket port m). split_and!; [|done..]. subst r.
    rewrite HandleActorReg_clients by (unfold s1, m; simpl; fold base; by rewrite Ea).
    rewrite decide_True; [done|left].
Qed.
End EndToEnd.

(** ** Witnesses *)

