(* ===== verification/Component.v ===== *)
(** Component.v - a component: its ports, its groups and the loop of its thread
    ([include/componentmodel/r_componentbase.h],
    [src/componentmodel/r_componentbase.cc]).

    The ports are known by name and by socket; the groups are [Group] objects
    of [Group.v].  The user's handlers are effects.  What ZeroMQ, the clock and
    the random generators deliver to a group in one round is its [GroupInput]. *)

From Stdlib Require Import ZArith Lia Ascii.
From stdpp Require Import base gmap strings list fin_maps sorting.
From S2P Require Import Prelude.
From S2P Require Import Timeout.
From S2P Require Import DistCoord.
From S2P Require Import GroupLead.
From S2P Require Import Ports.
From S2P Require Import Group.
From S2P Require Import Disco.
From S2P Require Import Utils.
From S2P Require Import Timers.

#[local] Open Scope riaps_scope.

Definition CMD_UPDATE_PORT : string := "portUpdate".

#[export] Instance GroupId_countable : Countable GroupId.
Proof.
  refine (inj_countable' (fun g => (gid_type g, gid_name g))
            (fun p => {| gid_type := p.1; gid_name := p.2 |}) _).
  by intros [].
Defined.

(** ** Ports *)

Inductive PortTypes :=
| Inside | Timer | Publisher | Response | Answer | Request | Query | Subscriber.

#[export] Instance PortTypes_eq_dec : EqDecision PortTypes.
Proof. solve_decision. Defined.

(** The ports of the configuration, by type; a timer has its period. *)
Record ComponentPorts := {
  inss : list string; tims : list (string * Z); pubs : list string; reps : list string;
  anss : list string; reqs : list string; qrys : list string; subs : list string;
}.

Record Port := { p_name : string; p_type : PortTypes; p_socket : Z }.

(** The order in which the thread creates them; the flag tells whether it
    starts the port at once, as it does with a periodic timer. *)
Definition plain (t : PortTypes) (name : string) : PortTypes * string * bool := (t, name, false).

Definition port_plan (c : ComponentPorts) : list (PortTypes * string * bool) :=
  map (plain Inside) (inss c) ++ map (fun t => (Timer, t.1, negb (t.2 =? 0))) (tims c)
  ++ map (plain Publisher) (pubs c) ++ map (plain Response) (reps c) ++ map (plain Answer) (anss c)
  ++ map (plain Request) (reqs c) ++ map (plain Query) (qrys c) ++ map (plain Subscriber) (subs c).

Record Component := mkComponent {
  component_uuid_ : string;
  component_ports : ComponentPorts;
  ports_ : gmap string Port;
  portSockets : gmap Z Port;
  groups_ : gmap GroupId Group;
  timer_counter_ : Z;
  scheduled_action_ : option nat;
  firstrun : bool;
  comp_terminated : bool;
}.

Definition set_ports p q s :=
  mkComponent (component_uuid_ s) (component_ports s) p q (groups_ s) (timer_counter_ s)
    (scheduled_action_ s) (firstrun s) (comp_terminated s).
Definition set_groups g s :=
  mkComponent (component_uuid_ s) (component_ports s) (ports_ s) (portSockets s) g
    (timer_counter_ s) (scheduled_action_ s) (firstrun s) (comp_terminated s).
Definition set_schedule c a s :=
  mkComponent (component_uuid_ s) (component_ports s) (ports_ s) (portSockets s) (groups_ s) c a
    (firstrun s) (comp_terminated s).
Definition set_run f t s :=
  mkComponent (component_uuid_ s) (component_ports s) (ports_ s) (portSockets s) (groups_ s)
    (timer_counter_ s) (scheduled_action_ s) f t.

Inductive CompOut :=
| Polls (socket : Z)
| StartTimer (name : string)
| ConnectPort (name : string) (endpoint : string)
| Dispatch (name : string)
| DispatchInside (name : string)
| Received (name : string)
| RunAction (action : nat) (timerId : Z)
| Sleeps (timerId : Z) (wakeup : timespec)
| ToThread (frames : list string)
| GroupOutput (gid : GroupId) (o : GroupOut).

Definition CompCmd : Type := Cmd Component CompOut.

Definition GetPortByName (portName : string) (s : Component) : option Port := ports_ s !! portName.

(** [Get...PortByName]: the conversion fails on a port of another type. *)
Definition GetPortByNameAs (t : PortTypes) (portName : string) (s : Component) : option Port :=
  p ← GetPortByName portName s; if bool_decide (p_type p = t) then Some p else None.

(** One of the [Init...Port] functions and what the thread does next. *)
Definition init_port (sock : Z) (pl : PortTypes * string * bool) (s : Component)
    : Component * list CompOut :=
  let '(t, name, starts) := pl in
  let p := {| p_name := name; p_type := t; p_socket := sock |} in
  (set_ports (<[name := p]> (ports_ s)) (<[sock := p]> (portSockets s)) s,
   (if bool_decide (t = Publisher) then [] else [Polls sock])
   ++ (if starts then [StartTimer name] else [])).

(** The first round; [socket i] is the socket of the [i]-th port. *)
Fixpoint init_ports (socket : nat -> Z) (i : nat) (l : list (PortTypes * string * bool))
    (s : Component) : Component * list CompOut :=
  match l with
  | [] => (s, [])
  | pl :: l' =>
      let '(s1, o1) := init_port (socket i) pl s in
      let '(s2, o2) := init_ports socket (S i) l' s1 in
      (s2, o1 ++ o2)
  end.

Definition run_first (socket : nat -> Z) (s : Component) : Component * list CompOut :=
  if firstrun s
  then init_ports socket 0 (port_plan (component_ports s)) (set_run false (comp_terminated s) s)
  else (s, []).

(** [HandlePortUpdate] *)
Definition HandlePortUpdate (port_name host : string) (port : Z) : list CompOut :=
  [ToThread [CMD_UPDATE_PORT; port_name; host; to_string port]].

(** The command [portUpdate]: the remaining frames are the port, the host and
    the port number; a missing frame ends the handling. *)
Definition on_update_port (frames : list string) (s : Component) : list CompOut :=
  match frames with
  | portname :: host :: port :: _ =>
      match GetPortByName portname s with
      | Some p =>
          if bool_decide (p_type p = Subscriber) || bool_decide (p_type p = Request)
             || bool_decide (p_type p = Query)
          then [ConnectPort portname ("tcp://" +:+ host +:+ ":" +:+ port)] else []
      | None => []
      end
  | _ => []
  end.

(** A message on another socket of the poller.  The messages of answer and
    query ports are read and dropped; [received] tells whether they have the
    frames expected, without which [body] is an indeterminate pointer. *)
Definition on_port (received : bool) (sock : Z) (s : Component) : Res (list CompOut) :=
  match portSockets s !! sock with
  | None => UB
  | Some p =>
      match p_type p with
      | Answer | Query => if received then Ok [Received (p_name p)] else UB
      | Inside => Ok (if received then [DispatchInside (p_name p)] else [])
      | Response | Request | Subscriber | Timer => Ok [Dispatch (p_name p)]
      | Publisher => Ok []
      end
  end.

(** ** Groups *)

(** What a group reads in one round: the clock and the error of the ping, the
    readings and draws of [FetchNextMessage], and what its poller returned. *)
Record GroupInput := { gi_now : Z; gi_zerr : option Z; gi_env : Env; gi_polled : Polled }.

Definition group_round (i : GroupInput) (g : Group) : Res (Group * list GroupOut) :=
  '(c, o1, _) ← SendPingWithPeriod (gi_now i) (gi_zerr i) (core g);
  '(g', o2) ← FetchNextMessage (gi_env i) (gi_polled i) (set_core c g);
  Ok (g', o1 ++ o2).

(** The map of groups in the order of [operator<]. *)
Definition gid_le (p q : GroupId * Group) : Prop := GroupId_lt q.1 p.1 = false.
#[export] Instance gid_le_dec p q : Decision (gid_le p q).
Proof. unfold gid_le. apply _. Defined.
Definition groups_list (m : gmap GroupId Group) : list (GroupId * Group) :=
  merge_sort gid_le (map_to_list m).

Fixpoint group_rounds (inputs : GroupId -> GroupInput) (l : list (GroupId * Group))
    (m : gmap GroupId Group) : Res (gmap GroupId Group * list CompOut) :=
  match l with
  | [] => Ok (m, [])
  | (gid, g) :: l' =>
      '(g', o) ← group_round (inputs gid) g;
      '(m', os) ← group_rounds inputs l' (<[gid := g']> m);
      Ok (m', map (GroupOutput gid) o ++ os)
  end.

Definition all_group_rounds (inputs : GroupId -> GroupInput) (s : Component)
    : Res (Component * list CompOut) :=
  '(m, o) ← group_rounds inputs (groups_list (groups_ s)) (groups_ s);
  Ok (set_groups m s, o).

(** [UpdateGroup] *)
Definition UpdateGroup (u : GroupUpdate) (s : Component) : list CompOut :=
  match groups_ s !! gu_groupId u with
  | Some g => map (GroupOutput (gu_groupId u)) (ConnectToNewServices (gu_services u) (core g))
  | None => []
  end.

(** ** The loop *)

Inductive CompEvent :=
| CIdle
| CPipe (msg : option (list string))
| CPipeGroup (body : option GroupUpdate)
| COneShot (timerId : Z)
| CControl
| CPort (sock : Z) (received : bool).

(** The part of a round that depends on what the poller returned: the state and
    whether the loop is left. *)
Definition on_event (ev : CompEvent) (s : Component) : Res (Component * list CompOut * bool) :=
  match ev with
  | CIdle => Ok (s, [], false)
  | CPipe None => Ok (s, [], true)
  | CPipe (Some []) => UB
  | CPipe (Some (command :: frames)) =>
      if bool_decide (command = "$TERM") then Ok (set_run (firstrun s) true s, [], false)
      else if bool_decide (command = CMD_UPDATE_PORT) then Ok (s, on_update_port frames s, false)
      else Ok (s, [], false)
  | CPipeGroup body => u ← deref body; Ok (s, UpdateGroup u s, false)
  | COneShot timerId =>
      match scheduled_action_ s with
      | Some a => Ok (s, [RunAction a timerId], false)
      | None => Throw bad_function_call
      end
  | CControl => UB
  | CPort sock received => o ← on_port received sock s; Ok (s, o, false)
  end.

(** One round of [component_actor]; [None] instead of a state: the loop is left
    without the groups' turn. *)
Definition CompStep (socket : nat -> Z) (inputs : GroupId -> GroupInput) (ev : CompEvent)
    (s : Component) : Res (Component * list CompOut) :=
  let '(s, o1) := run_first socket s in
  '(s, o2, leaves) ← on_event ev s;
  if (leaves : bool) then Ok (set_run (firstrun s) true s, o1 ++ o2)
  else
    '(s, o3) ← all_group_rounds inputs s;
    Ok (s, o1 ++ o2 ++ o3).

(** ** The functions for the user's code *)

Definition getGroupById (gid : GroupId) (s : Component) : option Group := groups_ s !! gid.

Definition IsMemberOf (gid : GroupId) (s : Component) : bool :=
  existsb (fun p => GroupId_eqb p.1 gid) (groups_list (groups_ s)).

Definition GetGroupMemberships (s : Component) : list GroupId := map fst (groups_list (groups_ s)).

Definition GetGroupMembershipsByType (groupType : string) (s : Component) : list GroupId :=
  List.filter (fun g => bool_decide (gid_type g = groupType)) (GetGroupMemberships s).

Definition GetLeaderId (gid : GroupId) (s : Component) : string :=
  match groups_ s !! gid with Some g => leader_id g | None => "" end.

Definition IsLeader_group (g : Group) (s : Component) : bool :=
  bool_decide (component_uuid_ s = leader_id g).

Definition IsLeader (gid : GroupId) (s : Component) : bool :=
  match getGroupById gid s with Some g => IsLeader_group g s | None => false end.

Definition IsLeaderAvailable (gid : GroupId) (s : Component) : bool :=
  match groups_ s !! gid with Some g => negb (bool_decide (leader_id g = "")) | None => false end.

(** Counting deletes the members that have timed out. *)
Definition GetGroupMemberCount (now : Z) (gid : GroupId) (s : Component) : Z * Component :=
  match groups_ s !! gid with
  | None => (0, s)
  | Some g =>
      let '(n, c) := GetMemberCount now (core g) in
      (n, set_groups (<[gid := set_core c g]> (groups_ s)) s)
  end.

(** What [JoinGroup] meets outside: the configuration of the group's type, and
    the environment of [InitGroup]. *)
Record JoinEnv := {
  je_now : Z; je_uninit : GroupTypeConf; je_conf : option GroupTypeConf;
  je_socket : nat -> Z; je_address : nat -> string; je_joined : bool;
  je_now1 : Z; je_now2 : Z; je_draw : Z;
}.

Definition JoinGroup (e : JoinEnv) (gid : GroupId) (s : Component)
    : Component * list CompOut * bool :=
  match groups_ s !! gid with
  | Some _ => (s, [], false)
  | None =>
      let '(g, o, ok) := InitGroup (je_socket e) (je_address e) (je_joined e) (je_now1 e) (je_now2 e)
        (je_draw e) (je_conf e) (new_Group (je_now e) (je_uninit e) gid (component_uuid_ s)) in
      (if (ok : bool) then set_groups (<[gid := g]> (groups_ s)) s else s, map (GroupOutput gid) o, ok)
  end.

(** [LeaveGroup(GroupId&)], and [LeaveGroup(GroupId&&)], which joins. *)
Definition LeaveGroup (gid : GroupId) (s : Component) : Component * bool :=
  match groups_ s !! gid with
  | None => (s, false)
  | Some _ => (set_groups (delete gid (groups_ s)) s, true)
  end.

Definition LeaveGroup_rvalue (e : JoinEnv) (gid : GroupId) (s : Component)
    : Component * list CompOut * bool := JoinGroup e gid s.

(** The functions that only send: on an unknown group they return false. *)
Definition with_group {A} (gid : GroupId) (s : Component) (failed : A)
    (f : Group -> list GroupOut * A) : list CompOut * A :=
  match groups_ s !! gid with
  | None => ([], failed)
  | Some g => let '(o, r) := f g in (map (GroupOutput gid) o, r)
  end.

Definition SendGroupMessage zerr (gid : GroupId) (message : Frame) (portName : string) s :=
  with_group gid s false (fun g => SendMessage zerr message portName (core g)).

Definition Component_SendMessageToLeader zerr (gid : GroupId) (message : Frame) s :=
  with_group gid s false (SendMessageToLeader zerr message).

Definition Component_SendLeaderMessage zerr (gid : GroupId) (message : Frame) s :=
  with_group gid s false (fun g =>
    if negb (IsLeader_group g s) then ([], false) else SendLeaderMessage zerr message g).

(** [uuid] is the generated id of the proposal. *)
Definition SendPropose zerr (gid : GroupId) (message : Frame) (uuid : string) s :=
  with_group gid s "" (fun g =>
    let '(o, ok) := ProposeValueToLeader zerr message uuid g in (o, if (ok : bool) then uuid else "")).

Definition ProposeAction zerr (gid : GroupId) (actionId : string) (absTime : TimeSpec) (uuid : string) s :=
  with_group gid s "" (fun g =>
    let '(o, ok) := ProposeActionToLeader zerr uuid actionId absTime g in
    (o, if (ok : bool) then uuid else "")).

Definition Component_SendVote zerr (gid : GroupId) (proposeId : string) (accept : bool) s :=
  with_group gid s false (fun g => SendVote zerr proposeId accept (core g)).

(** ** Scheduling: the id of the timer and its thread's wake-up time *)

Definition ScheduleAbsTimer (tp : timespec) (wakeupOffset : Z) (s : Component)
    : Component * list CompOut * Z :=
  let timerId := timer_counter_ s in
  (set_schedule (u64 (timerId + 1)) (scheduled_action_ s) s,
   [Sleeps timerId (earlyWakeup tp wakeupOffset)], timerId).

Definition ScheduleAction (tp : timespec) (action : nat) (wakeupOffset : Z) (s : Component)
    : Component * list CompOut * Z :=
  let timerId := timer_counter_ s in
  (set_schedule (u64 (timerId + 1)) (Some action) s,
   [Sleeps timerId (earlyWakeup tp wakeupOffset)], timerId).

(** ** Facts: groups *)

Lemma GroupId_eqb_eq a b : GroupId_eqb a b = true <-> a = b.
Proof.
  unfold GroupId_eqb. rewrite andb_true_iff, !bool_decide_eq_true. destruct a, b; simpl.
  split; [by intros [-> ->]|by intros [= -> ->]].
Qed.

Lemma elem_of_groups_list m gid g : (gid, g) ∈ groups_list m <-> m !! gid = Some g.
Proof. unfold groups_list. rewrite merge_sort_Permutation. apply elem_of_map_to_list. Qed.

Lemma NoDup_groups_list m : NoDup (map fst (groups_list m)).
Proof. unfold groups_list. rewrite merge_sort_Permutation. apply NoDup_fst_map_to_list. Qed.

Lemma IsMemberOf_iff gid s : IsMemberOf gid s = true <-> is_Some (groups_ s !! gid).
Proof.
  unfold IsMemberOf. rewrite existsb_exists. split.
  - intros ([k g] & Hin%list_elem_of_In%elem_of_groups_list & Heq%GroupId_eqb_eq). simpl in Heq. subst. by exists g.
  - intros [g Hg]. exists (gid, g). split; [by apply list_elem_of_In, elem_of_groups_list|by apply GroupId_eqb_eq].
Qed.

(** Membership of groups: joining succeeds exactly on a group the component
    is not in, whose type is configured, and that the discovery service
    accepts, and then adds that membership and no other; leaving succeeds
    exactly on a group it is in and removes that membership and no other; a
    component that joins and leaves has the groups it had before. *)
Theorem join_leave e gid s :
  let '(s1, _, joined) := JoinGroup e gid s in
  let '(s2, has_left) := LeaveGroup gid s in
  (joined = true <-> IsMemberOf gid s = false /\ is_Some (je_conf e) /\ je_joined e = true)
  /\ (forall g, IsMemberOf g s1 = true <-> IsMemberOf g s = true \/ (joined = true /\ g = gid))
  /\ (has_left = true <-> IsMemberOf gid s = true)
  /\ (forall g, IsMemberOf g s2 = true <-> IsMemberOf g s = true /\ g <> gid)
  /\ (joined = true -> groups_ (LeaveGroup gid s1).1 = groups_ s).
Proof.
  unfold JoinGroup, LeaveGroup, InitGroup.
  pose proof (IsMemberOf_iff gid s) as Hm.
  destruct (groups_ s !! gid) as [g0|] eqn:Eg.
  - assert (IsMemberOf gid s = true) as Hm1 by (apply Hm; by eexists). split_and!.
    + rewrite Hm1. split; [done|by intros [? _]].
    + intros g. split; [by left|by intros [?|[? _]]].
    + done.
    + intros g. rewrite !IsMemberOf_iff. simpl. destruct (decide (gid = g)) as [<-|Hne].
      * rewrite lookup_delete_eq. split; [by intros [? ?]|by intros [_ ?]].
      * rewrite lookup_delete_ne by done. split; [by auto|by intros [? _]].
    + done.
  - assert (IsMemberOf gid s = false) as Hm1.
    { apply not_true_is_false. rewrite Hm. by intros [? ?]. }
    destruct (je_conf e) as [conf|]; [destruct (je_joined e)|]; simpl.
    + split_and!.
      * split; [intros _; split_and!; [done|by eexists|done]|done].
      * intros g. rewrite !IsMemberOf_iff. simpl. destruct (decide (gid = g)) as [<-|Hne].
        -- rewrite lookup_insert_eq. split; [by right|by eexists].
        -- rewrite lookup_insert_ne by done. split; [by left|by intros [?|[_ ->]]].
      * split; [done|by rewrite Hm1].
      * intros g. split; [|by intros [? _]]. intros Hg. split; [done|]. intros ->. congruence.
      * intros _. rewrite lookup_insert_eq. simpl. by apply delete_insert_id.
    + split_and!; [split; [done|by intros (_ & _ & ?)]| | | |done].
      * intros g. split; [by left|by intros [?|[? _]]].
      * split; [done|by rewrite Hm1].
      * intros g. split; [|by intros [? _]]. intros Hg. split; [done|]. intros ->. congruence.
    + split_and!; [split; [done|by intros (_ & [? ?] & _)]| | | |done].
      * intros g. split; [by left|by intros [?|[? _]]].
      * split; [done|by rewrite Hm1].
      * intros g. split; [|by intros [? _]]. intros Hg. split; [done|]. intros ->. congruence.
Qed.

(** Leaving a group that is named by a temporary does not leave it: the
    overload for rvalues joins, so a member stays a member and is told that the
    call failed, and a component that is not a member may become one. *)
Theorem LeaveGroup_rvalue_stays e gid s :
  let '(s1, o, ok) := LeaveGroup_rvalue e gid s in
  (IsMemberOf gid s = true -> s1 = s /\ o = [] /\ ok = false)
  /\ (IsMemberOf gid s = false -> is_Some (je_conf e) -> je_joined e = true ->
        ok = true /\ IsMemberOf gid s1 = true).
Proof.
  unfold LeaveGroup_rvalue, JoinGroup, InitGroup.
  pose proof (IsMemberOf_iff gid s) as Hm. destruct (groups_ s !! gid) as [g0|] eqn:Eg.
  - cbn. split; [done|]. intros Hf. rewrite (proj2 Hm) in Hf by (by eexists). done.
  - destruct (je_conf e) as [conf|]; [|split; [intros Ht; by apply Hm in Ht as [? ?]|by intros _ [? ?]]].
    cbn. destruct (je_joined e); (split; [intros Ht; by apply Hm in Ht as [? ?]|]); [|done].
    intros _ _ _. split; [done|]. apply IsMemberOf_iff. simpl. rewrite lookup_insert_eq. by eexists.
Qed.

Lemma group_rounds_lookup inputs l m m' os :
  group_rounds inputs l m = Ok (m', os) -> NoDup (map fst l) ->
  (forall gid, gid ∉ map fst l -> m' !! gid = m !! gid)
  /\ (forall gid g, (gid, g) ∈ l -> exists g' o,
        group_round (inputs gid) g = Ok (g', o) /\ m' !! gid = Some g'
        /\ forall x, x ∈ o -> GroupOutput gid x ∈ os).
Proof.
  revert m m' os. induction l as [|[gid g] l IH]; intros m m' os H Hnd; simpl in H.
  { injection H as <- <-. split; [done|]. by intros gid g ?%elem_of_nil. }
  inv_bind H. destruct x as [g' o]. inv_bind H. destruct x as [m1 os1]. injection H as <- <-.
  apply NoDup_cons in Hnd as [Hnin Hnd]. destruct (IH _ _ _ E0 Hnd) as [IH1 IH2]. split.
  - intros gid' [Hne Hin]%not_elem_of_cons. rewrite IH1 by done. by apply lookup_insert_ne.
  - intros gid' g0 [[= -> ->]|Hin]%elem_of_cons.
    + exists g', o. split_and!; [done|by rewrite IH1, lookup_insert_eq|].
      intros x Hx. apply elem_of_app. left. by apply list_elem_of_fmap_2.
    + destruct (IH2 gid' g0 Hin) as (g1 & o1 & Hg & Hm & Ho). exists g1, o1. split_and!; [done..|].
      intros x Hx. apply elem_of_app. right. by apply Ho.
Qed.

(** Neither the ports nor the event change the groups. *)
Lemma init_ports_groups socket i l s : groups_ (init_ports socket i l s).1 = groups_ s.
Proof.
  revert i s. induction l as [|[[t n] b] l IH]; intros i s; [done|]. cbn [init_ports init_port].
  specialize (IH (S i) (set_ports (<[n := {| p_name := n; p_type := t; p_socket := socket i |}]> (ports_ s))
    (<[socket i := {| p_name := n; p_type := t; p_socket := socket i |}]> (portSockets s)) s)).
  destruct (init_ports socket (S i) l _). exact IH.
Qed.

Lemma run_first_groups socket s : groups_ (run_first socket s).1 = groups_ s.
Proof. unfold run_first. destruct (firstrun s); [|done]. by rewrite init_ports_groups. Qed.

Lemma on_event_groups ev s s' o b : on_event ev s = Ok (s', o, b) -> groups_ s' = groups_ s.
Proof.
  destruct ev as [|[[|c f]|]|body|t| |k r]; simpl; try done; try (by intros [= <- _ _]).
  - repeat case_bool_decide; by intros [= <- _ _].
  - intros H. inv_bind H. by injection H as <- _ _.
  - destruct (scheduled_action_ s); [|done]. by intros [= <- _ _].
  - intros H. inv_bind H. by injection H as <- _ _.
Qed.

(** The groups' turn: in every round that is not the last one, each group
    of the component sends its ping and reads one message, exactly once, on its
    own state and input; whatever happened on the other groups and ports, no
    group is skipped, served twice, or gets another group's message. *)
Theorem each_group_once socket inputs ev s s' out :
  CompStep socket inputs ev s = Ok (s', out) -> ev <> CPipe None ->
  forall gid,
    match groups_ s !! gid with
    | None => groups_ s' !! gid = None
    | Some g => exists g' o, group_round (inputs gid) g = Ok (g', o) /\ groups_ s' !! gid = Some g'
                  /\ forall x, x ∈ o -> GroupOutput gid x ∈ out
    end.
Proof.
  intros H Hev gid. unfold CompStep in H. pose proof (run_first_groups socket s) as Hf.
  destruct (run_first socket s) as [s1 o1]. simpl in Hf. inv_bind H. destruct x as [[s2 o2] b].
  pose proof (on_event_groups _ _ _ _ _ E) as He. rewrite Hf in He.
  assert (b = false) as ->.
  { destruct ev as [|[[|c f]|]|body|t| |k r]; simpl in E; try done; try (by injection E as _ _ <-).
    - revert E. repeat case_bool_decide; by intros [= _ _ <-].
    - inv_bind E. by injection E as _ _ <-.
    - destruct (scheduled_action_ s1); [|done]. by injection E as _ _ <-.
    - inv_bind E. by injection E as _ _ <-. }
  inv_bind H. destruct x as [s3 o3]. injection H as <- <-.
  unfold all_group_rounds in E0. inv_bind E0. destruct x as [m os]. injection E0 as <- <-. simpl.
  rewrite He in E1.
  destruct (group_rounds_lookup _ _ _ _ _ E1 (NoDup_groups_list _)) as [H1 H2].
  destruct (groups_ s !! gid) as [g|] eqn:Eg.
  - destruct (H2 gid g) as (g' & o & Hg & Hm & Ho); [by apply elem_of_groups_list|].
    exists g', o. split_and!; [done..|]. intros x Hx. rewrite !elem_of_app. right. right. by apply Ho.
  - rewrite H1; [done|]. intros ([k g] & -> & Hin%elem_of_groups_list)%list_elem_of_fmap. simpl in Eg. congruence.
Qed.

(** ** Facts: ports *)

Lemma init_ports_lookup socket i l s :
  NoDup (map (fun pl => pl.1.2) l) ->
  (forall n, n ∉ map (fun pl => pl.1.2) l -> ports_ (init_ports socket i l s).1 !! n = ports_ s !! n)
  /\ (forall t n b, (t, n, b) ∈ l -> exists p, ports_ (init_ports socket i l s).1 !! n = Some p
        /\ p_type p = t /\ p_name p = n).
Proof.
  revert i s. induction l as [|[[t n] b] l IH]; intros i s Hnd.
  { split; [done|]. by intros t n b ?%elem_of_nil. }
  apply NoDup_cons in Hnd as [Hnin Hnd]. cbn [init_ports init_port].
  destruct (IH (S i) (set_ports (<[n := {| p_name := n; p_type := t; p_socket := socket i |}]> (ports_ s))
    (<[socket i := {| p_name := n; p_type := t; p_socket := socket i |}]> (portSockets s)) s) Hnd) as [H1 H2].
  destruct (init_ports socket (S i) l _) as [s' o]. simpl in *. split.
  - intros n' [Hne Hin]%not_elem_of_cons. rewrite H1 by done. by apply lookup_insert_ne.
  - intros t' n' b' [[= -> -> ->]|Hin]%elem_of_cons; [|by eapply H2].
    eexists. rewrite H1 by done. rewrite lookup_insert_eq. done.
Qed.

Definition connects (t : PortTypes) : bool :=
  bool_decide (t = Subscriber) || bool_decide (t = Request) || bool_decide (t = Query).

(** A port update reaches its port: the message that [HandlePortUpdate]
    sends to the component's thread makes, once the thread has created the
    configured ports, exactly the subscriber, request or query port of that
    name connect to the provider's endpoint; for another type of port or an
    unknown name nothing is connected. *)
Theorem port_update_end_to_end socket s name host port frames s' out b :
  firstrun s = true -> ports_ s = ∅ ->
  NoDup (map (fun pl => pl.1.2) (port_plan (component_ports s))) ->
  HandlePortUpdate name host port = [ToThread frames] ->
  on_event (CPipe (Some frames)) (run_first socket s).1 = Ok (s', out, b) ->
  (forall n ep, ConnectPort n ep ∈ out <->
     n = name /\ ep = tcp_endpoint host port
     /\ exists t st, connects t = true /\ (t, name, st) ∈ port_plan (component_ports s))
  /\ (length out <= 1)%nat.
Proof.
  intros Hf Hp Hnd [= <-] H. unfold run_first in H. rewrite Hf in H.
  destruct (init_ports_lookup socket 0 _ (set_run false (comp_terminated s) s) Hnd) as [H1 H2].
  destruct (init_ports socket 0 _ _) as [s1 o1]. cbn [fst] in *. simpl in H.
  injection H as _ <- _. unfold GetPortByName.
  destruct (decide (name ∈ map (fun pl => pl.1.2) (port_plan (component_ports s)))) as [Hin|Hin].
  - apply list_elem_of_fmap in Hin as ([[t n] st] & Hn & Hin). simpl in Hn. subst n.
    destruct (H2 t name st Hin) as (p & -> & Ht & _). rewrite Ht.
    assert (forall t' st', (t', name, st') ∈ port_plan (component_ports s) -> t' = t) as Huniq.
    { intros t' st' Hin'. destruct (H2 t' name st' Hin') as (p' & Hp' & <- & _).
      destruct (H2 t name st Hin) as (p'' & Hp'' & <- & _). congruence. }
    change (bool_decide (t = Subscriber) || bool_decide (t = Request) || bool_decide (t = Query)) with (connects t).
    destruct (connects t) eqn:Ec; (split; [|simpl; lia]); intros n ep.
    + rewrite list_elem_of_singleton. split; [intros [= -> ->]; split_and!; [done..|by exists t, st]|].
      by intros (-> & -> & _).
    + split; [by intros ?%elem_of_nil|]. intros (_ & _ & t' & st' & Hc & Hin'%Huniq). congruence.
  - rewrite H1 by done. simpl. rewrite Hp, lookup_empty. split; [|simpl; lia]. intros n ep.
    split; [by intros ?%elem_of_nil|]. intros (_ & _ & t & st & _ & Hin'). exfalso. apply Hin.
    apply list_elem_of_fmap. by exists (t, name, st).
Qed.

(** ** Witnesses *)

Definition demo_ports : ComponentPorts :=
  {| inss := []; tims := [("clock", 500)]; pubs := ["out"]; reps := []; anss := []; reqs := [];
     qrys := []; subs := ["in"] |}.

Definition demo_component : Component := mkComponent "me" demo_ports ∅ ∅ ∅ 0 None true false.

Lemma port_update_end_to_end_witness :
  ConnectPort "in" "tcp://10.0.0.1:5555" ∈
    on_update_port ["in"; "10.0.0.1"; "5555"] (run_first Z.of_nat demo_component).1.
Proof.
  edestruct (port_update_end_to_end Z.of_nat demo_component "in" "10.0.0.1" 5555
    [CMD_UPDATE_PORT; "in"; "10.0.0.1"; "5555"]) as [H _];
    [reflexivity|reflexivity| |reflexivity|reflexivity|].
  - apply NoDup_ListNoDup. repeat constructor; simpl; intuition discriminate.
  - apply H. split_and!; [reflexivity|reflexivity|]. exists Subscriber, false. split; [reflexivity|].
    vm_compute. right. right. left.
Defined.

Definition demo_conf : GroupTypeConf :=
  {| group_type_id := "T"; group_pubs := []; group_subs := []; has_leader := false;
     has_consensus := false |}.

Definition demo_gid : GroupId := {| gid_type := "T"; gid_name := "g" |}.

Definition demo_join : JoinEnv :=
  {| je_now := 0; je_uninit := demo_conf; je_conf := Some demo_conf; je_socket := Z.of_nat;
     je_address := fun _ => "10.0.0.2:1"; je_joined := true; je_now1 := 0; je_now2 := 0; je_draw := 200 |}.

Definition demo_member : Component := (JoinGroup demo_join demo_gid demo_component).1.1.

Definition demo_input (_ : GroupId) : GroupInput :=
  {| gi_now := 1; gi_zerr := None;
     gi_env := {| e_now := 1; e_heartbeat_draw := 0; e_election_draw := 0; e_clk := fun _ => 1;
                  e_order := []; e_junk := false |};
     gi_polled := NoMessage |}.

Lemma each_group_once_witness :
  exists s' out g', CompStep Z.of_nat demo_input CIdle demo_member = Ok (s', out)
    /\ groups_ s' !! demo_gid = Some g'.
Proof.
  destruct (CompStep Z.of_nat demo_input CIdle demo_member) as [[s' out]| |] eqn:E; [|by vm_compute in E..].
  pose proof (each_group_once Z.of_nat demo_input CIdle demo_member s' out E ltac:(discriminate) demo_gid) as H.
  assert (exists g, groups_ demo_member !! demo_gid = Some g) as [g Hg] by (eexists; reflexivity).
  rewrite Hg in H. destruct H as (g' & o & _ & H & _). by exists s', out, g'.
Defined.
