(* ===== verification/Handlers.v ===== *)
(** Handlers.v - a turn of a component's thread in which the user's handlers
    call back: the loop over the groups of [src/componentmodel/r_componentbase.cc]
    with an iterator into the map that the handlers may change.

    [Component.v]'s [CompStep] is the turn of a component whose handlers do not
    touch the groups.  Here a turn is cut into its single acts - the event, the
    round of one group, one call of the user's code - and the loop of the code
    is shown to be a sequence of them, with the conditions under which the
    iterator stays valid. *)

From Stdlib Require Import ZArith Lia Sorted.
From stdpp Require Import base gmap strings list fin_maps fin_sets sorting.
From S2P Require Import Prelude.
From S2P Require Import DistCoord.
From S2P Require Import GroupLead.
From S2P Require Import Ports.
From S2P Require Import Group.
From S2P Require Import Component.

#[local] Open Scope riaps_scope.

(** ** The acts of a component *)

(** What the user's code calls on a group.  The messages are built by the
    caller; [uuid] is a generated id. *)
Inductive Call :=
| CallSend (zerr : option Z) (message : Frame) (portName : string)
| CallToLeader (zerr : option Z) (message : Frame)
| CallFromLeader (zerr : option Z) (message : Frame)
| CallPropose (zerr : option Z) (message : Frame) (uuid : string)
| CallProposeAction (zerr : option Z) (actionId : string) (absTime : TimeSpec) (uuid : string)
| CallVote (zerr : option Z) (proposeId : string) (accept : bool)
| CallCount (now : Z)
| CallJoin (e : JoinEnv)
| CallLeave.

Definition api_call (gid : GroupId) (c : Call) (s : Component) : Component * list CompOut :=
  match c with
  | CallSend zerr m port => (s, (SendGroupMessage zerr gid m port s).1)
  | CallToLeader zerr m => (s, (Component_SendMessageToLeader zerr gid m s).1)
  | CallFromLeader zerr m => (s, (Component_SendLeaderMessage zerr gid m s).1)
  | CallPropose zerr m uuid => (s, (SendPropose zerr gid m uuid s).1)
  | CallProposeAction zerr a t uuid => (s, (ProposeAction zerr gid a t uuid s).1)
  | CallVote zerr pid accept => (s, (Component_SendVote zerr gid pid accept s).1)
  | CallCount now => ((GetGroupMemberCount now gid s).2, [])
  | CallJoin e => (JoinGroup e gid s).1
  | CallLeave => ((LeaveGroup gid s).1, [])
  end.

Definition is_join (c : Call) : bool := match c with CallJoin _ => true | _ => false end.
Definition is_leave (c : Call) : bool := match c with CallLeave => true | _ => false end.

(** The part of a turn before the groups. *)
Definition event_step (socket : nat -> Z) (ev : CompEvent) (s : Component)
    : Res (Component * list CompOut * bool) :=
  let '(s, o1) := run_first socket s in
  '(s, o2, leaves) ← on_event ev s;
  Ok (if (leaves : bool) then set_run (firstrun s) true s else s, o1 ++ o2, leaves).

(** The round of one group: [SendPingWithPeriod] and [FetchNextMessage]. *)
Definition round_step (gid : GroupId) (i : GroupInput) (s : Component) : Res (Component * list CompOut) :=
  g ← deref (groups_ s !! gid);
  '(g', o) ← group_round i g;
  Ok (set_groups (<[gid := g']> (groups_ s)) s, map (GroupOutput gid) o).

Inductive Act :=
| Event (socket : nat -> Z) (ev : CompEvent)
| Round (gid : GroupId) (i : GroupInput)
| Calls (gid : GroupId) (c : Call).

Definition act (a : Act) (s : Component) : Res (Component * list CompOut) :=
  match a with
  | Event socket ev => '(s', o, _) ← event_step socket ev s; Ok (s', o)
  | Round gid i => round_step gid i s
  | Calls gid c => Ok (api_call gid c s)
  end.

Fixpoint acts (l : list Act) (s : Component) : Res (Component * list CompOut) :=
  match l with
  | [] => Ok (s, [])
  | a :: l' => '(s1, o1) ← act a s; '(s2, o2) ← acts l' s1; Ok (s2, o1 ++ o2)
  end.

(** ** The loop over the groups *)

(** [++it] on the map of groups: the first group after the key [k]. *)
Definition after_key (k : option GroupId) (gid : GroupId) : bool :=
  match k with Some k => GroupId_lt k gid | None => true end.
Definition groups_from (k : option GroupId) (m : gmap GroupId Group) : list (GroupId * Group) :=
  List.filter (fun p => after_key k p.1) (groups_list m).
Definition next_group (k : option GroupId) (m : gmap GroupId Group) : option (GroupId * Group) :=
  head (groups_from k m).

(** The effects that are calls of the user's handlers. *)
Definition calls_user (o : CompOut) : bool :=
  match o with
  | Dispatch _ | DispatchInside _ | RunAction _ _ => true
  | GroupOutput _ (OnGroupMessage _ _) | GroupOutput _ (OnMessageToLeader _ _)
  | GroupOutput _ (OnPropose _ _ _) | GroupOutput _ (OnActionPropose _ _ _ _)
  | GroupOutput _ (OnAnnounce _ _ _) => true
  | _ => false
  end.

Section Handlers.
(** What the user's handlers call on the groups. *)
Variable handler : CompOut -> list (GroupId * Call).

Definition reaction (o : list CompOut) : list (GroupId * Call) := concat (map handler (List.filter calls_user o)).

Fixpoint user_calls (l : list (GroupId * Call)) (s : Component) : Component * list CompOut :=
  match l with
  | [] => (s, [])
  | (gid, c) :: l' =>
      let '(s1, o1) := api_call gid c s in
      let '(s2, o2) := user_calls l' s1 in (s2, o1 ++ o2)
  end.

(** A handler that leaves the group it is called for destroys the group whose
    function is running and the element that the iterator stands on. *)
Definition leaves_group (gid : GroupId) (l : list (GroupId * Call)) : bool :=
  existsb (fun c => bool_decide (c.1 = gid) && is_leave c.2) l.

(** The loop, from the first key after [k]; the flag tells whether it has come
    to its end. *)
Fixpoint rounds_from (fuel : nat) (inputs : GroupId -> GroupInput) (k : option GroupId) (s : Component)
    : Res (Component * list CompOut * bool) :=
  match fuel with
  | O => Ok (s, [], false)
  | S fuel' =>
      match next_group k (groups_ s) with
      | None => Ok (s, [], true)
      | Some (gid, _) =>
          '(s1, o1) ← round_step gid (inputs gid) s;
          let calls := reaction o1 in
          if leaves_group gid calls then UB
          else
            let '(s2, o2) := user_calls calls s1 in
            '(s3, o3, ended) ← rounds_from fuel' inputs (Some gid) s2;
            Ok (s3, o1 ++ o2 ++ o3, ended)
      end
  end.

(** A turn of [component_actor]. *)
Definition HandlerStep (fuel : nat) (socket : nat -> Z) (inputs : GroupId -> GroupInput) (ev : CompEvent)
    (s : Component) : Res (Component * list CompOut * bool) :=
  '(s1, o1, leaves) ← event_step socket ev s;
  if (leaves : bool) then Ok (s1, o1, true)
  else
    let '(s2, o2) := user_calls (reaction o1) s1 in
    '(s3, o3, ended) ← rounds_from fuel inputs None s2;
    Ok (s3, o1 ++ o2 ++ o3, ended).
End Handlers.

(** ** The order of the iteration *)

Lemma gid_lt_irrefl a : GroupId_lt a a = false.
Proof. by destruct (GroupId_order a a a) as [H _]. Qed.
Lemma gid_lt_trans a b c : GroupId_lt a b = true -> GroupId_lt b c = true -> GroupId_lt a c = true.
Proof. by destruct (GroupId_order a b c) as (_ & H & _). Qed.
Lemma gid_lt_total a b : GroupId_lt a b = true \/ a = b \/ GroupId_lt b a = true.
Proof.
  destruct (GroupId_order a b b) as (_ & _ & Ht & He).
  destruct (GroupId_lt a b) eqn:E1; [by left|]. destruct (GroupId_lt b a) eqn:E2; [by right; right|].
  right. left. apply He, Ht. done.
Qed.

Definition key_before (p q : GroupId * Group) : Prop := GroupId_lt p.1 q.1 = true.

#[export] Instance gid_le_total : Total gid_le.
Proof.
  intros p q. unfold gid_le. destruct (GroupId_lt q.1 p.1) eqn:E; [right|by left].
  destruct (GroupId_lt p.1 q.1) eqn:E'; [|done]. pose proof (gid_lt_trans _ _ _ E E') as H.
  by rewrite gid_lt_irrefl in H.
Qed.
#[export] Instance gid_le_trans : Transitive gid_le.
Proof.
  intros p q r Hpq Hqr. unfold gid_le in *. apply not_true_iff_false. intros Hrp.
  destruct (gid_lt_total p.1 q.1) as [H|[H|H]]; [|rewrite H in *; congruence|congruence].
  rewrite (gid_lt_trans _ _ _ Hrp H) in Hqr. done.
Qed.
#[export] Instance key_before_antisymm : AntiSymm (=) key_before.
Proof.
  intros p q Hp Hq. unfold key_before in *. pose proof (gid_lt_trans _ _ _ Hp Hq) as H.
  by rewrite gid_lt_irrefl in H.
Qed.

Lemma strictly_sorted l : StronglySorted gid_le l -> NoDup (map fst l) -> StronglySorted key_before l.
Proof.
  induction 1 as [|p l Hl IH Hp]; simpl; intros Hnd; [constructor|]. apply NoDup_cons in Hnd as [Hnin Hnd].
  constructor; [by apply IH|]. rewrite Forall_forall in *. intros q Hq. unfold key_before.
  destruct (gid_lt_total p.1 q.1) as [H|[H|H]]; [done| |].
  - destruct Hnin. rewrite H. by apply list_elem_of_fmap_2.
  - specialize (Hp q Hq). unfold gid_le in Hp. congruence.
Qed.

Lemma filter_sorted (P : GroupId * Group -> bool) l :
  StronglySorted key_before l -> StronglySorted key_before (List.filter P l).
Proof.
  induction 1 as [|p l Hl IH Hp]; simpl; [constructor|]. destruct (P p); [|done]. constructor; [done|].
  rewrite Forall_forall in *. intros q [Hq _]%list_elem_of_In%filter_In. by apply Hp, list_elem_of_In.
Qed.

Lemma groups_from_sorted k m : StronglySorted key_before (groups_from k m).
Proof.
  apply filter_sorted, strictly_sorted; [|apply NoDup_groups_list].
  unfold groups_list. apply (StronglySorted_merge_sort gid_le).
Qed.

Lemma elem_of_groups_from k m gid g :
  (gid, g) ∈ groups_from k m <-> m !! gid = Some g /\ after_key k gid = true.
Proof.
  unfold groups_from. rewrite list_elem_of_In, filter_In, <- list_elem_of_In, elem_of_groups_list. done.
Qed.

Lemma sorted_same l l' :
  StronglySorted key_before l -> StronglySorted key_before l' -> (forall p, p ∈ l <-> p ∈ l') -> l = l'.
Proof.
  assert (forall l, StronglySorted key_before l -> NoDup l) as Hnd.
  { induction 1 as [|p l0 Hl IH Hp]; constructor; [|done]. intros Hin. rewrite Forall_forall in Hp.
    specialize (Hp p Hin). unfold key_before in Hp. by rewrite gid_lt_irrefl in Hp. }
  intros Hl Hl' Heq. apply (StronglySorted_unique key_before); [done..|]. apply NoDup_Permutation; auto.
Qed.

(** What comes after a key depends on the groups after it only. *)
Lemma groups_from_ext k m m' :
  (forall gid, after_key k gid = true -> m !! gid = m' !! gid) -> groups_from k m = groups_from k m'.
Proof.
  intros H. apply sorted_same; [apply groups_from_sorted..|]. intros [gid g]. rewrite !elem_of_groups_from.
  split; intros [Hm Hk]; (split; [|done]); by rewrite <- Hm, H.
Qed.

(** The first group after a key, and what comes after that. *)
Lemma groups_from_cons k m gid g l :
  groups_from k m = (gid, g) :: l ->
  m !! gid = Some g /\ after_key k gid = true /\ groups_from (Some gid) m = l
  /\ forall gid', after_key k gid' = true -> is_Some (m !! gid') -> gid' = gid \/ GroupId_lt gid gid' = true.
Proof.
  intros E. pose proof (groups_from_sorted k m) as Hs. rewrite E in Hs.
  apply StronglySorted_inv in Hs as [Hl Hg]. rewrite Forall_forall in Hg.
  assert ((gid, g) ∈ groups_from k m) as [Hm Hk]%elem_of_groups_from by (rewrite E; left).
  assert (forall gid', GroupId_lt gid gid' = true -> after_key k gid' = true) as Htr.
  { intros gid' H. destruct k as [k|]; [by eapply gid_lt_trans|done]. }
  assert (forall gid' g', after_key k gid' = true -> m !! gid' = Some g' ->
            (gid', g') = (gid, g) \/ (gid', g') ∈ l) as Hin.
  { intros gid' g' Hk' Hm'. assert ((gid', g') ∈ groups_from k m) as H by by apply elem_of_groups_from.
    rewrite E in H. by apply elem_of_cons in H. }
  split_and!; [done..| |].
  - apply sorted_same; [apply groups_from_sorted|done|]. intros [gid' g']. rewrite elem_of_groups_from. split.
    + intros [Hm' Hlt]. destruct (Hin gid' g' (Htr _ Hlt) Hm') as [[= -> ->]|]; [|done].
      simpl in Hlt. by rewrite gid_lt_irrefl in Hlt.
    + intros Hp. pose proof (Hg _ Hp) as Hlt. split; [|exact Hlt].
      assert ((gid', g') ∈ groups_from k m) as [? _]%elem_of_groups_from by (rewrite E; by right). done.
  - intros gid' Hk' [g' Hm']. destruct (Hin gid' g' Hk' Hm') as [[= -> ->]|Hp]; [by left|right].
    exact (Hg _ Hp).
Qed.

Lemma next_group_None k m : next_group k m = None -> forall gid, after_key k gid = true -> m !! gid = None.
Proof.
  unfold next_group. destruct (groups_from k m) eqn:E; [|done]. intros _ gid Hk.
  destruct (m !! gid) as [g|] eqn:Hm; [|done].
  assert ((gid, g) ∈ groups_from k m) as H by by apply elem_of_groups_from. rewrite E in H. by apply elem_of_nil in H.
Qed.

Lemma next_group_Some k m gid g : next_group k m = Some (gid, g) ->
  exists l, groups_from k m = (gid, g) :: l.
Proof. unfold next_group. destruct (groups_from k m) as [|p l]; [done|]. intros [= ->]. by exists l. Qed.

(** ** What the calls do to the set of groups *)

Lemma api_dom gid c s gid' :
  (is_Some (groups_ s !! gid') -> (gid', CallLeave) <> (gid, c) -> is_Some (groups_ (api_call gid c s).1 !! gid'))
  /\ (is_Some (groups_ (api_call gid c s).1 !! gid') -> is_Some (groups_ s !! gid') \/ gid' = gid /\ is_join c = true).
Proof.
  destruct c as [| | | | | |now|e|]; cbn [api_call fst is_join]; try (split; [done|by left]).
  - unfold GetGroupMemberCount. destruct (groups_ s !! gid) as [g|] eqn:Eg; [|split; [done|by left]].
    destruct (GetMemberCount now (core g)) as [n c]. simpl.
    destruct (decide (gid = gid')) as [->|Hne]; [rewrite lookup_insert_eq, Eg|rewrite lookup_insert_ne by done];
      (split; [eauto|by left]).
  - unfold JoinGroup. destruct (groups_ s !! gid) as [g|] eqn:Eg; [split; [done|by left]|].
    destruct (InitGroup _ _ _ _ _ _ _ _) as [[g o] ok]. simpl. destruct ok; [simpl|split; [done|by left]].
    destruct (decide (gid = gid')) as [->|Hne]; [rewrite lookup_insert_eq; split; [eauto|by right]|].
    rewrite lookup_insert_ne by done. split; [done|by left].
  - unfold LeaveGroup. destruct (groups_ s !! gid) as [g|] eqn:Eg; [|split; [done|by left]]. simpl.
    destruct (decide (gid = gid')) as [->|Hne]; [rewrite lookup_delete_eq; split; [done|by intros []]|].
    rewrite lookup_delete_ne by done. split; [done|by left].
Qed.

Lemma user_calls_dom l s gid :
  (is_Some (groups_ s !! gid) -> (gid, CallLeave) ∉ l -> is_Some (groups_ (user_calls l s).1 !! gid))
  /\ (is_Some (groups_ (user_calls l s).1 !! gid) ->
        is_Some (groups_ s !! gid) \/ exists c, (gid, c) ∈ l /\ is_join c = true).
Proof.
  revert s. induction l as [|[gid' c] l IH]; intros s; [split; [done|by left]|]. simpl.
  destruct (api_dom gid' c s gid) as [H1 H2]. destruct (api_call gid' c s) as [s1 o1]. simpl in *.
  destruct (IH s1) as [H3 H4]. destruct (user_calls l s1) as [s2 o2]. simpl in *. split.
  - intros Hs [Hne Hin]%not_elem_of_cons. auto.
  - intros [H|(c' & Hc & Hj)]%H4; [destruct (H2 H) as [?|[-> ?]]; [by left|right]|right].
    + exists c. split; [left|done].
    + exists c'. split; [by right|done].
Qed.

Lemma round_step_dom gid i s s' o : round_step gid i s = Ok (s', o) ->
  forall gid', is_Some (groups_ s' !! gid') <-> is_Some (groups_ s !! gid').
Proof.
  unfold round_step. intros H gid'. inv_bind H. destruct (groups_ s !! gid) as [g|] eqn:Eg; [|done].
  inv_bind H. destruct x0 as [g' o']. injection H as <- <-. simpl.
  destruct (decide (gid = gid')) as [->|Hne]; [rewrite lookup_insert_eq, Eg|by rewrite lookup_insert_ne].
  split; eauto.
Qed.

Section Facts.
Variable handler : CompOut -> list (GroupId * Call).

(** ** The loop ends *)

(** The groups that the handlers may join. *)
Definition joins_within (K : gset GroupId) : Prop :=
  forall o gid c, (gid, c) ∈ handler o -> is_join c = true -> gid ∈ K.

Lemma reaction_handler o gid c : (gid, c) ∈ reaction handler o -> exists x, (gid, c) ∈ handler x.
Proof.
  unfold reaction. intros (l & Hin & Hl)%list_elem_of_In%in_concat.
  apply in_map_iff in Hin as (x & <- & _). exists x. by apply list_elem_of_In.
Qed.

Lemma after_key_fewer k gid (K : gset GroupId) : gid ∈ K -> after_key k gid = true ->
  (size (filter (fun x => after_key (Some gid) x = true) K) < size (filter (fun x => after_key k x = true) K))%nat.
Proof.
  intros Hin Hk. apply subset_size. split.
  - intros x [Hx HK]%elem_of_filter. apply elem_of_filter. split; [|done].
    destruct k as [k|]; [by eapply gid_lt_trans|done].
  - intros H. specialize (H gid). rewrite !elem_of_filter in H. simpl in H. rewrite gid_lt_irrefl in H.
    by destruct H as [? _].
Qed.

Lemma rounds_end K inputs fuel fuel' k s :
  joins_within K -> (forall gid, is_Some (groups_ s !! gid) -> gid ∈ K) ->
  (size (filter (fun x => after_key k x = true) K) < fuel)%nat ->
  (size (filter (fun x => after_key k x = true) K) < fuel')%nat ->
  rounds_from handler fuel inputs k s = rounds_from handler fuel' inputs k s
  /\ forall s' o b, rounds_from handler fuel inputs k s = Ok (s', o, b) -> b = true.
Proof.
  intros HK. revert fuel' k s. induction fuel as [|fuel IH]; intros fuel' k s Hs Hf Hf'; [lia|].
  destruct fuel' as [|fuel']; [lia|]. cbn [rounds_from].
  destruct (next_group k (groups_ s)) as [[gid g]|] eqn:E; [|split; [done|by intros * [= _ _ <-]]].
  apply next_group_Some in E as (l & E%groups_from_cons). destruct E as (Hg & Hk & _ & _).
  assert (gid ∈ K) as Hin by (apply Hs; eauto). pose proof (after_key_fewer k gid K Hin Hk).
  destruct (round_step gid (inputs gid) s) as [[s1 o1]| |] eqn:Er; cbn [mbind Res_bind]; [|by split..].
  destruct (leaves_group gid (reaction handler o1)); [by split|].
  pose proof (fun x => proj2 (user_calls_dom (reaction handler o1) s1 x)) as Hd.
  destruct (user_calls (reaction handler o1) s1) as [s2 o2]. simpl in Hd.
  destruct (IH fuel' (Some gid) s2) as [He Hb]; [|lia..|].
  { intros gid' [Hg'|(c & Hc & Hj)]%Hd.
    - apply Hs. by apply (round_step_dom _ _ _ _ _ Er).
    - apply reaction_handler in Hc as [x Hx]. by eapply HK. }
  rewrite <- He. split; [done|]. destruct (rounds_from handler fuel inputs (Some gid) s2) as [[[s3 o3] b3]| |];
    cbn [mbind Res_bind]; try done. intros * [= _ _ <-]. by eapply Hb.
Qed.

(** ** The loop as acts *)

Definition rounds_of (l : list Act) : list GroupId :=
  omap (fun a => match a with Round gid _ => Some gid | _ => None end) l.

Definition as_calls (l : list (GroupId * Call)) : list Act := map (fun c => Calls c.1 c.2) l.

Lemma acts_app l1 l2 s s1 o1 s2 o2 :
  acts l1 s = Ok (s1, o1) -> acts l2 s1 = Ok (s2, o2) -> acts (l1 ++ l2) s = Ok (s2, o1 ++ o2).
Proof.
  revert s o1. induction l1 as [|a l1 IH]; intros s o1; simpl; [by intros [= <- <-]|]. intros H H2.
  inv_bind H. destruct x as [s3 o3]. inv_bind H. destruct x as [s4 o4]. injection H as -> <-.
  rewrite E. simpl. rewrite (IH _ _ E0 H2). simpl. by rewrite app_assoc.
Qed.

Lemma acts_calls l s : acts (as_calls l) s = Ok (user_calls l s).
Proof.
  revert s. induction l as [|[gid c] l IH]; intros s; [done|]. simpl. destruct (api_call gid c s) as [s1 o1].
  simpl. rewrite IH. by destruct (user_calls l s1).
Qed.

Lemma rounds_of_calls l : rounds_of (as_calls l) = [].
Proof. by induction l as [|[gid c] l IH]. Qed.

(** The acts of the loop: a group has its round when the iterator comes to it,
    with the calls of its handlers behind it. *)
Record loop_acts (inputs : GroupId -> GroupInput) (k : option GroupId) (s : Component) (ended : bool)
    (l : list Act) : Prop := {
  la_inputs gid i : Round gid i ∈ l -> i = inputs gid;
  la_event socket ev : Event socket ev ∉ l;
  la_calls gid c : Calls gid c ∈ l -> exists o, (gid, c) ∈ handler o;
  la_sorted : StronglySorted (fun a b => GroupId_lt a b = true) (rounds_of l);
  la_after gid : gid ∈ rounds_of l -> after_key k gid = true;
  la_served gid : ended = true -> is_Some (groups_ s !! gid) -> after_key k gid = true ->
    Calls gid CallLeave ∉ l -> gid ∈ rounds_of l;
}.

Lemma as_calls_elem gid c l : Calls gid c ∈ as_calls l <-> (gid, c) ∈ l.
Proof.
  unfold as_calls. rewrite list_elem_of_fmap. split; [by intros ([g d] & [= -> ->] & ?)|].
  intros H. by exists (gid, c).
Qed.

Lemma rounds_from_acts fuel inputs k s s' o ended :
  rounds_from handler fuel inputs k s = Ok (s', o, ended) ->
  exists l, acts l s = Ok (s', o) /\ loop_acts inputs k s ended l.
Proof.
  revert k s s' o ended. induction fuel as [|fuel IH]; intros k s s' o ended H; simpl in H.
  { injection H as <- <- <-. exists []. split; [done|]. split; try done; try (intros; by apply not_elem_of_nil);
      try (by intros * ?%elem_of_nil). constructor. }
  destruct (next_group k (groups_ s)) as [[gid g]|] eqn:En.
  2:{ injection H as <- <- <-. exists []. split; [done|].
      split; try done; try (intros; by apply not_elem_of_nil); try (by intros * ?%elem_of_nil); [constructor|].
      intros gid _ [g Hg] Hk _. by rewrite (next_group_None _ _ En gid Hk) in Hg. }
  apply next_group_Some in En as (l0 & Hl0%groups_from_cons). destruct Hl0 as (Hg & Hk & _ & Hfirst).
  inv_bind H. destruct x as [s1 o1]. rename E into Hr.
  destruct (leaves_group gid (reaction handler o1)) eqn:Hown; [done|].
  pose proof (fun x => proj1 (user_calls_dom (reaction handler o1) s1 x)) as Hd.
  pose proof (acts_calls (reaction handler o1) s1) as Hc.
  destruct (user_calls (reaction handler o1) s1) as [s2 o2]. simpl in Hd.
  inv_bind H. destruct x as [[s3 o3] b3]. injection H as <- <- <-.
  destruct (IH _ _ _ _ _ E) as (l & Hacts & [Hi He Hh Hs Ha Hv]).
  exists (Round gid (inputs gid) :: as_calls (reaction handler o1) ++ l). split.
  { simpl. rewrite Hr. simpl. by rewrite (acts_app _ _ _ _ _ _ _ Hc Hacts). }
  assert (rounds_of (Round gid (inputs gid) :: as_calls (reaction handler o1) ++ l) = gid :: rounds_of l) as Hro.
  { unfold rounds_of. simpl. rewrite omap_app. fold (rounds_of (as_calls (reaction handler o1))).
    by rewrite rounds_of_calls. }
  split; rewrite ?Hro.
  - intros gid' i [[= -> ->]|[Hin|Hin]%elem_of_app]%elem_of_cons; [done| |by apply Hi].
    by apply list_elem_of_fmap in Hin as (? & ? & _).
  - intros socket ev [?|[Hin|Hin]%elem_of_app]%elem_of_cons; [done| |by eapply He].
    by apply list_elem_of_fmap in Hin as (? & ? & _).
  - intros gid' c [?|[Hin|Hin]%elem_of_app]%elem_of_cons; [done| |by apply Hh].
    by eapply reaction_handler, as_calls_elem.
  - constructor; [done|]. rewrite Forall_forall. intros gid' Hin. exact (Ha gid' Hin).
  - intros gid' [->|Hin]%elem_of_cons; [done|]. specialize (Ha gid' Hin). simpl in Ha.
    destruct k as [k|]; [by eapply gid_lt_trans|done].
  - intros gid' Hend Hs' Hk' Hnl. apply not_elem_of_cons in Hnl as [_ [Hnc Hnl]%not_elem_of_app].
    destruct (Hfirst gid' Hk' Hs') as [->|Hlt]; [left|right]. apply Hv; try done. apply Hd.
    + by apply (round_step_dom _ _ _ _ _ Hr).
    + by rewrite as_calls_elem in Hnc.
Qed.

(** Undefined behaviour of the loop: a round is undefined, or a handler leaves
    the group it is called for. *)
Lemma rounds_from_UB fuel inputs k s :
  rounds_from handler fuel inputs k s = UB ->
  exists l s1 o1, acts l s = Ok (s1, o1)
    /\ ((exists gid, act (Round gid (inputs gid)) s1 = UB)
        \/ exists gid x, GroupOutput gid x ∈ o1 /\ (gid, CallLeave) ∈ handler (GroupOutput gid x)).
Proof.
  revert k s. induction fuel as [|fuel IH]; intros k s H; [done|]. cbn [rounds_from] in H.
  destruct (next_group k (groups_ s)) as [[gid g]|]; [|done].
  destruct (round_step gid (inputs gid) s) as [[s1 o1]| |] eqn:Hr; [|done|].
  2:{ exists [], s, []. split; [done|]. left. by exists gid. }
  cbn [mbind Res_bind] in H. destruct (leaves_group gid (reaction handler o1)) eqn:Hown.
  - exists [Round gid (inputs gid)], s1, o1. split; [simpl; rewrite Hr; simpl; by rewrite app_nil_r|]. right.
    unfold leaves_group in Hown. apply existsb_exists in Hown as ([gid' c] & Hin & Hc).
    apply andb_true_iff in Hc as [Hg%bool_decide_eq_true Hl]. simpl in Hg, Hl. subst gid'. destruct c; try done.
    unfold reaction in Hin. apply in_concat in Hin as (hs & Hin & Hx). apply in_map_iff in Hin as (y & <- & Hy).
    apply filter_In in Hy as [Hy _]. apply list_elem_of_In in Hy, Hx.
    unfold round_step in Hr. apply bind_Ok in Hr as (g0 & _ & Hr). apply bind_Ok in Hr as ([g' o'] & _ & Hr).
    injection Hr as _ <-. apply list_elem_of_fmap in Hy as Hy'. destruct Hy' as (x & -> & _). by exists gid, x.
  - pose proof (acts_calls (reaction handler o1) s1) as Hc.
    destruct (user_calls (reaction handler o1) s1) as [s2 o2].
    destruct (rounds_from handler fuel inputs (Some gid) s2) as [[[s3 o3] b]| |] eqn:E; try done.
    destruct (IH _ _ E) as (l & s3 & o3 & Hl & Hub).
    exists (Round gid (inputs gid) :: as_calls (reaction handler o1) ++ l), s3, (o1 ++ o2 ++ o3). split.
    { simpl. rewrite Hr. simpl. by rewrite (acts_app _ _ _ _ _ _ _ Hc Hl). }
    destruct Hub as [?|(gid' & x & Hx & Hh)]; [by left|right]. exists gid', x. split; [|done].
    apply elem_of_app. right. apply elem_of_app. by right.
Qed.

(** ** Turns *)

Lemma event_act socket ev s s1 o1 b : event_step socket ev s = Ok (s1, o1, b) -> act (Event socket ev) s = Ok (s1, o1).
Proof. simpl. by intros ->. Qed.

Lemma event_leaves socket ev s s1 o1 : event_step socket ev s = Ok (s1, o1, true) -> ev = CPipe None.
Proof.
  unfold event_step. destruct (run_first socket s) as [s0 o0]. intros H. inv_bind H. destruct x as [[s2 o2] b].
  injection H as _ _ ->. destruct ev as [|[[|c f]|]|body|t| |k r]; simpl in E; repeat case_bool_decide; try done;
    try (by destruct (scheduled_action_ s0)); by inv_bind E.
Qed.

Lemma event_groups socket ev s s1 o1 b : event_step socket ev s = Ok (s1, o1, b) -> groups_ s1 = groups_ s.
Proof.
  unfold event_step. pose proof (run_first_groups socket s) as Hf. destruct (run_first socket s) as [s0 o0].
  intros H. inv_bind H. destruct x as [[s2 o2] b']. injection H as <- _ _.
  pose proof (on_event_groups _ _ _ _ _ E) as He. simpl in Hf. destruct b'; simpl; congruence.
Qed.

(** A turn of the thread is its event, then one round each of groups in the
    order of their keys, with the calls of the handlers in between: whatever
    the handlers join, leave, send and vote, no group is served twice or with
    another group's message, and a group that no handler leaves is not skipped. *)
Theorem turn_acts fuel socket inputs ev s s' o ended :
  HandlerStep handler fuel socket inputs ev s = Ok (s', o, ended) ->
  exists l, acts (Event socket ev :: l) s = Ok (s', o)
    /\ (forall socket' ev', Event socket' ev' ∉ l)
    /\ (forall gid i, Round gid i ∈ l -> i = inputs gid)
    /\ (forall gid c, Calls gid c ∈ l -> exists x, (gid, c) ∈ handler x)
    /\ StronglySorted (fun a b => GroupId_lt a b = true) (rounds_of l)
    /\ (ended = true -> ev <> CPipe None -> forall gid, is_Some (groups_ s !! gid) ->
          Calls gid CallLeave ∉ l -> gid ∈ rounds_of l).
Proof.
  unfold HandlerStep. intros H. inv_bind H. destruct x as [[s1 o1] leaves]. apply event_act in E as Ha.
  destruct leaves.
  { injection H as <- <- <-. apply event_leaves in E as ->. exists []. cbn [acts]. rewrite Ha. simpl.
    rewrite app_nil_r. split_and!; try done; [intros * ?%elem_of_nil; done..|constructor]. }
  pose proof (acts_calls (reaction handler o1) s1) as Hc.
  pose proof (fun x => proj1 (user_calls_dom (reaction handler o1) s1 x)) as Hd.
  destruct (user_calls (reaction handler o1) s1) as [s2 o2]. simpl in Hd.
  inv_bind H. destruct x as [[s3 o3] b]. injection H as <- <- <-.
  destruct (rounds_from_acts _ _ _ _ _ _ _ E0) as (l & Hl & [Hi He Hh Hs _ Hv]).
  exists (as_calls (reaction handler o1) ++ l).
  assert (rounds_of (as_calls (reaction handler o1) ++ l) = rounds_of l) as Hro.
  { unfold rounds_of at 1. rewrite omap_app. fold (rounds_of (as_calls (reaction handler o1))).
    by rewrite rounds_of_calls. }
  rewrite Hro. split_and!.
  - change (acts (?a :: ?l) s) with ('(s1, o1) ← act a s; '(s2, o2) ← acts l s1; Ok (s2, o1 ++ o2)).
    rewrite Ha. cbn [mbind Res_bind]. by rewrite (acts_app _ _ _ _ _ _ _ Hc Hl).
  - intros socket' ev' [Hin|Hin]%elem_of_app; [|by eapply He]. by apply list_elem_of_fmap in Hin as (? & ? & _).
  - intros gid i [Hin|Hin]%elem_of_app; [|by apply Hi]. by apply list_elem_of_fmap in Hin as (? & ? & _).
  - intros gid c [Hin|Hin]%elem_of_app; [|by apply Hh]. by eapply reaction_handler, as_calls_elem.
  - done.
  - intros Hend _ gid Hg [Hnc Hnl]%not_elem_of_app. apply Hv; try done.
    apply Hd; [by rewrite (event_groups _ _ _ _ _ _ E)|by rewrite as_calls_elem in Hnc].
Qed.

(** C17. The loop over the groups ends, with the same result for every fuel
    greater than the number of groups there are or that handlers join. *)
Theorem turn_ends K fuel fuel' socket inputs ev s :
  joins_within K -> (forall gid, is_Some (groups_ s !! gid) -> gid ∈ K) ->
  (size K < fuel)%nat -> (size K < fuel')%nat ->
  HandlerStep handler fuel socket inputs ev s = HandlerStep handler fuel' socket inputs ev s
  /\ forall s' o b, HandlerStep handler fuel socket inputs ev s = Ok (s', o, b) -> b = true.
Proof.
  intros HK Hs Hf Hf'. unfold HandlerStep. destruct (event_step socket ev s) as [[[s1 o1] []]| |] eqn:E;
    cbn [mbind Res_bind]; try (by split); [by split; [|intros * [= _ _ <-]]|].
  pose proof (fun x => proj2 (user_calls_dom (reaction handler o1) s1 x)) as Hd.
  destruct (user_calls (reaction handler o1) s1) as [s2 o2]. simpl in Hd.
  assert (filter (fun x => after_key None x = true) K = K) as HKf by set_solver.
  destruct (rounds_end K inputs fuel fuel' None s2 HK) as [He Hb]; [|by rewrite HKf..|].
  - intros gid [Hg|(c & Hc & Hj)]%Hd.
    + apply Hs. by rewrite <- (event_groups _ _ _ _ _ _ E).
    + apply reaction_handler in Hc as [x Hx]. by eapply HK.
  - rewrite <- He. split; [done|]. destruct (rounds_from handler fuel inputs None s2) as [[[s3 o3] b3]| |];
      cbn [mbind Res_bind]; try done. intros * [= _ _ <-]. by eapply Hb.
Qed.

End Facts.

(** ** Handlers that call nothing *)

Definition silent (o : CompOut) : list (GroupId * Call) := [].

Lemma silent_reaction o : reaction silent o = [].
Proof. unfold reaction. by induction (List.filter calls_user o). Qed.

Lemma rounds_from_silent fuel inputs k s :
  (length (groups_from k (groups_ s)) < fuel)%nat ->
  rounds_from silent fuel inputs k s
  = ('(m, o) ← group_rounds inputs (groups_from k (groups_ s)) (groups_ s); Ok (set_groups m s, o, true)).
Proof.
  revert k s. induction fuel as [|fuel IH]; intros k s Hf; [lia|]. cbn [rounds_from].
  destruct (next_group k (groups_ s)) as [[gid g]|] eqn:En.
  2:{ unfold next_group in En. destruct (groups_from k (groups_ s)); [|done]. by destruct s. }
  apply next_group_Some in En as (l & Hl). rewrite Hl in *. apply groups_from_cons in Hl as (Hg & Hk & Hrest & _).
  cbn [group_rounds]. unfold round_step. rewrite Hg. cbn [deref mbind Res_bind].
  destruct (group_round (inputs gid) g) as [[g' o]| |]; cbn [mbind Res_bind]; try done.
  rewrite silent_reaction. cbn [leaves_group existsb user_calls].
  set (s1 := set_groups _ s).
  assert (groups_from (Some gid) (groups_ s1) = l) as Hl1.
  { rewrite <- Hrest. apply groups_from_ext. intros gid' Hlt. simpl in Hlt |- *. rewrite lookup_insert_ne; [done|].
    intros ->. by rewrite gid_lt_irrefl in Hlt. }
  rewrite IH by (rewrite Hl1; simpl in Hf; lia). rewrite Hl1. simpl.
  destruct (group_rounds inputs l _) as [[m' o']| |]; done.
Qed.

(** The loop of the code, with its iterator into the map, is the one of
    [CompStep], which runs over a list of the groups, when the handlers leave
    the groups alone. *)
Theorem silent_turn fuel socket inputs ev s :
  (size (groups_ s) < fuel)%nat ->
  HandlerStep silent fuel socket inputs ev s
  = ('(s', o) ← CompStep socket inputs ev s; Ok (s', o, true)).
Proof.
  intros Hf. unfold HandlerStep, CompStep. pose proof (event_groups socket ev s) as Hg. unfold event_step in *.
  destruct (run_first socket s) as [s1 o1]. destruct (on_event ev s1) as [[[s2 o2] leaves]| |];
    cbn [mbind Res_bind] in *; try done. specialize (Hg _ _ _ eq_refl).
  destruct leaves; [done|]. rewrite silent_reaction. cbn [user_calls]. unfold all_group_rounds.
  assert (groups_from None (groups_ s2) = groups_list (groups_ s2)) as Hall.
  { unfold groups_from. induction (groups_list (groups_ s2)) as [|p l IH]; [done|]. simpl in *. by rewrite IH. }
  rewrite rounds_from_silent.
  - rewrite Hall. destruct (group_rounds inputs (groups_list (groups_ s2)) (groups_ s2)) as [[m o]| |]; try done.
    simpl. by rewrite app_assoc.
  - rewrite Hall, Hg. unfold groups_list. rewrite merge_sort_Permutation. by rewrite length_map_to_list.
Qed.

(** ** Concrete turns *)

Definition other_gid : GroupId := {| gid_type := "T"; gid_name := "h" |}.

(** A member of the groups "g" and "h", and a turn in which "g" reads a message. *)
Definition two_groups : Component := (JoinGroup demo_join other_gid demo_member).1.1.
Definition the_subport (s : Component) (gid : GroupId) : Z :=
  default 0 (g ← groups_ s !! gid; group_subport_ (core g)).
Definition message_in_g (gid : GroupId) : GroupInput :=
  {| gi_now := 1; gi_zerr := None; gi_env := gi_env (demo_input gid);
     gi_polled := if decide (gid = demo_gid) then
         Readable (the_subport two_groups demo_gid)
           (Some {| rm_first := Some (groupMessage (Some {| gm_sourceComponentId := "b" |})); rm_rest := ["hello"] |})
       else NoMessage |}.
Definition leaves (gid : GroupId) (o : CompOut) : list (GroupId * Call) :=
  match o with GroupOutput _ (OnGroupMessage _ _) => [(gid, CallLeave)] | _ => [] end.
Definition joins_back (o : CompOut) : list (GroupId * Call) :=
  match o with GroupOutput _ (OnGroupMessage _ _) => [(other_gid, CallLeave); (other_gid, CallJoin demo_join)] | _ => [] end.


(** The handler of "g" leaves "h" before its round, and joins it again: the
    iterator comes to the new group. *)
Lemma turn_ends_witness :
  exists s o, HandlerStep joins_back 3 Z.of_nat message_in_g CIdle two_groups = Ok (s, o, true)
    /\ GetGroupMemberships s = [demo_gid; other_gid].
Proof.
  destruct (HandlerStep joins_back 3 Z.of_nat message_in_g CIdle two_groups) as [[[s o] b]| |] eqn:E;
    [|by vm_compute in E..].
  exists s, o. assert (b = true) as ->.
  { refine (proj2 (turn_ends joins_back {[demo_gid; other_gid]} 3 3 Z.of_nat message_in_g CIdle two_groups _ _ _ _)
      s o b E).
    - intros x gid c Hin _. clear E. assert (gid = other_gid) as ->.
      { destruct x as [| | | | | | | | |g []]; simpl in Hin; try (by apply elem_of_nil in Hin).
        apply elem_of_cons in Hin as [[= -> _]|Hin]; [done|].
        by apply list_elem_of_singleton in Hin as [= -> _]. }
      apply elem_of_union_r, elem_of_singleton_2. reflexivity.
    - intros gid Hg. apply elem_of_dom in Hg. revert gid Hg.
      change (dom (groups_ two_groups) ⊆ {[demo_gid; other_gid]}). apply (bool_decide_unpack _). by vm_compute.
    - by vm_compute; lia.
    - by vm_compute; lia. }
  split; [done|]. vm_compute in E. by injection E as <- _.
Defined.

Lemma silent_turn_witness :
  HandlerStep silent 3 Z.of_nat message_in_g CIdle two_groups
  = ('(s', o) ← CompStep Z.of_nat message_in_g CIdle two_groups; Ok (s', o, true)).
Proof. apply (silent_turn 3 Z.of_nat message_in_g CIdle two_groups). vm_compute. lia. Defined.
