(* ===== verification/PortObjects.v ===== *)
(** PortObjects.v - the port objects behind the tables of a component: their
    classes, who owns them, and what is done through pointers to them
    ([include/componentmodel/ports], [src/componentmodel/ports/r_portbase.cc],
    [src/componentmodel/r_componentbase.cc]).

    [Component.v] keeps ports by value and tells them apart by [port_type].
    In the code [ports_] owns objects, [portSockets] holds pointers to them, and
    the kind of a port is found out by [dynamic_cast].  Here are the heap of
    port objects and the casts, and the proof that [Component.v] is right about
    them as long as no two ports have the same name. *)

From Stdlib Require Import ZArith Lia.
From stdpp Require Import base gmap strings list fin_maps.
From S2P Require Import Prelude.
From S2P Require Import DistCoord.
From S2P Require Import Ports.
From S2P Require Import Queries.
From S2P Require Import Component.

#[local] Open Scope riaps_scope.

(** ** Classes *)

Inductive PortClass :=
| PortBase | SenderPort | TimedPortBase | RecvPort | PublisherPortBase | SubscriberPortBase
| PublisherPort | GroupPublisherPort | SubscriberPort | GroupSubscriberPort
| RequestPort | ResponsePort | QueryPort | AnswerPort | InsidePort | PeriodicTimer.

#[export] Instance PortClass_eq_dec : EqDecision PortClass.
Proof. solve_decision. Defined.

(** The direct bases, as the headers declare them. *)
Definition bases (c : PortClass) : list PortClass :=
  match c with
  | PortBase | SenderPort | TimedPortBase => []
  | RecvPort => [TimedPortBase]
  | PublisherPortBase => [PortBase; SenderPort]
  | SubscriberPortBase => [PortBase; RecvPort]
  | PublisherPort | GroupPublisherPort => [PublisherPortBase]
  | SubscriberPort | GroupSubscriberPort => [SubscriberPortBase]
  | RequestPort | ResponsePort => [PortBase; SenderPort; RecvPort]
  | AnswerPort | InsidePort => [PortBase; SenderPort]
  | QueryPort | PeriodicTimer => [PortBase]
  end.

(** No class is more than three bases deep. *)
Fixpoint derives_in (depth : nat) (c d : PortClass) : bool :=
  bool_decide (c = d)
  || match depth with O => false | S depth' => existsb (fun b => derives_in depth' b d) (bases c) end.
Definition derives : PortClass -> PortClass -> bool := derives_in 3.

(** The class that the [Init...Port] function for a type creates. *)
Definition class_of (t : PortTypes) : PortClass :=
  match t with
  | Inside => InsidePort | Timer => PeriodicTimer | Publisher => PublisherPort
  | Response => ResponsePort | Answer => AnswerPort | Request => RequestPort
  | Query => QueryPort | Subscriber => SubscriberPort
  end.

(** The tag that the constructor of a class hands to [PortBase]. *)
Definition tag_of (c : PortClass) : option PortTypes :=
  match c with
  | InsidePort => Some Inside | PeriodicTimer => Some Timer
  | PublisherPortBase | PublisherPort | GroupPublisherPort => Some Publisher
  | ResponsePort => Some Response | AnswerPort => Some Answer | RequestPort => Some Request
  | QueryPort => Some Query
  | SubscriberPortBase | SubscriberPort | GroupSubscriberPort => Some Subscriber
  | PortBase | SenderPort | TimedPortBase | RecvPort => None
  end.

(** ** Objects *)

Record PortObj := mkObj { po_class : PortClass; po_port : Port }.

(** The live objects, [ports_] and [portSockets]; a port is known by the number
    of its creation. *)
Record Store := mkStore {
  st_heap : gmap nat PortObj;
  st_names : gmap string nat;
  st_sockets : gmap Z nat;
}.

Definition no_ports : Store := mkStore ∅ ∅ ∅.

(** [ports_[name] = std::move(newport)] destroys the port that had the name. *)
Definition store_port (id : nat) (o : PortObj) (st : Store) : Store :=
  let name := p_name (po_port o) in
  mkStore (<[id := o]> (match st_names st !! name with Some old => delete old (st_heap st) | None => st_heap st end))
    (<[name := id]> (st_names st)) (st_sockets st).

Definition store_init (id : nat) (sock : Z) (pl : PortTypes * string * bool) (st : Store) : Store :=
  let '(t, name, _) := pl in
  let st := store_port id (mkObj (class_of t) {| p_name := name; p_type := t; p_socket := sock |}) st in
  mkStore (st_heap st) (st_names st) (<[sock := id]> (st_sockets st)).

Fixpoint store_inits (socket : nat -> Z) (i : nat) (l : list (PortTypes * string * bool)) (st : Store) : Store :=
  match l with
  | [] => st
  | pl :: l' => store_inits socket (S i) l' (store_init i (socket i) pl st)
  end.

(** ** Casts *)

(** [dynamic_cast<T*>(this)] *)
Definition GetPortAs (T : PortClass) (o : PortObj) : option PortObj :=
  if derives (po_class o) T then Some o else None.

Definition AsRequestPort : PortObj -> option PortObj := GetPortAs RequestPort.
Definition AsPublishPort : PortObj -> option PortObj := GetPortAs PublisherPort.
Definition AsGroupPublishPort : PortObj -> option PortObj := GetPortAs GroupPublisherPort.
Definition AsGroupSubscriberPort : PortObj -> option PortObj := GetPortAs GroupSubscriberPort.
Definition AsResponsePort : PortObj -> option PortObj := GetPortAs ResponsePort.
Definition AsSubscribePort : PortObj -> option PortObj := GetPortAs SubscriberPort.
Definition AsTimerPort : PortObj -> option PortObj := GetPortAs PeriodicTimer.
Definition AsInsidePort : PortObj -> option PortObj := GetPortAs InsidePort.
Definition AsQueryPort : PortObj -> option PortObj := GetPortAs QueryPort.
Definition AsAnswerPort : PortObj -> option PortObj := GetPortAs AnswerPort.
Definition AsRecvPort : PortObj -> option PortObj := GetPortAs RecvPort.

(** A C-style cast to [T*], which is only used on objects of that class. *)
Definition downcast (T : PortClass) (o : PortObj) : Res PortObj :=
  if derives (po_class o) T then Ok o else UB.

Definition is_port (p : option PortObj) : bool := bool_decide (is_Some p).

(** ** What is done with the ports of a component *)

Definition object (id : nat) (st : Store) : Res PortObj := deref (st_heap st !! id).

(** [GetPortByName]: null for a name that no port has. *)
Definition GetPortByName_obj (portName : string) (st : Store) : Res (option PortObj) :=
  match st_names st !! portName with
  | None => Ok None
  | Some id => o ← object id st; Ok (Some o)
  end.

(** [ComponentBase::GetPortAs<T>], and the [Get...PortByName]. *)
Definition ComponentBase_GetPortAs (T : PortClass) (portName : string) (st : Store) : Res (option PortObj) :=
  portBase ← GetPortByName_obj portName st; Ok (o ← portBase; GetPortAs T o).

(** A message on a socket of the poller. *)
Definition on_port_obj (received : bool) (sock : Z) (st : Store) : Res (list CompOut) :=
  id ← deref (st_sockets st !! sock);
  riapsPort ← object id st;
  let name := p_name (po_port riapsPort) in
  if is_port (AsAnswerPort riapsPort) || is_port (AsQueryPort riapsPort) then
    if received then Ok [Received name] else UB
  else if is_port (AsInsidePort riapsPort) then Ok (if received then [DispatchInside name] else [])
  else if is_port (GetPortAs RecvPort riapsPort) || is_port (AsTimerPort riapsPort) then Ok [Dispatch name]
  else Ok [].

(** The command [portUpdate]: the type decides which cast is made. *)
Definition on_update_port_obj (frames : list string) (st : Store) : Res (list CompOut) :=
  match frames with
  | portname :: host :: port :: _ =>
      found ← GetPortByName_obj portname st;
      match found with
      | None => Ok []
      | Some o =>
          let connect := [ConnectPort portname ("tcp://" +:+ host +:+ ":" +:+ port)] in
          match p_type (po_port o) with
          | Subscriber => _ ← downcast SubscriberPort o; Ok connect
          | Request => _ ← downcast RequestPort o; Ok connect
          | Query => _ ← downcast QueryPort o; Ok connect
          | _ => Ok []
          end
      end
  | _ => Ok []
  end.

(** [ports_[c.port_name]->AsTimerPort()->Stop()] *)
Definition stop_timer_obj (name : string) (st : Store) : Res string :=
  found ← GetPortByName_obj name st;
  portBase ← deref found;
  timer ← deref (AsTimerPort portBase);
  Ok (p_name (po_port timer)).

(** The four [SendMessageOnPort]: of an encoded message, with the parameters of
    a query, for a query, and of a message of ZeroMQ.  The first three go on
    with a null pointer after they have logged the error. *)
Section Sending.
Variable config_of : string -> ComponentPortConfig.

Definition SendMessageOnPort now zerr (payload : Frame) (port_name : string) (st : Store)
    : Res (list ZFrame * PortError) :=
  found ← ComponentBase_GetPortAs SenderPort port_name st;
  sender_port ← deref found;
  Ok (Send_payload (config_of (p_name (po_port sender_port))) now zerr payload).

Definition SendMessageOnPort_params now clock zerr (params : MessageParams) (payload : Frame)
    (port_name : string) (st : Store) : Res (list ZFrame * PortError) :=
  found ← ComponentBase_GetPortAs AnswerPort port_name st;
  answer_port ← deref found;
  Ok (SendAnswer (config_of (p_name (po_port answer_port))) now clock zerr params payload).

Definition SendMessageOnPort_query (clock : Z) msgId rc (payload : Frame) requestId
    (port_name : string) (st : Store) : Res (list ZFrame * string * PortError) :=
  found ← ComponentBase_GetPortAs QueryPort port_name st;
  query_port ← deref found;
  Ok (SendQuery clock msgId rc false payload requestId).

Definition SendMessageOnPort_zmsg now zerr (message : list ZFrame) (portName : string) (st : Store)
    : Res (list ZFrame * bool) :=
  port ← GetPortByName_obj portName st;
  match port with
  | None => Ok ([], false)
  | Some o =>
      insidePort ← deref (AsInsidePort o);
      let '(sent, err) := Send (config_of (p_name (po_port insidePort))) now zerr message in
      Ok (sent, to_bool err)
  end.
End Sending.

(** ** The invariant of the store *)

(** Every name has a live object of that name, every live object is owned by
    its name, and is of the class that goes with its type. *)
Record store_ok (next : nat) (st : Store) : Prop := {
  so_class id o : st_heap st !! id = Some o -> po_class o = class_of (p_type (po_port o));
  so_owned n id : st_names st !! n = Some id ->
    exists o, st_heap st !! id = Some o /\ p_name (po_port o) = n;
  so_only id o : st_heap st !! id = Some o -> st_names st !! p_name (po_port o) = Some id;
  so_fresh id : is_Some (st_heap st !! id) -> (id < next)%nat;
  so_socket k id : st_sockets st !! k = Some id -> (id < next)%nat;
}.

Lemma no_ports_ok i : store_ok i no_ports.
Proof. split; intros *; rewrite ?lookup_empty; try done. by intros []. Qed.

Lemma store_init_heap id sock t name b st id' o :
  st_heap (store_init id sock (t, name, b) st) !! id' = Some o ->
  id' = id /\ o = mkObj (class_of t) {| p_name := name; p_type := t; p_socket := sock |}
  \/ id' <> id /\ st_heap st !! id' = Some o /\ st_names st !! name <> Some id'.
Proof.
  simpl. destruct (decide (id = id')) as [<-|Hne]; [rewrite lookup_insert_eq; intros [= <-]; by left|].
  rewrite lookup_insert_ne by done. right. split; [done|]. destruct (st_names st !! name) as [old|] eqn:E; [|done].
  destruct (decide (old = id')) as [->|Ho]; [by rewrite lookup_delete_eq in H|].
  rewrite lookup_delete_ne in H by done. split; [done|]. by intros [= ->].
Qed.

Lemma store_init_ok i sock pl st : store_ok i st -> store_ok (S i) (store_init i sock pl st).
Proof.
  destruct pl as [[t name] b]. intros [Hc Ho Hu Hf Hs]. split.
  - intros id o [(-> & ->)|(_ & H & _)]%store_init_heap; [done|by eapply Hc].
  - intros n id Hn. simpl in *. destruct (decide (name = n)) as [<-|Hne].
    + rewrite lookup_insert_eq in Hn. injection Hn as <-. rewrite lookup_insert_eq. eauto.
    + rewrite lookup_insert_ne in Hn by done. destruct (Ho _ _ Hn) as (o & Hh & Hname). exists o.
      assert (id < i)%nat by (apply Hf; by rewrite Hh). rewrite lookup_insert_ne by lia.
      destruct (st_names st !! name) as [old|] eqn:E; [|done].
      rewrite lookup_delete_ne; [done|]. intros ->. destruct (Ho _ _ E) as (o' & Hh' & Hname'). congruence.
  - intros id o [(-> & ->)|(Hne & H & Hn)]%store_init_heap; simpl; [by rewrite lookup_insert_eq|].
    specialize (Hu _ _ H). rewrite lookup_insert_ne; [done|]. intros E. by rewrite E in Hn.
  - intros id [o [(-> & _)|(_ & H & _)]%store_init_heap]; [lia|].
    assert (id < i)%nat by (apply Hf; by rewrite H). lia.
  - intros k id. simpl. destruct (decide (sock = k)) as [<-|Hne].
    + rewrite lookup_insert_eq. intros [= <-]. lia.
    + rewrite lookup_insert_ne by done. intros H%Hs. lia.
Qed.

Lemma store_inits_ok socket i l st :
  store_ok i st -> exists j, store_ok j (store_inits socket i l st).
Proof.
  revert i st. induction l as [|pl l IH]; intros i st H; [by exists i|]. simpl.
  by apply (IH (S i)), store_init_ok.
Qed.

Lemma store_inits_names socket i l st n :
  st_names (store_inits socket i l st) !! n = None -> n ∉ map (fun pl => pl.1.2) l /\ st_names st !! n = None.
Proof.
  revert i st. induction l as [|[[t name] b] l IH]; intros i st H; simpl in *.
  { split; [by intros ?%elem_of_nil|done]. }
  destruct (IH _ _ H) as [Hl Hn]. simpl in Hn. destruct (decide (name = n)) as [<-|Hne].
  - by rewrite lookup_insert_eq in Hn.
  - rewrite lookup_insert_ne in Hn by done. split; [|done]. rewrite not_elem_of_cons. auto.
Qed.

(** The store of a component after the first turn of its thread. *)
Definition component_store (socket : nat -> Z) (c : ComponentPorts) : Store :=
  store_inits socket 0 (port_plan c) no_ports.

Lemma component_store_ok socket c : exists j, store_ok j (component_store socket c).
Proof. apply (store_inits_ok socket 0), no_ports_ok. Qed.

(** The name resolves to the object that it owns. *)
Lemma GetPortByName_obj_ok j st n : store_ok j st ->
  match st_names st !! n with
  | None => GetPortByName_obj n st = Ok None
  | Some id => exists o, st_heap st !! id = Some o /\ GetPortByName_obj n st = Ok (Some o)
                 /\ p_name (po_port o) = n /\ po_class o = class_of (p_type (po_port o))
  end.
Proof.
  intros H. unfold GetPortByName_obj. destruct (st_names st !! n) as [id|] eqn:E; [|done].
  destruct (so_owned _ _ H _ _ E) as (o & Ho & Hn). exists o. unfold object. rewrite Ho. split_and!; [done..|].
  by eapply so_class.
Qed.

(** ** The tables by value *)

(** [Component.v]'s tables hold the objects that the pointers refer to. *)
Record by_value (st : Store) (s : Component) : Prop := {
  bv_names n : ports_ s !! n = id ← st_names st !! n; po_port <$> st_heap st !! id;
  bv_sockets k id : st_sockets st !! k = Some id ->
    exists o, st_heap st !! id = Some o /\ portSockets s !! k = Some (po_port o);
  bv_no_socket k : st_sockets st !! k = None -> portSockets s !! k = None;
}.

Lemma init_by_value i sock pl st s :
  store_ok i st -> by_value st s -> st_names st !! pl.1.2 = None ->
  by_value (store_init i sock pl st) (init_port sock pl s).1.
Proof.
  destruct pl as [[t name] b]. cbn [fst snd]. intros Hok [Hn Hs Hns] Hnew.
  assert (st_heap st !! i = None) as Hi.
  { destruct (st_heap st !! i) as [o|] eqn:E; [|done].
    pose proof (so_fresh _ _ Hok i (ex_intro _ o E)). lia. }
  split; simpl; rewrite ?Hnew.
  - intros n. destruct (decide (name = n)) as [<-|Hne].
    + rewrite !lookup_insert_eq. simpl. by rewrite lookup_insert_eq.
    + rewrite !lookup_insert_ne by done. rewrite Hn. destruct (st_names st !! n) as [id|] eqn:E; [|done].
      simpl. rewrite lookup_insert_ne; [done|]. intros <-. destruct (so_owned _ _ Hok _ _ E) as (o & ? & _). congruence.
  - intros k id. destruct (decide (sock = k)) as [<-|Hne].
    + rewrite !lookup_insert_eq. intros [= <-]. rewrite lookup_insert_eq. eauto.
    + rewrite lookup_insert_ne by done. intros H. destruct (Hs _ _ H) as (o & Ho & Hk). exists o.
      rewrite !lookup_insert_ne by (done || congruence). done.
  - intros k. destruct (decide (sock = k)) as [<-|Hne]; [by rewrite lookup_insert_eq|].
    rewrite !lookup_insert_ne by done. apply Hns.
Qed.

Lemma inits_by_value socket i l st s :
  store_ok i st -> by_value st s -> NoDup (map (fun pl => pl.1.2) l) ->
  (forall n, n ∈ map (fun pl => pl.1.2) l -> st_names st !! n = None) ->
  by_value (store_inits socket i l st) (init_ports socket i l s).1.
Proof.
  revert i st s. induction l as [|pl l IH]; intros i st s Hok Hbv Hnd Hnew; [done|].
  apply NoDup_cons in Hnd as [Hnin Hnd]. cbn [store_inits init_ports].
  assert (st_names st !! pl.1.2 = None) as Hn by (apply Hnew; left).
  pose proof (init_by_value i (socket i) pl st s Hok Hbv Hn) as Hbv1.
  destruct (init_port (socket i) pl s) as [s1 o1]. simpl in Hbv1.
  specialize (IH (S i) (store_init i (socket i) pl st) s1 (store_init_ok _ _ _ _ Hok) Hbv1 Hnd).
  destruct (init_ports socket (S i) l s1) as [s2 o2]. apply IH. intros n Hin.
  destruct pl as [[t name] b]. simpl in *. rewrite lookup_insert_ne; [apply Hnew; by right|].
  intros ->. done.
Qed.

(** Every cast that the thread makes tells the types apart. *)
Lemma casts_by_type t o :
  po_class o = class_of t ->
  is_port (AsAnswerPort o) = bool_decide (t = Answer) /\ is_port (AsQueryPort o) = bool_decide (t = Query)
  /\ is_port (AsInsidePort o) = bool_decide (t = Inside) /\ is_port (AsTimerPort o) = bool_decide (t = Timer)
  /\ is_port (GetPortAs RecvPort o) = bool_decide (t = Response \/ t = Request \/ t = Subscriber)
  /\ is_port (GetPortAs SenderPort o)
     = bool_decide (t = Inside \/ t = Publisher \/ t = Response \/ t = Answer \/ t = Request).
Proof.
  intros H. unfold AsAnswerPort, AsQueryPort, AsInsidePort, AsTimerPort, GetPortAs, is_port. rewrite H.
  by destruct t.
Qed.

Lemma on_port_obj_eq st s received sock :
  by_value st s -> (forall id o, st_heap st !! id = Some o -> po_class o = class_of (p_type (po_port o))) ->
  on_port_obj received sock st = on_port received sock s.
Proof.
  intros [_ Hs Hns] Hc. unfold on_port_obj, on_port, object.
  destruct (st_sockets st !! sock) as [id|] eqn:E; simpl; [|by rewrite (Hns _ E)].
  destruct (Hs _ _ E) as (o & Ho & ->). rewrite Ho. simpl.
  destruct (casts_by_type _ o (Hc _ _ Ho)) as (-> & -> & -> & -> & -> & _).
  by destruct (p_type (po_port o)).
Qed.

Lemma GetPortByName_obj_eq j st s n :
  store_ok j st -> by_value st s ->
  GetPortByName n s = match GetPortByName_obj n st with Ok o => po_port <$> o | _ => None end.
Proof.
  intros Hok Hbv. pose proof (GetPortByName_obj_ok _ _ n Hok) as H. unfold GetPortByName.
  rewrite (bv_names _ _ Hbv). destruct (st_names st !! n) as [id|]; simpl.
  - destruct H as (o & -> & -> & _). done.
  - by rewrite H.
Qed.

(** ** Theorems *)

Definition plan_names (c : ComponentPorts) : list string := map (fun pl => pl.1.2) (port_plan c).

(** C24. The ports of a component are well typed, however the ports are named: a name
    of the configuration gives a live object of that name whose class passed
    the object's [port_type] to [PortBase], and the update of a port casts
    no object to a class that it is not of.  Which [SendMessageOnPort] is
    defined follows from the type: the one for encoded messages on senders,
    the ones with parameters and for a query on answer and query ports, the one
    of ZeroMQ messages on inside ports; a wrong type or, but for the last, an
    unknown name dereferences a null pointer. *)
Theorem ports_well_typed socket c config_of now clock zerr payload params msgId rc requestId message n frames :
  let st := component_store socket c in
  on_update_port_obj frames st <> UB
  /\ (GetPortByName_obj n st = Ok None /\ n ∉ plan_names c
      /\ SendMessageOnPort config_of now zerr payload n st = UB
      /\ SendMessageOnPort_params config_of now clock zerr params payload n st = UB
      /\ SendMessageOnPort_query clock msgId rc payload requestId n st = UB
      /\ SendMessageOnPort_zmsg config_of now zerr message n st = Ok ([], false)
    \/ exists o, GetPortByName_obj n st = Ok (Some o) /\ p_name (po_port o) = n
      /\ tag_of (po_class o) = Some (p_type (po_port o))
      /\ let t := p_type (po_port o) in
         (SendMessageOnPort config_of now zerr payload n st <> UB
            <-> t = Inside \/ t = Publisher \/ t = Response \/ t = Answer \/ t = Request)
         /\ (SendMessageOnPort_params config_of now clock zerr params payload n st <> UB <-> t = Answer)
         /\ (SendMessageOnPort_query clock msgId rc payload requestId n st <> UB <-> t = Query)
         /\ (SendMessageOnPort_zmsg config_of now zerr message n st <> UB <-> t = Inside)).
Proof.
  intros st. destruct (component_store_ok socket c) as [j Hok]. fold st in Hok. split.
  - unfold on_update_port_obj. destruct frames as [|portname [|host [|port frames]]]; try done.
    pose proof (GetPortByName_obj_ok _ _ portname Hok) as H.
    destruct (st_names st !! portname) as [id|]; [|by rewrite H].
    destruct H as (o & _ & -> & _ & Hc). simpl. unfold downcast. rewrite Hc. by destruct (p_type (po_port o)).
  - pose proof (GetPortByName_obj_ok _ _ n Hok) as H.
    unfold SendMessageOnPort, SendMessageOnPort_params, SendMessageOnPort_query, SendMessageOnPort_zmsg,
      ComponentBase_GetPortAs.
    destruct (st_names st !! n) as [id|] eqn:En.
    + destruct H as (o & _ & -> & Hn & Hc). right. exists o. cbn [mbind Res_bind deref option_bind].
      unfold AsInsidePort, GetPortAs. rewrite Hc. destruct (p_type (po_port o)); split_and!; try done;
        split; intros; try done; naive_solver.
    + rewrite H. left. apply store_inits_names in En as [Hn _]. done.
Qed.

(** C25. The tables by value are the tables of pointers: for ports with
    different names, what the thread and the user's code find behind the
    pointers with [dynamic_cast] is what [Component.v] finds by the type of
    the port, on every socket and for every name. *)
Theorem port_tables_agree socket s received sock n frames :
  NoDup (plan_names (component_ports s)) -> ports_ s = ∅ -> portSockets s = ∅ ->
  let st := component_store socket (component_ports s) in
  let s' := (init_ports socket 0 (port_plan (component_ports s)) s).1 in
  on_port_obj received sock st = on_port received sock s'
  /\ on_update_port_obj frames st = Ok (on_update_port frames s')
  /\ GetPortByName_obj n st <> UB
  /\ (forall t, (exists o, ComponentBase_GetPortAs (class_of t) n st = Ok (Some o)
                  /\ po_port o = {| p_name := n; p_type := t; p_socket := p_socket (po_port o) |})
        <-> is_Some (GetPortByNameAs t n s'))
  /\ (stop_timer_obj n st = Ok n <-> is_Some (GetPortByNameAs Timer n s')).
Proof.
  intros Hnd Hp Hq st s'. destruct (component_store_ok socket (component_ports s)) as [j Hok]. fold st in Hok.
  assert (by_value st s') as Hbv.
  { apply inits_by_value; [apply no_ports_ok| |done|intros; apply lookup_empty].
    split; intros *; rewrite ?Hp, ?Hq; simpl; rewrite ?lookup_empty; done. }
  pose proof (fun m => GetPortByName_obj_ok _ _ m Hok) as Hget.
  pose proof (fun m => GetPortByName_obj_eq _ _ _ m Hok Hbv) as Heq. split_and!.
  - apply on_port_obj_eq; [done|]. apply Hok.
  - unfold on_update_port_obj, on_update_port. destruct frames as [|portname [|host [|port frames]]]; try done.
    rewrite Heq. specialize (Hget portname). destruct (st_names st !! portname) as [id|]; [|by rewrite Hget].
    destruct Hget as (o & _ & -> & _ & Hc). simpl. unfold downcast. rewrite Hc. by destruct (p_type (po_port o)).
  - specialize (Hget n). destruct (st_names st !! n); [destruct Hget as (? & _ & -> & _)|rewrite Hget]; done.
  - intros t. unfold ComponentBase_GetPortAs, GetPortByNameAs. rewrite Heq. specialize (Hget n).
    destruct (st_names st !! n) as [id|]; [|rewrite Hget; simpl; split; [intros (? & ? & _); done|by intros []]].
    destruct Hget as (o & _ & -> & Hn & Hc). simpl. unfold GetPortAs. rewrite Hc.
    destruct o as [c [pn pt ps]]; simpl in *. subst pn.
    split; [intros (o' & Ho & Hp')|intros [p Hp']]; case_bool_decide as Ht; try done; subst; simpl.
    + exfalso. destruct (derives (class_of pt) (class_of t)) eqn:Ed; [|done]. injection Ho as <-.
      simpl in Hp'. congruence.
    + destruct t; by eexists.
  - unfold stop_timer_obj, GetPortByNameAs. rewrite Heq. specialize (Hget n).
    destruct (st_names st !! n) as [id|]; [|rewrite Hget; simpl; split; [done|by intros []]].
    destruct Hget as (o & _ & -> & Hn & Hc). simpl. unfold AsTimerPort, GetPortAs. rewrite Hc.
    destruct o as [c [pn pt ps]]; simpl in *. subst pn. case_bool_decide as Ht; [by subst|].
    split; [|by intros []]. by destruct pt.
Qed.

(** ** Two ports of one name *)

(** A destroyed object stays destroyed, its socket keeps pointing to it unless
    a new socket has the same address, and only the next port of a name takes it. *)
Lemma store_inits_keeps socket i l st :
  (forall id, (id < i)%nat -> st_heap st !! id = None -> st_heap (store_inits socket i l st) !! id = None)
  /\ (forall k, k ∉ map socket (List.seq i (length l)) -> st_sockets (store_inits socket i l st) !! k = st_sockets st !! k)
  /\ (forall n, n ∉ map (fun pl => pl.1.2) l -> st_names (store_inits socket i l st) !! n = st_names st !! n).
Proof.
  revert i st. induction l as [|[[t name] b] l IH]; intros i st; [done|]. simpl.
  destruct (IH (S i) (store_init i (socket i) (t, name, b) st)) as (IH1 & IH2 & IH3). simpl in *. split_and!.
  - intros id Hlt Hnone. apply IH1; [lia|]. rewrite lookup_insert_ne by lia.
    destruct (st_names st !! name) as [old|]; [|done]. destruct (decide (old = id)) as [->|];
      [by rewrite lookup_delete_eq|by rewrite lookup_delete_ne].
  - intros k [Hk Hin]%not_elem_of_cons. rewrite IH2 by done. by rewrite lookup_insert_ne.
  - intros n [Hn Hin]%not_elem_of_cons. rewrite IH3 by done. by rewrite lookup_insert_ne.
Qed.

Lemma store_inits_keeps_object socket i l st id o :
  st_heap st !! id = Some o -> (id < i)%nat ->
  st_heap (store_inits socket i l st) !! id = None \/ st_heap (store_inits socket i l st) !! id = Some o.
Proof.
  revert i st. induction l as [|[[t m] b] l IH]; intros i st Ho Hlt; [by right|]. cbn [store_inits].
  set (st5 := store_init i (socket i) (t, m, b) st).
  destruct (decide (st_heap st5 !! id = None)) as [Hnone|Hsome].
  - left. apply store_inits_keeps; [lia|done].
  - apply IH; [|lia]. unfold st5 in *. simpl in *. rewrite lookup_insert_ne in * by lia.
    destruct (st_names st !! m) as [old|]; [|done]. destruct (decide (old = id)) as [->|];
      [by rewrite lookup_delete_eq in Hsome|by rewrite lookup_delete_ne].
Qed.

Lemma store_inits_app socket i l1 l2 st :
  store_inits socket i (l1 ++ l2) st = store_inits socket (i + length l1) l2 (store_inits socket i l1 st).
Proof.
  revert i st. induction l1 as [|pl l1 IH]; intros i st; simpl; [by rewrite Nat.add_0_r|].
  rewrite IH. simpl. by rewrite Nat.add_succ_r.
Qed.

(** Names must differ: of two ports with one name the first is destroyed when
    the second is created, and the poller keeps its socket; a message there, or
    the end of a component whose timer lost its name, goes through a pointer to
    a destroyed object. *)
Theorem duplicate_name_dangles socket c l1 t1 n b1 l2 t2 b2 l3 received :
  port_plan c = l1 ++ (t1, n, b1) :: l2 ++ (t2, n, b2) :: l3 ->
  n ∉ map (fun pl => pl.1.2) l2 -> (forall i j, socket i = socket j -> i = j) ->
  on_port_obj received (socket (length l1)) (component_store socket c) = UB
  /\ (n ∉ map (fun pl => pl.1.2) l3 -> t2 <> Timer -> stop_timer_obj n (component_store socket c) = UB).
Proof.
  intros Hplan Hl2 Hinj. unfold component_store. rewrite Hplan, store_inits_app. cbn [store_inits].
  rewrite store_inits_app. cbn [store_inits]. change (0 + length l1)%nat with (length l1).
  set (a := length l1).
  set (st1 := store_inits socket 0 l1 no_ports). set (st2 := store_init a (socket a) (t1, n, b1) st1).
  set (b := (S a + length l2)%nat).
  destruct (store_inits_keeps socket (S a) l2 st2) as (_ & Hs2 & Hn2).
  set (st3 := store_inits socket (S a) l2 st2) in *. set (st4 := store_init b (socket b) (t2, n, b2) st3).
  destruct (store_inits_keeps socket (S b) l3 st4) as (Hh5 & Hs5 & Hn5).
  assert (forall i m, (a < i)%nat -> socket a ∉ map socket (List.seq i m)) as Hout.
  { intros i m Hi (j & Hj & Hin)%list_elem_of_fmap. apply Hinj in Hj as <-.
    apply list_elem_of_In, in_seq in Hin. lia. }
  assert (st_names st3 !! n = Some a) as Hn by (rewrite Hn2 by done; simpl; apply lookup_insert_eq).
  split.
  - unfold on_port_obj, object. rewrite Hs5 by (apply Hout; lia). unfold st4 at 1. simpl.
    rewrite lookup_insert_ne by (intros E%Hinj; lia). rewrite Hs2 by (apply Hout; lia). unfold st2 at 1. simpl.
    rewrite lookup_insert_eq. simpl. rewrite Hh5; [done|lia|]. unfold st4. simpl. rewrite Hn.
    rewrite lookup_insert_ne by lia. apply lookup_delete_eq.
  - intros Hl3 Ht2. unfold stop_timer_obj, GetPortByName_obj, object.
    assert (st_names st4 !! n = Some b) as Hb by apply lookup_insert_eq.
    rewrite Hn5, Hb by done.
    destruct (store_inits_keeps_object socket (S b) l3 st4 b
      (mkObj (class_of t2) {| p_name := n; p_type := t2; p_socket := socket b |})) as [E|E];
      [apply lookup_insert_eq|lia|by rewrite E|rewrite E; by destruct t2].
Qed.

(** ** Examples *)

Definition clash_ports : ComponentPorts :=
  {| inss := []; tims := [("p", 1000)]; pubs := []; reps := []; anss := ["ans"]; reqs := [];
     qrys := []; subs := ["p"] |}.

Lemma duplicate_name_dangles_witness :
  on_port_obj true 0 (component_store Z.of_nat clash_ports) = UB
  /\ stop_timer_obj "p" (component_store Z.of_nat clash_ports) = UB.
Proof.
  destruct (duplicate_name_dangles Z.of_nat clash_ports [] Timer "p" true [(Answer, "ans", false)] Subscriber false
    [] true) as [H1 H2]; [done|by apply (bool_decide_unpack _); vm_compute|intros; lia|].
  split; [exact H1|]. apply H2; [apply not_elem_of_nil|done].
Defined.

Lemma port_tables_agree_witness :
  NoDup (plan_names demo_ports)
  /\ is_Some (GetPortByNameAs Timer "clock" (run_first Z.of_nat demo_component).1).
Proof.
  split; [by apply (bool_decide_unpack _); vm_compute|].
  destruct (port_tables_agree Z.of_nat demo_component true 0 "clock" []) as (_ & _ & _ & _ & H);
    [by apply (bool_decide_unpack _); vm_compute|done|done|]. apply H. by vm_compute.
Defined.
