(* ===== verification/GroupNet.v ===== *)
(** GroupNet.v - components that share a group over a network.

    A [Net] is a set of component objects ([Component.v]), each with the loop
    of its thread and its groups, and everything their groups have published so
    far.  A step is one act of a component ([Handlers.v]): the event of a turn
    of its thread, the round of one group, or one call of the user's code,
    from a handler or from elsewhere.  The theorems carry
    the election safety of [Election.v] over to the whole of this: ports,
    dispatch, heartbeats, membership, joining and leaving included. *)

From Stdlib Require Import ZArith Lia Sorted.
From stdpp Require Import base gmap strings list fin_maps fin_sets.
From S2P Require Import Prelude.
From S2P Require Import Timeout.
From S2P Require Import DistCoord.
From S2P Require Import GroupLead.
From S2P Require Import Election.
From S2P Require Import Cluster.
From S2P Require Import Ports.
From S2P Require Import Group.
From S2P Require Import Component.
From S2P Require Import Handlers.

#[local] Open Scope riaps_scope.

(** ** The network *)

(** The internal messages that the groups of a component publish, by group:
    the services of a group are announced under its id. *)
Definition posted (o : CompOut) : option (GroupId * GroupMsg) :=
  match o with
  | GroupOutput gid (PortSent _ (Internal m) _) => Some (gid, m)
  | _ => None
  end.

(** [gn_been] remembers which component has ever been in which group. *)
Record Net := mkNet {
  gn_comps : gmap string Component;
  gn_wire : list (GroupId * GroupMsg);
  gn_been : gset (string * GroupId);
}.

(** The net after a step of component [id]. *)
Definition stepped (n : Net) (id : string) (s' : Component) (out : list CompOut) : Net :=
  mkNet (<[id := s']> (gn_comps n)) (gn_wire n ++ omap posted out)
    (gn_been n ∪ set_map (pair id) (dom (groups_ s'))).

Definition net_step (id : string) (a : Act) (n : Net) : Res Net :=
  s ← deref (gn_comps n !! id);
  '(s', out) ← act a s;
  Ok (stepped n id s' out).

Fixpoint net_run (l : list (string * Act)) (n : Net) : Res Net :=
  match l with
  | [] => Ok n
  | (id, a) :: l' => n' ← net_step id a n; net_run l' n'
  end.

(** The frames of a published message. *)
Definition raw_of (m : GroupMsg) : RawMsg :=
  {| rm_first := Some (gmsg_header m); rm_rest := option_list (gmsg_body m) |}.

(** ** What the network and the time outs must provide *)

Section Conditions.
Variables (gid : GroupId) (members : gset string).

(** What has been published in the group. *)
Definition wire_of (n : Net) : list GroupMsg :=
  omap (fun p => if decide (p.1 = gid) then Some p.2 else None) (gn_wire n).

(** The internal subscriber delivers only what a member has published. *)
Definition delivered (n : Net) (g : Group) (p : Polled) : Prop :=
  match p with
  | Readable which (Some m) => group_subport_ (core g) = Some which -> m ∈ raw_of <$> wire_of n
  | _ => True
  end.

(** A member that starts an election counts at least [members]. *)
Definition counts_all (i : GroupInput) (g : Group) : Prop :=
  match group_leader_ g, group_round i g with
  | Some l, Ok ({| group_leader_ := Some l' |}, _) =>
      m_currentState l = FOLLOWER -> m_currentState l' = CANDIDATE ->
      Z.of_nat (size members) <= m_numberOfNodesInVote l' /\ in_u 32 (m_electionTerm l + 1)
  | _, _ => True
  end.

(** A follower receives no [AppendEntry] of a term before its own. *)
Definition fresh_append (g : Group) (p : Polled) : Prop :=
  match group_leader_ g, p with
  | Some l, Readable _ (Some {| rm_first := Some (leaderElection (Some {| appendEntry := Some ae |})) |}) =>
      m_currentState l = FOLLOWER -> m_electionTerm l <= ae_electionTerm ae
  | _, _ => True
  end.

Definition turn_ok (n : Net) (i : GroupInput) (g : Group) : Prop :=
  delivered n g (gi_polled i) /\ counts_all i g /\ fresh_append g (gi_polled i).

(** A component joins the group at most once, and is one of [members]. *)
Definition joins_once (n : Net) (id : string) (s : Component) (a : Act) : Prop :=
  match a with
  | Calls gid' (CallJoin _) =>
      gid' = gid -> ~ is_Some (groups_ s !! gid) -> id ∈ members /\ (id, gid) ∉ gn_been n
  | _ => True
  end.

Definition turns_ok (n : Net) (s : Component) (a : Act) : Prop :=
  match a, groups_ s !! gid with
  | Round gid' i, Some g => gid' = gid -> turn_ok n i g
  | _, _ => True
  end.

Definition allowed (n : Net) (id : string) (s : Component) (a : Act) : Prop :=
  turns_ok n s a /\ joins_once n id s a.

#[export] Instance turns_ok_dec n s a : Decision (turns_ok n s a).
Proof.
  unfold turns_ok, turn_ok, delivered, counts_all, fresh_append.
  repeat (apply _ || case_match).
Defined.
#[export] Instance joins_once_dec n id s a : Decision (joins_once n id s a).
Proof. unfold joins_once. repeat (apply _ || case_match). Defined.

Definition fresh_net (n : Net) : Prop :=
  gn_wire n = [] /\ gn_been n = ∅
  /\ forall id s, gn_comps n !! id = Some s -> component_uuid_ s = id /\ groups_ s = ∅.

Inductive net_reachable : Net -> Prop :=
| net_reach_start n : fresh_net n -> net_reachable n
| net_reach_step n id s a n' :
    net_reachable n -> gn_comps n !! id = Some s -> allowed n id s a ->
    net_step id a n = Ok n' -> net_reachable n'.

(** The component holds the office of leader of the group in term [t]. *)
Definition leads (s : Component) (t : Z) : Prop :=
  exists g l, groups_ s !! gid = Some g /\ group_leader_ g = Some l
    /\ m_currentState l = LEADER /\ m_electionTerm l = t.
End Conditions.

(** ** One round of a group, seen by the election *)

Definition election_of (m : GroupMsg) : option LeaderElection :=
  match gmsg_header m with leaderElection (Some x) => Some x | _ => None end.

(** A leader knows that it is the leader. *)
Definition self_aware {G} `{GroupApi G} (s : GroupLead G) : Prop :=
  m_currentState s = LEADER -> m_leaderId s = GetComponentId s.

Section SelfAware.
Context {G : Type} `{GroupApiLaws G}.
Implicit Type s : GroupLead G.

Lemma same_election_aware s r : election_unchanged s r -> self_aware s -> self_aware r.1.
Proof.
  intros (He & Hg & Hl & _) Hs. unfold self_aware, GetComponentId in *. rewrite Hg, Hl.
  intros Hr. apply Hs. unfold elect_of in He. congruence.
Qed.

Lemma Update_aware clk order s : self_aware s -> self_aware (Update clk order s).1.
Proof.
  intros Hs. unfold Update, read at 1. destruct (m_currentState s) eqn:Hst; eval_tests.
  - repeat case_match; try done. intros Hl. exfalso.
    destruct (become_candidate_implements (clk 0%nat) (clk 3%nat) (clk 4%nat) s Hst) as [He _].
    revert Hl. remember (elect_of s) as e. remember (elect_of _) as e' in He.
    assert (e_role e = FOLLOWER) as Hf by by subst e.
    intros Hl. assert (e_role e' = LEADER) as Hf' by by subst e'.
    clear Heqe Heqe'. inversion He; subst; simpl in *; congruence.
  - repeat case_match; try done.
  - repeat case_match; try done. by eapply same_election_aware; [apply expire_proposals_election|].
Qed.

Lemma UpdateMsg_aware now draw m s : self_aware s -> self_aware (UpdateMsg now draw m s).1.
Proof.
  intros Hs. unfold UpdateMsg, read at 1.
  destruct (requestForVoteReq m), (requestForVoteRep m), (appendEntry m), (m_currentState s) eqn:Hst;
    try done;
    unfold on_voteReq_follower, on_voteReq_active, on_voteRep_candidate, on_appendEntry_follower,
      on_appendEntry_leader, self_aware in *; run_lead;
    repeat (case_bool_decide || case_match); simpl in *; intros; first [congruence|by auto].
Qed.

Lemma handle_aware i s : (forall g : G, i <> GroupMoves g) -> self_aware s -> self_aware (handle i s).1.
Proof.
  intros Hg Hs. destruct i as [| | | | |g]; simpl; [| | | | |by destruct (Hg g)].
  - by apply Update_aware.
  - by apply UpdateMsg_aware.
  - by eapply same_election_aware; [apply OnPropose_leaves|].
  - by eapply same_election_aware; [apply OnActionPropose_leaves|].
  - by eapply same_election_aware; [apply OnVote_leaves|].
Qed.
End SelfAware.

Section Round.
Implicit Types (g : Group) (l : GroupLead GroupCore).

Lemma ping_quiet now zerr c c' out rc :
  SendPingWithPeriod now zerr c = Ok (c', out, rc) ->
  component_uuid c' = component_uuid c /\ omap election_sent out = [].
Proof.
  unfold SendPingWithPeriod, SendPing, SendHeartBeat. intros Hp.
  repeat case_match; simpl in Hp; try (by simplify_eq);
    destruct (group_pubport_ c); simpl in Hp; by simplify_eq.
Qed.

(** A round of a group is one step of [espec], the specification of the
    election, and neither creates nor removes the leader object. *)
Lemma group_round_elect i g l g' out :
  group_round i g = Ok (g', out) -> group_leader_ g = Some l ->
  exists l' view m sent, group_leader_ g' = Some l'
    /\ component_uuid (core g') = component_uuid (core g)
    /\ espec (component_uuid (core g)) view m (elect_of l) (elect_of l') sent
    /\ (forall x, x ∈ omap election_sent out -> x ∈ sent)
    /\ (forall x, m = Some x -> exists which rest, group_subport_ (core g) = Some which
          /\ gi_polled i = Readable which
               (Some {| rm_first := Some (leaderElection (Some x)); rm_rest := rest |}))
    /\ ((m_currentState l = LEADER -> m_leaderId l = component_uuid (core g)) ->
        m_currentState l' = LEADER -> m_leaderId l' = component_uuid (core g)).
Proof.
  unfold group_round. intros Hr Hl. inv_bind Hr. destruct x as [[c o1] rc]. inv_bind Hr.
  destruct x as [g2 o2]. injection Hr as <- <-.
  assert (group_subport_ c = group_subport_ (core g)) as Hsub.
  { revert E. unfold SendPingWithPeriod, SendPing, SendHeartBeat. simpl.
    repeat case_match; simpl; try (by intros [= <- _ _]);
      destruct (group_pubport_ (core g)); simpl; by intros [= <- _ _]. }
  apply ping_quiet in E as [Hu Hq]. rewrite omap_app, Hq. simpl.
  apply fetch_cases in E0 as [(c2 & -> & Hu2 & Hq2 & _)|(l0 & j & Hl0 & [-> ->] & Hj & Hm & _)]; simpl in *.
  - exists l, 0, None, []. split_and!; [done|congruence|constructor|by rewrite Hq2|done|done].
  - assert (l0 = l) as -> by congruence. set (s := set_group c l) in *.
    destruct (handle_implements j s) as (view & m & [He Hid] & Hrec & _); [by intros ? ->; edestruct Hj|].
    change (GetComponentId s) with (component_uuid c) in *. rewrite Hu in *.
    exists (handle j s).1, view, m, (election_msgs (handle j s).2). split_and!; [done|exact Hid|done| | |].
    + intros x. by apply leader_out_sent.
    + intros x (now & draw & Hx)%Hrec. rewrite <- Hsub. by eapply Hm.
    + intros Haw Hst. rewrite <- Hid. apply (handle_aware j s); [done| |done].
      unfold self_aware. change (GetComponentId s) with (component_uuid c). rewrite Hu. exact Haw.
Qed.
End Round.

(** ** What a step does to the members of one group *)

(** The component's leader object of the group. *)
Definition leader_of (gid : GroupId) (s : Component) : option (GroupLead GroupCore) :=
  groups_ s !! gid ≫= group_leader_.

(** Facts of one component on its own. *)
Record comp_wf (gid : GroupId) (s : Component) : Prop := {
  cw_core g : groups_ s !! gid = Some g -> component_uuid (core g) = component_uuid_ s;
  cw_aware l : leader_of gid s = Some l -> m_currentState l = LEADER -> m_leaderId l = component_uuid_ s;
}.

Definition fresh_elect : Elect := mkElect FOLLOWER 0 0 ∅.

(** How a step changes the group [gid] of a component: the group does not
    change, or it is left, or it is joined, or it takes a round, or a member is
    counted. *)
Inductive group_change (gid : GroupId) (a : Act) (s s' : Component) (sent : list LeaderElection) : Prop :=
| GC_none : groups_ s' !! gid = groups_ s !! gid -> sent = [] -> group_change gid a s s' sent
| GC_left : groups_ s' !! gid = None -> sent = [] -> group_change gid a s s' sent
| GC_join e g l :
    a = Calls gid (CallJoin e) -> groups_ s !! gid = None -> groups_ s' !! gid = Some g ->
    component_uuid (core g) = component_uuid_ s ->
    (group_leader_ g = None \/ group_leader_ g = Some l /\ elect_of l = fresh_elect) -> sent = [] ->
    group_change gid a s s' sent
| GC_count g c :
    groups_ s !! gid = Some g -> groups_ s' !! gid = Some (set_core c g) ->
    component_uuid c = component_uuid (core g) -> sent = [] -> group_change gid a s s' sent
| GC_round i g g' o :
    a = Round gid i -> groups_ s !! gid = Some g -> groups_ s' !! gid = Some g' ->
    group_round i g = Ok (g', o) -> sent = omap election_sent o ->
    group_change gid a s s' sent.

(** The effects of a group that [sel] selects, among the effects of a component. *)
Section Select.
Context {A : Type} (sel : GroupOut -> option A).

Definition sel_in (gid : GroupId) (o : CompOut) : option A :=
  match o with
  | GroupOutput gid' o' => if decide (gid' = gid) then sel o' else None
  | _ => None
  end.

(** Only what is sent is selected. *)
Definition selects_sent : Prop :=
  forall o, match o with PortSent _ (Internal _) _ => True | _ => sel o = None end.

Lemma sel_in_group gid gid' o :
  omap (sel_in gid) (map (GroupOutput gid') o) = if decide (gid' = gid) then omap sel o else [].
Proof.
  destruct (decide (gid' = gid)) as [->|Hne]; induction o as [|x o IH]; try done; simpl.
  - rewrite decide_True by done. destruct (sel x); [by f_equal|exact IH].
  - by rewrite decide_False.
Qed.

Lemma with_group_sel gid gid' {B} (s : Component) (failed : B) f :
  omap (sel_in gid) (with_group gid' s failed f).1
  = match groups_ s !! gid' with
    | Some g => if decide (gid' = gid) then omap sel (f g).1 else []
    | None => []
    end.
Proof.
  unfold with_group. destruct (groups_ s !! gid') as [g|]; [|done].
  destruct (f g) as [o r]. cbn [fst]. apply sel_in_group.
Qed.

Lemma with_group_quiet gid gid' {B} (s : Component) (failed : B) f :
  (forall g, omap sel (f g).1 = []) -> omap (sel_in gid) (with_group gid' s failed f).1 = [].
Proof. intros Hf. rewrite with_group_sel. repeat case_match; by rewrite ?Hf. Qed.

Lemma init_ports_sel gid socket i l s : omap (sel_in gid) (init_ports socket i l s).2 = [].
Proof.
  revert i s. induction l as [|[[t n] b] l IH]; intros i s; [done|]. cbn [init_ports init_port].
  specialize (IH (S i) (set_ports (<[n := {| p_name := n; p_type := t; p_socket := socket i |}]> (ports_ s))
    (<[socket i := {| p_name := n; p_type := t; p_socket := socket i |}]> (portSockets s)) s)).
  destruct (init_ports socket (S i) l _) as [s2 o2]. cbn [snd] in *. rewrite omap_app, IH, omap_app.
  by destruct (bool_decide (t = Publisher)), b.
Qed.

Context (Hsel : selects_sent).

Lemma on_event_sel gid ev s s' o b :
  on_event ev s = Ok (s', o, b) -> omap (sel_in gid) o = [].
Proof.
  destruct ev as [|[[|c f]|]|body|t| |k r]; simpl; try done; try (by intros [= <- <- _]).
  - repeat case_bool_decide; intros [= <- <- _]; try done. unfold on_update_port. repeat case_match; done.
  - intros H. inv_bind H. injection H as <- <- _. unfold UpdateGroup.
    destruct (groups_ s !! _); [|done]. rewrite sel_in_group. case_decide; [|done].
    apply elem_of_nil_inv. intros y (o & Ho & Hy)%list_elem_of_omap.
    apply list_elem_of_bind in Ho as (v & Ho & _).
    apply list_elem_of_bind in Ho as ([k [c0 a|c0]] & Ho & _); simpl in Ho; [by apply elem_of_nil in Ho|].
    revert Ho. case_bool_decide; [|by intros ?%elem_of_nil]. intros ->%list_elem_of_singleton.
    pose proof (Hsel (Connected k ("tcp://" +:+ gs_address v))) as Hc. simpl in Hc. congruence.
  - destruct (scheduled_action_ s); [|done]. by intros [= <- <- _].
  - intros H. inv_bind H. injection H as <- <- _. revert E. unfold on_port.
    repeat case_match; by intros [= <-].
Qed.

End Select.

(** The event of a turn leaves the groups alone. *)
Lemma event_sel gid socket ev s s' out :
  act (Event socket ev) s = Ok (s', out) ->
  groups_ s' = groups_ s
  /\ forall A (sel : GroupOut -> option A), selects_sent sel -> omap (sel_in sel gid) out = [].
Proof.
  intros H. simpl in H. inv_bind H. destruct x as [[s1 o1] b]. injection H as <- <-.
  split; [by eapply event_groups|]. intros A sel Hs. unfold event_step in E.
  assert (omap (sel_in sel gid) (run_first socket s).2 = []) as Hq
    by (unfold run_first; destruct (firstrun s); [apply init_ports_sel|done]).
  destruct (run_first socket s) as [s0 o0]. inv_bind E. destruct x as [[s2 o2] b']. injection E as _ <- _.
  rewrite omap_app. simpl in Hq. rewrite Hq. by eapply (on_event_sel sel Hs).
Qed.

Lemma round_act gid i s s' out :
  act (Round gid i) s = Ok (s', out) ->
  exists g g' o, groups_ s !! gid = Some g /\ group_round i g = Ok (g', o)
    /\ s' = set_groups (<[gid := g']> (groups_ s)) s /\ out = map (GroupOutput gid) o.
Proof.
  simpl. unfold round_step. intros H. inv_bind H. destruct (groups_ s !! gid) as [g|]; [|done].
  injection E as <-. inv_bind H. destruct x as [g' o]. injection H as <- <-. by exists g, g', o.
Qed.

(** What an act of the thread sends in a group is what the round of the group
    sends. *)
Lemma thread_sel gid a s s' out :
  match a with Calls _ _ => False | _ => True end -> act a s = Ok (s', out) ->
  groups_ s' !! gid = groups_ s !! gid
    /\ (forall A (sel : GroupOut -> option A), selects_sent sel -> omap (sel_in sel gid) out = [])
  \/ exists i g g' o, a = Round gid i /\ groups_ s !! gid = Some g /\ groups_ s' !! gid = Some g'
       /\ group_round i g = Ok (g', o)
       /\ forall A (sel : GroupOut -> option A), selects_sent sel -> omap (sel_in sel gid) out = omap sel o.
Proof.
  destruct a as [socket ev|gid' i|]; [| |done]; intros _ H.
  - left. destruct (event_sel gid _ _ _ _ _ H) as [-> Hq]. by split.
  - destruct (round_act _ _ _ _ _ H) as (g & g' & o & Hg & Hr & -> & ->). simpl.
    destruct (decide (gid' = gid)) as [->|Hne].
    + right. exists i, g, g', o. split_and!; [done..|by rewrite lookup_insert_eq|done|].
      intros A sel _. rewrite sel_in_group. by rewrite decide_True.
    + left. rewrite lookup_insert_ne by done. split; [done|]. intros A sel _. rewrite sel_in_group.
      by rewrite decide_False.
Qed.

(** The election messages of group [gid] among the effects of a step. *)
Abbreviation sent_in := (sel_in election_sent).

Lemma election_selects : selects_sent election_sent.
Proof. by intros [? [[]|]| | | | | | | |]. Qed.

Lemma sent_in_posted gid (out : list CompOut) x m :
  (gid, x) ∈ omap posted out -> gmsg_header x = leaderElection (Some m) -> m ∈ omap (sent_in gid) out.
Proof.
  intros (o & Ho & Hp)%list_elem_of_omap Hx. apply list_elem_of_omap. exists o. split; [done|].
  destruct o; simplify_eq/=. destruct o; simplify_eq/=. destruct m0; simplify_eq/=.
  rewrite decide_True by done. destruct x as [h b]. simpl in *. by subst h.
Qed.

Lemma send_quiet zerr m port c :
  (forall h b x, m = Internal {| gmsg_header := h; gmsg_body := b |} -> h <> leaderElection (Some x)) ->
  omap election_sent (SendMessage_zmsg zerr m port c).1 = [].
Proof.
  intros Hm. unfold SendMessage_zmsg. destruct (find_pub _ _) as [[k cfg]|]; [|done]. simpl.
  destruct m as [[h b]|f]; [|done]. simpl. destruct h as [[|]|[|]|[|]|[|]|[|]|[|]]; try done.
  exfalso. by eapply Hm.
Qed.

Ltac sends_quietly := apply send_quiet; intros ? ? ?; first [done|by intros [= <- _]].

Lemma api_quiet gid gid' c s : omap (sent_in gid) (api_call gid' c s).2 = [].
Proof.
  destruct c as [zerr m port|zerr m|zerr m|zerr m uuid|zerr a t uuid|zerr pid b|now|e|]; cbn [api_call snd].
  - apply with_group_quiet. intros g. unfold SendMessage. case_bool_decide; sends_quietly.
  - apply with_group_quiet. intros g. unfold SendMessageToLeader.
    case_bool_decide; [done|sends_quietly].
  - apply with_group_quiet. intros g. destruct (IsLeader_group g s); [|done]. unfold SendLeaderMessage.
    simpl. case_bool_decide; [done|sends_quietly].
  - apply with_group_quiet. intros g. unfold ProposeValueToLeader. case_bool_decide; [done|].
    rewrite (surjective_pairing (SendMessage_zmsg _ _ _ _)). sends_quietly.
  - apply with_group_quiet. intros g. unfold ProposeActionToLeader. case_bool_decide; [done|].
    rewrite (surjective_pairing (SendMessage_zmsg _ _ _ _)). sends_quietly.
  - apply with_group_quiet. intros g. sends_quietly.
  - done.
  - unfold JoinGroup. destruct (groups_ s !! gid'); [done|]. unfold InitGroup.
    destruct (je_conf e); [|done]. cbn [fst snd]. rewrite sel_in_group. by case_decide.
  - done.
Qed.

Lemma init_ports_uuid socket i l s : component_uuid_ (init_ports socket i l s).1 = component_uuid_ s.
Proof.
  revert i s. induction l as [|[[t n] b] l IH]; intros i s; [done|]. cbn [init_ports init_port].
  specialize (IH (S i) (set_ports (<[n := {| p_name := n; p_type := t; p_socket := socket i |}]> (ports_ s))
    (<[socket i := {| p_name := n; p_type := t; p_socket := socket i |}]> (portSockets s)) s)).
  by destruct (init_ports socket (S i) l _).
Qed.

Lemma thread_uuid a s s' out :
  match a with Calls _ _ => False | _ => True end -> act a s = Ok (s', out) -> component_uuid_ s' = component_uuid_ s.
Proof.
  destruct a as [socket ev|gid' i|]; [| |done]; intros _ H.
  - simpl in H. inv_bind H. destruct x as [[s1 o1] b]. injection H as <- _. unfold event_step in E.
    assert (component_uuid_ (run_first socket s).1 = component_uuid_ s) as Hu
      by (unfold run_first; destruct (firstrun s); [by rewrite init_ports_uuid|done]).
    destruct (run_first socket s) as [s0 o0]. cbn [fst snd] in *. inv_bind E. destruct x as [[s2 o2] b'].
    assert (component_uuid_ s2 = component_uuid_ s0) as Hu2.
    { destruct ev as [|[[|c f]|]|body|t| |k r]; simpl in E0; repeat case_bool_decide; try done;
        try (by injection E0 as <- _ _).
      - inv_bind E0. by injection E0 as <- _ _.
      - destruct (scheduled_action_ s0); [|done]. by injection E0 as <- _ _.
      - inv_bind E0. by injection E0 as <- _ _. }
    injection E as <- _ _. destruct b'; simpl; congruence.
  - by destruct (round_act _ _ _ _ _ H) as (g & g' & o & _ & _ & -> & _).
Qed.

Lemma thread_change gid a s s' out :
  match a with Calls _ _ => False | _ => True end -> act a s = Ok (s', out) ->
  component_uuid_ s' = component_uuid_ s /\ group_change gid a s s' (omap (sent_in gid) out).
Proof.
  intros Ha H. split; [by eapply thread_uuid|].
  destruct (thread_sel gid _ _ _ _ Ha H) as [[Hg Hq]|(i & g & g' & o & -> & Hg & Hg' & Hr & Hq)];
    rewrite (Hq _ _ election_selects); [by apply GC_none|by eapply GC_round].
Qed.

Lemma join_change gid gid' e s s' out ok :
  JoinGroup e gid' s = (s', out, ok) ->
  component_uuid_ s' = component_uuid_ s
  /\ group_change gid (Calls gid' (CallJoin e)) s s' [].
Proof.
  unfold JoinGroup, InitGroup. destruct (groups_ s !! gid') as [g0|] eqn:Eg.
  { intros [= <- _ _]. split; [done|by apply GC_none]. }
  destruct (je_conf e) as [conf|]; [|intros [= <- _ _]; split; [done|by apply GC_none]].
  destruct (je_joined e); intros [= <- _ _]; (split; [done|]); [|by apply GC_none].
  destruct (decide (gid' = gid)) as [->|Hne]; [|apply GC_none; [by apply lookup_insert_ne|done]].
  eapply GC_join; [done|done|by apply lookup_insert_eq|done| |done]. simpl.
  destruct (has_leader conf); [right|by left]. split; [done|]. unfold elect_of, fresh_elect. simpl.
  by rewrite dom_empty_L.
Qed.

Lemma act_change gid a s s' out :
  act a s = Ok (s', out) ->
  component_uuid_ s' = component_uuid_ s /\ group_change gid a s s' (omap (sent_in gid) out).
Proof.
  destruct a as [socket ev|gid' i|gid' c]; [by apply thread_change..|]. intros H.
  assert (component_uuid_ s' = component_uuid_ s /\ group_change gid (Calls gid' c) s s' []) as Hc;
    [|injection H as H; pose proof (api_quiet gid gid' c s) as Hq; by rewrite H in Hq; simpl in Hq; rewrite Hq].
  simpl in H. injection H as H.
  destruct c as [| | | | | |now|e|]; cbn [api_call] in H; try (injection H as <- _; split; [done|by apply GC_none]).
  - injection H as <- _. unfold GetGroupMemberCount. destruct (groups_ s !! gid') as [g|] eqn:Eg;
      [|split; [done|by apply GC_none]].
    pose proof (member_count_uuid now (core g)) as Hu.
    destruct (GetMemberCount now (core g)) as [n c]. split; [done|].
    destruct (decide (gid' = gid)) as [->|Hne]; [|apply GC_none; [by apply lookup_insert_ne|done]].
    eapply GC_count; [done|by apply lookup_insert_eq|exact Hu|done].
  - destruct (JoinGroup e gid' s) as [[s1 o1] ok] eqn:Ej. simpl in H. injection H as <- _.
    by eapply join_change.
  - injection H as <- _. unfold LeaveGroup. destruct (groups_ s !! gid'); [|split; [done|by apply GC_none]].
    split; [done|]. destruct (decide (gid' = gid)) as [->|Hne].
    + apply GC_left; [by apply lookup_delete_eq|done].
    + apply GC_none; [by apply lookup_delete_ne|done].
Qed.

(** A group without a leader object takes no part in the election. *)
Lemma group_round_no_leader i g g' out :
  group_round i g = Ok (g', out) -> group_leader_ g = None ->
  group_leader_ g' = None /\ component_uuid (core g') = component_uuid (core g)
  /\ omap election_sent out = [].
Proof.
  unfold group_round. intros Hr Hl. inv_bind Hr. destruct x as [[c o1] rc]. inv_bind Hr.
  destruct x as [g2 o2]. injection Hr as <- <-. apply ping_quiet in E as [Hu Hq].
  rewrite omap_app, Hq. apply fetch_cases in E0 as [(c2 & -> & Hu2 & Hq2 & _)|(l & j & Hl0 & _)];
    simpl in *; [|congruence]. by rewrite Hu2.
Qed.

Lemma group_change_wf gid a s s' sent :
  group_change gid a s s' sent -> component_uuid_ s' = component_uuid_ s ->
  comp_wf gid s -> comp_wf gid s'.
Proof.
  intros Hc Hu [Hcore Haw].
  destruct Hc as [Hs _|Hs _|e g l _ _ Hs Hg Hl _|g c Hg Hs Hcu _|i g g' o _ Hg Hs Hr _];
    (split; unfold leader_of in *; rewrite Hu, Hs; [|try exact Haw]); simpl; try done.
  - by intros g0 [= <-].
  - intros l0 Hl0. destruct Hl as [Hl|[Hl He]]; [congruence|]. intros Hst.
    assert (l0 = l) as -> by congruence. unfold elect_of, fresh_elect in He. congruence.
  - intros g0 [= <-]. simpl. rewrite Hcu. by apply Hcore.
  - intros l Hl. apply Haw. by rewrite Hg.
  - intros g0 [= <-]. rewrite <- (Hcore g Hg). destruct (group_leader_ g) as [l|] eqn:El.
    + by destruct (group_round_elect _ _ _ _ _ Hr El) as (? & ? & ? & ? & _ & ? & _).
    + by destruct (group_round_no_leader _ _ _ _ Hr El) as (_ & ? & _).
  - intros l' Hl' Hst. rewrite <- (Hcore g Hg). destruct (group_leader_ g) as [l|] eqn:El.
    + destruct (group_round_elect _ _ _ _ _ Hr El) as (l2 & ? & ? & ? & Hl2 & _ & _ & _ & _ & Haw').
      assert (l2 = l') as -> by congruence. apply Haw'; [|done]. rewrite (Hcore g Hg). apply Haw.
      by rewrite Hg.
    + destruct (group_round_no_leader _ _ _ _ Hr El) as (? & _). congruence.
Qed.

(** ** The invariant *)

Section Invariant.
Variables (gid : GroupId) (members : gset string).

(** [A] and [enet] are the election that the net carries out: a component
    that has not joined yet counts as a fresh follower, one that has left
    keeps the state it left with. *)
Record tracks (n : Net) (A : gmap string Elect) (enet : list LeaderElection) : Prop := {
  tr_inv : election_inv A enet;
  tr_dom : dom A = members;
  tr_state id s l : gn_comps n !! id = Some s -> leader_of gid s = Some l ->
    A !! id = Some (elect_of l);
  tr_fresh id e : A !! id = Some e -> (id, gid) ∉ gn_been n -> e = fresh_elect;
  tr_wire x m : (gid, x) ∈ gn_wire n -> gmsg_header x = leaderElection (Some m) -> m ∈ enet;
}.

Record net_inv (n : Net) : Prop := {
  ni_id id s : gn_comps n !! id = Some s -> component_uuid_ s = id /\ comp_wf gid s;
  ni_been id s : gn_comps n !! id = Some s -> is_Some (groups_ s !! gid) -> (id, gid) ∈ gn_been n;
  ni_election : exists A enet, tracks n A enet;
}.

Lemma wire_of_elem n x : x ∈ wire_of gid n -> (gid, x) ∈ gn_wire n.
Proof.
  intros ([k y] & Hin & Hk)%list_elem_of_omap. simpl in Hk. case_decide; [|done]. by simplify_eq.
Qed.

Lemma fresh_net_inv n : fresh_net n -> net_inv n.
Proof.
  intros (Hw & Hb & Hs). split.
  - intros id s Hid. destruct (Hs id s Hid) as [Hu Hg]. split; [done|].
    split; unfold leader_of; intros ?; by rewrite Hg, lookup_empty.
  - intros id s Hid [g Hg]. destruct (Hs id s Hid) as [_ E]. by rewrite E, lookup_empty in Hg.
  - exists (gset_to_gmap fresh_elect members), [].
    assert (forall id e, gset_to_gmap fresh_elect members !! id = Some e -> e = fresh_elect) as Hf
      by (by intros id e [_ ->]%lookup_gset_to_gmap_Some).
    split; [split; try (intros; exfalso; by eapply not_elem_of_nil); intros id e He%Hf; by subst e| | | |].
    + by rewrite dom_gset_to_gmap.
    + intros id s l Hid. destruct (Hs id s Hid) as [_ E]. unfold leader_of. by rewrite E, lookup_empty.
    + intros id e He _. by eapply Hf.
    + intros x m. rewrite Hw. by intros ?%elem_of_nil.
Qed.

(** A step that the election does not notice. *)
Lemma quiet_tracks n id s' out A enet :
  tracks n A enet -> omap (sent_in gid) out = [] ->
  (forall l, leader_of gid s' = Some l -> A !! id = Some (elect_of l)) ->
  exists A' enet', tracks (stepped n id s' out) A' enet'.
Proof.
  intros [Hinv Hdom Hst Hfr Hw] Hq Hl. exists A, enet. split; [done..| | |]; simpl.
  - intros id0 s0 l0. destruct (decide (id = id0)) as [<-|Hne].
    + rewrite lookup_insert_eq. intros [= <-]. apply Hl.
    + rewrite lookup_insert_ne by done. apply Hst.
  - intros id0 e He [Hn _]%not_elem_of_union. by eapply Hfr.
  - intros x m [Hx|Hx]%elem_of_app Hm; [by eapply Hw|].
    pose proof (sent_in_posted _ _ _ _ Hx Hm) as Hs. rewrite Hq in Hs. by apply elem_of_nil in Hs.
Qed.

(** A round of a member is a step of the election. *)
Lemma round_tracks n s s' i g g' l o out A enet :
  let id := component_uuid_ s in
  tracks n A enet -> net_inv n -> gn_comps n !! id = Some s -> turn_ok gid members n i g ->
  groups_ s !! gid = Some g -> groups_ s' !! gid = Some g' -> group_leader_ g = Some l ->
  group_round i g = Ok (g', o) -> omap (sent_in gid) out = omap election_sent o ->
  exists A' enet', tracks (stepped n id s' out) A' enet'.
Proof.
  intros id [Hinv Hdom Hst Hfr Hw] [Hids Hbeen _] Hs (Hdel & Hcount & Hfresh) Hg Hg' El Hr Hq.
  destruct (group_round_elect _ _ _ _ _ Hr El) as (l' & view & m & msgs & El' & _ & He & Hm & Hrec & _).
  destruct (Hids id s Hs) as [_ [Hcore _]]. rewrite (Hcore g Hg) in *.
  assert (A !! id = Some (elect_of l)) as HA by (apply (Hst id s l Hs); unfold leader_of; by rewrite Hg).
  exists (<[id := elect_of l']> A), (enet ++ msgs). split; simpl.
  - apply (espec_inv A enet id view m (elect_of l)); [done..|]. split.
    + intros x ->. destruct (Hrec x eq_refl) as (which & rest & Hsub & Hp).
      rewrite Hp in Hdel. specialize (Hdel Hsub).
      apply list_elem_of_fmap in Hdel as (y & Hraw & Hy%wire_of_elem). apply (Hw y); [done|].
      by injection Hraw.
    + intros Hf Hcand. rewrite <- size_dom, Hdom, <- (espec_candidate _ _ _ _ _ _ He Hf Hcand).
      unfold counts_all in Hcount. rewrite El, Hr in Hcount. destruct g' as [? ld]. simpl in El'.
      subst ld. by apply Hcount.
    + intros x ae -> Hae Hf. destruct (Hrec x eq_refl) as (which & rest & Hsub & Hp).
      rewrite Hp in Hfresh. unfold fresh_append in Hfresh. rewrite El in Hfresh.
      destruct x as [ap rq rp]. simpl in Hae. subst ap. by apply Hfresh.
  - rewrite dom_insert_L, <- Hdom. apply subseteq_union_1_L, singleton_subseteq_l.
    by eapply elem_of_dom_2.
  - intros id0 s0 l0. destruct (decide (id = id0)) as [<-|Hne].
    + rewrite !lookup_insert_eq. intros [= <-]. unfold leader_of. rewrite Hg'. simpl. congruence.
    + rewrite !lookup_insert_ne by done. apply Hst.
  - intros id0 e. destruct (decide (id = id0)) as [<-|Hne].
    + intros _ [Hn _]%not_elem_of_union. exfalso. apply Hn, (Hbeen id s Hs). by rewrite Hg.
    + rewrite lookup_insert_ne by done. intros He0 [Hn _]%not_elem_of_union. by eapply Hfr.
  - intros x y [Hx|Hx]%elem_of_app Hy; apply elem_of_app; [left; by eapply Hw|right].
    apply Hm. rewrite <- Hq. by eapply sent_in_posted.
Qed.

(** The component's step is a step of the election. *)
Lemma change_tracks n id s a s' out A enet :
  net_inv n -> tracks n A enet -> gn_comps n !! id = Some s -> allowed gid members n id s a ->
  group_change gid a s s' (omap (sent_in gid) out) ->
  exists A' enet', tracks (stepped n id s' out) A' enet'.
Proof.
  intros Hn Ht Hs Hal Hc. destruct (ni_id n Hn id s Hs) as [Hid _].
  assert (forall l, leader_of gid s = Some l -> A !! id = Some (elect_of l)) as Hst
    by (intros l; by apply (tr_state _ _ _ Ht)).
  destruct Hc as [Hg Hq|Hg Hq|e g l -> Hg Hg' _ Hl Hq|g c Hg Hg' _ Hq|i g g' o -> Hg Hg' Hr Hq].
  - apply (quiet_tracks n id s' out A enet); [done..|]. unfold leader_of in *. by rewrite Hg.
  - apply (quiet_tracks n id s' out A enet); [done..|]. intros l. unfold leader_of. by rewrite Hg.
  - apply (quiet_tracks n id s' out A enet); [done..|]. unfold leader_of. rewrite Hg'. simpl. intros l0 Hl0.
    destruct Hl as [Hl|[Hl He]]; [congruence|]. destruct Hal as [_ Hal].
    destruct (Hal eq_refl) as [Hin Hnb]; [rewrite Hg; by intros [? ?]|].
    rewrite <- (tr_dom _ _ _ Ht) in Hin. apply elem_of_dom in Hin as [e0 He0].
    rewrite He0, (tr_fresh _ _ _ Ht id e0 He0 Hnb). congruence.
  - apply (quiet_tracks n id s' out A enet); [done..|]. unfold leader_of in *. rewrite Hg in Hst. by rewrite Hg'.
  - destruct (group_leader_ g) as [l|] eqn:El.
    + subst id. apply (round_tracks n s s' i g g' l o out A enet); try done.
      destruct Hal as [Hal _]. unfold turns_ok in Hal. rewrite Hg in Hal. by apply Hal.
    + destruct (group_round_no_leader _ _ _ _ Hr El) as (Hnone & _ & Ho).
      apply (quiet_tracks n id s' out A enet); [done|by rewrite Hq|]. intros l. unfold leader_of.
      rewrite Hg'. simpl. congruence.
Qed.

Lemma group_step_inv n id s a n' :
  net_inv n -> gn_comps n !! id = Some s -> allowed gid members n id s a ->
  net_step id a n = Ok n' -> net_inv n'.
Proof.
  intros Hn Hs Hal Hst. unfold net_step in Hst. rewrite Hs in Hst. simpl in Hst.
  inv_bind Hst. destruct x as [s' out]. injection Hst as <-.
  destruct (act_change gid _ _ _ _ E) as [Hu Hc]. destruct (ni_id n Hn id s Hs) as [Hid Hwf]. split; simpl.
  - intros id0 s0. destruct (decide (id = id0)) as [<-|Hne].
    + rewrite lookup_insert_eq. intros [= <-]. split; [congruence|by eapply group_change_wf].
    + rewrite lookup_insert_ne by done. apply Hn.
  - intros id0 s0. destruct (decide (id = id0)) as [<-|Hne].
    + rewrite lookup_insert_eq. intros [= <-] Hg. apply elem_of_union_r, elem_of_map.
      exists gid. split; [done|by apply elem_of_dom].
    + rewrite lookup_insert_ne by done. intros Hs0 Hg. apply elem_of_union_l. by eapply Hn.
  - destruct (ni_election n Hn) as (A & enet & Ht).
    by eapply (change_tracks n id s a s' out).
Qed.

Lemma group_net_inv n : net_reachable gid members n -> net_inv n.
Proof. induction 1; [by apply fresh_net_inv|by eapply group_step_inv]. Qed.
End Invariant.

(** ** One leader *)

(** C1. One leader per term, for the program as a whole: however the threads
    of the components and the calls of the user's code interleave, whatever the network of
    the group loses, repeats, delays or reorders, and whoever joins or leaves,
    two components that hold the office of leader of a group in the same term
    are the same component, and it answers [IsLeader] with true.  Needed is
    that no component joins the group twice, that a member that starts an
    election counts all members, and that followers see no [AppendEntry] of an
    older term. *)
Theorem one_leader gid members n a b sa sb t :
  net_reachable gid members n ->
  gn_comps n !! a = Some sa -> gn_comps n !! b = Some sb ->
  leads gid sa t -> leads gid sb t ->
  a = b
  /\ forall g, groups_ sa !! gid = Some g -> has_leader (group_type_conf_ (core g)) = true ->
       IsLeader gid sa = true.
Proof.
  intros Hr Ha Hb (ga & la & Hga & Hla & Sa & Ta) (gb & lb & Hgb & Hlb & Sb & Tb).
  destruct (group_net_inv _ _ _ Hr) as [Hids _ (A & enet & Ht)].
  assert (leader_of gid sa = Some la) as La by (unfold leader_of; by rewrite Hga).
  assert (leader_of gid sb = Some lb) as Lb by (unfold leader_of; by rewrite Hgb).
  split.
  - apply (election_inv_safe A enet a b (elect_of la) (elect_of lb)); try done;
      [apply Ht|by apply (tr_state _ _ _ _ _ Ht a sa)|by apply (tr_state _ _ _ _ _ Ht b sb)|].
    simpl. congruence.
  - intros g Hg Hc. assert (ga = g) as -> by congruence.
    destruct (Hids a sa Ha) as [_ [_ Haw]].
    unfold IsLeader, getGroupById, IsLeader_group, leader_id. rewrite Hg, Hla, Hc.
    apply bool_decide_eq_true. unfold GetLeaderId. symmetry. by apply Haw.
Qed.

(** ** Turns with handlers *)

Lemma net_run_acts id l s s' out n :
  gn_comps n !! id = Some s -> acts l s = Ok (s', out) ->
  exists n', net_run (map (pair id) l) n = Ok n'
    /\ gn_comps n' = <[id := s']> (gn_comps n) /\ gn_wire n' = gn_wire n ++ omap posted out.
Proof.
  revert s out n. induction l as [|a l IH]; intros s out n Hs H; simpl in H.
  { injection H as <- <-. exists n. simpl. by rewrite insert_id, app_nil_r. }
  inv_bind H. destruct x as [s1 o1]. inv_bind H. destruct x as [s2 o2]. injection H as -> <-.
  cbn [map net_run]. unfold net_step. rewrite Hs. cbn [deref mbind Res_bind]. rewrite E. cbn [mbind Res_bind].
  destruct (IH s1 o2 (stepped n id s1 o1)) as (n' & Hn & Hc & Hw); [by apply lookup_insert_eq|done|].
  exists n'. split; [exact Hn|]. rewrite Hc, Hw. simpl. by rewrite insert_insert_eq, omap_app, app_assoc.
Qed.

(** C15. A turn of a component's thread, its loop over the groups and the calls of
    its handlers included, is a run of the net: the event, then rounds of
    groups in the order of their keys, each on its own input, with calls of the
    handlers in between; no group is served twice, and none is skipped
    but by leaving it.  So the theorems on the net are theorems on the
    components as they run. *)
Theorem turn_is_run handler fuel socket inputs ev n id s s' out ended :
  gn_comps n !! id = Some s ->
  HandlerStep handler fuel socket inputs ev s = Ok (s', out, ended) ->
  exists l n', net_run (map (pair id) (Event socket ev :: l)) n = Ok n'
    /\ gn_comps n' = <[id := s']> (gn_comps n) /\ gn_wire n' = gn_wire n ++ omap posted out
    /\ (forall gid i, Round gid i ∈ l -> i = inputs gid)
    /\ (forall gid c, Calls gid c ∈ l -> exists x, (gid, c) ∈ handler x)
    /\ StronglySorted (fun a b => GroupId_lt a b = true) (rounds_of l)
    /\ (ended = true -> ev <> CPipe None -> forall gid, is_Some (groups_ s !! gid) ->
          Calls gid CallLeave ∉ l -> gid ∈ rounds_of l).
Proof.
  intros Hs H. destruct (turn_acts handler fuel socket inputs ev s s' out ended H)
    as (l & Hacts & _ & Hi & Hh & Hsort & Hserved).
  destruct (net_run_acts id _ _ _ _ n Hs Hacts) as (n' & Hn & Hc & Hw).
  exists l, n'. by split_and!.
Qed.

(** ** Concrete nets *)

Section Runs.
Variables (gid : GroupId) (members : gset string).

(** A run whose every step meets the condition [P]. *)
Fixpoint net_allowed (P : Net -> string -> Component -> Act -> Prop) (l : list (string * Act)) (n : Net) : Prop :=
  match l with
  | [] => True
  | (id, a) :: l' =>
      match gn_comps n !! id, net_step id a n with
      | Some s, Ok n' => P n id s a /\ net_allowed P l' n'
      | _, _ => False
      end
  end.

#[export] Instance net_allowed_dec P `{forall n id s a, Decision (P n id s a)} l n :
  Decision (net_allowed P l n).
Proof.
  revert n. induction l as [|[id a] l IH]; intros n; simpl; [apply _|].
  repeat (apply _ || case_match).
Defined.

(** Where a run ends; [net_run] does not fail on a run that is allowed. *)
Definition after (l : list (string * Act)) (n : Net) : Net :=
  match net_run l n with Ok n' => n' | _ => n end.

Lemma after_reachable l n :
  net_reachable gid members n -> net_allowed (allowed gid members) l n ->
  net_reachable gid members (after l n).
Proof.
  unfold after. revert n. induction l as [|[id a] l IH]; intros n Hn; [done|]. simpl.
  destruct (gn_comps n !! id) as [s|] eqn:Hs; [|done].
  destruct (net_step id a n) as [n'| |] eqn:E; simpl; [|done..]. intros [Ha Hl].
  assert (net_reachable gid members n') as Hn' by by eapply net_reach_step.
  specialize (IH n' Hn' Hl). by destruct (net_run l n').
Qed.
End Runs.

Definition demo_group : GroupId := {| gid_type := "T"; gid_name := "g" |}.
Definition demo_members : gset string := {["a"; "b"; "c"]}.

Definition demo_comp (id : string) : Component := mkComponent id demo_ports ∅ ∅ ∅ 0 None false false.

Definition demo_net : Net :=
  mkNet (list_to_map (map (fun id => (id, demo_comp id)) ["a"; "b"; "c"])) [] ∅.

Definition joins (id : string) : string * Act :=
  (id, Calls demo_group (CallJoin
    {| je_now := 0; je_uninit := ex_conf; je_conf := Some ex_conf; je_socket := ex_socket;
       je_address := ex_address; je_joined := true; je_now1 := 0; je_now2 := 0; je_draw := 200 |})).

(** A round [t] seconds after the start, in which the group reads [p]. *)
Definition round_input (t : Z) (p : Polled) : GroupInput :=
  {| gi_now := t * 1000000000; gi_zerr := None;
     gi_env := {| e_now := t * 1000000000; e_heartbeat_draw := 12000; e_election_draw := 300;
                  e_clk := fun _ => t * 1000000000; e_order := []; e_junk := false |};
     gi_polled := p |}.
Definition turn (t : Z) (p : Polled) (id : string) : string * Act := (id, Round demo_group (round_input t p)).

Definition reads (h : GroupInternals) : Polled :=
  Readable 6 (Some {| rm_first := Some h; rm_rest := [] |}).
Definition ping_of (id : string) : Polled :=
  reads (groupHeartBeat (Some {| hb_type := PING; hb_sourceComponentId := id |})).
Definition elects (m : LeaderElection) : Polled := reads (leaderElection (Some m)).

Definition hears (id : string) (others : list string) : list (string * Act) :=
  map (fun o => turn 11 (ping_of o) id) others.

(** Everybody joins, pings and hears the pings of the others. *)
Definition gathering : list (string * Act) :=
  map joins ["a"; "b"; "c"] ++ map (turn 11 (Readable 6 None)) ["a"; "b"; "c"]
  ++ hears "a" ["b"; "c"] ++ hears "b" ["a"; "c"] ++ hears "c" ["a"; "b"].

(** [a] is elected at term 1 by [b]. *)
Definition a_elected : list (string * Act) :=
  [turn 12 NoMessage "a"; turn 12 (elects (msg_req "a" 1)) "b"; turn 12 (elects (msg_rep "b" "a" 1)) "a"].

Definition comp_at (n : Net) (id : string) : Component := default (demo_comp id) (gn_comps n !! id).

Definition office (n : Net) (id : string) : option (NodeState * Z * bool) :=
  l ← leader_of demo_group (comp_at n id);
  Some (m_currentState l, m_electionTerm l, IsLeader demo_group (comp_at n id)).

(** [a] and [c] ask for votes in term 1; [b] votes for [a], leaves, joins again
    and votes for [c]. *)
Definition votes_twice : list (string * Act) :=
  gathering ++ [turn 12 NoMessage "a"; turn 12 NoMessage "c";
    turn 12 (elects (msg_req "a" 1)) "b"; turn 12 (elects (msg_rep "b" "a" 1)) "a";
    ("b", Calls demo_group CallLeave); joins "b";
    turn 12 (elects (msg_req "c" 1)) "b"; turn 12 (elects (msg_rep "b" "c" 1)) "c"].

(** [b] takes over from [a] at term 2. *)
Definition a_deposed : list (string * Act) :=
  gathering ++ a_elected ++ [turn 13 NoMessage "b"; turn 13 (elects (msg_req "b" 2)) "a";
    turn 13 (elects (msg_rep "a" "b" 2)) "b"].

Lemma demo_net_fresh : fresh_net demo_net.
Proof.
  split_and!; [done..|]. intros id s Hs%elem_of_list_to_map_2.
  by apply list_elem_of_fmap in Hs as (x & [= -> ->] & _).
Qed.

Lemma demo_reachable l :
  net_allowed (allowed demo_group demo_members) l demo_net ->
  net_reachable demo_group demo_members (after l demo_net).
Proof. apply after_reachable, net_reach_start, demo_net_fresh. Qed.

(** The vote does not survive leaving: a member that leaves the group and joins
    again starts with a fresh leader object and votes a second time in the same
    term, which makes two leaders; every other condition holds throughout. *)
Theorem rejoin_two_leaders :
  fresh_net demo_net
  /\ net_allowed (fun n _ s a => turns_ok demo_group demo_members n s a) votes_twice demo_net
  /\ office (after votes_twice demo_net) "a" = Some (LEADER, 1, true)
  /\ office (after votes_twice demo_net) "c" = Some (LEADER, 1, true).
Proof.
  split_and!; [apply demo_net_fresh|apply (bool_decide_unpack _)| |]; by vm_compute.
Qed.

(** Being leader and being told so are different: in a run that meets every
    condition of [one_leader], a leader that another member has replaced is a
    follower of the new term, and still answers [IsLeader] with true, as the
    new leader of that term does. *)
Theorem deposed_still_answers :
  net_reachable demo_group demo_members (after a_deposed demo_net)
  /\ office (after a_deposed demo_net) "a" = Some (FOLLOWER, 2, true)
  /\ office (after a_deposed demo_net) "b" = Some (LEADER, 2, true).
Proof.
  split_and!; [apply demo_reachable, (bool_decide_unpack _)| |]; by vm_compute.
Qed.

Lemma office_leads n id s t b :
  gn_comps n !! id = Some s -> office n id = Some (LEADER, t, b) -> leads demo_group s t.
Proof.
  intros Hs. unfold office, comp_at, leader_of. rewrite Hs. simpl.
  destruct (groups_ s !! demo_group) as [g|] eqn:Hg; [|done]. simpl.
  destruct (group_leader_ g) as [l|] eqn:Hl; [|done]. intros [= Hst Ht _]. by exists g, l.
Qed.

Lemma one_leader_witness :
  let n := after (gathering ++ a_elected) demo_net in
  exists s, gn_comps n !! "a" = Some s /\ leads demo_group s 1 /\ "a" = "a".
Proof.
  intros n. exists (comp_at n "a").
  assert (gn_comps n !! "a" = Some (comp_at n "a")) as Hs.
  { unfold comp_at. destruct (gn_comps n !! "a") eqn:E; [done|]. by vm_compute in E. }
  assert (leads demo_group (comp_at n "a") 1) as Hl.
  { apply (office_leads n "a" _ 1 true Hs). by vm_compute. }
  split; [exact Hs|]. split; [exact Hl|].
  refine (proj1 (one_leader demo_group demo_members n "a" "a" _ _ 1 _ Hs Hs Hl Hl)).
  apply demo_reachable, (bool_decide_unpack _). by vm_compute.
Defined.

(** The handler of the proposal votes, as the code of a component does. *)
Definition votes_in_handler (o : CompOut) : list (GroupId * Call) :=
  match o with GroupOutput _ (OnPropose gid pid _) => [(gid, CallVote None pid true)] | _ => [] end.

Definition proposal_for (_ : GroupId) : GroupInput :=
  round_input 13 (Readable 6 (Some
    {| rm_first := Some (consensus (Some {| cs_sourceComponentId := "a"; cs_voteType := VALUE;
         cs_union := proposeToClients (Some {| ptc_proposeId := "p"; ptc_leaderId := "a" |});
         cs_tsyncCoordA := None |}));
       rm_rest := ["value"] |})).

Lemma turn_is_run_witness :
  let n := after (gathering ++ a_elected) demo_net in
  exists s' out l n', HandlerStep votes_in_handler 2 Z.of_nat proposal_for CIdle (comp_at n "b") = Ok (s', out, true)
    /\ net_run (map (pair "b") (Event Z.of_nat CIdle :: l)) n = Ok n'
    /\ gn_comps n' !! "b" = Some s'
    /\ demo_group ∈ rounds_of l.
Proof.
  intros n.
  assert (gn_comps n !! "b" = Some (comp_at n "b")) as Hs.
  { unfold comp_at. destruct (gn_comps n !! "b") eqn:E; [done|]. by vm_compute in E. }
  destruct (HandlerStep votes_in_handler 2 Z.of_nat proposal_for CIdle (comp_at n "b")) as [[[s' out] b]| |] eqn:E;
    [|by vm_compute in E..].
  assert (b = true) as -> by (vm_compute in E; by injection E as _ _ <-).
  destruct (turn_is_run votes_in_handler 2 Z.of_nat proposal_for CIdle n "b" _ _ _ _ Hs E)
    as (l & n' & Hrun & Hc & _ & _ & Hcalls & _ & Hserved).
  exists s', out, l, n'. split; [done|]. split; [exact Hrun|]. split; [by rewrite Hc, lookup_insert_eq|].
  apply Hserved; [done|done| |].
  - destruct (groups_ (comp_at n "b") !! demo_group) eqn:Eg; [by eexists|]. by vm_compute in Eg.
  - intros (x & Hx)%Hcalls. destruct x as [| | | | | | | | |g []]; simpl in Hx; try (by apply elem_of_nil in Hx).
    by apply list_elem_of_singleton in Hx.
Defined.
