(* ===== verification/Voting.v ===== *)
(** Voting.v - a vote on a proposal, over the network.

    [Consensus.v] says what one leader does with the votes that reach it.  Here
    a vote is followed from the call of [SendVote] in the user's code, through
    the group's ports and the network of [GroupNet.v], to the leader's object
    and back as the announcement of the result. *)

From Stdlib Require Import ZArith Lia.
From stdpp Require Import base gmap strings list fin_maps fin_sets.
From S2P Require Import Prelude.
From S2P Require Import Timeout.
From S2P Require Import DistCoord.
From S2P Require Import GroupLead.
From S2P Require Import Election.
From S2P Require Import Cluster.
From S2P Require Import Consensus.
From S2P Require Import Ports.
From S2P Require Import Group.
From S2P Require Import Component.
From S2P Require Import Handlers.
From S2P Require Import GroupNet.

#[local] Open Scope riaps_scope.

#[export] Instance GroupMsg_eq_dec : EqDecision GroupMsg.
Proof. solve_decision. Defined.

(** ** Votes and results among the messages *)

(** The voter and the proposal of a vote to accept. *)
Definition yes_vote (h : GroupInternals) : option (string * string) :=
  match h with
  | consensus (Some m) =>
      match cs_union m with
      | vote (Some v) =>
          if decide (v_voteResult v = ACCEPTED) then Some (cs_sourceComponentId m, v_proposeId v) else None
      | _ => None
      end
  | _ => None
  end.

(** The proposal that an announcement says is accepted. *)
Definition accepts (h : GroupInternals) : option string :=
  match h with
  | consensus (Some m) =>
      match cs_union m with
      | announce (Some a) => if decide (an_voteResult a = ACCEPTED) then Some (an_proposeId a) else None
      | _ => None
      end
  | _ => None
  end.

Definition sent_header {A} (f : GroupInternals -> option A) (o : GroupOut) : option A :=
  match o with PortSent _ (Internal m) _ => f (gmsg_header m) | _ => None end.

Lemma header_selects {A} (f : GroupInternals -> option A) : selects_sent (sent_header f).
Proof. by intros [? []| | | | | | | |]. Qed.

(** ** What one input does to the proposals of a leader *)

Section Handle.
Context {G : Type} `{GroupApi G}.
Implicit Type s : GroupLead G.

(** An effect that is neither a proposal, nor a vote, nor an acceptance. *)
Definition neutral_header (h : GroupInternals) : Prop :=
  match h with
  | leaderElection _ => True
  | consensus (Some c) =>
      match cs_union c with announce (Some a) => an_voteResult a <> ACCEPTED | _ => False end
  | _ => False
  end.
Definition neutral (o : LeadOut) : Prop :=
  match o with SendMsg m => neutral_header (gmsg_header m) | LeaderChanged _ => True end.

Lemma neutral_selects h : neutral_header h -> yes_vote h = None /\ accepts h = None.
Proof.
  destruct h as [[]|[]|[]|[c|]|[]|[]]; try done. simpl. destruct (cs_union c) as [| | |[a|]]; try done.
  intros Hr. by rewrite decide_False.
Qed.

(** Commands that at most forget proposals and send nothing about a vote but
    rejections. *)
Definition uninvolved (c : LeadCmd G) : Prop := forall s,
  m_proposeData (c s).1 ⊆ m_proposeData s /\ m_objects (c s).1 = m_objects s /\ Forall neutral (c s).2.

Lemma uninvolved_skip : uninvolved skip.
Proof. by intros s. Qed.
Lemma uninvolved_emit o : neutral o -> uninvolved (emit o).
Proof. intros Ho s. split_and!; [done..|]. by constructor. Qed.
Lemma uninvolved_read k : (forall s, uninvolved (k s)) -> uninvolved (read k).
Proof. intros Hk s. exact (Hk s s). Qed.
Lemma uninvolved_seq c1 c2 : uninvolved c1 -> uninvolved c2 -> uninvolved (c1 ;; c2).
Proof.
  intros H1 H2 s. destruct (H1 s) as (P1 & O1 & N1), (H2 (c1 s).1) as (P2 & O2 & N2). simpl.
  split_and!; [by etrans|congruence|by apply Forall_app].
Qed.
Lemma uninvolved_when b c : uninvolved c -> uninvolved (when b c).
Proof. destruct b; [done|]. intros _. apply uninvolved_skip. Qed.
Lemma uninvolved_modify f :
  (forall s, m_proposeData (f s) ⊆ m_proposeData s /\ m_objects (f s) = m_objects s) ->
  uninvolved (modify f).
Proof. intros Hf s. destruct (Hf s). by split_and!. Qed.
Lemma uninvolved_send h : neutral_header h -> uninvolved (SendInternal h).
Proof. intros H1. by apply uninvolved_emit. Qed.

Lemma uninvolved_expire clk k order : uninvolved (expire_proposals clk k order).
Proof.
  revert k. induction order as [|pid order IH]; intros k; [apply uninvolved_skip|].
  cbn [expire_proposals]. apply uninvolved_seq; [|apply IH]. apply uninvolved_read. intros s.
  case_match; [|apply uninvolved_skip]. apply uninvolved_when, uninvolved_seq; [by apply uninvolved_send|].
  apply uninvolved_modify. intros s'. split; [apply delete_subseteq|done].
Qed.

#[local] Ltac uninvolved :=
  cbv zeta;
  lazymatch goal with
  | |- uninvolved skip => apply uninvolved_skip
  | |- uninvolved (emit _) => by apply uninvolved_emit
  | |- uninvolved (SendInternal _) => by apply uninvolved_send
  | |- uninvolved (expire_proposals _ _ _) => apply uninvolved_expire
  | |- uninvolved (seq _ _) => apply uninvolved_seq; uninvolved
  | |- uninvolved (when _ _) => apply uninvolved_when; uninvolved
  | |- uninvolved (read _) => apply uninvolved_read; intros ?; uninvolved
  | |- uninvolved (modify _) => apply uninvolved_modify; intros ?; cbv beta;
      repeat case_match; split; reflexivity
  | |- uninvolved (match ?x with _ => _ end) => destruct x; uninvolved
  | |- _ => idtac
  end.

Lemma uninvolved_Update clk order : uninvolved (Update clk order).
Proof.
  unfold Update, become_candidate, ChangeLeader, SendRequestForVote, SendAppendEntry. uninvolved.
Qed.

Lemma uninvolved_UpdateMsg now draw m : uninvolved (UpdateMsg now draw m).
Proof.
  unfold UpdateMsg, on_voteReq_follower, on_voteReq_active, on_voteRep_candidate,
    on_appendEntry_follower, on_appendEntry_leader, ChangeLeader, GroupLead.SendVote, SendAppendEntry.
  uninvolved.
Qed.

(** A command that does not touch a proposal leaves it or forgets it. *)
Lemma uninvolved_proposes c s pid pd : uninvolved c -> proposes (c s).1 pid pd -> proposes s pid pd.
Proof.
  intros Hc (loc & Hl & Ho). destruct (Hc s) as (Hp & Eo & _). rewrite Eo in Ho.
  exists loc. split; [|done]. by eapply lookup_weaken.
Qed.

(** What a vote adds to the count of a proposal. *)
Definition counts (i : Input G) (pid : string) (pd : ProposeData) : Z :=
  match i with
  | ClientVotes _ v src =>
      if decide (v_proposeId v = pid /\ v_voteResult v = ACCEPTED /\ src ∈ nodesInVote pd) then 1 else 0
  | _ => 0
  end.

(** The proposal that an input makes. *)
Definition opens (i : Input G) : option string :=
  match i with
  | ClientProposes _ _ _ q _ | ClientProposesAction _ _ _ q _ => Some (ptl_proposeId q)
  | _ => None
  end.

(** A proposal after a step is fresh, put to the members known at the time, or
    has been there with the same electorate, and [counts] is what it may have
    gained. *)
Definition grows (i : Input G) s s' : Prop := forall pid pd',
  proposes s' pid pd' ->
  (opens i = Some pid /\ accepted pd' = 0 /\ exists t, nodesInVote pd' = GetKnownComponents t (m_group s))
  \/ exists pd, proposes s pid pd /\ nodesInVote pd' = nodesInVote pd
       /\ (0 <= accepted pd -> 0 <= accepted pd' <= accepted pd + counts i pid pd).

Lemma uninvolved_grows i c s : uninvolved c -> grows i s (c s).1.
Proof.
  intros Hc pid pd Hp. right. exists pd. split_and!; [by eapply uninvolved_proposes|done|].
  intros Ha. unfold counts. repeat case_match; lia.
Qed.

Lemma register_grows i pid aid pd s t :
  lead_wf s -> opens i = Some pid -> accepted pd = 0 ->
  nodesInVote pd = GetKnownComponents t (m_group s) -> grows i s (register_proposal pid aid pd s).1.
Proof.
  intros W Hop Ha Hn q qd (loc & Hl & Ho).
  assert (<[pid := m_nextObject s]> (m_proposeData s) !! q = Some loc
    /\ <[m_nextObject s := pd]> (m_objects s) !! loc = Some qd) as [Hl' Ho'] by by destruct aid.
  destruct (decide (pid = q)) as [<-|Hne].
  - rewrite lookup_insert_eq in Hl'. injection Hl' as <-. rewrite lookup_insert_eq in Ho'.
    injection Ho' as <-. left. eauto.
  - rewrite lookup_insert_ne in Hl' by done. destruct (wf_proposal _ W _ _ Hl') as [x Hx].
    pose proof (wf_fresh _ W _ _ Hx). rewrite lookup_insert_ne in Ho' by lia.
    right. exists qd. split_and!; [by exists loc|done|]. intros. unfold counts. repeat case_match; lia.
Qed.

Lemma u16_le z : 0 <= z -> 0 <= u16 z <= z.
Proof. intros Hz. unfold uwrap. pose proof (Z.mod_pos_bound z (2 ^ 16)). pose proof (Z.mod_le z (2 ^ 16)). lia. Qed.

(** A vote leaves the other proposals alone. *)
Lemma OnVote_other now v src s q qd :
  lead_wf s -> q <> v_proposeId v -> proposes (OnVote now v src s).1 q qd -> proposes s q qd.
Proof.
  intros W Hne. unfold OnVote, read at 1.
  destruct (m_proposeData s !! v_proposeId v) as [loc|] eqn:El; [|done].
  destruct (m_objects s !! loc) as [pd|] eqn:Eo; [|done].
  assert (forall c, uninvolved c -> proposes (c s).1 q qd -> proposes s q qd) as Hu
    by (intros c; apply uninvolved_proposes).
  assert (forall pd, uninvolved (erase_action pd)) as Hea.
  { intros pd'. apply uninvolved_read. intros s'. apply uninvolved_when, uninvolved_modify. by split. }
  assert (uninvolved (erase_proposal (v_proposeId v))) as Hep.
  { apply uninvolved_modify. intros s'. split; [apply delete_subseteq|done]. }
  destruct (IsTimeout now (proposeDeadline pd)).
  { apply Hu. apply uninvolved_seq; [apply Hea|]. apply uninvolved_seq; [done|by apply uninvolved_send]. }
  case_bool_decide; [done|]. set (pd' := count_vote _ _ _). set (s1 := (store_object loc pd' s).1).
  assert (proposes s1 q qd -> proposes s q qd) as Hstore.
  { intros (l & Hl & Ho). exists l. split; [done|]. simpl in Ho, Hl.
    rewrite lookup_insert_ne in Ho; [done|]. intros <-. apply Hne. by eapply (wf_distinct _ W). }
  assert (forall c : LeadCmd G, (forall s, m_proposeData (c s).1 ⊆ m_proposeData s /\ m_objects (c s).1 = m_objects s) ->
            proposes (c s1).1 q qd -> proposes s q qd) as Hc.
  { intros c Hcs (l & Hl & Ho). apply Hstore. destruct (Hcs s1) as [Hp Eo']. rewrite Eo' in Ho.
    exists l. split; [by eapply lookup_weaken|done]. }
  destruct (_ <=? accepted pd'); [|destruct (_ <=? rejected pd')]; cbn [seq fst].
  - apply (Hc (AnnounceResult (v_proposeId v) ACCEPTED ;; erase_action pd' ;; erase_proposal (v_proposeId v))).
    intros s2. cbn [seq fst]. destruct (Hea pd' s2) as (A1 & A2 & _). destruct (Hep (erase_action pd' s2).1) as (B1 & B2 & _).
    split; [by etrans|simpl; congruence].
  - apply (Hc (erase_action pd' ;; AnnounceResult (v_proposeId v) REJECTED ;; erase_proposal (v_proposeId v))).
    intros s2. cbn [seq fst]. destruct (Hea pd' s2) as (A1 & A2 & _). destruct (Hep (erase_action pd' s2).1) as (B1 & B2 & _).
    split; [by etrans|simpl; congruence].
  - apply (Hc skip). by intros.
Qed.

Lemma OnVote_grows now v src s :
  lead_wf s -> grows (ClientVotes now v src) s (OnVote now v src s).1.
Proof.
  intros W q qd Hq. right. destruct (decide (q = v_proposeId v)) as [->|Hne].
  2:{ exists qd. split_and!; [by eapply OnVote_other|done|]. intros. unfold counts. case_decide; lia. }
  destruct (m_proposeData s !! v_proposeId v) as [loc|] eqn:El.
  2:{ rewrite OnVote_absent in Hq by done. destruct Hq as (l & Hl & _). simpl in Hl. congruence. }
  destruct (wf_proposal _ W _ _ El) as [pd Hpd].
  assert (proposes s (v_proposeId v) pd) as Hp by by exists loc.
  exists pd. split; [done|]. destruct (IsTimeout now (proposeDeadline pd)) eqn:Et.
  { destruct (OnVote_late now v src s pd Hp Et) as (_ & Hm & _). destruct Hq as (l & Hl & _).
    rewrite Hm, lookup_delete_eq in Hl. done. }
  destruct (decide (src ∈ nodesInVote pd)) as [Hin|Hout].
  2:{ rewrite (OnVote_stranger now v src s pd Hp Et Hout) in Hq.
      destruct Hq as (l & Hl & Ho). simpl in Hl, Ho. assert (qd = pd) as -> by congruence.
      split; [done|]. intros. unfold counts. case_decide; lia. }
  pose proof (OnVote_counts now v src s pd Hp Et Hin) as Hc. unfold after_ballot in Hc.
  destruct Hq as (l & Hl & Ho).
  destruct (_ <=? accepted _); [destruct Hc as (_ & Hn & _); congruence|].
  destruct (_ <=? rejected _); [destruct Hc as (_ & Hn & _); congruence|].
  destruct Hc as (_ & l' & Hl' & Ho'). assert (qd = count_vote src (v_voteResult v) pd) as -> by congruence.
  split; [done|]. intros Ha. unfold counts. simpl. destruct (decide (v_voteResult v = ACCEPTED)).
  - rewrite decide_True by done. apply u16_le. lia.
  - rewrite decide_False by tauto. lia.
Qed.

Lemma handle_grows i s : (forall g : G, i <> GroupMoves g) -> lead_wf s -> grows i s (handle i s).1.
Proof.
  intros Hi W. destruct i as [clk order|now draw m|t1 t2 junk h body|t0 t1 t2 h tsca|now v src|g]; simpl;
    [| | | | |by destruct (Hi g)].
  - apply uninvolved_grows, uninvolved_Update.
  - apply uninvolved_grows, uninvolved_UpdateMsg.
  - unfold OnProposeFromClient, read. case_bool_decide; [apply (uninvolved_grows _ skip), uninvolved_skip|].
    by eapply register_grows.
  - unfold OnActionProposeFromClient, read. case_bool_decide; [apply (uninvolved_grows _ skip), uninvolved_skip|].
    case_match; [apply (uninvolved_grows _ skip), uninvolved_skip|]. by eapply register_grows.
  - by apply OnVote_grows.
Qed.

(** Only the counted majority of a proposal is announced as its acceptance, and
    no leader votes. *)
Lemma handle_sends i s m :
  (forall g : G, i <> GroupMoves g) -> lead_wf s -> SendMsg m ∈ (handle i s).2 ->
  yes_vote (gmsg_header m) = None
  /\ forall pid, accepts (gmsg_header m) = Some pid ->
       exists pd, proposes s pid pd
         /\ (0 <= accepted pd -> proposal_majority pd <= accepted pd + counts i pid pd).
Proof.
  intros Hi W. assert (forall c, uninvolved c -> SendMsg m ∈ (c s).2 -> yes_vote (gmsg_header m) = None
      /\ forall pid, accepts (gmsg_header m) = Some pid ->
       exists pd, proposes s pid pd
         /\ (0 <= accepted pd -> proposal_majority pd <= accepted pd + counts i pid pd)) as Hu.
  { intros c Hc Hm. destruct (Hc s) as (_ & _ & Hn). rewrite Forall_forall in Hn.
    destruct (neutral_selects _ (Hn _ Hm)) as [-> ->]. done. }
  destruct i as [clk order|now draw x|t1 t2 junk h body|t0 t1 t2 h tsca|now v src|g];
    [| | | | |by destruct (Hi g)]; cbn [handle].
  - apply Hu, uninvolved_Update.
  - apply Hu, uninvolved_UpdateMsg.
  - unfold OnProposeFromClient, read. case_bool_decide; [by intros ?%elem_of_nil|].
    intros Hm. apply list_elem_of_singleton in Hm. by simplify_eq.
  - unfold OnActionProposeFromClient, read. case_bool_decide; [by intros ?%elem_of_nil|].
    case_match; [by intros ?%elem_of_nil|]. intros Hm. apply list_elem_of_singleton in Hm. by simplify_eq.
  - intros Hm. destruct (m_proposeData s !! v_proposeId v) as [loc|] eqn:El.
    2:{ rewrite OnVote_absent in Hm by done. by apply elem_of_nil in Hm. }
    destruct (wf_proposal _ W _ _ El) as [pd Hpd].
    assert (proposes s (v_proposeId v) pd) as Hp by by exists loc.
    destruct (IsTimeout now (proposeDeadline pd)) eqn:Et.
    { destruct (OnVote_late now v src s pd Hp Et) as (E & _ & _). rewrite E in Hm.
      apply list_elem_of_singleton in Hm. injection Hm as ->. done. }
    destruct (decide (src ∈ nodesInVote pd)) as [Hin|Hout].
    2:{ rewrite (OnVote_stranger now v src s pd Hp Et Hout) in Hm. by apply elem_of_nil in Hm. }
    pose proof (OnVote_counts now v src s pd Hp Et Hin) as Hc. unfold after_ballot in Hc.
    destruct (Z.leb_spec (proposal_majority (count_vote src (v_voteResult v) pd))
                (accepted (count_vote src (v_voteResult v) pd))) as [Hmaj|_].
    + destruct Hc as (E & _). rewrite E in Hm. apply list_elem_of_singleton in Hm. injection Hm as ->.
      split; [done|]. intros pid [= <-]. exists pd. split; [done|]. intros Ha.
      unfold proposal_majority in *. simpl in Hmaj. unfold counts.
      destruct (decide (v_voteResult v = ACCEPTED)).
      * rewrite decide_True by done. pose proof (u16_le (accepted pd + 1)). lia.
      * rewrite decide_False by tauto. lia.
    + destruct (_ <=? rejected _); destruct Hc as (E & _); rewrite E in Hm.
      * apply list_elem_of_singleton in Hm. injection Hm as ->. done.
      * by apply elem_of_nil in Hm.
Qed.
End Handle.

(** ** One round of a group *)

Section Round.
Implicit Types (g : Group) (l : GroupLead GroupCore).

Lemma heartbeats_quiet {A} (f : GroupInternals -> option A) out :
  (forall hb, f (groupHeartBeat hb) = None) -> Forall heartbeat_only out -> omap (sent_header f) out = [].
Proof.
  intros Hf. induction 1 as [|o out Ho Hout IH]; [done|].
  destruct o as [k [[h b]|] st| | | | | | | |]; try exact IH. simpl in *. destruct h; try done. by rewrite Hf.
Qed.

Lemma leader_out_header {A} (f : GroupInternals -> option A) (c : GroupCore) outs x :
  x ∈ omap (sent_header f) (concat (map (leader_out c) outs)) ->
  exists m, SendMsg m ∈ outs /\ f (gmsg_header m) = Some x.
Proof.
  induction outs as [|o outs IH]; simpl; [by intros ?%elem_of_nil|].
  rewrite omap_app. intros [H|H]%elem_of_app; [|destruct (IH H) as (m & ? & ?); exists m; split; [by right|done]].
  destruct o as [m|]; simpl in H; [|by apply elem_of_nil in H]. unfold SendMessage_zmsg in H.
  destruct (find_pub _ _) as [[k cfg]|]; simpl in H; [|by apply elem_of_nil in H].
  destruct (f (gmsg_header m)) eqn:E; [|by apply elem_of_nil in H].
  apply list_elem_of_singleton in H as ->. exists m. split; [left|done].
Qed.

Lemma ping_heartbeat now zerr c c' out rc :
  SendPingWithPeriod now zerr c = Ok (c', out, rc) ->
  group_subport_ c' = group_subport_ c /\ known_nodes_ c' = known_nodes_ c /\ Forall heartbeat_only out.
Proof.
  unfold SendPingWithPeriod, SendPing, SendHeartBeat. intros Hp.
  repeat case_match; simpl in Hp; try (by simplify_eq);
    destruct (group_pubport_ c); simpl in Hp; simplify_eq; (split_and!; [done..|repeat constructor]).
Qed.

(** A message that the group reads. *)
Definition reads_msg (i : GroupInput) g (m : RawMsg) : Prop :=
  exists which, group_subport_ (core g) = Some which /\ gi_polled i = Readable which (Some m).

Definition raw_yes (m : RawMsg) : option (string * string) := rm_first m ≫= yes_vote.

(** The proposal that a message makes to the leader. *)
Definition raw_asks (m : RawMsg) : option string :=
  match rm_first m with
  | Some (consensus (Some c)) =>
      match cs_union c with proposeToLeader (Some q) => Some (ptl_proposeId q) | _ => None end
  | _ => None
  end.

(** At most one vote for [pid] of a member of the electorate is counted. *)
Definition counted (i : GroupInput) g (pid : string) (pd : ProposeData) (k : Z) : Prop :=
  k = 0 \/ k = 1 /\ exists m src, reads_msg i g m /\ raw_yes m = Some (src, pid) /\ src ∈ nodesInVote pd.

(** What a round may do to the proposals of the leader's object: it opens one for a message that asks for
    it, or counts a vote that it reads. *)
Record round_change (i : GroupInput) g l l' (accepts_out : list string) : Prop := {
  rc_wf : lead_wf l';
  rc_grows pid pd' : proposes l' pid pd' ->
    (accepted pd' = 0 /\ (exists m, reads_msg i g m /\ raw_asks m = Some pid)
       /\ exists t, nodesInVote pd' = GetKnownComponents t (core g))
    \/ exists pd k, proposes l pid pd /\ nodesInVote pd' = nodesInVote pd
         /\ (0 <= accepted pd -> 0 <= accepted pd' <= accepted pd + k) /\ counted i g pid pd k;
  rc_accepts pid : pid ∈ accepts_out ->
    exists pd k, proposes l pid pd /\ counted i g pid pd k
      /\ (0 <= accepted pd -> proposal_majority pd <= accepted pd + k);
}.

Lemma input_counted i g j c pid pd :
  group_subport_ c = group_subport_ (core g) ->
  match j with
  | Idle _ _ | Receive _ _ _ | GroupMoves _ => True
  | _ => exists which m rest, group_subport_ c = Some which /\ gi_polled i = Readable which
           (Some {| rm_first := Some (consensus (Some m)); rm_rest := rest |}) /\ consensus_input j m rest
  end -> counted i g pid pd (counts (j : Input GroupCore) pid pd)
  /\ (opens j = Some pid -> exists m, reads_msg i g m /\ raw_asks m = Some pid).
Proof.
  intros Hsub Hj. unfold counted, counts, opens. split.
  - destruct j as [| | | |now v src|]; try (by left). case_decide as Hd; [right|by left]. split; [done|].
    destruct Hd as (Hpid & Hres & Hin), Hj as (which & m & rest & Hw & Hp & Hu & Hs).
    eexists _, src. split_and!; [exists which; by rewrite <- Hsub| |done].
    unfold raw_yes. simpl. rewrite Hu. rewrite decide_True by done. congruence.
  - intros Ho. destruct j as [| |t1 t2 b q fr|t0 t1 t2 q ts| |]; try done;
      destruct Hj as (which & m & rest & Hw & Hp & Hu & _); simpl in Hu;
      (eexists; split; [exists which; by rewrite <- Hsub|]); unfold raw_asks; simpl; by rewrite Hu.
Qed.

Lemma round_votes i g l g' out :
  group_round i g = Ok (g', out) -> group_leader_ g = Some l -> lead_wf l ->
  exists l', group_leader_ g' = Some l' /\ omap (sent_header yes_vote) out = []
    /\ round_change i g l l' (omap (sent_header accepts) out).
Proof.
  unfold group_round. intros Hr Hl W. inv_bind Hr. destruct x as [[c o1] rc]. inv_bind Hr.
  destruct x as [g2 o2]. injection Hr as <- <-. apply ping_heartbeat in E as (Hsub & Hkn & Hq).
  rewrite !omap_app. rewrite (heartbeats_quiet yes_vote o1), (heartbeats_quiet accepts o1) by done. simpl.
  apply fetch_cases in E0 as [(c2 & -> & _ & _ & Hq2)|(l0 & j & Hl0 & [-> ->] & Hj & _ & Hv)]; simpl in *.
  - exists l. rewrite !heartbeats_quiet by done. split_and!; [done..|]. split; [done| |by intros pid ?%elem_of_nil].
    intros pid pd Hp. right. exists pd, 0. split_and!; [done..|lia|by left].
  - assert (l0 = l) as -> by congruence. set (s := set_group c l) in *.
    assert (lead_wf s) as Ws by by eapply same_heap_wf, W.
    exists (handle j s).1. split_and!; [done| |split].
    + apply elem_of_nil_inv. intros x (m & Hm & Hx)%leader_out_header.
      destruct (handle_sends j s m Hj Ws Hm) as [Hy _]. congruence.
    + by apply keeps_handle.
    + intros pid pd' Hp. destruct (handle_grows j s Hj Ws pid pd' Hp) as [(Ho & Ha & t & Ht)|(pd & Hp0 & Hn & Ha)].
      * left. split_and!; [done| |].
        -- by apply (input_counted i g j c pid pd' Hsub Hv).
        -- exists t. rewrite Ht. simpl. by rewrite Hkn.
      * right. exists pd, (counts j pid pd). split_and!; [done..|]. by apply (input_counted i g j c).
    + intros pid (m & Hm & Hx)%leader_out_header. destruct (handle_sends j s m Hj Ws Hm) as [_ Hs].
      destruct (Hs _ Hx) as (pd & Hp & Ha). exists pd, (counts j pid pd). split_and!; [done| |done].
      by apply (input_counted i g j c).
Qed.

Lemma round_silent i g g' out :
  group_round i g = Ok (g', out) -> group_leader_ g = None ->
  group_leader_ g' = None /\ omap (sent_header yes_vote) out = [] /\ omap (sent_header accepts) out = [].
Proof.
  unfold group_round. intros Hr Hl. inv_bind Hr. destruct x as [[c o1] rc]. inv_bind Hr.
  destruct x as [g2 o2]. injection Hr as <- <-. apply ping_heartbeat in E as (_ & _ & Hq).
  rewrite !omap_app. rewrite (heartbeats_quiet yes_vote o1), (heartbeats_quiet accepts o1) by done.
  apply fetch_cases in E0 as [(c2 & -> & _ & _ & Hq2)|(l & j & Hl0 & _)]; simpl in *; [|congruence].
  by rewrite !heartbeats_quiet by done.
Qed.
End Round.

(** ** The history of a vote *)

(** What is remembered of a run: the internal messages each component has read
    in the group, with the state of the group then, and the votes the user's
    code has asked for. *)
Inductive Seen :=
| Heard (id : string) (g : Group) (m : RawMsg)
| Voted (id : string) (pid : string) (accept : bool).

Section History.
Variable gid : GroupId.

Definition seen (id : string) (s : Component) (a : Act) : list Seen :=
  match a, groups_ s !! gid with
  | Round gid' i, Some g =>
      match gi_polled i with
      | Readable which (Some m) =>
          if decide (gid' = gid /\ group_subport_ (core g) = Some which) then [Heard id g m] else []
      | _ => []
      end
  | Calls gid' (CallVote _ pid accept), Some _ => if decide (gid' = gid) then [Voted id pid accept] else []
  | _, _ => []
  end.

Definition heard (id : string) (h : list Seen) : list RawMsg :=
  omap (fun e => match e with Heard id' _ m => if decide (id' = id) then Some m else None | _ => None end) h.

Definition yes_called (h : list Seen) : list (string * string) :=
  omap (fun e => match e with Voted id pid true => Some (id, pid) | _ => None end) h.

(** The run, seen from outside: a step, and what it adds to the history. *)
Definition vote_step (id : string) (a : Act) (nh : Net * list Seen) : Res (Net * list Seen) :=
  s ← deref (gn_comps nh.1 !! id);
  n' ← net_step id a nh.1;
  Ok (n', nh.2 ++ seen id s a).

(** The network delivers to a component no message more often than it was sent. *)
Definition no_repeats (id : string) (n : Net) (h : list Seen) : Prop :=
  heard id h ⊆+ raw_of <$> wire_of gid n.

(** Runs in which that holds; nothing else is asked of the network, of the
    members or of the time outs. *)
Inductive vote_reachable : Net * list Seen -> Prop :=
| vote_start n : fresh_net n -> vote_reachable (n, [])
| vote_next nh id a nh' :
    vote_reachable nh -> vote_step id a nh = Ok nh' -> no_repeats id nh.1 nh'.2 -> vote_reachable nh'.

(** The votes to accept [pid] from [nodes]. *)
Definition yes_of (pid : string) (nodes : gset string) (l : list (string * string)) : list (string * string) :=
  filter (fun v => v.2 = pid /\ v.1 ∈ nodes) l.
Definition yes_heard (id : string) (h : list Seen) : list (string * string) := omap raw_yes (heard id h).

(** Component [id] has read the proposal [pid], and [nodes] are the members its
    group knew then, at the time [t] on the clock. *)
Definition electors (t : Z) (id pid : string) (h : list Seen) : list (gset string) :=
  omap (fun e => match e with
    | Heard id' g m =>
        if decide (id' = id /\ raw_asks m = Some pid) then Some (GetKnownComponents t (core g)) else None
    | _ => None
    end) h.
Definition electorate (h : list Seen) (id pid : string) (nodes : gset string) : Prop :=
  exists t, nodes ∈ electors t id pid h.

(** ** The invariant *)

Definition accepted_on (n : Net) : list string := omap (fun m => accepts (gmsg_header m)) (wire_of gid n).

Record vote_inv (n : Net) (h : list Seen) : Prop := {
  vi_id id s : gn_comps n !! id = Some s -> component_uuid_ s = id /\ comp_wf gid s;
  vi_wf id s l : gn_comps n !! id = Some s -> leader_of gid s = Some l -> lead_wf l;
  vi_count id s l pid pd : gn_comps n !! id = Some s -> leader_of gid s = Some l -> proposes l pid pd ->
    electorate h id pid (nodesInVote pd)
    /\ 0 <= accepted pd <= Z.of_nat (length (yes_of pid (nodesInVote pd) (yes_heard id h)));
  vi_result pid : pid ∈ accepted_on n ->
    exists id nodes, electorate h id pid nodes
      /\ majority_of (Z.of_nat (size nodes)) <= Z.of_nat (length (yes_of pid nodes (yes_heard id h)));
  vi_votes : omap (fun m => yes_vote (gmsg_header m)) (wire_of gid n) ⊆+ yes_called h;
  vi_heard id : no_repeats id n h;
}.

(** ** Steps *)

Lemma wire_stepped {A} (f : GroupInternals -> option A) n id s' out :
  omap (fun m => f (gmsg_header m)) (wire_of gid (stepped n id s' out))
  = omap (fun m => f (gmsg_header m)) (wire_of gid n) ++ omap (sel_in (sent_header f) gid) out.
Proof.
  unfold wire_of, stepped. simpl. rewrite !omap_app. f_equal.
  induction out as [|o out IH]; [done|]. destruct o as [| | | | | | | | |gid' o]; try exact IH.
  destruct o as [k [m|fr] st| | | | | | | |]; simpl; case_decide; try exact IH. simpl.
  destruct (f (gmsg_header m)); [by f_equal|exact IH].
Qed.

Lemma send_header {A} (f : GroupInternals -> option A) zerr m port c :
  omap (sent_header f) (SendMessage_zmsg zerr m port c).1
  ⊆+ match m with Internal m => option_list (f (gmsg_header m)) | User _ => [] end.
Proof.
  unfold SendMessage_zmsg. destruct (find_pub _ _) as [[k cfg]|]; simpl; [|apply submseteq_nil_l].
  destruct m as [m|fr]; simpl; [|done]. by destruct (f (gmsg_header m)).
Qed.

(** The functions for the user's code send nothing about a vote but votes. *)
Lemma api_header {A} (f : GroupInternals -> option A) gid' c s :
  (forall x, f (groupMessage x) = None) -> (forall x, f (messageToLeader x) = None) ->
  (forall m, match cs_union m with proposeToLeader _ => f (consensus (Some m)) = None | _ => True end) ->
  omap (sel_in (sent_header f) gid) (api_call gid' c s).2
  ⊆+ match c, groups_ s !! gid with
     | CallVote _ pid accept, Some g =>
         if decide (gid' = gid) then
           option_list (f (consensus (Some
             {| cs_sourceComponentId := component_uuid (core g); cs_voteType := VALUE;
                cs_union := vote (Some {| v_proposeId := pid; v_voteResult := if accept then ACCEPTED else REJECTED |});
                cs_tsyncCoordA := None |})))
         else []
     | _, _ => []
     end.
Proof.
  intros H1 H2 H3.
  assert (forall B (failed : B) k, (forall g, omap (sent_header f) (k g).1 = []) ->
            omap (sel_in (sent_header f) gid) (with_group gid' s failed k).1 ⊆+ []) as Hq
    by (intros B failed k Hk; by rewrite with_group_quiet).
  assert (forall m zerr port c, f (gmsg_header m) = None ->
            omap (sent_header f) (SendMessage_zmsg zerr (Internal m) port c).1 = []) as Hm.
  { intros m zerr port c0 E. apply submseteq_nil_r. etrans; [apply send_header|]. by rewrite E. }
  destruct c as [zerr m port|zerr m|zerr m|zerr m uuid|zerr a t uuid|zerr pid b|now|e|]; cbn [api_call snd].
  - apply Hq. intros g. unfold SendMessage. case_bool_decide; [|apply Hm, H1].
    apply submseteq_nil_r. apply (send_header f).
  - apply Hq. intros g. unfold SendMessageToLeader. case_bool_decide; [done|]. apply Hm, H2.
  - apply Hq. intros g. destruct (IsLeader_group g s); [|done]. unfold SendLeaderMessage.
    simpl. case_bool_decide; [done|]. apply Hm, H1.
  - apply Hq. intros g. unfold ProposeValueToLeader. case_bool_decide; [done|].
    rewrite (surjective_pairing (SendMessage_zmsg _ _ _ _)). apply Hm.
    exact (H3 {| cs_sourceComponentId := _; cs_voteType := _; cs_union := proposeToLeader _; cs_tsyncCoordA := _ |}).
  - apply Hq. intros g. unfold ProposeActionToLeader. case_bool_decide; [done|].
    rewrite (surjective_pairing (SendMessage_zmsg _ _ _ _)). apply Hm.
    exact (H3 {| cs_sourceComponentId := _; cs_voteType := _; cs_union := proposeToLeader _; cs_tsyncCoordA := _ |}).
  - unfold Component_SendVote. rewrite with_group_sel. destruct (decide (gid' = gid)) as [->|Hne].
    + destruct (groups_ s !! gid); [|done]. apply (send_header f).
    + destruct (groups_ s !! gid'); [|by destruct (groups_ s !! gid)]. by destruct (groups_ s !! gid).
  - done.
  - unfold JoinGroup. destruct (groups_ s !! gid'); [done|]. unfold InitGroup.
    destruct (je_conf e); [|done]. cbn [fst snd]. rewrite sel_in_group. by case_decide.
  - done.
Qed.

Lemma api_leader gid' c s l' :
  leader_of gid (api_call gid' c s).1 = Some l' ->
  leader_of gid s = Some l' \/ lead_wf l' /\ m_proposeData l' = ∅.
Proof.
  unfold leader_of. destruct c as [| | | | | |now|e|]; cbn [api_call fst]; try (by left).
  - unfold GetGroupMemberCount. destruct (groups_ s !! gid') as [g|] eqn:Eg; [|by left].
    destruct (GetMemberCount now (core g)) as [n c]. simpl. destruct (decide (gid' = gid)) as [->|Hne].
    + rewrite lookup_insert_eq, Eg. by left.
    + rewrite lookup_insert_ne by done. by left.
  - unfold JoinGroup, InitGroup. destruct (groups_ s !! gid') as [g0|] eqn:Eg; [by left|].
    destruct (je_conf e) as [conf|]; [|by left]. destruct (je_joined e); [|by left]. simpl.
    destruct (decide (gid' = gid)) as [->|Hne]; [|rewrite lookup_insert_ne by done; by left].
    rewrite lookup_insert_eq. simpl. destruct (has_leader conf); [|done]. intros [= <-]. right.
    split; [split; simpl; intros; set_solver|done].
  - unfold LeaveGroup. destruct (groups_ s !! gid') as [g|]; [|by left]. simpl.
    destruct (decide (gid' = gid)) as [->|Hne]; [by rewrite lookup_delete_eq|].
    rewrite lookup_delete_ne by done. by left.
Qed.

(** A step is a round of the group's leader object, or has nothing to do with
    the proposals; it sends the votes that the user's code asks for. *)
Lemma act_votes a s s' out :
  act a s = Ok (s', out) -> comp_wf gid s -> (forall l, leader_of gid s = Some l -> lead_wf l) ->
  omap (sel_in (sent_header yes_vote) gid) out ⊆+ yes_called (seen (component_uuid_ s) s a)
  /\ ((exists i g l l', a = Round gid i /\ groups_ s !! gid = Some g
         /\ group_leader_ g = Some l /\ leader_of gid s' = Some l'
         /\ round_change i g l l' (omap (sel_in (sent_header accepts) gid) out))
      \/ omap (sel_in (sent_header accepts) gid) out = []
         /\ forall l', leader_of gid s' = Some l' ->
              leader_of gid s = Some l' \/ lead_wf l' /\ m_proposeData l' = ∅).
Proof.
  intros H Hwf Hlw. assert (match a with Calls _ _ => False | _ => True end \/ exists gid' c, a = Calls gid' c)
    as [Ha|(gid' & c & ->)] by (destruct a; eauto).
  - destruct (thread_sel gid _ _ _ _ Ha H) as [[Hg Hq]|(i & g & g' & o & -> & Hg & Hg' & Hr & Hq)];
      rewrite !(Hq _ _ (header_selects _)).
    { split; [apply submseteq_nil_l|right]. split; [done|]. intros l'. unfold leader_of. rewrite Hg. by left. }
    destruct (group_leader_ g) as [l|] eqn:El.
    + destruct (round_votes _ _ _ _ _ Hr El) as (l' & El' & -> & Hc); [apply Hlw; unfold leader_of; by rewrite Hg|].
      split; [apply submseteq_nil_l|left].
      exists i, g, l, l'. split_and!; [done..| |done]. unfold leader_of. by rewrite Hg'.
    + destruct (round_silent _ _ _ _ Hr El) as (El' & -> & ->). split; [apply submseteq_nil_l|right].
      split; [done|]. intros l'. unfold leader_of. rewrite Hg'. simpl. congruence.
  - simpl in H. injection H as H.
    pose proof (api_header yes_vote gid' c s) as Hy. pose proof (api_header accepts gid' c s) as Ha.
    pose proof (api_leader gid' c s) as Hl. rewrite H in *. cbn [fst snd] in *. split.
    + etrans; [apply Hy; try done; by intros [? ? [[]|[]|[]|[]]]|].
      destruct c; try apply submseteq_nil_l. unfold seen. destruct (groups_ s !! gid) as [g|] eqn:Eg; [|done].
      case_decide; [|done]. rewrite <- (cw_core _ _ Hwf g Eg). by destruct accept.
    + right. split; [|exact Hl]. apply submseteq_nil_r.
      etrans; [apply Ha; try done; by intros [? ? [[]|[]|[]|[]]]|].
      destruct c; try done. destruct (groups_ s !! gid); [|done]. by case_decide.
Qed.

(** ** The invariant holds *)

Lemma yes_heard_app id h h' : yes_heard id (h ++ h') = yes_heard id h ++ yes_heard id h'.
Proof. unfold yes_heard, heard. by rewrite !omap_app. Qed.

Lemma seen_other id id' s a : id <> id' -> heard id (seen id' s a) = [].
Proof.
  intros Hne. unfold seen. repeat (case_match; try done). unfold heard. simpl. by rewrite decide_False.
Qed.

Lemma seen_read id s i g m :
  groups_ s !! gid = Some g -> reads_msg i g m -> seen id s (Round gid i) = [Heard id g m].
Proof. intros Hg (which & Hsub & Hp). unfold seen. rewrite Hg, Hp. by rewrite decide_True. Qed.

Lemma electorate_app h h' id pid nodes : electorate h id pid nodes -> electorate (h ++ h') id pid nodes.
Proof. intros [t Hin]. exists t. unfold electors. rewrite omap_app. apply elem_of_app. by left. Qed.

(** The count of what a component has heard only grows. *)
Lemma yes_of_app pid nodes id h h' :
  length (yes_of pid nodes (yes_heard id (h ++ h')))
  = (length (yes_of pid nodes (yes_heard id h)) + length (yes_of pid nodes (yes_heard id h')))%nat.
Proof. unfold yes_of. by rewrite yes_heard_app, filter_app, length_app. Qed.

Lemma counted_heard id s i g pid pd k :
  groups_ s !! gid = Some g -> counted i g pid pd k ->
  k <= Z.of_nat (length (yes_of pid (nodesInVote pd) (yes_heard id (seen id s (Round gid i))))).
Proof.
  intros Hg [->|[-> (m & src & Hr & Hy & Hin)]]; [lia|].
  rewrite (seen_read _ _ _ _ _ Hg Hr). unfold yes_heard, heard. simpl. rewrite decide_True by done.
  simpl. rewrite Hy. unfold yes_of. rewrite filter_cons_True by done. simpl. lia.
Qed.

Lemma fresh_vote_inv n : fresh_net n -> vote_inv n [].
Proof.
  intros (Hw & _ & Hs).
  assert (forall id s, gn_comps n !! id = Some s -> leader_of gid s = None) as Hl.
  { intros id s Hid. destruct (Hs id s Hid) as [_ E]. unfold leader_of. by rewrite E, lookup_empty. }
  split.
  - intros id s Hid. destruct (Hs id s Hid) as [Hu Hg]. split; [done|].
    split; unfold leader_of; intros ?; by rewrite Hg, lookup_empty.
  - intros id s l Hid. by rewrite (Hl id s Hid).
  - intros id s l pid pd Hid. by rewrite (Hl id s Hid).
  - unfold accepted_on, wire_of. rewrite Hw. by intros pid ?%elem_of_nil.
  - unfold wire_of. by rewrite Hw.
  - intros id. apply submseteq_nil_l.
Qed.

(** What a leader knows of its votes after its own step. *)
Lemma step_count n h id s a s' out l' pid pd' :
  vote_inv n h -> gn_comps n !! id = Some s -> act a s = Ok (s', out) ->
  leader_of gid s' = Some l' -> proposes l' pid pd' ->
  electorate (h ++ seen id s a) id pid (nodesInVote pd')
  /\ 0 <= accepted pd' <= Z.of_nat (length (yes_of pid (nodesInVote pd') (yes_heard id (h ++ seen id s a)))).
Proof.
  intros I Hid Ha Hl' Hp. rewrite yes_of_app.
  assert (forall l pd, leader_of gid s = Some l -> proposes l pid pd ->
            electorate (h ++ seen id s a) id pid (nodesInVote pd)
            /\ 0 <= accepted pd <= Z.of_nat (length (yes_of pid (nodesInVote pd) (yes_heard id h)))) as Hold.
  { intros l pd Hl Hpd. destruct (vi_count _ _ I id s l pid pd Hid Hl Hpd). split; [by apply electorate_app|done]. }
  destruct (vi_id _ _ I id s Hid) as [Hu Hwf].
  destruct (act_votes _ _ _ _ Ha Hwf (fun l => vi_wf _ _ I id s l Hid))
    as [_ [(i & g & l & l2 & -> & Hg & El & El2 & Hc)|[_ Hq]]].
  - assert (l2 = l') as -> by congruence.
    assert (leader_of gid s = Some l) as Hl by (unfold leader_of; by rewrite Hg).
    destruct (rc_grows _ _ _ _ _ Hc pid pd' Hp) as [(Hz & (m & Hr & Hm) & t & Ht)|(pd & k & Hpd & Hn & Hk & Hcount)].
    + rewrite Hz. split; [|lia]. exists t. unfold electors. rewrite omap_app. apply elem_of_app. right.
      rewrite (seen_read id s i g m Hg Hr). simpl. rewrite decide_True by done. rewrite Ht. left.
    + destruct (Hold l pd Hl Hpd) as [He Hb]. rewrite Hn. split; [done|].
      pose proof (counted_heard id s i g pid pd k Hg Hcount). lia.
  - destruct (Hq l' Hl') as [Hl|[_ Hm]].
    + destruct (Hold l' pd' Hl Hp) as [He Hb]. split; [done|lia].
    + destruct Hp as (loc & Hloc & _). by rewrite Hm, lookup_empty in Hloc.
Qed.

(** An acceptance that a step announces has the majority. *)
Lemma step_accepts n h id s a s' out pid :
  vote_inv n h -> gn_comps n !! id = Some s -> act a s = Ok (s', out) ->
  pid ∈ omap (sel_in (sent_header accepts) gid) out ->
  exists nodes, electorate (h ++ seen id s a) id pid nodes
    /\ majority_of (Z.of_nat (size nodes))
         <= Z.of_nat (length (yes_of pid nodes (yes_heard id (h ++ seen id s a)))).
Proof.
  intros I Hid Ha Hin. destruct (vi_id _ _ I id s Hid) as [Hu Hwf].
  destruct (act_votes _ _ _ _ Ha Hwf (fun l => vi_wf _ _ I id s l Hid))
    as [_ [(i & g & l & l2 & -> & Hg & El & El2 & Hc)|[Hq _]]];
    [|rewrite Hq in Hin; by apply elem_of_nil in Hin].
  destruct (rc_accepts _ _ _ _ _ Hc pid Hin) as (pd & k & Hpd & Hcount & Hk).
  assert (leader_of gid s = Some l) as Hl by (unfold leader_of; by rewrite Hg).
  destruct (vi_count _ _ I id s l pid pd Hid Hl Hpd) as [He Hb].
  exists (nodesInVote pd). split; [by apply electorate_app|]. rewrite yes_of_app.
  pose proof (counted_heard id s i g pid pd k Hg Hcount).
  change (proposal_majority pd) with (majority_of (Z.of_nat (size (nodesInVote pd)))) in Hk. lia.
Qed.

Lemma vote_step_inv n h id s a s' out :
  vote_inv n h -> gn_comps n !! id = Some s -> act a s = Ok (s', out) ->
  no_repeats id n (h ++ seen id s a) -> vote_inv (stepped n id s' out) (h ++ seen id s a).
Proof.
  intros I Hid Ha Hrep. destruct (vi_id _ _ I id s Hid) as [Hu Hwf].
  destruct (act_change gid _ _ _ _ Ha) as [Hu' Hch].
  destruct (act_votes _ _ _ _ Ha Hwf (fun l => vi_wf _ _ I id s l Hid)) as [Hvotes Hlead].
  split.
  - intros id0 s0. simpl. destruct (decide (id = id0)) as [<-|Hne].
    + rewrite lookup_insert_eq. intros [= <-]. split; [congruence|by eapply group_change_wf].
    + rewrite lookup_insert_ne by done. apply I.
  - intros id0 s0 l0. simpl. destruct (decide (id = id0)) as [<-|Hne].
    + rewrite lookup_insert_eq. intros [= <-] Hl.
      destruct Hlead as [(i & g & l & l2 & _ & _ & _ & El2 & Hc)|[_ Hq]].
      * assert (l2 = l0) as -> by congruence. by destruct Hc.
      * destruct (Hq l0 Hl) as [Hl0|[? _]]; [by eapply I|done].
    + rewrite lookup_insert_ne by done. apply I.
  - intros id0 s0 l0 pid pd. simpl. destruct (decide (id = id0)) as [<-|Hne].
    + rewrite lookup_insert_eq. intros [= <-]. by eapply step_count.
    + rewrite lookup_insert_ne by done. intros Hs0 Hl0 Hp.
      destruct (vi_count _ _ I id0 s0 l0 pid pd Hs0 Hl0 Hp). rewrite yes_of_app.
      split; [by apply electorate_app|lia].
  - intros pid. unfold accepted_on. rewrite wire_stepped. intros [Hin|Hin]%elem_of_app.
    + destruct (vi_result _ _ I pid Hin) as (id0 & nodes & He & Hm). exists id0, nodes.
      split; [by apply electorate_app|]. rewrite yes_of_app. lia.
    + exists id. by eapply step_accepts.
  - rewrite wire_stepped. unfold yes_called. rewrite omap_app. apply submseteq_app; [apply I|].
    rewrite <- Hu at 1. exact Hvotes.
  - intros id0. unfold no_repeats. assert (forall l, l ⊆+ raw_of <$> wire_of gid n ->
        l ⊆+ raw_of <$> wire_of gid (stepped n id s' out)) as Hmono.
    { intros l Hl. etrans; [exact Hl|]. unfold wire_of, stepped. simpl.
      rewrite omap_app, fmap_app. apply submseteq_inserts_r. done. }
    apply Hmono. destruct (decide (id = id0)) as [<-|Hne]; [done|].
    unfold heard. rewrite omap_app. fold (heard id0 h) (heard id0 (seen id s a)).
    rewrite (seen_other id0 id s a) by done. rewrite app_nil_r. apply I.
Qed.

Lemma vote_reachable_inv nh : vote_reachable nh -> vote_inv nh.1 nh.2.
Proof.
  induction 1 as [n Hn|[n h] id a nh' _ IH Hs Hrep]; [by apply fresh_vote_inv|].
  unfold vote_step in Hs. simpl in *. destruct (gn_comps n !! id) as [s|] eqn:Hid; [|done]. simpl in Hs.
  unfold net_step in Hs. rewrite Hid in Hs. simpl in Hs. destruct (act a s) as [[s' out]| |] eqn:Ha; [|done..].
  simpl in Hs. injection Hs as <-. by apply (vote_step_inv n h id s a s' out).
Qed.
End History.

(** ** A majority decides *)

Lemma heard_called gid nh id : vote_reachable gid nh -> yes_heard id nh.2 ⊆+ yes_called nh.2.
Proof.
  intros I%vote_reachable_inv. etrans; [|apply (vi_votes _ _ _ I)].
  unfold yes_heard. etrans; [apply omap_submseteq, (vi_heard _ _ _ I)|].
  by rewrite omap_fmap.
Qed.

(** The voters of [pid] are as many as its votes if nobody votes twice. *)
Lemma voters_of pid nodes l :
  NoDup l -> size (list_to_set (C := gset string) (yes_of pid nodes l).*1) = length (yes_of pid nodes l).
Proof.
  intros Hnd. rewrite size_list_to_set; [by rewrite length_fmap|].
  apply NoDup_fmap_2_strong; [|by apply NoDup_filter].
  intros [v p] [v' p'] [[Hp _] _]%list_elem_of_filter [[Hp' _] _]%list_elem_of_filter.
  simpl in *. by intros; subst.
Qed.

(** C4. A majority decides, over the network: when the group's wire carries the
    announcement that a proposal is accepted, some leader has read the proposal,
    and the calls of [SendVote] that accept it and come from the members that
    this leader's group knew then are more than half as many as those members.
    If nobody has voted twice, the voters are a strict majority of them.
    Asked is only that the network repeats no message to a component: losses,
    delays, reordering, elections, joining and leaving are as they will. *)
Theorem accepted_by_majority gid nh m pid :
  vote_reachable gid nh -> m ∈ wire_of gid nh.1 -> accepts (gmsg_header m) = Some pid ->
  exists leader nodes, electorate nh.2 leader pid nodes
    /\ strict_majority (Z.of_nat (size nodes)) (Z.of_nat (length (yes_of pid nodes (yes_called nh.2))))
    /\ (NoDup (yes_called nh.2) -> exists voters, voters ⊆ nodes
         /\ strict_majority (Z.of_nat (size nodes)) (Z.of_nat (size voters))
         /\ forall v, v ∈ voters -> Voted v pid true ∈ nh.2).
Proof.
  intros Hr Hm Hacc. pose proof (vote_reachable_inv _ _ Hr) as I.
  destruct (vi_result _ _ _ I pid) as (id & nodes & He & Hmaj).
  { apply list_elem_of_omap. by exists m. }
  exists id, nodes. assert (strict_majority (Z.of_nat (size nodes))
    (Z.of_nat (length (yes_of pid nodes (yes_called nh.2))))) as Hs.
  { apply majority_of_strict. etrans; [exact Hmaj|]. apply inj_le, submseteq_length, filter_submseteq.
    by eapply heard_called. }
  split_and!; [done..|]. intros Hnd. exists (list_to_set (yes_of pid nodes (yes_called nh.2)).*1).
  rewrite voters_of by done. split_and!; [|done|].
  - intros v ([v' p] & -> & [[_ Hv] _]%list_elem_of_filter)%elem_of_list_to_set%list_elem_of_fmap. exact Hv.
  - intros v ([v' p] & -> & [[Hp _] Hv]%list_elem_of_filter)%elem_of_list_to_set%list_elem_of_fmap.
    simpl in *. subst p. apply list_elem_of_omap in Hv as ([|id' pid' []] & Hin & [= -> ->]); done.
Qed.

(** ** Concrete votes *)

Section Runs.
Variable gid : GroupId.

Fixpoint vote_run (l : list (string * Act)) (nh : Net * list Seen) : Res (Net * list Seen) :=
  match l with
  | [] => Ok nh
  | (id, a) :: l' => nh' ← vote_step gid id a nh; vote_run l' nh'
  end.

(** A run in which nothing is repeated. *)
Fixpoint vote_clean (l : list (string * Act)) (nh : Net * list Seen) : Prop :=
  match l with
  | [] => True
  | (id, a) :: l' =>
      match vote_step gid id a nh with
      | Ok nh' => no_repeats gid id nh.1 nh'.2 /\ vote_clean l' nh'
      | _ => False
      end
  end.

#[export] Instance vote_clean_dec l nh : Decision (vote_clean l nh).
Proof.
  revert nh. induction l as [|[id a] l IH]; intros nh; simpl; [apply _|].
  unfold no_repeats. repeat (apply _ || case_match).
Defined.

Definition vote_after (l : list (string * Act)) (n : Net) : Net * list Seen :=
  match vote_run l (n, []) with Ok nh => nh | _ => (n, []) end.

Lemma clean_run l nh :
  vote_reachable gid nh -> vote_clean l nh -> exists nh', vote_run l nh = Ok nh' /\ vote_reachable gid nh'.
Proof.
  revert nh. induction l as [|[id a] l IH]; intros nh Hr; [by exists nh|]. simpl.
  destruct (vote_step gid id a nh) as [nh'| |] eqn:E; simpl; [|done..]. intros [Hc Hl].
  apply IH; [by eapply vote_next|done].
Qed.

Lemma clean_reachable l n :
  fresh_net n -> vote_clean l (n, []) -> vote_reachable gid (vote_after l n).
Proof.
  intros Hn Hl. destruct (clean_run l _ (vote_start gid n Hn) Hl) as (nh & E & Hr).
  unfold vote_after. by rewrite E.
Qed.
End Runs.

Definition about_p (v : string) (u : ConsensusUnion) : GroupInternals :=
  consensus (Some {| cs_sourceComponentId := v; cs_voteType := VALUE; cs_union := u; cs_tsyncCoordA := None |}).

(** [b] learns who leads and proposes "p", and the leader [a] reads it. *)
Definition proposing : list (string * Act) :=
  [turn 12 (elects (msg_app "a" 1)) "b";
   ("b", Calls demo_group (CallPropose None "value" "p"));
   turn 13 (Readable 6 (Some
     {| rm_first := Some (about_p "b" (proposeToLeader (Some {| ptl_proposeId := "p" |})));
        rm_rest := ["value"] |})) "a"].

(** The code of [v] votes, and [a] reads the vote. *)
Definition votes_yes (v : string) : list (string * Act) :=
  [(v, Calls demo_group (CallVote None "p" true));
   turn 13 (reads (about_p v (vote (Some {| v_proposeId := "p"; v_voteResult := ACCEPTED |})))) "a"].

Definition polls (vs : list string) : Net * list Seen :=
  vote_after demo_group (gathering ++ a_elected ++ proposing ++ concat (map votes_yes vs)) demo_net.

Lemma polls_reachable vs :
  bool_decide (vote_clean demo_group (gathering ++ a_elected ++ proposing ++ concat (map votes_yes vs))
    (demo_net, [])) = true ->
  vote_reachable demo_group (polls vs).
Proof.
  intros H%bool_decide_eq_true. exact (clean_reachable _ _ _ demo_net_fresh H).
Qed.

Definition p_accepted : GroupMsg :=
  header_only (consensus (Some {| cs_sourceComponentId := ""; cs_voteType := VALUE;
    cs_union := announce (Some {| an_proposeId := "p"; an_voteResult := ACCEPTED |}); cs_tsyncCoordA := None |})).

Definition at_13s : Z := 13000000000.

(** Nothing in the code keeps a member from voting twice, and then it is enough
    that one member votes, where two have to agree. *)
Theorem one_voter_decides :
  vote_reachable demo_group (polls ["b"; "b"])
  /\ p_accepted ∈ wire_of demo_group (polls ["b"; "b"]).1
  /\ yes_called (polls ["b"; "b"]).2 = [("b", "p"); ("b", "p")]
  /\ {["b"; "c"]} ∈ electors at_13s "a" "p" (polls ["b"; "b"]).2.
Proof.
  split; [apply (polls_reachable ["b"; "b"]); vm_compute; reflexivity|].
  split; [apply (bool_decide_unpack _); vm_compute; exact I|].
  split; [vm_compute; reflexivity|].
  apply (bool_decide_unpack _). vm_compute. exact I.
Qed.

(** [b] and [c] vote for the proposal of [b]. *)
Lemma accepted_by_majority_witness :
  exists leader nodes, electorate (polls ["b"; "c"]).2 leader "p" nodes
    /\ strict_majority (Z.of_nat (size nodes)) (Z.of_nat (length (yes_of "p" nodes (yes_called (polls ["b"; "c"]).2))))
    /\ exists voters, voters ⊆ nodes
         /\ strict_majority (Z.of_nat (size nodes)) (Z.of_nat (size voters))
         /\ forall v, v ∈ voters -> Voted v "p" true ∈ (polls ["b"; "c"]).2.
Proof.
  destruct (accepted_by_majority demo_group (polls ["b"; "c"]) p_accepted "p") as (leader & nodes & He & Hm & Hv).
  - apply (polls_reachable ["b"; "c"]). vm_compute. reflexivity.
  - apply (bool_decide_unpack _). vm_compute. exact I.
  - reflexivity.
  - exists leader, nodes. split; [exact He|]. split; [exact Hm|]. apply Hv.
    apply (bool_decide_unpack _). vm_compute. exact I.
Defined.

(** [b] takes over from [a], but [a] still takes itself for the leader: both
    forward the proposal of [c], and the code of [c] votes each time it is asked.
    [ask_c l] is the proposal that [l] forwards, on its way to [c]. *)
Definition proposal_by_c : list (string * Act) :=
  [turn 14 (elects (msg_app "b" 2)) "c"; ("c", Calls demo_group (CallPropose None "value" "p"))]
  ++ map (turn 14 (Readable 6 (Some
       {| rm_first := Some (about_p "c" (proposeToLeader (Some {| ptl_proposeId := "p" |})));
          rm_rest := ["value"] |}))) ["a"; "b"].
Definition ask_c (l : string) : Polled :=
  Readable 6 (Some {| rm_first := Some (about_p l (proposeToClients (Some {| ptc_proposeId := "p"; ptc_leaderId := l |})));
                      rm_rest := ["value"] |}).
Definition c_votes (l : string) : list (string * Act) :=
  [turn 14 (ask_c l) "c"; ("c", Calls demo_group (CallVote None "p" true));
   turn 14 (reads (about_p "c" (vote (Some {| v_proposeId := "p"; v_voteResult := ACCEPTED |})))) "a"].
Definition double_vote : list (string * Act) :=
  a_deposed ++ proposal_by_c ++ c_votes "a" ++ c_votes "b".

(** What the handlers of [c] are called with when it reads the proposal of [l]. *)
Definition told_c (l : string) (before : list (string * Act)) : list CompOut :=
  match act (Round demo_group (round_input 14 (ask_c l))) (comp_at (after before demo_net) "c") with
  | Ok (_, out) => out
  | _ => []
  end.

(** A leader that was replaced goes on taking proposals: in a run that meets
    every condition of [one_leader] and repeats no message, both leaders put one
    proposal to the members, and a member whose code votes once each time it is
    asked votes twice and decides alone, where two have to agree. *)
Theorem two_leaders_ask_twice :
  net_reachable demo_group demo_members (after double_vote demo_net)
  /\ vote_reachable demo_group (vote_after demo_group double_vote demo_net)
  /\ told_c "a" (a_deposed ++ proposal_by_c) = [GroupOutput demo_group (OnPropose demo_group "p" "value")]
  /\ told_c "b" (a_deposed ++ proposal_by_c ++ c_votes "a") = [GroupOutput demo_group (OnPropose demo_group "p" "value")]
  /\ p_accepted ∈ wire_of demo_group (vote_after demo_group double_vote demo_net).1
  /\ yes_called (vote_after demo_group double_vote demo_net).2 = [("c", "p"); ("c", "p")]
  /\ {["b"; "c"]} ∈ electors 14000000000 "a" "p" (vote_after demo_group double_vote demo_net).2.
Proof.
  assert (vote_clean demo_group double_vote (demo_net, [])) as Hc by (apply (bool_decide_unpack _); vm_compute; exact I).
  split; [apply demo_reachable, (bool_decide_unpack _); vm_compute; exact I|].
  split; [exact (clean_reachable _ _ _ demo_net_fresh Hc)|].
  split; [vm_compute; reflexivity|]. split; [vm_compute; reflexivity|].
  split; [apply (bool_decide_unpack _); vm_compute; exact I|].
  split; [vm_compute; reflexivity|]. apply (bool_decide_unpack _). vm_compute. exact I.
Qed.
