(* ===== verification/Delivery.v ===== *)
(** Delivery.v - what the user's handlers are told, over the network.

    A handler of a group is called with a message, a proposal or an action that
    a group has read from the wire ([Group.v]).  Here every such call is traced
    back, through the network and through the leader that forwards proposals, to
    the call of the user's code that it comes from. *)

From Stdlib Require Import ZArith Lia.
From stdpp Require Import base gmap strings list fin_maps fin_sets.
From S2P Require Import Prelude.
From S2P Require Import Timeout.
From S2P Require Import DistCoord.
From S2P Require Import GroupLead.
From S2P Require Import Election.
From S2P Require Import Cluster.
From S2P Require Import Consensus.
From S2P Require Import Ports.
From S2P Require Import Group.
From S2P Require Import Component.
From S2P Require Import Handlers.
From S2P Require Import GroupNet.
From S2P Require Import Voting.

#[local] Open Scope riaps_scope.

(** ** What a message is about *)

(** What the user's code asks to have delivered. *)
Inductive Origin :=
| OMessage (f : Frame)
| OToLeader (f : Frame)
| OProposal (pid : string) (f : Frame)
| OAction (pid aid : string) (t : TimeSpec).

Definition proposal_of (c : Consensus) (pid : string) (body : option Frame) : option Origin :=
  match cs_voteType c with
  | VALUE => f ← body; Some (OProposal pid f)
  | ACTION => Some (OAction pid (ts_actionId (getTsyncCoordA c)) (ts_time (getTsyncCoordA c)))
  end.

(** What is asked for by a message with the given second frame. *)
Definition origin (h : GroupInternals) (body : option Frame) : option Origin :=
  match h with
  | groupMessage (Some _) => f ← body; Some (OMessage f)
  | messageToLeader (Some _) => f ← body; Some (OToLeader f)
  | consensus (Some c) =>
      match cs_union c with
      | proposeToLeader (Some p) => proposal_of c (ptl_proposeId p) body
      | proposeToClients (Some p) => proposal_of c (ptc_proposeId p) body
      | _ => None
      end
  | _ => None
  end.

Definition raw_origin (m : RawMsg) : option Origin := h ← rm_first m; origin h (head (rm_rest m)).
Definition sent_origin (o : GroupOut) : option Origin :=
  match o with PortSent _ (Internal m) _ => origin (gmsg_header m) (gmsg_body m) | _ => None end.

(** What a call of the user's code asks for, and what a handler is called with. *)
Definition call_origin (c : Call) : option Origin :=
  match c with
  | CallSend _ m _ | CallFromLeader _ m => Some (OMessage m)
  | CallToLeader _ m => Some (OToLeader m)
  | CallPropose _ m pid => Some (OProposal pid m)
  | CallProposeAction _ aid t pid => Some (OAction pid aid (time_field t))
  | _ => None
  end.
Definition callback_origin (o : GroupOut) : option Origin :=
  match o with
  | OnGroupMessage _ f => Some (OMessage f)
  | OnMessageToLeader _ f => Some (OToLeader f)
  | OnPropose _ pid f => Some (OProposal pid f)
  | OnActionPropose _ pid aid t => Some (OAction pid aid t)
  | _ => None
  end.

Lemma origin_selects : selects_sent sent_origin.
Proof. by intros [? []| | | | | | | |]. Qed.
Lemma callback_selects_not_sent o : sent_origin o <> None -> callback_origin o = None.
Proof. by destruct o. Qed.

(** ** The leader forwards *)

Section Forward.
Context {G : Type} `{GroupApi G}.
Implicit Type s : GroupLead G.

(** What an input asks the leader to forward. *)
Definition asked (i : Input G) : option Origin :=
  match i with
  | ClientProposes _ _ _ q body => f ← body; Some (OProposal (ptl_proposeId q) f)
  | ClientProposesAction _ _ _ q tsca => Some (OAction (ptl_proposeId q) (ts_actionId tsca) (ts_time tsca))
  | _ => None
  end.

Lemma neutral_origin h body : neutral_header h -> origin h body = None.
Proof.
  destruct h as [[]|[]|[]|[c|]|[]|[]]; try done. simpl. by destruct (cs_union c) as [| | |[a|]].
Qed.

Lemma OnVote_announces now v src s m : SendMsg m ∈ (OnVote now v src s).2 ->
  exists pid r, SendMsg m = announced pid r.
Proof.
  unfold OnVote, read, erase_action, erase_proposal, AnnounceResult. run_lead.
  repeat (case_match; simpl); rewrite ?elem_of_nil, ?list_elem_of_singleton; try done; intros [= ->];
    unfold announced; eauto.
Qed.

Lemma handle_origin i s m o : (forall g : G, i <> GroupMoves g) -> SendMsg m ∈ (handle i s).2 ->
  origin (gmsg_header m) (gmsg_body m) = Some o -> asked i = Some o.
Proof.
  intros Hi Hm Ho. assert (forall c, uninvolved c -> SendMsg m ∈ (c s).2 -> False) as Hu.
  { intros c Hc Hin. destruct (Hc s) as (_ & _ & Hn). rewrite Forall_forall in Hn.
    specialize (Hn _ Hin). simpl in Hn. by rewrite neutral_origin in Ho. }
  destruct i as [clk order|now draw x|t1 t2 junk h body|t0 t1 t2 h tsca|now v src|g];
    [| | | | |by destruct (Hi g)]; cbn [handle] in Hm.
  - by destruct (Hu _ (uninvolved_Update clk order)).
  - by destruct (Hu _ (uninvolved_UpdateMsg now draw x)).
  - unfold OnProposeFromClient, read in Hm. case_bool_decide; [by apply elem_of_nil in Hm|].
    apply list_elem_of_singleton in Hm. injection Hm as ->. by destruct body.
  - unfold OnActionProposeFromClient, read in Hm. case_bool_decide; [by apply elem_of_nil in Hm|].
    case_match; [by apply elem_of_nil in Hm|]. apply list_elem_of_singleton in Hm. by injection Hm as ->.
  - destruct (OnVote_announces _ _ _ _ _ Hm) as (pid & r & [= ->]). done.
Qed.
End Forward.

(** ** One round of a group *)

Section Round.
Implicit Types (g : Group).

Lemma heartbeat_origin o : heartbeat_only o -> sent_origin o = None.
Proof. destruct o as [k [[h b]|] st| | | | | | | |]; try done. simpl. by destruct h. Qed.

Lemma ping_origin now zerr c c' out rc x :
  SendPingWithPeriod now zerr c = Ok (c', out, rc) -> x ∈ out -> sent_origin x = None /\ callback_origin x = None.
Proof.
  unfold SendPingWithPeriod, SendPing, SendHeartBeat. intros Hp.
  repeat case_match; simpl in Hp; simplify_eq; try (by intros ?%elem_of_nil);
    destruct (group_pubport_ c); simpl in Hp; simplify_eq; by intros ->%list_elem_of_singleton.
Qed.

Lemma leader_out_origin (c : GroupCore) outs x :
  x ∈ concat (map (leader_out c) outs) ->
  callback_origin x = None /\ forall o, sent_origin x = Some o ->
    exists m, SendMsg m ∈ outs /\ origin (gmsg_header m) (gmsg_body m) = Some o.
Proof.
  induction outs as [|y outs IH]; simpl; [by intros ?%elem_of_nil|].
  intros [Hx|Hx]%elem_of_app.
  - destruct y as [m|]; simpl in Hx.
    + unfold SendMessage_zmsg in Hx. destruct (find_pub _ _) as [[k cfg]|]; simpl in Hx; [|by apply elem_of_nil in Hx].
      apply list_elem_of_singleton in Hx as ->. split; [done|]. intros o Ho. exists m. split; [left|done].
    + apply list_elem_of_singleton in Hx as ->. done.
  - destruct (IH Hx) as [Hc Hs]. split; [done|]. intros o Ho. destruct (Hs o Ho) as (m & Hm & Hor).
    exists m. split; [by right|done].
Qed.

(** A handler is called with what the group has just read. *)
Lemma fetch_callback e p g g' out x o :
  FetchNextMessage e p g = Ok (g', out) -> x ∈ out -> callback_origin x = Some o ->
  exists which m, group_subport_ (core g) = Some which /\ p = Readable which (Some m) /\ raw_origin m = Some o.
Proof.
  intros Hf Hx Ho. assert (forall c, call_leader c g = Ok (g', out) -> False) as Hcall.
  { unfold call_leader. intros c Hc. destruct (group_leader_ g); [|done]. simpl in Hc. injection Hc as _ <-.
    apply leader_out_origin in Hx as [Hn _]. congruence. }
  assert (out = [] -> False) as Hnil by (intros ->; by apply elem_of_nil in Hx).
  assert (forall y, out = [y] -> callback_origin y = Some o) as Hone
    by (intros y ->; by apply list_elem_of_singleton in Hx as <-).
  unfold FetchNextMessage in Hf. destruct p as [|which msg].
  { destruct (has_leader _); [by destruct (Hcall _ Hf)|]. injection Hf as _ <-. by destruct (Hnil eq_refl). }
  destruct (port_at _ _) as [[|]|]; try (injection Hf as _ <-; by destruct (Hnil eq_refl)).
  destruct msg as [[[internal|] rest]|]; simpl in Hf; [|done|injection Hf as _ <-; by destruct (Hnil eq_refl)].
  case_bool_decide as Hsub; [|injection Hf as _ <-; by destruct (Hnil eq_refl)].
  eexists which, _. split; [done|]. split; [done|]. unfold raw_origin. simpl.
  destruct internal as [[hb|]|[m|]|[m|]|[m|]|[m|]|[m|]]; simpl in Hf;
    try (injection Hf as _ <-; by destruct (Hnil eq_refl)).
  - unfold on_groupHeartBeat, SendPong, SendHeartBeat in Hf. simpl in Hf.
    destruct (hb_type hb), (group_pubport_ (core g)); simpl in Hf; try done; injection Hf as _ <-;
      first [by destruct (Hnil eq_refl)|by specialize (Hone _ eq_refl)].
  - by destruct (Hcall _ Hf).
  - unfold on_messageToLeader in Hf. case_bool_decide; [injection Hf as _ <-; by destruct (Hnil eq_refl)|].
    destruct rest; injection Hf as _ <-; [by destruct (Hnil eq_refl)|exact (Hone _ eq_refl)].
  - case_bool_decide.
    + unfold on_consensus_leader in Hf.
      destruct (cs_union m) as [[q|]|[q|]|[q|]|[q|]]; try (injection Hf as _ <-; by destruct (Hnil eq_refl));
        [destruct (cs_voteType m)|]; by destruct (Hcall _ Hf).
    + unfold on_consensus_member in Hf. simpl. unfold proposal_of.
      destruct (cs_union m) as [[q|]|[q|]|[q|]|[q|]]; try (injection Hf as _ <-; by destruct (Hnil eq_refl)).
      * destruct (cs_voteType m).
        -- destruct rest as [|f rest]; [done|]. injection Hf as _ <-. exact (Hone _ eq_refl).
        -- injection Hf as _ <-. exact (Hone _ eq_refl).
      * injection Hf as _ <-. by specialize (Hone _ eq_refl).
  - destruct rest; injection Hf as _ <-; [by destruct (Hnil eq_refl)|exact (Hone _ eq_refl)].
Qed.

(** What a round sends on or tells a handler is what it has read. *)
Lemma round_origin i g g' out x o :
  group_round i g = Ok (g', out) -> x ∈ out -> sent_origin x = Some o \/ callback_origin x = Some o ->
  exists m, reads_msg i g m /\ raw_origin m = Some o.
Proof.
  unfold group_round. intros Hr Hx Ho. inv_bind Hr. destruct x0 as [[c o1] rc]. inv_bind Hr.
  destruct x0 as [g2 o2]. injection Hr as <- <-.
  apply elem_of_app in Hx as [Hx|Hx]; [destruct (ping_origin _ _ _ _ _ _ _ E Hx); naive_solver|].
  apply ping_heartbeat in E as (Hsub & _ & _). unfold reads_msg. rewrite <- Hsub.
  destruct Ho as [Ho|Ho].
  - apply fetch_cases in E0 as [(c2 & _ & _ & _ & Hq)|(l & j & _ & [_ ->] & Hj & _ & Hin)].
    { rewrite Forall_forall in Hq. rewrite (heartbeat_origin x (Hq x Hx)) in Ho. done. }
    apply leader_out_origin in Hx as [_ Hs]. destruct (Hs o Ho) as (m & Hm & Hor).
    pose proof (handle_origin j _ m o Hj Hm Hor) as Ha.
    destruct j as [| |t1 t2 jk q body|t0 t1 t2 q tsca| |]; try done;
      destruct Hin as (which & m' & rest & Hw & Hp & Hu & Ht & Hb); subst;
      (eexists; split; [by exists which|]); unfold raw_origin; simpl; rewrite Hu; unfold proposal_of;
      by rewrite Ht.
  - destruct (fetch_callback _ _ _ _ _ _ _ E0 Hx Ho) as (which & m & Hw & Hp & Hm). exists m. split; [|done].
    by exists which.
Qed.
End Round.

(** ** The calls of the user's code *)

Lemma send_origin zerr m port c x o :
  x ∈ (SendMessage_zmsg zerr m port c).1 -> sent_origin x = Some o ->
  match m with Internal m => origin (gmsg_header m) (gmsg_body m) = Some o | User _ => False end.
Proof.
  unfold SendMessage_zmsg. destruct (find_pub _ _) as [[k cfg]|]; simpl; [|by intros ?%elem_of_nil].
  intros ->%list_elem_of_singleton. by destruct m.
Qed.

(** A call sends what it asks for. *)
Lemma api_origin gid gid' c s o :
  o ∈ omap (sel_in sent_origin gid) (api_call gid' c s).2 -> gid' = gid /\ call_origin c = Some o.
Proof.
  assert (forall B (failed : B) k, (forall g x, x ∈ (k g).1 -> sent_origin x = Some o -> call_origin c = Some o) ->
    o ∈ omap (sel_in sent_origin gid) (with_group gid' s failed k).1 -> gid' = gid /\ call_origin c = Some o) as Hk.
  { intros B failed k Hk. rewrite with_group_sel. destruct (groups_ s !! gid') as [g|]; [|by intros ?%elem_of_nil].
    case_decide; [|by intros ?%elem_of_nil]. intros (x & Hx & Ho)%list_elem_of_omap. split; [done|]. by eapply Hk. }
  destruct c as [zerr m port|zerr m|zerr m|zerr m uuid|zerr a t uuid|zerr pid b|now|e|]; cbn [api_call snd];
    try (by intros ?%elem_of_nil).
  - apply Hk. intros g x. unfold SendMessage. case_bool_decide; intros Hx Ho; by apply (send_origin _ _ _ _ _ _ Hx) in Ho.
  - apply Hk. intros g x. unfold SendMessageToLeader. case_bool_decide; intros Hx Ho; [by apply elem_of_nil in Hx|].
    by apply (send_origin _ _ _ _ _ _ Hx) in Ho.
  - apply Hk. intros g x. destruct (IsLeader_group g s); [|by intros ?%elem_of_nil]. unfold SendLeaderMessage. simpl.
    case_bool_decide; intros Hx Ho; [by apply elem_of_nil in Hx|]. by apply (send_origin _ _ _ _ _ _ Hx) in Ho.
  - apply Hk. intros g x. unfold ProposeValueToLeader. case_bool_decide; [by intros ?%elem_of_nil|].
    rewrite (surjective_pairing (SendMessage_zmsg _ _ _ _)). intros Hx Ho.
    by apply (send_origin _ _ _ _ _ _ Hx) in Ho.
  - apply Hk. intros g x. unfold ProposeActionToLeader. case_bool_decide; [by intros ?%elem_of_nil|].
    rewrite (surjective_pairing (SendMessage_zmsg _ _ _ _)). intros Hx Ho.
    by apply (send_origin _ _ _ _ _ _ Hx) in Ho.
  - apply Hk. intros g x Hx Ho. by apply (send_origin _ _ _ _ _ _ Hx) in Ho.
  - unfold JoinGroup. destruct (groups_ s !! gid'); [by intros ?%elem_of_nil|]. unfold InitGroup.
    destruct (je_conf e); [|by intros ?%elem_of_nil]. cbn [fst snd]. rewrite sel_in_group. case_decide;
      by intros ?%elem_of_nil.
Qed.

(** ** Runs and their calls *)

Section Told.
Variable gid : GroupId.

(** The calls that have been made. *)
Abbreviation Made := (list (string * GroupId * Call)).
Definition made (id : string) (a : Act) : Made :=
  match a with Calls gid' c => [(id, gid', c)] | _ => [] end.

(** The group reads only what is on its wire. *)
Definition reads_wire (n : Net) (s : Component) (a : Act) : Prop :=
  match a, groups_ s !! gid with
  | Round gid' i, Some g => gid' = gid -> delivered gid n g (gi_polled i)
  | _, _ => True
  end.

Inductive told_reachable : Net -> Made -> Prop :=
| told_start n : fresh_net n -> told_reachable n []
| told_next n h id s a n' :
    told_reachable n h -> gn_comps n !! id = Some s -> reads_wire n s a ->
    net_step id a n = Ok n' -> told_reachable n' (h ++ made id a).

Definition asked_for (h : Made) (o : Origin) : Prop :=
  exists id c, (id, gid, c) ∈ h /\ call_origin c = Some o.

Definition wire_origins (n : Net) : list Origin := omap (fun m => origin (gmsg_header m) (gmsg_body m)) (wire_of gid n).

Lemma wire_origins_stepped n id s' out :
  wire_origins (stepped n id s' out) = wire_origins n ++ omap (sel_in sent_origin gid) out.
Proof.
  unfold wire_origins, wire_of, stepped. simpl. rewrite !omap_app. f_equal.
  induction out as [|o out IH]; [done|]. destruct o as [| | | | | | | | |gid' o]; try exact IH.
  destruct o as [k [m|fr] st| | | | | | | |]; simpl; case_decide; try exact IH. simpl.
  destruct (origin (gmsg_header m) (gmsg_body m)); [by f_equal|exact IH].
Qed.

Lemma read_origin n g i m o :
  delivered gid n g (gi_polled i) -> reads_msg i g m -> raw_origin m = Some o -> o ∈ wire_origins n.
Proof.
  intros Hd (which & Hsub & Hp) Ho. rewrite Hp in Hd. specialize (Hd Hsub).
  apply list_elem_of_fmap in Hd as (x & -> & Hx). apply list_elem_of_omap. exists x. split; [done|].
  unfold raw_origin in Ho. simpl in Ho. by destruct (gmsg_body x).
Qed.

(** What is on the wire has been asked for. *)
Lemma wire_asked n h : told_reachable n h -> forall o, o ∈ wire_origins n -> asked_for h o.
Proof.
  induction 1 as [n (Hw & _)|n h id s a n' Hr IH Hs Hrd Hst]; intros o.
  { unfold wire_origins, wire_of. rewrite Hw. by intros ?%elem_of_nil. }
  assert (asked_for h o -> asked_for (h ++ made id a) o) as Hmono.
  { intros (id' & c & Hin & Hc). exists id', c. split; [apply elem_of_app; by left|done]. }
  unfold net_step in Hst. rewrite Hs in Hst. simpl in Hst. inv_bind Hst. destruct x as [s' out]. injection Hst as <-.
  rewrite wire_origins_stepped. intros [Hin|Hin]%elem_of_app; [by apply Hmono, IH|].
  assert (match a with Calls _ _ => False | _ => True end \/ exists gid' c, a = Calls gid' c)
    as [Ha|(gid' & c & ->)] by (destruct a; eauto).
  - destruct (thread_sel gid _ _ _ _ Ha E) as [[_ Hq]|(i & g & g' & o' & -> & Hg & _ & Hro & Hq)];
      rewrite (Hq _ _ origin_selects) in Hin; [by apply elem_of_nil in Hin|].
    apply list_elem_of_omap in Hin as (x & Hx & Ho).
    destruct (round_origin _ _ _ _ _ _ Hro Hx (or_introl Ho)) as (m & Hm & Hor).
    unfold reads_wire in Hrd. rewrite Hg in Hrd. apply Hmono, IH. by eapply read_origin; [apply Hrd| |].
  - simpl in E. injection E as E.
    destruct (api_origin gid gid' c s o) as [-> Hc]; [by rewrite E|].
    exists id, c. split; [apply elem_of_app; right; left|done].
Qed.

(** C5. Nothing is made up: a handler that is called with a message, with a
    message to the leader, or with a proposed value or action, is called with
    what some member of the group has asked to have delivered: the same bytes,
    under the same id of the proposal, with the same action and time
    ([ProposeAction] keeps 32 bits of its fields).  This holds through the leader
    that forwards proposals, through changes of leader, joining and leaving,
    as long as the network of the group delivers only what was published; it may
    lose, delay, reorder and repeat. *)
Theorem callbacks_sound n h id s i s' out x o :
  told_reachable n h -> gn_comps n !! id = Some s -> reads_wire n s (Round gid i) ->
  act (Round gid i) s = Ok (s', out) -> GroupOutput gid x ∈ out -> callback_origin x = Some o ->
  exists caller c, (caller, gid, c) ∈ h /\ call_origin c = Some o.
Proof.
  intros Hr Hs Hrd Ha Hx Ho. destruct (round_act _ _ _ _ _ Ha) as (g & g' & o' & Hg & Hro & _ & ->).
  apply list_elem_of_fmap in Hx as (y & [= <-] & Hy).
  destruct (round_origin _ _ _ _ _ _ Hro Hy (or_intror Ho)) as (m & Hm & Hor).
  unfold reads_wire in Hrd. rewrite Hg in Hrd.
  by eapply wire_asked, read_origin; [|apply Hrd| |].
Qed.
End Told.

(** ** A concrete delivery *)

Section Runs.
Variable gid : GroupId.

#[export] Instance reads_wire_dec n s a : Decision (reads_wire gid n s a).
Proof. unfold reads_wire, delivered. repeat (apply _ || case_match). Defined.

Definition all_made (l : list (string * Act)) : list (string * GroupId * Call) :=
  concat (map (fun p => made p.1 p.2) l).

Lemma told_runs l n h :
  told_reachable gid n h -> net_allowed (fun n _ s a => reads_wire gid n s a) l n ->
  exists n', net_run l n = Ok n' /\ told_reachable gid n' (h ++ all_made l).
Proof.
  revert n h. induction l as [|[id a] l IH]; intros n h Hr.
  { intros _. exists n. unfold all_made. simpl. by rewrite app_nil_r. }
  simpl. destruct (gn_comps n !! id) as [s|] eqn:Hs; [|done].
  destruct (net_step id a n) as [n'| |] eqn:E; simpl; [|done..]. intros [Ha Hl].
  assert (told_reachable gid n' (h ++ made id a)) as Hr' by by eapply told_next.
  destruct (IH n' _ Hr' Hl) as (n2 & Hn2 & Hr2). exists n2. split; [done|].
  unfold all_made in *. simpl. by rewrite app_assoc.
Qed.

Lemma told_run l n :
  fresh_net n -> net_allowed (fun n _ s a => reads_wire gid n s a) l n ->
  told_reachable gid (after l n) (all_made l).
Proof.
  intros Hn Hl. destruct (told_runs l n [] (told_start gid n Hn) Hl) as (n' & E & Hr).
  unfold after. by rewrite E.
Qed.
End Runs.

Definition proposal_run : list (string * Act) := gathering ++ a_elected ++ proposing.
Definition forwarded : GroupInput :=
  round_input 13 (Readable 6 (Some
    {| rm_first := Some (about_p "a" (proposeToClients (Some {| ptc_proposeId := "p"; ptc_leaderId := "a" |})));
       rm_rest := ["value"] |})).

(** [c] is asked to vote on what [b] has proposed. *)
Lemma callbacks_sound_witness :
  exists caller c, (caller, demo_group, c) ∈ all_made proposal_run
    /\ call_origin c = Some (OProposal "p" "value").
Proof.
  destruct (act (Round demo_group forwarded) (comp_at (after proposal_run demo_net) "c")) as [[s' out]| |] eqn:E;
    [|by vm_compute in E..].
  refine (callbacks_sound demo_group (after proposal_run demo_net) (all_made proposal_run) "c"
    (comp_at (after proposal_run demo_net) "c") forwarded s' out (OnPropose demo_group "p" "value") _ _ _ _ E _ _).
  - apply (told_run demo_group proposal_run demo_net demo_net_fresh).
    apply (bool_decide_unpack _). by vm_compute.
  - unfold comp_at. destruct (gn_comps (after proposal_run demo_net) !! "c") eqn:Ec; [done|]. by vm_compute in Ec.
  - apply (bool_decide_unpack _). by vm_compute.
  - vm_compute in E. injection E as _ <-. left.
  - reflexivity.
Defined.
