(* ===== verification/Lifecycle.v ===== *)
(** Lifecycle.v - the life of a component: configuration, [Activate] and
    [Terminate] ([src/componentmodel/r_componentbase.cc]).

    The owner, which is the Python actor, activates the component, may talk to
    its thread and terminates it; the thread makes its turns ([Component.v])
    until it has read the command to stop.  Owner and thread share the map of
    ports; their steps interleave freely. *)

From Stdlib Require Import ZArith Lia.
From stdpp Require Import base gmap strings list fin_maps.
From S2P Require Import Prelude.
From S2P Require Import Group.
From S2P Require Import Component.

#[local] Open Scope riaps_scope.

(** The thread of a [zactor]. *)
Inductive ActorThread := NotActive | Active | Finished.

Inductive LifeOut :=
| FromThread (o : CompOut)
| StopsTimer (name : string)
| DestroysActor
| DeletesPort (name : string).

(** [lf_pipe] holds what the owner has sent and the thread has not read;
    [lf_released] tells that the pointers of the map of ports are null. *)
Record Life := mkLife {
  lf_comp : Component;
  lf_thread : ActorThread;
  lf_pipe : list (list string);
  lf_released : bool;
}.

(** [set_config], before the thread is started: the ports to create. *)
Definition set_config (c_conf : ComponentPorts) (s : Component) : Component :=
  mkComponent (component_uuid_ s) c_conf (ports_ s) (portSockets s) (groups_ s) (timer_counter_ s)
    (scheduled_action_ s) (firstrun s) (comp_terminated s).

(** What the owner does, one memory access or call after the other. *)
Inductive LifeOp :=
| LActivate
| LUpdate (port_name host : string) (port : Z)   (** [HandlePortUpdate] *)
| LStopTimer (name : string)
| LTerm                          (** [zactor_destroy] sends the command *)
| LWait                          (** and waits for the end of the thread *)
| LDelete.

Definition Terminate (c : ComponentPorts) : list LifeOp :=
  map (fun t => LStopTimer t.1) (tims c) ++ [LTerm; LWait; LDelete].

(** [ports_[name]->AsTimerPort()->Stop()]: the subscript inserts a null pointer
    for an unknown name, and the conversion is null for another type. *)
Definition stop_timer (name : string) (l : Life) : Res (Life * list LifeOut) :=
  p ← deref (if lf_released l then None else ports_ (lf_comp l) !! name);
  if bool_decide (p_type p = Timer) then Ok (l, [StopsTimer name]) else UB.

Definition send_to_thread (frames : list string) (l : Life) : Life :=
  mkLife (lf_comp l) (lf_thread l) (lf_pipe l ++ [frames]) (lf_released l).

Definition update_frames (port_name host : string) (port : Z) : list string :=
  concat (map (fun o => match o with ToThread frames => frames | _ => [] end)
            (HandlePortUpdate port_name host port)).

(** A step of the owner; a step that must wait leaves the operation undone. *)
Definition owner_step (op : LifeOp) (l : Life) : Res (Life * list LifeOut * bool) :=
  match op with
  | LActivate => Ok (mkLife (lf_comp l) Active [] (lf_released l), [], true)
  | LUpdate name host port => Ok (send_to_thread (update_frames name host port) l, [], true)
  | LStopTimer name => '(l, o) ← stop_timer name l; Ok (l, o, true)
  | LTerm => Ok (send_to_thread ["$TERM"] l, [], true)
  | LWait =>
      match lf_thread l with
      | Active => Ok (l, [], false)
      | _ => Ok (l, [DestroysActor], true)
      end
  | LDelete =>
      Ok (mkLife (lf_comp l) (lf_thread l) (lf_pipe l) true,
          map DeletesPort (map_to_list (ports_ (lf_comp l))).*1, true)
  end.

(** A turn of the thread; a message of the pipe is the next one sent. *)
Definition thread_turn socket inputs (ev : CompEvent) (l : Life) : Res (Life * list LifeOut) :=
  let turn ev pipe :=
    '(s, o) ← CompStep socket inputs ev (lf_comp l);
    Ok (mkLife s (if comp_terminated s then Finished else Active) pipe (lf_released l),
        map FromThread o) in
  match lf_thread l, ev with
  | Active, CPipe _ =>
      match lf_pipe l with
      | [] => Ok (l, [])
      | m :: rest => turn (CPipe (Some m)) rest
      end
  | Active, _ => turn ev (lf_pipe l)
  | _, _ => Ok (l, [])
  end.

Inductive LifeEvent :=
| LOwner
| LTurn (socket : nat -> Z) (inputs : GroupId -> GroupInput) (ev : CompEvent).

(** The state, what the owner has still to do, and the log. *)
Definition LifeState : Type := Life * list LifeOp * list LifeOut.

Definition life_step (e : LifeEvent) (st : LifeState) : Res LifeState :=
  let '(l, ops, log) := st in
  match e with
  | LOwner =>
      match ops with
      | [] => Ok st
      | op :: ops' =>
          '(l, o, finished) ← owner_step op l;
          Ok (l, (if (finished : bool) then ops' else ops), log ++ o)
      end
  | LTurn socket inputs ev => '(l, o) ← thread_turn socket inputs ev l; Ok (l, ops, log ++ o)
  end.

Fixpoint life_run (es : list LifeEvent) (st : LifeState) : Res LifeState :=
  match es with
  | [] => Ok st
  | e :: es' => st' ← life_step e st; life_run es' st'
  end.

(** A configured component whose owner activates it, sends it some updates and
    terminates it. *)
Definition update_op (u : string * string * Z) : LifeOp := LUpdate u.1.1 u.1.2 u.2.

Definition life_start (s : Component) (updates : list (string * string * Z)) : LifeState :=
  (mkLife s NotActive [] false,
   LActivate :: map update_op updates ++ Terminate (component_ports s), []).

(** ** Facts *)

Lemma init_ports_same socket i l s :
  let s' := (init_ports socket i l s).1 in
  component_ports s' = component_ports s /\ firstrun s' = firstrun s /\ comp_terminated s' = comp_terminated s.
Proof.
  revert i s. induction l as [|[[t n] b] l IH]; intros i s; [done|]. cbn [init_ports init_port].
  specialize (IH (S i) (set_ports (<[n := {| p_name := n; p_type := t; p_socket := socket i |}]> (ports_ s))
    (<[socket i := {| p_name := n; p_type := t; p_socket := socket i |}]> (portSockets s)) s)).
  destruct (init_ports socket (S i) l _) as [s2 o2]. exact IH.
Qed.

(** The command that ends the loop. *)
Definition ends_loop (ev : CompEvent) : bool :=
  match ev with
  | CPipe None => true
  | CPipe (Some (c :: _)) => bool_decide (c = "$TERM")
  | _ => false
  end.

Lemma on_event_same ev s s' o b :
  on_event ev s = Ok (s', o, b) ->
  ports_ s' = ports_ s /\ component_ports s' = component_ports s /\ firstrun s' = firstrun s
  /\ comp_terminated s' || b = comp_terminated s || ends_loop ev.
Proof.
  destruct ev as [|[[|c f]|]|body|t| |k r]; simpl; try done.
  - intros [= <- _ <-]. done.
  - repeat case_bool_decide; intros [= <- _ <-]; simpl; split_and!; try done; by destruct (comp_terminated s).
  - intros [= <- _ <-]. done.
  - intros H. apply bind_Ok in H as (u & _ & [= <- _ <-]). done.
  - destruct (scheduled_action_ s); [|done]. intros [= <- _ <-]. done.
  - intros H. apply bind_Ok in H as (u & _ & [= <- _ <-]). done.
Qed.

(** A turn: the first one creates the ports, the others leave them alone. *)
Lemma CompStep_ports socket inputs ev s s' o :
  CompStep socket inputs ev s = Ok (s', o) ->
  component_ports s' = component_ports s /\ firstrun s' = false
  /\ comp_terminated s' = comp_terminated s || ends_loop ev
  /\ ports_ s' = if firstrun s
                 then ports_ (init_ports socket 0 (port_plan (component_ports s))
                                (set_run false (comp_terminated s) s)).1
                 else ports_ s.
Proof.
  intros H. unfold CompStep in H.
  assert (component_ports (run_first socket s).1 = component_ports s /\ firstrun (run_first socket s).1 = false
    /\ comp_terminated (run_first socket s).1 = comp_terminated s
    /\ ports_ (run_first socket s).1 = if firstrun s
         then ports_ (init_ports socket 0 (port_plan (component_ports s)) (set_run false (comp_terminated s) s)).1
         else ports_ s) as (Hc & Hf & Ht & Hp).
  { unfold run_first. destruct (firstrun s) eqn:E; [|done].
    destruct (init_ports_same socket 0 (port_plan (component_ports s)) (set_run false (comp_terminated s) s))
      as (? & ? & ?). done. }
  destruct (run_first socket s) as [s1 o1]. cbn [fst] in *.
  apply bind_Ok in H as ([[s2 o2] b] & H1 & H). apply on_event_same in H1 as (Hp2 & Hc2 & Hf2 & Ht2).
  rewrite Ht in Ht2. destruct b.
  - injection H as <- _. simpl. rewrite orb_true_r in Ht2. split_and!; congruence.
  - apply bind_Ok in H as ([s3 o3] & H3 & H). injection H as <- _.
    unfold all_group_rounds in H3. apply bind_Ok in H3 as ([m os] & _ & H3). injection H3 as <- _.
    rewrite orb_false_r in Ht2. simpl. split_and!; congruence.
Qed.

(** ** The invariant *)

Definition stopped (o : LifeOut) : option string :=
  match o with StopsTimer n => Some n | _ => None end.
Definition stops (log : list LifeOut) : list string := omap stopped log.

Definition before_end (o : LifeOut) : Prop :=
  match o with DestroysActor | DeletesPort _ => False | _ => True end.

Definition port_names (s : Component) : list string := (map_to_list (ports_ s)).*1.

(** The ports of the configuration exist from the first turn on. *)
Definition ports_ready (cfg : ComponentPorts) (s : Component) : Prop :=
  component_ports s = cfg
  /\ if firstrun s then ports_ s = ∅
     else forall t n b, (t, n, b) ∈ port_plan cfg -> exists p, ports_ s !! n = Some p /\ p_type p = t.

(** A message that does not end the loop. *)
Definition harmless (m : list string) : Prop := ends_loop (CPipe (Some m)) = false.

Definition timer_names (cfg : ComponentPorts) : list string := (tims cfg).*1.

Definition ending : list LifeOp := [LTerm; LWait; LDelete].

Inductive phase (cfg : ComponentPorts) : LifeState -> Prop :=
| Ph_start s us :
    ports_ready cfg s -> comp_terminated s = false ->
    phase cfg (mkLife s NotActive [] false,
               LActivate :: map update_op us ++ map LStopTimer (timer_names cfg) ++ ending, [])
| Ph_active s pipe us todo log :
    ports_ready cfg s -> comp_terminated s = false -> Forall harmless pipe -> Forall before_end log ->
    timer_names cfg = stops log ++ todo ->
    phase cfg (mkLife s Active pipe false, map update_op us ++ map LStopTimer todo ++ ending, log)
| Ph_term s pipe log :
    ports_ready cfg s -> comp_terminated s = false -> Forall harmless pipe -> Forall before_end log ->
    timer_names cfg = stops log ->
    phase cfg (mkLife s Active (pipe ++ [["$TERM"]]) false, [LWait; LDelete], log)
| Ph_finished s pipe log :
    Forall before_end log -> timer_names cfg = stops log -> firstrun s = false -> ports_ready cfg s ->
    phase cfg (mkLife s Finished pipe false, [LWait; LDelete], log)
| Ph_destroyed s pipe log :
    Forall before_end log -> timer_names cfg = stops log -> firstrun s = false -> ports_ready cfg s ->
    phase cfg (mkLife s Finished pipe false, [LDelete], log ++ [DestroysActor])
| Ph_deleted s pipe log :
    Forall before_end log -> timer_names cfg = stops log -> firstrun s = false -> ports_ready cfg s ->
    phase cfg (mkLife s Finished pipe true, [], (log ++ [DestroysActor]) ++ map DeletesPort (port_names s)).

(** The timers are stopped only after the thread's first turn, and the turns of
    the thread themselves go well. *)
Definition well (e : LifeEvent) (st : LifeState) : Prop :=
  match e, st with
  | LOwner, (l, LStopTimer _ :: _, _) => firstrun (lf_comp l) = false
  | LOwner, _ => True
  | LTurn socket inputs ev, (l, _, _) => exists r, thread_turn socket inputs ev l = Ok r
  end.

Fixpoint goes_well (es : list LifeEvent) (st : LifeState) : Prop :=
  match es with
  | [] => True
  | e :: es' => well e st /\ match life_step e st with Ok st' => goes_well es' st' | _ => True end
  end.

Lemma Terminate_ops cfg : Terminate cfg = map LStopTimer (timer_names cfg) ++ ending.
Proof. unfold Terminate, timer_names. by rewrite map_map. Qed.

Lemma from_thread_quiet (o : list CompOut) :
  stops (map FromThread o) = [] /\ Forall before_end (map FromThread o).
Proof. induction o as [|x o [I1 I2]]; [done|]. split; [exact I1|by constructor]. Qed.

Lemma stops_app l1 l2 : stops (l1 ++ l2) = stops l1 ++ stops l2.
Proof. apply omap_app. Qed.

(** What a turn keeps, whatever the thread has read. *)
Lemma turn_ready socket inputs ev s s' o cfg :
  NoDup (map (fun pl => pl.1.2) (port_plan cfg)) ->
  CompStep socket inputs ev s = Ok (s', o) -> ports_ready cfg s ->
  ports_ready cfg s' /\ firstrun s' = false /\ comp_terminated s' = comp_terminated s || ends_loop ev.
Proof.
  intros Hnd H [Hc Hp]. apply CompStep_ports in H as (Hc' & Hf & Ht & Hports). split_and!; [|done..].
  split; [congruence|]. rewrite Hf. intros t n b Hin. rewrite Hports. destruct (firstrun s).
  - rewrite Hc. destruct (init_ports_lookup socket 0 (port_plan cfg) (set_run false (comp_terminated s) s) Hnd)
      as [_ H2]. destruct (H2 t n b Hin) as (p & Hl & ? & _). by exists p.
  - by eapply Hp.
Qed.

Section Steps.
Variable cfg : ComponentPorts.
Hypothesis Hnd : NoDup (map (fun pl => pl.1.2) (port_plan cfg)).

Lemma ready_timer s n :
  ports_ready cfg s -> firstrun s = false -> n ∈ timer_names cfg ->
  exists p, ports_ s !! n = Some p /\ p_type p = Timer.
Proof.
  intros [_ Hp] Hf Hn. rewrite Hf in Hp. apply list_elem_of_fmap in Hn as ([m per] & -> & Hin).
  apply (Hp Timer m (negb (per =? 0))). unfold port_plan. rewrite !elem_of_app. right. left.
  by apply (list_elem_of_fmap_2 (fun t => (Timer, t.1, negb (t.2 =? 0)))) in Hin.
Qed.

(** A turn of a running thread. *)
Lemma active_turn socket inputs ev s pipe r :
  ports_ready cfg s -> comp_terminated s = false ->
  thread_turn socket inputs ev (mkLife s Active pipe false) = Ok r ->
  exists s' o pipe', r = (mkLife s' (if comp_terminated s' then Finished else Active) pipe' false, map FromThread o)
    /\ ports_ready cfg s'
    /\ ((s' = s /\ o = [] /\ pipe' = pipe /\ pipe = [])
        \/ firstrun s' = false /\ comp_terminated s' = false /\ pipe' = pipe
        \/ firstrun s' = false /\ exists m, pipe = m :: pipe' /\ comp_terminated s' = ends_loop (CPipe (Some m))).
Proof.
  intros Hr Ht H. unfold thread_turn in H. simpl in H.
  assert (forall ev' pipe0,
    ('(s', o) ← CompStep socket inputs ev' s;
     Ok (mkLife s' (if comp_terminated s' then Finished else Active) pipe0 false, map FromThread o)) = Ok r ->
    exists s' o, r = (mkLife s' (if comp_terminated s' then Finished else Active) pipe0 false, map FromThread o)
      /\ ports_ready cfg s' /\ firstrun s' = false /\ comp_terminated s' = ends_loop ev') as Hturn.
  { intros ev' pipe0 H0. apply bind_Ok in H0 as ([s' o] & H1 & [= <-]).
    destruct (turn_ready _ _ _ _ _ _ cfg Hnd H1 Hr) as (? & ? & E). rewrite Ht in E. by exists s', o. }
  destruct ev as [|msg|body|t| |k rc]; try (
    destruct (Hturn _ _ H) as (s' & o & -> & ? & ? & ?); exists s', o, pipe; split_and!; [done..|auto]).
  destruct pipe as [|m pipe].
  - injection H as <-. exists s, [], []. rewrite Ht. split_and!; [done..|by left].
  - destruct (Hturn _ _ H) as (s' & o & -> & ? & ? & ?). exists s', o, pipe. split_and!; [done..|].
    right. right. split; [done|by exists m].
Qed.

Lemma log_turn (log : list LifeOut) (o : list CompOut) :
  Forall before_end log ->
  Forall before_end (log ++ map FromThread o) /\ stops (log ++ map FromThread o) = stops log.
Proof.
  intros Hl. destruct (from_thread_quiet o) as [E1 E2]. rewrite stops_app, E1, app_nil_r.
  split; [by apply Forall_app|done].
Qed.

(** The thread's turn, in every phase. *)
Lemma phase_turn socket inputs ev l ops log :
  phase cfg (l, ops, log) -> well (LTurn socket inputs ev) (l, ops, log) ->
  exists st', life_step (LTurn socket inputs ev) (l, ops, log) = Ok st' /\ phase cfg st'.
Proof.
  intros Hph [r Hr]. simpl. rewrite Hr.
  inversion Hph as [s us Hrd Ht|s pipe us todo log0 Hrd Ht Hq Hl Hs|s pipe log0 Hrd Ht Hq Hl Hs
    |s pipe log0 Hl Hs Hf Hrd|s pipe log0 Hl Hs Hf Hrd|s pipe log0 Hl Hs Hf Hrd]; subst.
  - injection Hr as <-. eexists. split; [done|]. simpl. by apply Ph_start.
  - destruct (active_turn _ _ _ _ _ _ Hrd Ht Hr) as (s' & o & pipe' & -> & Hrd' & Hcase).
    destruct (log_turn log o Hl) as [Hl' Hst]. eexists. split; [done|].
    assert (comp_terminated s' = false /\ Forall harmless pipe') as [-> Hq'].
    { destruct Hcase as [(-> & -> & -> & ->)|[(_ & ? & ->)|(_ & m & -> & E)]]; [done..|].
      apply Forall_cons in Hq as [Hm Hq]. by rewrite E. }
    apply Ph_active; try done; [|by rewrite Hst].
    destruct Hcase as [(-> & _)|[(_ & ? & _)|(_ & m & -> & E)]]; [done..|].
    apply Forall_cons in Hq as [Hm _]. by rewrite E.
  - destruct (active_turn _ _ _ _ _ _ Hrd Ht Hr) as (s' & o & pipe' & -> & Hrd' & Hcase).
    destruct (log_turn log o Hl) as [Hl' Hst]. eexists. split; [done|].
    destruct Hcase as [(-> & -> & -> & E)|[(Hf & Htm & ->)|(Hf & m & E & Htm)]].
    + by destruct pipe.
    + rewrite Htm. apply Ph_term; try done. by rewrite Hst.
    + destruct pipe as [|m0 pipe]; simpl in E; injection E as <- <-.
      * assert (comp_terminated s' = true) as -> by done. apply Ph_finished; try done. by rewrite Hst.
      * apply Forall_cons in Hq as [Hm Hq]. rewrite Htm, Hm. apply Ph_term; try done; [|by rewrite Hst].
        by rewrite Htm.
  - injection Hr as <-. eexists. split; [done|]. simpl. rewrite app_nil_r. by apply Ph_finished.
  - injection Hr as <-. eexists. split; [done|]. simpl. rewrite app_nil_r. by apply Ph_destroyed.
  - injection Hr as <-. eexists. split; [done|]. simpl. rewrite app_nil_r. by apply Ph_deleted.
Qed.

(** The owner's step, in every phase. *)
Lemma phase_owner l ops log :
  phase cfg (l, ops, log) -> well LOwner (l, ops, log) ->
  exists st', life_step LOwner (l, ops, log) = Ok st' /\ phase cfg st'.
Proof.
  intros Hph Hw.
  inversion Hph as [s us Hrd Ht|s pipe us todo log0 Hrd Ht Hq Hl Hs|s pipe log0 Hrd Ht Hq Hl Hs
    |s pipe log0 Hl Hs Hf Hrd|s pipe log0 Hl Hs Hf Hrd|s pipe log0 Hl Hs Hf Hrd]; subst.
  - eexists. split; [done|]. by apply Ph_active.
  - destruct us as [|[[n h] p] us]; [destruct todo as [|n todo]|]; simpl in *.
    + eexists. split; [done|]. rewrite !app_nil_r in *. by apply Ph_term.
    + destruct (ready_timer s n Hrd Hw) as (p & Hp & Htp);
        [rewrite Hs; apply elem_of_app; right; left|].
      unfold stop_timer. simpl. rewrite Hp. simpl. rewrite bool_decide_eq_true_2 by done. simpl.
      eexists. split; [done|]. apply (Ph_active cfg s pipe [] todo); try done.
      * apply Forall_app. split; [done|by repeat constructor].
      * rewrite stops_app, <- app_assoc. exact Hs.
    + eexists. split; [done|]. rewrite app_nil_r. apply Ph_active; try done.
      apply Forall_app. split; [done|by repeat constructor].
  - eexists. split; [done|]. simpl. rewrite app_nil_r. by apply Ph_term.
  - eexists. split; [done|]. by apply Ph_destroyed.
  - eexists. split; [done|]. by apply Ph_deleted.
  - eexists. split; [done|]. by apply Ph_deleted.
Qed.
End Steps.

Lemma stops_deletes l : stops (map DeletesPort l) = [].
Proof. by induction l. Qed.

Lemma life_run_phase cfg es st :
  NoDup (map (fun pl => pl.1.2) (port_plan cfg)) -> phase cfg st -> goes_well es st ->
  exists st', life_run es st = Ok st' /\ phase cfg st'.
Proof.
  intros Hnd. revert st. induction es as [|e es IH]; intros st Hph Hw; [by exists st|].
  destruct Hw as [Hw Hes]. destruct st as [[l ops] log].
  assert (exists st', life_step e (l, ops, log) = Ok st' /\ phase cfg st') as (st' & E & Hph')
    by (destruct e; [by apply phase_owner|by apply phase_turn]).
  cbn [life_run]. rewrite E in Hes |- *. by apply IH.
Qed.


(** Terminating too early: as long as the thread has not made its first turn,
    no timer exists, and the owner runs through a null pointer. *)
Theorem early_terminate s t :
  ports_ s = ∅ -> head (tims (component_ports s)) = Some t ->
  life_run [LOwner; LOwner] (life_start s []) = UB.
Proof.
  intros Hp Ht. unfold life_start. rewrite Terminate_ops. unfold timer_names.
  destruct (tims (component_ports s)) as [|u l]; [done|]. simpl. unfold stop_timer. simpl. by rewrite Hp.
Qed.

(** ** A concrete life *)

Definition demo_life : list LifeEvent :=
  [LOwner; LTurn Z.of_nat demo_input CIdle; LOwner; LTurn Z.of_nat demo_input (CPipe None);
   LOwner; LOwner; LOwner; LTurn Z.of_nat demo_input (CPipe None); LOwner; LOwner].

Definition demo_updates : list (string * string * Z) := [("in", "10.0.0.1", 5555)].

Definition demo_end : LifeState :=
  match life_run demo_life (life_start demo_component demo_updates) with
  | Ok st => st
  | _ => life_start demo_component demo_updates
  end.

(** The whole log: the ports of the first turn, the connection that the update
    asks for, the timer stopped, the thread ended, the ports deleted. *)
Example demo_log :
  demo_end.1.2 = []
  /\ demo_end.2 =
    [FromThread (Polls 0); FromThread (StartTimer "clock"); FromThread (Polls 2);
     FromThread (ConnectPort "in" "tcp://10.0.0.1:5555"); StopsTimer "clock"; DestroysActor]
    ++ map DeletesPort (port_names (lf_comp demo_end.1.1)).
Proof. by vm_compute. Qed.


Lemma early_terminate_witness : life_run [LOwner; LOwner] (life_start demo_component []) = UB.
Proof. by apply (early_terminate demo_component ("clock", 500)). Defined.
