(* ===== verification/Actor.v ===== *)
(** Actor.v - the actor object of a component
    ([include/componentmodel/r_pyactor.h], [src/componentmodel/r_pyactor.cc]),
    and what it means for the groups of the component. *)

From Stdlib Require Import ZArith Lia.
From stdpp Require Import base gmap strings list fin_maps.
From S2P Require Import Prelude.
From S2P Require Import Ports.
From S2P Require Import Group.
From S2P Require Import Component.
From S2P Require Import Handlers.
From S2P Require Import GroupNet.
From S2P Require Import Lifecycle.

Record PyActor := {
  application_name_ : string;
  actor_name_ : string;
  grouptype_configurations_ : list GroupTypeConf;
}.

(** The constructor; no other code writes the members. *)
Definition new_PyActor (application_name actor_name : string) : PyActor :=
  {| application_name_ := application_name; actor_name_ := actor_name;
     grouptype_configurations_ := [] |}.

Definition application_name (a : PyActor) : string := application_name_ a.
Definition actor_name (a : PyActor) : string := actor_name_ a.

Fixpoint find_type (groupTypeId : string) (l : list GroupTypeConf) : option GroupTypeConf :=
  match l with
  | [] => None
  | c :: l' => if bool_decide (group_type_id c = groupTypeId) then Some c else find_type groupTypeId l'
  end.

Definition GetGroupType (groupTypeId : string) (a : PyActor) : option GroupTypeConf :=
  find_type groupTypeId (grouptype_configurations_ a).

Definition no_ports : ComponentPorts :=
  {| inss := []; tims := []; pubs := []; reps := []; anss := []; reqs := []; qrys := []; subs := [] |}.

(** The constructor of [ComponentBase]: the component and its actor; [junk] is
    the counter of timers, which the constructor does not initialise. *)
Definition new_ComponentBase (app_name act_name uuid : string) (junk : Z) : PyActor * Component :=
  (new_PyActor app_name act_name, mkComponent uuid no_ports ∅ ∅ ∅ junk None true false).

(** [InitGroup] asks the component's actor for the configuration of the type. *)
Definition asks_actor (actor : PyActor) (a : Act) : Prop :=
  match a with
  | Calls gid (CallJoin e) => je_conf e = GetGroupType (gid_type gid) actor
  | _ => True
  end.

(** The turns of the thread and the calls of the user's code, one after the other. *)
Fixpoint comp_run (l : list Act) (s : Component) : Res Component :=
  match l with
  | [] => Ok s
  | a :: l' => '(s', _) ← act a s; comp_run l' s'
  end.

(** ** Facts *)

Lemma find_type_spec id l :
  match find_type id l with
  | Some c => exists l1 l2, l = l1 ++ c :: l2 /\ group_type_id c = id
                /\ Forall (fun d => group_type_id d <> id) l1
  | None => Forall (fun d => group_type_id d <> id) l
  end.
Proof.
  induction l as [|d l IH]; simpl; [done|]. case_bool_decide as Hd; [by exists [], l|].
  destruct (find_type id l) as [c|]; [|by constructor].
  destruct IH as (l1 & l2 & -> & Hc & Hl). exists (d :: l1), l2. split_and!; [done..|by constructor].
Qed.

(** A step of a component whose actor knows no group type adds no group. *)
Lemma act_no_group actor a s s' o :
  grouptype_configurations_ actor = [] -> asks_actor actor a -> act a s = Ok (s', o) ->
  groups_ s = ∅ -> groups_ s' = ∅.
Proof.
  intros Ha Hask Hact Hs. apply map_eq. intros gid. rewrite lookup_empty.
  destruct (act_change gid a s s' o Hact) as [_ Hc]. rewrite <- (lookup_empty (M := gmap GroupId) gid), <- Hs.
  destruct Hc as [-> _|Hn _|e g l -> _ Hg _ _ _|g c Hg _ _ _|i g g' o' _ Hg _ _ _];
    try (rewrite Hs, lookup_empty in *; congruence).
  simpl in Hask, Hact. unfold JoinGroup, InitGroup in Hact.
  rewrite Hask in Hact. unfold GetGroupType in Hact. rewrite Ha in Hact. simpl in Hact.
  rewrite Hs, lookup_empty in Hact. by injection Hact as <- _.
Qed.


(** ** A concrete run: the user's code joins a group, and the thread runs *)

Definition demo_acts : list Act :=
  [Calls demo_group (CallJoin
     {| je_now := 0; je_uninit := ex_conf; je_conf := None; je_socket := ex_socket;
        je_address := ex_address; je_joined := true; je_now1 := 0; je_now2 := 0; je_draw := 200 |});
   Event Z.of_nat CIdle].

