(* ===== verification/PortSetup.v ===== *)
(** PortSetup.v - how the ports of a component come up
    ([src/componentmodel/ports/r_portbase.cc], [r_pubportbase.cc],
    [r_publisherport.cc], [r_responseport.cc], [r_answerport.cc],
    [r_subscriberport.cc], [r_requestport.cc], [r_queryport.cc],
    [r_insideport.cc]).

    A server port is bound to a free TCP port of the node and registered with
    the discovery service; a client port asks the service and connects to what
    it is told.  What ZeroMQ, the key store and the service answer is given by
    the environment; what a port asks of them is its list of effects. *)

From Stdlib Require Import ZArith Lia Ascii.
From stdpp Require Import base gmap strings list.
From S2P Require Import Prelude.
From S2P Require Import Ports.
From S2P Require Import Disco.
From S2P Require Import Utils.
From S2P Require Import Framework.
From S2P Require Import DiscoApi.

#[local] Open Scope riaps_scope.

(** The node, the component and its actor, and what is answered: [pe_bind]
    and [pe_connect] are the results of ZeroMQ, [pe_ask] is the discovery
    service, [pe_curve_key] tells whether the CURVE key can be loaded;
    [pe_uninit] is a port number nobody has set. *)
Record PortEnv := {
  pe_host : Host;
  pe_security : bool;
  pe_curve_key : bool;
  pe_pid : Z;
  pe_app : string;
  pe_actor : string;
  pe_component : string;
  pe_uninit : Z;
  pe_bind : string -> Z;
  pe_connect : string -> Z;
  pe_ask : DiscoReq -> DiscoRep;
}.

Inductive PortOut :=
| CurveServer
| CurveClient
| Binds (endpoint : string)
| Connects (endpoint : string)
| Asks (req : DiscoReq).

(** [PortBase]: a port without a parent has no security; a secured port has
    its certificate if the key can be loaded. *)
Definition has_security (parent : option PortEnv) : bool :=
  match parent with Some e => pe_security e | None => false end.

Definition port_certificate (parent : option PortEnv) : bool :=
  match parent with
  | Some e => has_security parent && pe_curve_key e
  | None => false
  end.

Definition scope_of_config (config : ComponentPortConfig) : Scope :=
  if is_local config then LOCAL else GLOBAL.

(** ** Servers *)

Record ServerPort := { host_ : string; port_ : Z; registered : bool }.

Definition iface_host (h : Host) : Res string := GetIPAddress h (GetConfiguredIface h).

Definition server_host (e : PortEnv) (local : bool) : Res string :=
  if local then Ok "127.0.0.1" else iface_host (pe_host e).

Definition bind_endpoint (host : string) : string := "tcp://" +:+ host +:+ ":!".

(** Securing and binding the socket; [None]: the certificate is missing, and
    the function returns. *)
Definition bind_socket (e : PortEnv) (host : string) : list PortOut * option Z :=
  let bound := Some (pe_bind e (bind_endpoint host)) in
  if has_security (Some e) then
    if port_certificate (Some e) then ([CurveServer; Binds (bind_endpoint host)], bound)
    else ([], None)
  else ([Binds (bind_endpoint host)], bound).

Definition registration (e : PortEnv) (config : ComponentPortConfig) (kind : Kind) (host : string)
    (port : Z) : DiscoReq :=
  Api.RegisterService_req (pe_pid e) (pe_app e) (pe_actor e) (message_type config) host port kind
    (scope_of_config config).

(** The registration of a server port; its failure is only logged. *)
Definition register (e : PortEnv) (config : ComponentPortConfig) (kind : Kind) (host : string)
    (port : Z) (out : list PortOut) : ServerPort * list PortOut :=
  let req := registration e config kind host port in
  ({| host_ := host; port_ := port; registered := Api.RegisterService_rep (pe_ask e req) |},
   out ++ [Asks req]).

(** [PublisherPortBase::InitSocket] *)
Definition InitSocket (e : PortEnv) (config : ComponentPortConfig)
    : Res (string * Z * list PortOut) :=
  host ← server_host e (is_local config);
  let '(out, bound) := bind_socket e host in
  Ok (host, default (pe_uninit e) bound, out).

Definition PublisherPort (e : PortEnv) (config : ComponentPortConfig)
    : Res (ServerPort * list PortOut) :=
  '(host, port, out) ← InitSocket e config;
  Ok (register e config PUB host port out).

Definition ResponsePort (e : PortEnv) (config : ComponentPortConfig)
    : Res (ServerPort * list PortOut) :=
  host ← server_host e (is_local config);
  let '(out, bound) := bind_socket e host in
  match bound with
  | None => Ok ({| host_ := host; port_ := pe_uninit e; registered := false |}, out)
  | Some port => Ok (register e config REP host port out)
  end.

(** The host does not depend on whether the port is local. *)
Definition AnswerPort (e : PortEnv) (config : ComponentPortConfig)
    : Res (ServerPort * list PortOut) :=
  host ← iface_host (pe_host e);
  let '(out, bound) := bind_socket e host in
  match bound with
  | None => Ok ({| host_ := host; port_ := pe_uninit e; registered := false |}, out)
  | Some port => Ok (register e config ANS host port out)
  end.

(** ** Clients *)

Definition client_host (e : PortEnv) (local : bool) : Res string :=
  if local then Ok "127.0.0.1" else GetIPAddress (pe_host e) "".

Definition lookup_request (e : PortEnv) (config : ComponentPortConfig) (kind : Kind) (host : string)
    : DiscoReq :=
  Api.SubscribeToService_req (pe_app e) (pe_component e) (pe_actor e) host kind
    (scope_of_config config) (port_name config) (message_type config).

Definition result_endpoints (e : PortEnv) (config : ComponentPortConfig) (req : DiscoReq)
    : list string :=
  map (fun r => tcp_endpoint (Api.lr_host_name r) (Api.lr_port r))
    (Api.SubscribeToService_rep (pe_component e) (port_name config) (pe_ask e req)).

(** [ConnectToPublihser], with what it asks of ZeroMQ. *)
Definition connect_publisher (e : PortEnv) (endpoint : string) : list PortOut :=
  (if has_security (Some e) && port_certificate (Some e) then [CurveClient] else [])
  ++ match (ConnectToPublihser (has_security (Some e)) (port_certificate (Some e))
              (pe_connect e endpoint) endpoint).1 with
     | Some endpoint => [Connects endpoint]
     | None => []
     end.

Definition SubscriberPort_Init (e : PortEnv) (config : ComponentPortConfig) : Res (list PortOut) :=
  host ← client_host e (is_local config);
  let req := lookup_request e config SUB host in
  Ok (Asks req :: concat (map (connect_publisher e) (result_endpoints e config req))).

(** The connections in order, and the member [is_connected_] after them. *)
Fixpoint connect_responses (e : PortEnv) (connected : bool) (endpoints : list string)
    : list PortOut * bool :=
  match endpoints with
  | [] => ([], connected)
  | endpoint :: endpoints' =>
      let '(connected, _) := ConnectToResponse (pe_connect e endpoint) connected in
      let '(out, connected) := connect_responses e connected endpoints' in
      (Connects endpoint :: out, connected)
  end.

Definition RequestPort_Init (e : PortEnv) (config : ComponentPortConfig)
    : Res (list PortOut * bool) :=
  host ← client_host e (is_local config);
  if has_security (Some e) && negb (port_certificate (Some e)) then Ok ([], false)
  else
    let req := lookup_request e config REQ host in
    let '(out, connected) := connect_responses e false (result_endpoints e config req) in
    Ok ((if has_security (Some e) then [CurveClient] else []) ++ Asks req :: out, connected).

(** A query port asks and connects without looking at the certificate. *)
Definition QueryPort_Init (e : PortEnv) (config : ComponentPortConfig)
    : Res (list PortOut * bool) :=
  host ← client_host e (is_local config);
  let req := lookup_request e config QRY host in
  let '(out, connected) := connect_responses e false (result_endpoints e config req) in
  Ok (Asks req :: out, connected).

(** ** Inside ports *)

Inductive InsidePortMode := CONNECT | BIND.

Definition inside_endpoint (name : string) : string := "inproc://inside_" +:+ name.

Definition InsidePort (config : ComponentPortConfig) (mode : InsidePortMode) : list PortOut :=
  match mode with
  | CONNECT => [Connects (inside_endpoint (port_name config))]
  | BIND => [Binds (inside_endpoint (port_name config))]
  end.

(** ** Theorems *)

(** The address under which a server port can be reached. *)
Definition server_endpoint (s : ServerPort) : string := tcp_endpoint (host_ s) (port_ s).

Definition secured (e : PortEnv) : Prop := pe_security e = true -> pe_curve_key e = true.

#[export] Instance secured_dec e : Decision (secured e).
Proof. unfold secured. apply _. Defined.

Lemma bind_socket_run e host :
  bind_socket e host =
    if decide (secured e) then
      ((if pe_security e then [CurveServer] else []) ++ [Binds (bind_endpoint host)],
       Some (pe_bind e (bind_endpoint host)))
    else ([], None).
Proof.
  unfold bind_socket, port_certificate, has_security. case_decide as H; unfold secured in H;
    destruct (pe_security e), (pe_curve_key e); simpl; naive_solver.
Qed.

(** The request among the effects of a port that registers. *)
Definition asked (out : list PortOut) : list DiscoReq :=
  omap (fun o => match o with Asks req => Some req | _ => None end) out.

(** What a server port may register: its registration, if it has one, names
    the host and the port it was bound to. *)
Definition advertises (e : PortEnv) (config : ComponentPortConfig) (kind : Kind)
    (s : ServerPort) (out : list PortOut) : Prop :=
  asked out = [registration e config kind (host_ s) (port_ s)]
  /\ registered s = Api.RegisterService_rep (pe_ask e (registration e config kind (host_ s) (port_ s))).


(** A server port that cannot be bound is offered all the same: the
    registration carries the port 65535. *)
Theorem failed_bind_is_offered e config s out :
  PublisherPort e config = Ok (s, out) -> secured e -> pe_bind e (bind_endpoint (host_ s)) = -1 ->
  exists m, asked out = [serviceReg m] /\ s_port (sr_socket m) = 65535.
Proof.
  intros H Hs Hb. unfold PublisherPort, InitSocket in H. apply bind_Ok in H as ([[host port] o] & H & Hr).
  apply bind_Ok in H as (h & _ & H). rewrite bind_socket_run, decide_True in H by done.
  apply Ok_pair in Hr as [<- <-]. injection H as <- <- <-. cbn [register fst snd host_] in *.
  eexists. split; [unfold asked; simpl; by destruct (pe_security e)|]. simpl. by rewrite Hb.
Qed.

Lemma connect_responses_run e connected endpoints :
  connect_responses e connected endpoints =
    (map Connects endpoints, connected || existsb (fun ep => pe_connect e ep =? 0) endpoints).
Proof.
  revert connected. induction endpoints as [|ep l IH]; intros connected; simpl;
    [by rewrite orb_false_r|].
  unfold ConnectToResponse. destruct (pe_connect e ep =? 0); simpl; rewrite IH; [|done].
  by rewrite orb_true_r.
Qed.


(** ** Witnesses *)

(** A secured node without a key, on which nothing can be bound. *)
Definition demo_port_env (key : bool) (bound : Z) : PortEnv :=
  {| pe_host := demo_host; pe_security := true; pe_curve_key := key; pe_pid := 9; pe_app := "App";
     pe_actor := "Prov"; pe_component := "comp"; pe_uninit := 12345; pe_bind := fun _ => bound;
     pe_connect := fun _ => 0;
     pe_ask := fun req => match req with
                          | serviceLookup _ => serviceLookupRep OK [{| s_host := "10.0.0.9"; s_port := 77 |}]
                          | _ => serviceRegRep OK
                          end |}.

Definition demo_config : ComponentPortConfig :=
  {| port_name := "port1"; message_type := "Temp"; is_local := false; is_timed := false |}.


Lemma failed_bind_is_offered_witness :
  exists s out m, PublisherPort (demo_port_env true (-1)) demo_config = Ok (s, out)
    /\ asked out = [serviceReg m] /\ s_port (sr_socket m) = 65535.
Proof.
  eexists _, _. destruct (failed_bind_is_offered (demo_port_env true (-1)) demo_config
    {| host_ := "10.0.0.1"; port_ := -1; registered := true |}
    [CurveServer; Binds "tcp://10.0.0.1:!";
     Asks (registration (demo_port_env true (-1)) demo_config PUB "10.0.0.1" (-1))])
    as (m & H1 & H2); [by vm_compute..|].
  exists m. split; [by vm_compute|by split].
Defined.

