(* ===== verification/EndToEnd.v ===== *)
(** EndToEnd.v - from a server port to the connection of a client port.

    A server port of one component binds and registers ([PortSetup.v]), the
    discovery service of its node announces it in the DHT, the service of the
    client's node finds it and tells the client's actor ([DhtNet.v]), and the
    thread of the client's component connects the port ([Component.v]).  The
    actor, which is not part of the repository, hands the update to the
    component with [HandlePortUpdate]. *)

From Stdlib Require Import ZArith Lia Ascii.
From stdpp Require Import base gmap strings list fin_maps.
From S2P Require Import Prelude.
From S2P Require Import Ports.
From S2P Require Import Group.
From S2P Require Import Disco.
From S2P Require Import MsgHandler.
From S2P Require Import DiscoFacts.
From S2P Require Import DhtNet.
From S2P Require Import Framework.
From S2P Require Import DiscoApi.
From S2P Require Import Component.
From S2P Require Import PortSetup.

#[local] Open Scope riaps_scope.

(** The server port of a kind, and what the initialisation of the client port
    of a kind does. *)
Definition new_server (kind : Kind) (e : PortEnv) (config : ComponentPortConfig)
    : Res (ServerPort * list PortOut) :=
  match kind with
  | PUB => PublisherPort e config
  | REP => ResponsePort e config
  | ANS => AnswerPort e config
  | _ => UB
  end.

Definition client_init (kind : Kind) (e : PortEnv) (config : ComponentPortConfig)
    : Res (list PortOut) :=
  match kind with
  | SUB => SubscriberPort_Init e config
  | REQ => '(out, _) ← RequestPort_Init e config; Ok out
  | QRY => '(out, _) ← QueryPort_Init e config; Ok out
  | _ => UB
  end.

Lemma new_server_asks kind e config s out req :
  new_server kind e config = Ok (s, out) -> asked out = [req] ->
  req = registration e config kind (host_ s) (port_ s).
Proof.
  assert (forall k host port o,
    (o = [] \/ o = [Binds (bind_endpoint host)] \/ o = [CurveServer; Binds (bind_endpoint host)]) ->
    asked (register e config k host port o).2 = [req] ->
    req = registration e config k (host_ (register e config k host port o).1)
            (port_ (register e config k host port o).1)) as Hreg
    by (intros k host port o [->|[->| ->]] [= <-]; done).
  assert (forall host, (bind_socket e host).1 = [] \/ (bind_socket e host).1 = [Binds (bind_endpoint host)]
    \/ (bind_socket e host).1 = [CurveServer; Binds (bind_endpoint host)]) as Hb.
  { intros host. rewrite bind_socket_run. destruct (decide _); [|by left]. destruct (pe_security e); simpl; auto. }
  assert (forall k host, 
    match (bind_socket e host).2 with
    | None => Ok ({| host_ := host; port_ := pe_uninit e; registered := false |}, (bind_socket e host).1)
    | Some port => Ok (register e config k host port (bind_socket e host).1)
    end = Ok (s, out) -> asked out = [req] -> req = registration e config k (host_ s) (port_ s)) as Hs.
  { intros k host. destruct ((bind_socket e host).2) eqn:E.
    - intros [<- <-]%Ok_pair. by apply Hreg.
    - intros [= <- <-]. by destruct (Hb host) as [->|[->| ->]]. }
  destruct kind; simpl; try done.
  - unfold PublisherPort, InitSocket. intros H. apply bind_Ok in H as ([[host port] o] & H & Hr).
    apply bind_Ok in H as (h & _ & H). specialize (Hb h). destruct (bind_socket e h) as [o' b].
    injection H as <- <- <-. apply Ok_pair in Hr as [<- <-]. by apply Hreg.
  - unfold ResponsePort. intros H. apply bind_Ok in H as (h & _ & H). specialize (Hs REP h).
    destruct (bind_socket e h) as [o b]. by apply Hs.
  - unfold AnswerPort. intros H. apply bind_Ok in H as (h & _ & H). specialize (Hs ANS h).
    destruct (bind_socket e h) as [o b]. by apply Hs.
Qed.

Lemma asked_app a b : asked (a ++ b) = asked a ++ asked b.
Proof. apply omap_app. Qed.

Lemma asked_connects l : asked (map Connects l) = [].
Proof. by induction l. Qed.

Lemma asked_publishers e l : asked (concat (map (connect_publisher e) l)) = [].
Proof.
  induction l as [|ep l IH]; [done|]. simpl. rewrite asked_app, IH, app_nil_r.
  unfold connect_publisher. rewrite asked_app. destruct (_ && _); by destruct (ConnectToPublihser _ _ _ _).1.
Qed.

Lemma client_init_asks kind e config out req :
  client_init kind e config = Ok out -> asked out = [req] ->
  exists host, req = lookup_request e config kind host.
Proof.
  destruct kind; simpl; try done.
  - unfold SubscriberPort_Init. intros H. apply bind_Ok in H as (host & _ & H). injection H as <-.
    simpl. fold (asked (concat (map (connect_publisher e)
      (result_endpoints e config (lookup_request e config SUB host))))).
    rewrite asked_publishers. intros [= <-]. by exists host.
  - unfold RequestPort_Init. intros H.
    destruct (client_host e (is_local config)) as [host| |]; simpl in H; try done.
    destruct (_ && _); [by injection H as <-|]. rewrite connect_responses_run in H. injection H as <-.
    rewrite asked_app. destruct (pe_security e); simpl; 
      fold (asked (map Connects (result_endpoints e config (lookup_request e config REQ host))));
      rewrite asked_connects; intros [= <-]; by exists host.
  - unfold QueryPort_Init. intros H.
    destruct (client_host e (is_local config)) as [host| |]; simpl in H; try done.
    rewrite connect_responses_run in H. injection H as <-. simpl.
    fold (asked (map Connects (result_endpoints e config (lookup_request e config QRY host)))).
    rewrite asked_connects. intros [= <-]. by exists host.
Qed.

Section EndToEnd.
Context {V : Type} `{EqDecision V}.
Variable seal : string -> V.
Variable unseal : V -> option string.
Variable InfoHash_get InfoHash : string -> string.
Variable pack : GroupDetails -> string.
Variable unpack : string -> option GroupDetails.
Variable mac host : string -> string.

Abbreviation step := (net_step seal unseal InfoHash_get InfoHash pack unpack mac host).
Abbreviation run := (net_run seal unseal InfoHash_get InfoHash pack unpack mac host).
Abbreviation reachable := (net_reachable seal unseal InfoHash_get InfoHash pack unpack mac host).

(** What a request of a client or a server leaves as it was. *)
Definition keeps (s s' : Handler) : Prop :=
  clients_ s' = clients_ s
  /\ forall ep, zombie_services_ s !! ep = None -> zombie_services_ s' !! ep = None.

(** A round in which a request is served without an exception. *)
Lemma serve_round c id s env peer req :
  n_nodes c !! id = Some s ->
  exists s1 o1, keeps s s1 /\ mac_address_ s1 = mac_address_ s /\ host_address_ s1 = host_address_ s
    /\ step (Round id env (OnRiaps (Some (peer, req)))) c =
       match HandleRiapsMessage seal InfoHash_get InfoHash pack (re_running env) (re_socket env)
               (re_port env) (re_clk env 2%nat) (Some (peer, req)) s1 with
       | Ok (s', out) => Some (absorb id s' (o1 ++ out) [req] c)
       | _ => Some (stop id c)
       end.
Proof.
  intros Hs. cbn -[RunStep HandleRiapsMessage]. rewrite Hs, decide_True by done. unfold RunStep. cbv zeta.
  set (b1 := service_check_period_ <? _). set (b2 := zombie_check_period_ <? _).
  pose proof (fun ep => maintenance_keeps seal InfoHash_get b1 b2 (re_clk env 0%nat) (re_clk env 1%nat) s ep)
    as Hk. cbv zeta in Hk.
  pose proof (maintenance_facts seal InfoHash_get InfoHash b1 b2 (re_clk env 0%nat) (re_clk env 1%nat) s)
    as Hf. cbv zeta in Hf.
  set (r1 := (when b1 _ ;; when b2 _) s) in *. exists r1.1, r1.2.
  split_and!; [split; [by apply (Hk "")|by apply Hk]|by destruct Hf|by destruct Hf|].
  by destruct (HandleRiapsMessage _ _ _ _ _ _ _ _ _ _) as [[s' out]| |].
Qed.

Lemma serve_reg c id s env peer m :
  n_nodes c !! id = Some s -> p_kind (sr_path m) <> NONE ->
  exists c' s' key value,
    step (Round id env (OnRiaps (Some (peer, serviceReg m)))) c = Some c'
    /\ n_nodes c' = <[id := s']> (n_nodes c) /\ keeps s s'
    /\ BuildInsertKeyValuePair (mac_address_ s) (p_appName (sr_path m)) (p_msgType (sr_path m))
         (p_kind (sr_path m)) (p_scope (sr_path m)) (s_host (sr_socket m)) (s_port (sr_socket m))
       = Ok (key, value)
    /\ (InfoHash_get key, seal value) ∈ n_dht c'.
Proof.
  intros Hs Hk. destruct (serve_round c id s env peer (serviceReg m) Hs) as (s1 & o1 & [K1 K2] & Hm & _ & ->).
  cbn [HandleRiapsMessage]. rewrite HandleServiceReg_run. cbn [mac_address_ set_identity]. rewrite Hm.
  destruct (BuildInsertKeyValuePair _ _ _ _ _ _ _) as [[key value]| |] eqn:E.
  - eexists _, _, key, value. split; [reflexivity|]. split_and!; [done|by split|done|].
    simpl. apply elem_of_app. left. apply list_elem_of_omap.
    exists (Put (InfoHash_get key) (seal value)). split; [|done]. apply elem_of_app. right.
    apply elem_of_app. right. left.
  - exfalso. revert E. unfold BuildInsertKeyValuePair. by destruct (p_kind (sr_path m)).
  - exfalso. revert E. unfold BuildInsertKeyValuePair. by destruct (p_kind (sr_path m)).
Qed.

Lemma serve_lookup c id s env peer m p :
  n_nodes c !! id = Some s -> partner (p_kind (sl_path m)) = Some p ->
  exists c' s' key cl,
    step (Round id env (OnRiaps (Some (peer, serviceLookup m)))) c = Some c'
    /\ n_nodes c' !! id = Some s' /\ keeps s s'
    /\ lookup_key (mac_address_ s) m = Ok (key, cl)
    /\ subscribed s' key (lookup_client (host_address_ s) m)
    /\ (forall x, x ∈ n_dht c -> x ∈ n_dht c').
Proof.
  intros Hs Hk.
  destruct (serve_round c id s env peer (serviceLookup m) Hs) as (s1 & o1 & [K1 K2] & Hm & Hh & ->).
  cbn [HandleRiapsMessage]. rewrite HandleServiceLookup_run. cbn [mac_address_ host_address_ set_identity].
  rewrite Hm, Hh. destruct (lookup_key _ _) as [[key cl]| |] eqn:E.
  - cbn zeta. cbn [mbind Res_bind]. eexists _, _, key, cl. split; [reflexivity|].
    split; [apply lookup_insert_eq|]. split_and!; [|done| |].
    + split; [by destruct (bool_decide _)|]. intros ep. by destruct (bool_decide _); apply K2.
    + eexists. split; [apply lookup_insert_eq|]. apply elem_of_app. right. left.
    + intros x Hx. simpl. apply elem_of_app. by right.
  - exfalso. revert E. unfold lookup_key, BuildLookupKey. by destruct (p_kind (sl_path m)).
  - exfalso. revert E. unfold lookup_key, BuildLookupKey. by destruct (p_kind (sl_path m)).
Qed.

(** The search of node [sub] shows a value, and the node reads the message. *)
Definition shown_and_read (sub : string) (env : RoundEnv) (key : string) (v : V) (srv : ServerPort)
    : list (NetEvent (V := V)) :=
  [Fires sub (WService (InfoHash_get key) key) [v];
   Round sub env (OnDht (Some (providerUpdate
     {| plu_providerpath := key; plu_newvalues := [endpoint_value (host_ srv) (port_ srv)] |})))].

(** Handed to a component with the client port, the update makes its thread
    connect this port to the server's address. *)
Definition connects (u : PortUpd) (config : ComponentPortConfig) (srv : ServerPort) : Prop :=
  forall comp port, ports_ comp !! port_name config = Some port ->
    p_type port = Subscriber \/ p_type port = Request \/ p_type port = Query ->
    exists frames,
      HandlePortUpdate (c_portName (pu_client u)) (s_host (pu_socket u)) (s_port (pu_socket u))
        = [ToThread (CMD_UPDATE_PORT :: frames)]
      /\ on_update_port frames comp = [ConnectPort (port_name config) (server_endpoint srv)].

Lemma update_connects cl scope config srv :
  c_portName cl = port_name config -> in_u 16 (port_ srv) ->
  connects {| pu_client := cl; pu_scope := scope;
              pu_socket := {| s_host := host_ srv; s_port := i32 (port_ srv) |} |} config srv.
Proof.
  intros Hn Hport comp port Hpt Hty. eexists. split; [reflexivity|]. cbn.
  unfold GetPortByName. rewrite Hn, Hpt. rewrite (swrap_id 32 (port_ srv)) by (unfold in_s, in_u in *; lia).
  by destruct Hty as [->|[->| ->]].
Qed.

Lemma registered_value m app type k sc h port key value :
  in_u 16 port ->
  BuildInsertKeyValuePair m app type k sc h (i32 (u16 port)) = Ok (key, value) ->
  value = endpoint_value h port.
Proof.
  intros Hp. unfold BuildInsertKeyValuePair. destruct (kindMap _); simpl; [|done]. intros [= _ <-].
  rewrite (uwrap_id 16 port) by done. rewrite (swrap_id 32) by (unfold in_s, in_u in *; lia).
  by rewrite (uwrap_id 16 port) by done.
Qed.

Lemma other_node (c c1 : Net (V := V)) prov sub sp s1 ss :
  n_nodes c !! prov = Some sp -> n_nodes c !! sub = Some ss ->
  n_nodes c1 = <[prov := s1]> (n_nodes c) -> keeps sp s1 ->
  exists ss1, n_nodes c1 !! sub = Some ss1 /\ keeps ss ss1.
Proof.
  intros Hprov Hsub Hn K. rewrite Hn. destruct (decide (prov = sub)) as [->|Hne].
  - rewrite lookup_insert_eq. exists s1. split; [done|]. by simplify_eq.
  - rewrite lookup_insert_ne by done. exists ss. split; [done|]. split; [done|auto].
Qed.

(** The lookup of a client reads the key that the server's registration has
    written. *)
Lemma same_key k p e1 e2 config1 config2 mac1 mac2 h1 port h2 key value key' cl :
  partner k = Some p -> pe_app e1 = pe_app e2 -> message_type config1 = message_type config2 ->
  is_local config1 = is_local config2 -> (is_local config1 = true -> mac1 = mac2) ->
  BuildInsertKeyValuePair mac1 (pe_app e1) (message_type config1) p (scope_of_config config1) h1 port
    = Ok (key, value) ->
  BuildLookupKey mac2 (pe_app e2) (message_type config2) k (scope_of_config config2) h2 (pe_actor e2)
    (pe_component e2) (port_name config2) = Ok (key', cl) ->
  key' = key.
Proof.
  intros Hp Happ Hmt Hloc Hmac Hkey Hkey'.
  destruct (insert_lookup_key mac1 mac2 (pe_app e1) (message_type config1) k p (scope_of_config config1)
    h1 port h2 (pe_actor e2) (pe_component e2) (port_name config2) key value Hp) as [cl' Hcl']; [|done|].
  - intros Hs. apply Hmac. unfold scope_of_config in Hs. by destruct (is_local config1).
  - unfold scope_of_config in *. rewrite <- Happ, <- Hmt, <- Hloc in Hkey'. congruence.
Qed.

End EndToEnd.

(** ** A publisher on node [b], a subscriber on node [a] *)

Definition demo_base : Net := demo_net
  [Starts "a" 1 0 []; Starts "b" 1 0 [];
   demo_request "a" (actorReg {| ar_appName := "App"; ar_actorName := "Prov"; ar_pid := 3 |})].

Definition demo_server : ServerPort := {| host_ := "10.0.0.1"; port_ := 5555; registered := true |}.

