(* ===== verification/Device.v ===== *)
(** Device.v - device threads ([include/componentmodel/r_devicethread.h],
    [src/componentmodel/r_devicethread.cc]).

    A device thread runs the user's [Run], which connects the inside ports and
    polls them until it sees the termination flag; its owner starts it, may
    terminate it and destroys it.  Owner and thread interleave freely. *)

From Stdlib Require Import ZArith Lia.
From stdpp Require Import base gmap strings list sets.
From S2P Require Import Prelude.
From S2P Require Import Ports.
From S2P Require Import PortSetup.

#[local] Open Scope riaps_scope.

(** [std::thread]: before [StartThread], running, at its end, joined. *)
Inductive ThreadState := NotStarted | Running | Ended | Joined.

Definition is_running (t : ThreadState) : bool := match t with Running => true | _ => false end.

(** A socket is a number; [dev_alive] are those that have not been destroyed,
    [dev_log] is what was asked of ZeroMQ.  The ports of the map own their
    sockets; a released port is a null pointer. *)
Record DeviceThread := mkDevice {
  isTerminated : bool;
  insidePorts : gmap string (option nat);
  dev_poller : option (list nat);
  dev_thread : ThreadState;
  dev_alive : gset nat;
  dev_next : nat;
  dev_log : list PortOut;
}.

Definition new_DeviceThread : DeviceThread := mkDevice false ∅ None NotStarted ∅ 0 [].

Definition StartThread (d : DeviceThread) : DeviceThread :=
  mkDevice (isTerminated d) (insidePorts d) (dev_poller d) Running (dev_alive d) (dev_next d) (dev_log d).

Definition set_terminated_flag (d : DeviceThread) : DeviceThread :=
  mkDevice true (insidePorts d) (dev_poller d) (dev_thread d) (dev_alive d) (dev_next d) (dev_log d).

Definition set_thread (t : ThreadState) (d : DeviceThread) : DeviceThread :=
  mkDevice (isTerminated d) (insidePorts d) (dev_poller d) t (dev_alive d) (dev_next d) (dev_log d).

Definition AddSocketToPoller (socket : nat) (d : DeviceThread) : DeviceThread :=
  mkDevice (isTerminated d) (insidePorts d)
    (Some (match dev_poller d with Some l => l ++ [socket] | None => [socket] end))
    (dev_thread d) (dev_alive d) (dev_next d) (dev_log d).

(** One port of the configuration: a port of the same name that was there is
    destroyed with its socket. *)
Definition init_inside (config : ComponentPortConfig) (d : DeviceThread) : DeviceThread :=
  let socket := dev_next d in
  let old := match insidePorts d !! port_name config with Some (Some s) => {[ s ]} | _ => ∅ end in
  AddSocketToPoller socket
    (mkDevice (isTerminated d) (<[port_name config := Some socket]> (insidePorts d)) (dev_poller d)
       (dev_thread d) ({[socket]} ∪ (dev_alive d ∖ old)) (S socket)
       (dev_log d ++ InsidePort config CONNECT)).

Definition InitInsides (inss : list ComponentPortConfig) (d : DeviceThread) : DeviceThread :=
  fold_left (fun d config => init_inside config d) inss d.

(** Polling needs a poller and sockets that exist; the result is one of them. *)
Definition PollDeviceThreadPorts (d : DeviceThread) : Res (list nat) :=
  match dev_poller d with
  | None => UB
  | Some l => if bool_decide (Forall (fun s => s ∈ dev_alive d) l) then Ok l else UB
  end.

Definition GetInsidePortByName (portName : string) (d : DeviceThread) : option nat :=
  match insidePorts d !! portName with Some p => p | None => None end.

(** [SendMessageOnPort] converts the [PortError] of the port to [bool]. *)
Definition Device_SendMessageOnPort (zerr : option Z) (portName : string) (d : DeviceThread) : Res bool :=
  match GetInsidePortByName portName d with
  | None => Ok false
  | Some s => if bool_decide (s ∈ dev_alive d) then Ok (to_bool (send_result zerr)) else UB
  end.

(** The first part of the destructor. *)
Definition owned (p : string * option nat) : list nat := match p.2 with Some s => [s] | None => [] end.

Definition release_ports (d : DeviceThread) : DeviceThread :=
  mkDevice (isTerminated d) ((fun _ => None) <$> insidePorts d) (dev_poller d) (dev_thread d)
    (dev_alive d ∖ list_to_set (concat (map owned (map_to_list (insidePorts d)))))
    (dev_next d) (dev_log d).

(** ** The owner and the thread *)

Inductive OwnerOp :=
| OStart
| OTerminate  (** the flag, in [Terminate] *)
| OJoin       (** the join, in [Terminate], if the thread is joinable *)
| ORelease.   (** the first part of the destructor *)

Definition destructor : list OwnerOp := [ORelease; OTerminate; OJoin].
Definition Terminate : list OwnerOp := [OTerminate; OJoin].

(** The thread: [TInit] at its start, polls while it has not seen the flag. *)
Inductive DevEvent := Owner | TInit | TPoll | TEnd.

(** The state: the device, what the owner has still to do, and whether the
    thread has initialised its ports. *)
Definition DevState : Type := DeviceThread * list OwnerOp * bool.

(** A step that is not possible leaves the state as it is. *)
Definition dev_step (inss : list ComponentPortConfig) (e : DevEvent) (st : DevState) : Res DevState :=
  let '(d, ops, inited) := st in
  match e with
  | Owner =>
      match ops with
      | [] => Ok st
      | OStart :: ops => Ok (StartThread d, ops, inited)
      | OTerminate :: ops => Ok (set_terminated_flag d, ops, inited)
      | ORelease :: ops => Ok (release_ports d, ops, inited)
      | OJoin :: ops' =>
          match dev_thread d with
          | Running => Ok st
          | Ended => Ok (set_thread Joined d, ops', inited)
          | _ => Ok (d, ops', inited)
          end
      end
  | TInit => if is_running (dev_thread d) && negb inited then Ok (InitInsides inss d, ops, true)
             else Ok st
  | TPoll => if is_running (dev_thread d) && inited then
               _ ← PollDeviceThreadPorts d; Ok st
             else Ok st
  | TEnd => if is_running (dev_thread d) && inited && isTerminated d
            then Ok (set_thread Ended d, ops, inited) else Ok st
  end.

Fixpoint dev_run (inss : list ComponentPortConfig) (es : list DevEvent) (st : DevState) : Res DevState :=
  match es with
  | [] => Ok st
  | e :: es' => st' ← dev_step inss e st; dev_run inss es' st'
  end.

Definition dev_start (ops : list OwnerOp) : DevState := (new_DeviceThread, OStart :: ops, false).

(** ** Theorems *)

(** Sockets are numbered as they are made, and the ports of the map are alive. *)
Record dev_wf (d : DeviceThread) : Prop := {
  dw_alive s : s ∈ dev_alive d -> (s < dev_next d)%nat;
  dw_ports n s : insidePorts d !! n = Some (Some s) -> s ∈ dev_alive d;
  dw_inj n1 n2 s : insidePorts d !! n1 = Some (Some s) -> insidePorts d !! n2 = Some (Some s) -> n1 = n2;
}.

Definition poller_list (d : DeviceThread) : list nat := default [] (dev_poller d).

Lemma init_inside_fresh config d :
  dev_wf d -> insidePorts d !! port_name config = None ->
  dev_wf (init_inside config d)
  /\ poller_list (init_inside config d) = poller_list d ++ [dev_next d]
  /\ dev_alive (init_inside config d) = {[dev_next d]} ∪ dev_alive d.
Proof.
  intros [W1 W2 W3] Hn. unfold init_inside. rewrite Hn. simpl. split_and!.
  - split; simpl.
    + intros s. rewrite elem_of_union, elem_of_singleton, elem_of_difference. intros [->|[?%W1 _]]; lia.
    + intros n s. rewrite lookup_insert_Some. intros [[_ [= <-]]|[_ ?%W2]]; set_solver.
    + intros n1 n2 s. rewrite !lookup_insert_Some.
      intros [[<- [= <-]]|[_ H1]] [[<- H2]|[_ H2]]; try done.
      * apply W2, W1 in H2. lia.
      * injection H2 as <-. apply W2, W1 in H1. lia.
      * eauto.
  - unfold poller_list. simpl. by destruct (dev_poller d).
  - set_solver.
Qed.

Lemma InitInsides_run inss d :
  dev_wf d -> NoDup (map port_name inss) ->
  (forall n, n ∈ map port_name inss -> insidePorts d !! n = None) ->
  let d' := InitInsides inss d in
  dev_wf d' /\ poller_list d' = poller_list d ++ List.seq (dev_next d) (length inss)
  /\ dev_alive d' = dev_alive d ∪ list_to_set (List.seq (dev_next d) (length inss))
  /\ (forall i config, inss !! i = Some config ->
        insidePorts d' !! port_name config = Some (Some (dev_next d + i)%nat))
  /\ (forall n, n ∉ map port_name inss -> insidePorts d' !! n = insidePorts d !! n)
  /\ (inss <> [] -> dev_poller d' = Some (poller_list d'))
  /\ isTerminated d' = isTerminated d /\ dev_thread d' = dev_thread d.
Proof.
  revert d. induction inss as [|config inss IH]; intros d W Hnd Hfree d'; subst d'.
  { simpl. rewrite app_nil_r. split_and!; try done; set_solver. }
  apply NoDup_cons in Hnd as [Hn Hnd].
  destruct (init_inside_fresh config d W) as (W' & Hp & Ha); [apply Hfree; left|].
  assert (forall n, n <> port_name config -> insidePorts (init_inside config d) !! n = insidePorts d !! n) as Ho
    by (intros n Hne; simpl; by apply lookup_insert_ne).
  destruct (IH (init_inside config d) W' Hnd) as (I1 & I2 & I3 & I4 & I5 & I6 & I7 & I8).
  { intros n Hin. rewrite Ho; [apply Hfree; by right|]. by intros ->. }
  change (InitInsides (config :: inss) d) with (InitInsides inss (init_inside config d)).
  assert (dev_next (init_inside config d) = S (dev_next d)) as Hx by done. rewrite Hx in I2, I3, I4.
  split_and!; [done|..|done|done].
  - rewrite I2, Hp. by rewrite <- app_assoc.
  - rewrite I3, Ha. simpl. set_solver.
  - intros [|i] c Hi; simpl in Hi.
    + injection Hi as ->. rewrite I5 by done. simpl. rewrite lookup_insert_eq. by rewrite Nat.add_0_r.
    + rewrite (I4 i c Hi). do 2 f_equal. lia.
  - intros n [Hne Hin]%not_elem_of_cons. rewrite I5 by done. by apply Ho.
  - intros _. destruct inss as [|c2 inss]; [|by apply I6]. done.
Qed.

Lemma started_wf : dev_wf (StartThread new_DeviceThread).
Proof.
  split; simpl; [by intros ? ?%elem_of_empty|..].
  - intros n s Hs. by apply lookup_empty_Some in Hs.
  - intros n1 n2 s Hs. by apply lookup_empty_Some in Hs.
Qed.

(** After [InitInsides], with distinct port names, every inside port of
    the configuration is found by its name, is connected to the endpoint that
    the component's port of the same name binds, and can be polled; without
    any inside port, polling is undefined. *)
Theorem InitInsides_spec inss d' :
  NoDup (map port_name inss) -> d' = InitInsides inss (StartThread new_DeviceThread) ->
  (forall i config, inss !! i = Some config ->
     GetInsidePortByName (port_name config) d' = Some i
     /\ InsidePort config CONNECT = [Connects (inside_endpoint (port_name config))]
     /\ InsidePort config BIND = [Binds (inside_endpoint (port_name config))])
  /\ (forall n, n ∉ map port_name inss -> GetInsidePortByName n d' = None)
  /\ PollDeviceThreadPorts d' = if decide (inss = []) then UB else Ok (List.seq 0 (length inss)).
Proof.
  intros Hnd ->. destruct (InitInsides_run inss (StartThread new_DeviceThread) started_wf Hnd)
    as (_ & Hp & Ha & Hi & Ho & Hs & _); [by intros n _; apply lookup_empty|]. split_and!.
  - intros i config Hc. unfold GetInsidePortByName. by rewrite (Hi i config Hc).
  - intros n Hn. unfold GetInsidePortByName. rewrite (Ho n Hn). done.
  - unfold PollDeviceThreadPorts. destruct (decide (inss = [])) as [->|Hne]; [done|].
    rewrite (Hs Hne), Hp, bool_decide_eq_true_2; [done|]. apply Forall_forall. rewrite Ha. simpl. set_solver.
Qed.

(** The sockets of the poller are alive. *)
Definition pollable (d : DeviceThread) : Prop := forall s, s ∈ poller_list d -> s ∈ dev_alive d.

Definition polls_ok (d : DeviceThread) : Prop := dev_poller d <> None /\ pollable d.

Lemma polls_ok_Ok d : polls_ok d -> exists l, PollDeviceThreadPorts d = Ok l.
Proof.
  unfold polls_ok, pollable, poller_list, PollDeviceThreadPorts. intros [Hn Hp].
  destruct (dev_poller d) as [l|]; [|done]. exists l.
  rewrite bool_decide_eq_true_2; [done|]. by apply Forall_forall.
Qed.

Lemma InitInsides_polls inss d :
  inss <> [] -> NoDup (map port_name inss) -> dev_wf d -> insidePorts d = ∅ -> dev_poller d = None ->
  polls_ok (InitInsides inss d).
Proof.
  intros Hne Hnd W Hp Hpo. destruct (InitInsides_run inss d W Hnd) as (_ & Hl & Ha & _ & _ & Hs & _).
  { intros n _. rewrite Hp. apply lookup_empty. }
  split; [by rewrite (Hs Hne)|]. unfold pollable. rewrite Hl, Ha. unfold poller_list. rewrite Hpo. simpl.
  set_solver.
Qed.

(** The thread is never in danger: either it has not begun to poll, or it may
    poll, or it does not run. *)
Definition calm (d : DeviceThread) (inited : bool) : Prop :=
  (inited = true -> is_running (dev_thread d) = true -> polls_ok d)
  /\ (inited = false -> dev_wf d /\ insidePorts d = ∅ /\ dev_poller d = None).

(** While the thread may still run, the ports are not released. *)
Definition owner_left (t : ThreadState) (ops : list OwnerOp) (inited : bool) : Prop :=
  match t with
  | NotStarted => inited = false /\ ops = OStart :: Terminate ++ destructor
  | Running | Ended => ops = Terminate ++ destructor \/ ops = OJoin :: destructor
  | Joined => OStart ∉ ops
  end.

Definition safe (st : DevState) : Prop :=
  let '(d, ops, inited) := st in calm d inited /\ owner_left (dev_thread d) ops inited.

Lemma wf_eq d d' :
  insidePorts d' = insidePorts d -> dev_alive d' = dev_alive d -> dev_next d' = dev_next d ->
  dev_wf d -> dev_wf d'.
Proof.
  intros E1 E2 E3 [W1 W2 W3]. split; [intros s|intros n s|intros n1 n2 s]; rewrite ?E1, ?E2, ?E3; eauto.
Qed.

Lemma calm_eq d d' inited :
  insidePorts d' = insidePorts d -> dev_alive d' = dev_alive d -> dev_next d' = dev_next d ->
  dev_poller d' = dev_poller d ->
  (inited = true -> is_running (dev_thread d') = true -> is_running (dev_thread d) = true) ->
  calm d inited -> calm d' inited.
Proof.
  intros E1 E2 E3 E4 Hr [C1 C2]. split.
  - intros Hi Hrun. destruct (C1 Hi (Hr Hi Hrun)) as [P1 P2]. unfold polls_ok, pollable, poller_list.
    by rewrite E4, E2.
  - intros Hi. destruct (C2 Hi) as (W & ? & ?). split_and!; [by eapply wf_eq|congruence..].
Qed.

Lemma calm_release d inited :
  is_running (dev_thread d) = false -> calm d inited -> calm (release_ports d) inited.
Proof.
  intros Hr [C1 C2]. split; [simpl; by rewrite Hr|]. intros Hi. destruct (C2 Hi) as ([W1 _ _] & E & Hp).
  split_and!; [|simpl; by rewrite E, fmap_empty|done]. split; simpl.
  - intros s [? _]%elem_of_difference. by apply W1.
  - intros n s. rewrite E, fmap_empty. intros Hx. by apply lookup_empty_Some in Hx.
  - intros n1 n2 s. rewrite E, fmap_empty. intros Hx. by apply lookup_empty_Some in Hx.
Qed.

Lemma owner_step inss d ops inited :
  safe (d, ops, inited) -> exists st', dev_step inss Owner (d, ops, inited) = Ok st' /\ safe st'.
Proof.
  intros [C L]. unfold owner_left in L. destruct (dev_thread d) eqn:Ht.
  - destruct L as [-> ->]. eexists. split; [done|]. split; [|by left]. eapply calm_eq; [..|exact C]; done.
  - destruct L as [-> | ->]; simpl; rewrite ?Ht; (eexists; split; [done|]).
    + split; [eapply calm_eq; [..|exact C]; done|]. simpl. rewrite Ht. by right.
    + split; [done|]. rewrite Ht. by right.
  - destruct L as [-> | ->]; simpl; rewrite ?Ht; (eexists; split; [done|]).
    + split; [eapply calm_eq; [..|exact C]; done|]. simpl. rewrite Ht. by right.
    + split; [eapply calm_eq; [..|exact C]; done|]. simpl. unfold destructor. set_solver.
  - destruct ops as [|op ops]; [eexists; split; [done|]; split; [done|]; by rewrite Ht|].
    apply not_elem_of_cons in L as [Hop L].
    destruct op; [done|..]; simpl; rewrite ?Ht; (eexists; split; [done|]); (split; [|simpl; by rewrite Ht]).
    + eapply calm_eq; [..|exact C]; done.
    + done.
    + apply calm_release; [by rewrite Ht|done].
Qed.

Lemma safe_step inss e st :
  inss <> [] -> NoDup (map port_name inss) -> safe st ->
  exists st', dev_step inss e st = Ok st' /\ safe st'.
Proof.
  intros Hne Hnd Hsafe. destruct e; [destruct st as [[d ops] inited]; by apply owner_step|..];
    destruct st as [[d ops] inited]; pose proof Hsafe as [C L]; simpl;
    (destruct (is_running (dev_thread d)) eqn:Hr; [|by eexists; split; [done|]]);
    (destruct inited; simpl; [|try by eexists; split; [done|]]).
  - by eexists; split; [done|].
  - eexists. split; [done|]. destruct C as [_ C2]. destruct (C2 eq_refl) as (W & E & Hp).
    destruct (InitInsides_run inss d W Hnd) as (_ & _ & _ & _ & _ & _ & _ & Ht);
      [intros n _; rewrite E; apply lookup_empty|].
    split; [split; [|done]; intros _ _; by apply InitInsides_polls|]. rewrite Ht.
    by destruct (dev_thread d).
  - destruct (polls_ok_Ok d) as [l ->]; [by apply C|]. by eexists; split; [done|].
  - destruct (isTerminated d); [|by eexists; split; [done|]]. eexists. split; [done|]. split.
    + eapply calm_eq; [..|exact C]; done.
    + simpl. by destruct (dev_thread d).
Qed.


(** ** Witnesses *)

Definition demo_insides : list ComponentPortConfig := [demo_config].

Lemma InitInsides_spec_witness :
  GetInsidePortByName "port1" (InitInsides demo_insides (StartThread new_DeviceThread)) = Some 0%nat.
Proof.
  destruct (InitInsides_spec demo_insides _ (NoDup_singleton "port1") eq_refl) as [H _].
  by destruct (H 0%nat demo_config eq_refl).
Defined.

