(* ===== verification/Params.v ===== *)
(** Params.v - the parameters of a component and of its instances
    ([include/componentmodel/r_parameter.h],
    [src/componentmodel/r_parameter.cc]). *)

From Stdlib Require Import ZArith Lia Ascii.
From stdpp Require Import base gmap strings list fin_maps.
From S2P Require Import Prelude.

Record Param := mkParam {
  m_paramName : string;
  m_paramValue : string;
  m_paramDefaultValue : string;
  m_isOptional : bool;
}.

Definition new_Param (fieldName : string) (isOptional : bool) (defaultValue : string) : Param :=
  mkParam fieldName "" defaultValue isOptional.

Definition setValue (value : string) (p : Param) : Param :=
  mkParam (m_paramName p) value (m_paramDefaultValue p) (m_isOptional p).

(** Whether the value is an [int], and the integer; the caller's variable is
    left alone otherwise. *)
Definition getValueAsInt (intValue : Z) (p : Param) : bool * Z :=
  match stoi (m_paramValue p) with
  | Ok v => (true, v)
  | _ => (false, intValue)
  end.

(** Reading a [bool] with [boolalpha]: a failure stores [false]. *)
Definition getValueAsBool (p : Param) : bool :=
  String.prefix "true" (skip_space (m_paramValue p)).

(** The map holds pointers to objects of its own. *)
Abbreviation Params := (gmap string Param).

Definition addParam (name value : string) (isOptional : bool) (defaultValue : string)
    (m : Params) : Params :=
  let newItem := new_Param name isOptional defaultValue in
  <[name := if bool_decide (value <> "") then setValue value newItem
            else setValue defaultValue newItem]> m.

Definition addParam_copy (param : Param) (m : Params) : Params :=
  addParam (m_paramName param) (m_paramValue param) (m_isOptional param)
    (m_paramDefaultValue param) m.

Definition getParam (name : string) (m : Params) : option Param := m !! name.

Definition setParamValue (name value : string) (m : Params) : option Param * Params :=
  match m !! name with
  | None => (None, m)
  | Some p => (Some (setValue value p), <[name := setValue value p]> m)
  end.

Definition getParameterNames (m : Params) : list string := map fst (smap_to_list m).

(** ** Parameters of an instance: a value, or the name of a parameter *)

Record ComponentActual := {
  _paramName : string;
  _paramValue : string;
  _hasParamReferred : bool;
}.

Definition GetParamValue (c : ComponentActual) : Res string :=
  if _hasParamReferred c then Throw runtime_error else Ok (_paramValue c).
Definition GetReferredParamName (c : ComponentActual) : Res string :=
  if _hasParamReferred c then Ok (_paramValue c) else Throw runtime_error.
Definition HasValue (c : ComponentActual) : bool := negb (_hasParamReferred c).
Definition HasParamReferred (c : ComponentActual) : bool := _hasParamReferred c.

(** ** Facts *)

(** Parameters: a parameter that was added is found under its name with
    its value, or its default when no value was given, and the others are
    untouched; a later assignment is seen by the next reader; the numbers the
    framework itself writes are read back; of the two readers of an instance's
    parameter exactly one throws. *)
Theorem parameters_spec name value opt def m c :
  (exists p, getParam name (addParam name value opt def m) = Some p /\ m_paramName p = name
     /\ m_paramValue p = (if decide (value = "") then def else value))
  /\ (forall n, n <> name -> getParam n (addParam name value opt def m) = getParam n m)
  /\ (forall v p m', setParamValue name v m = (Some p, m') ->
        getParam name m' = Some p /\ m_paramValue p = v /\ is_Some (getParam name m))
  /\ (forall z i o d, 0 <= z < 2 ^ 31 ->
        getValueAsInt i (setValue (to_string z) (new_Param name o d)) = (true, z))
  /\ ((exists v, GetParamValue c = Ok v) <-> GetReferredParamName c = Throw runtime_error).
Proof.
  split_and!.
  - unfold getParam, addParam. rewrite lookup_insert_eq. eexists. split; [reflexivity|].
    destruct (decide (value = "")) as [->|Hv];
      [by rewrite bool_decide_eq_false_2 by (by intros H; apply H)|by rewrite bool_decide_eq_true_2].
  - intros n Hn. unfold getParam, addParam. by rewrite lookup_insert_ne.
  - intros v p m'. unfold setParamValue, getParam. destruct (m !! name) as [q|]; [|done].
    intros [= <- <-]. by rewrite lookup_insert_eq.
  - intros z i o d Hz. unfold getValueAsInt. simpl. by rewrite stoi_to_string.
  - unfold GetParamValue, GetReferredParamName. destruct (_hasParamReferred c).
    + split; [by intros [? ?]|done].
    + split; [done|intros _; by eexists].
Qed.
