(* ===== verification/Config.v ===== *)
(** Config.v - from the Python model of a component to its configuration
    ([include/componentmodel/r_pyconfigconverter.h],
    [include/componentmodel/r_configuration.h]).

    The Python objects are values of [PyVal]: a dictionary keeps the order of
    its keys.  Indexing raises a Python error when the key is missing or the
    object cannot be indexed, and a cast to a C++ type fails on a value of
    another Python type; [bool] is a subtype of [int].  The static member
    [locals_] is a state that outlives the calls. *)

From Stdlib Require Import ZArith Lia SpecFloat Ascii.
From stdpp Require Import base gmap strings list fin_maps fin_sets.
From S2P Require Import Prelude.
From S2P Require Import Ports.
From S2P Require Import Component.
From S2P Require Import Params.

(** ** Python objects *)

Inductive PyVal :=
| PyStr (s : string)
| PyInt (z : Z)
| PyFloat (x : spec_float)
| PyBool (b : bool)
| PyDict (d : list (string * PyVal))
| PyList (l : list PyVal)
| PyNone.

Abbreviation PyDictionary := (list (string * PyVal)).

Fixpoint dict_find (k : string) (d : PyDictionary) : option PyVal :=
  match d with
  | [] => None
  | (k', v) :: d' => if decide (k' = k) then Some v else dict_find k d'
  end.

Definition py_get (k : string) (d : PyDictionary) : Res PyVal :=
  match dict_find k d with Some v => Ok v | None => Throw error_already_set end.

Definition py_item (k : string) (v : PyVal) : Res PyVal :=
  match v with PyDict d => py_get k d | _ => Throw error_already_set end.

Definition cast_dict (v : PyVal) : Res PyDictionary :=
  match v with PyDict d => Ok d | _ => Throw cast_error end.

Definition cast_string (v : PyVal) : Res string :=
  match v with PyStr s => Ok s | _ => Throw cast_error end.

(** The integer casts check the range. *)
Definition py_int (v : PyVal) : option Z :=
  match v with PyInt z => Some z | PyBool b => Some (Z.b2z b) | _ => None end.

Definition cast_int (v : PyVal) : Res Z :=
  match py_int v with
  | Some z => if bool_decide (in_s 32 z) then Ok z else Throw cast_error
  | None => Throw cast_error
  end.

Definition cast_ulong (v : PyVal) : Res Z :=
  match py_int v with
  | Some z => if bool_decide (in_u 64 z) then Ok z else Throw cast_error
  | None => Throw cast_error
  end.

(** Iteration: over the elements of a list; what is no list cannot be cast to
    the dictionaries expected. *)
Definition py_iter (v : PyVal) : Res (list PyVal) :=
  match v with
  | PyList l => Ok l
  | PyDict d => Ok (map (fun e => PyStr e.1) d)
  | PyStr s => Ok (map (fun c => PyStr (String c "")) (String.list_ascii_of_string s))
  | _ => Throw error_already_set
  end.

Fixpoint traverse {A B} (f : A -> Res B) (l : list A) : Res (list B) :=
  match l with
  | [] => Ok []
  | x :: l' => y ← f x; ys ← traverse f l'; Ok (y :: ys)
  end.

(** ** Numbers as text *)

(** [float] of a Python number. *)
Definition float_of_double (x : spec_float) : spec_float :=
  match x with
  | S754_finite s m e => binary_normalize 24 128 (cond_Zopp s (Zpos m)) e s
  | _ => x
  end.

(** [m * 2 ^ e] in millionths, rounded to the nearest, ties to even. *)
Definition millionths (m e : Z) : Z :=
  if 0 <=? e then m * 2 ^ e * 1000000
  else
    let q := (m * 1000000) / 2 ^ (- e) in
    let r := (m * 1000000) mod 2 ^ (- e) in
    if (2 * r <? 2 ^ (- e)) || ((2 * r =? 2 ^ (- e)) && Z.even q) then q else q + 1.

(** Six digits. *)
Definition six_digits (z : Z) : string :=
  String (digit_char (z / 100000 mod 10)) (String (digit_char (z / 10000 mod 10))
    (String (digit_char (z / 1000 mod 10)) (String (digit_char (z / 100 mod 10))
      (String (digit_char (z / 10 mod 10)) (String (digit_char (z mod 10)) ""))))).

(** [std::to_string(float)], that is ["%f"]. *)
Definition float_to_string (x : spec_float) : string :=
  match x with
  | S754_zero s => (if s then "-" else "") +:+ "0.000000"
  | S754_infinity s => (if s then "-" else "") +:+ "inf"
  | S754_nan => "nan"
  | S754_finite s m e =>
      let u := millionths (Zpos m) e in
      (if s then "-" else "") +:+ to_string (u / 1000000) +:+ "." +:+ six_digits (u mod 1000000)
  end.

(** [std::to_string(int)]: with the sign. *)
Definition int_to_string (z : Z) : string :=
  if z <? 0 then "-" +:+ to_string (- z) else to_string z.

(** ** The configuration *)

Record ComponentPortReqRep := {
  rr_config : ComponentPortConfig;
  req_type : string;
  rep_type : string;
}.

Record ComponentPortTim := { tim_config : ComponentPortConfig; period : Z }.

(** Without the names of the component and of its type, which the caller sets;
    the last three are vectors that the converter does not fill. *)
Record ComponentConf := {
  is_device : bool;
  component_parameters : Params;
  conf_subs : list ComponentPortConfig;
  conf_pubs : list ComponentPortConfig;
  conf_reqs : list ComponentPortReqRep;
  conf_reps : list ComponentPortReqRep;
  conf_tims : list ComponentPortTim;
  conf_inss : list ComponentPortConfig;
  conf_qrys : list ComponentPortConfig;
  conf_anss : list ComponentPortConfig;
}.

Definition J_TYPE : string := "type".
Definition J_PORTS : string := "ports".
Definition J_LOCALS : string := "locals".
Definition J_PORTS_PUBS : string := "pubs".
Definition J_PORTS_SUBS : string := "subs".
Definition J_PORTS_REQS : string := "reqs".
Definition J_PORTS_REPS : string := "reps".
Definition J_PORTS_TIMS : string := "tims".
Definition J_PORT_REQTYPE : string := "req_type".
Definition J_PORT_REPTYPE : string := "rep_type".
Definition J_PORT_PERIOD : string := "period".

(** ** The converter *)

Definition local_type (v : PyVal) : Res string :=
  d ← cast_dict v; t ← py_get J_TYPE d; cast_string t.

(** [ParseLocals]: what was inserted before an exception stays. *)
Fixpoint insert_locals (l : list PyVal) (locals_ : gset string) : gset string * Res unit :=
  match l with
  | [] => (locals_, Ok ())
  | v :: l' =>
      match local_type v with
      | Ok t => insert_locals l' ({[t]} ∪ locals_)
      | Throw e => (locals_, Throw e)
      | UB => (locals_, UB)
      end
  end.

Definition ParseLocals (py_actor : PyDictionary) (locals_ : gset string) : gset string * Res unit :=
  match (v ← py_get J_LOCALS py_actor; py_iter v) with
  | Ok l => insert_locals l locals_
  | Throw e => (locals_, Throw e)
  | UB => (locals_, UB)
  end.

(** One argument: the text of its value; a value of another type is skipped.
    The test for [int] comes before that for [bool] and holds of both. *)
Definition arg_text (v : PyVal) : Res (option string) :=
  match v with
  | PyStr s => Ok (Some s)
  | PyInt _ | PyBool _ => z ← cast_int v; Ok (Some (int_to_string z))
  | PyFloat x => Ok (Some (float_to_string (float_of_double x)))
  | _ => Ok None
  end.

Fixpoint ParseArgs (py_args : PyDictionary) (m : Params) : Res Params :=
  match py_args with
  | [] => Ok m
  | (name, v) :: rest =>
      t ← arg_text v;
      ParseArgs rest (match t with Some s => addParam name s false "" m | None => m end)
  end.

Definition IsLocal (locals_ : gset string) (message_type : string) : bool :=
  bool_decide (message_type ∈ locals_).

Definition parse_pub_sub (locals_ : gset string) (p : string * PyVal) : Res ComponentPortConfig :=
  d ← cast_dict p.2; v ← py_get J_TYPE d; t ← cast_string v;
  Ok {| port_name := p.1; message_type := t; is_local := IsLocal locals_ t; is_timed := false |}.

Definition parse_req_rep (locals_ : gset string) (p : string * PyVal) : Res ComponentPortReqRep :=
  v ← py_item J_PORT_REQTYPE p.2; req ← cast_string v;
  w ← py_item J_PORT_REPTYPE p.2; rep ← cast_string w;
  Ok {| rr_config := {| port_name := p.1; message_type := req +:+ "#" +:+ rep;
                        is_local := IsLocal locals_ req && IsLocal locals_ rep; is_timed := false |};
        req_type := req; rep_type := rep |}.

Definition parse_tim (p : string * PyVal) : Res ComponentPortTim :=
  v ← py_item J_PORT_PERIOD p.2; n ← cast_ulong v;
  Ok {| tim_config := {| port_name := p.1; message_type := ""; is_local := false; is_timed := false |};
        period := n |}.

(** [json_ports[key].cast<py::dict>()] *)
Definition ports_dict (json_ports : PyVal) (key : string) : Res PyDictionary :=
  v ← py_item key json_ports; cast_dict v.

Definition convert_ports (locals_ : gset string) (py_comp_config py_args : PyDictionary) : Res ComponentConf :=
  params ← ParseArgs py_args ∅;
  json_ports ← py_get J_PORTS py_comp_config;
  json_pubs ← ports_dict json_ports J_PORTS_PUBS;
  json_subs ← ports_dict json_ports J_PORTS_SUBS;
  json_reqs ← ports_dict json_ports J_PORTS_REQS;
  json_reps ← ports_dict json_ports J_PORTS_REPS;
  json_tims ← ports_dict json_ports J_PORTS_TIMS;
  subs ← traverse (parse_pub_sub locals_) json_subs;
  pubs ← traverse (parse_pub_sub locals_) json_pubs;
  reqs ← traverse (parse_req_rep locals_) json_reqs;
  reps ← traverse (parse_req_rep locals_) json_reps;
  tims ← traverse parse_tim json_tims;
  Ok {| is_device := false; component_parameters := params; conf_subs := subs; conf_pubs := pubs;
        conf_reqs := reqs; conf_reps := reps; conf_tims := tims; conf_inss := [];
        conf_qrys := []; conf_anss := [] |}.

(** [PyConfigConverter::convert]: the new [locals_], and the outcome. *)
Definition convert (py_comp_config py_actor py_args : PyDictionary) (locals_ : gset string)
    : gset string * Res ComponentConf :=
  let '(locals_, r) := ParseLocals py_actor locals_ in
  (locals_, _ ← r; convert_ports locals_ py_comp_config py_args).

(** The ports that the component's thread will create: [Component.v] knows them
    by name. *)
Definition ports_of (c : ComponentConf) : ComponentPorts :=
  {| inss := port_name <$> conf_inss c;
     tims := (fun t => (port_name (tim_config t), period t)) <$> conf_tims c;
     pubs := port_name <$> conf_pubs c;
     reps := (fun r => port_name (rr_config r)) <$> conf_reps c;
     anss := port_name <$> conf_anss c;
     reqs := (fun r => port_name (rr_config r)) <$> conf_reqs c;
     qrys := port_name <$> conf_qrys c;
     subs := port_name <$> conf_subs c |}.

(** ** Facts *)

Lemma traverse_Ok {A B} (f : A -> Res B) l ys :
  traverse f l = Ok ys <-> Forall2 (fun x y => f x = Ok y) l ys.
Proof.
  revert ys. induction l as [|x l IH]; intros ys; simpl.
  - split; [by intros [= <-]|by intros ->%Forall2_nil_inv_l].
  - rewrite bind_Ok. split.
    + intros (y & Hy & H). apply bind_Ok in H as (zs & Hz & [= <-]). constructor; [done|by apply IH].
    + intros (y & zs & Hy & Hz & ->)%Forall2_cons_inv_l. exists y. split; [done|].
      apply bind_Ok. exists zs. split; [by apply IH|done].
Qed.

(** The port called [name] that the component's model declares under [key]. *)
Definition declared (py_comp_config : PyDictionary) (key name : string) (v : PyVal) : Prop :=
  exists json_ports d, py_get J_PORTS py_comp_config = Ok json_ports
    /\ ports_dict json_ports key = Ok d /\ (name, v) ∈ d.

(** A vector of ports made from the dictionary under [key] by [f]. *)
Definition made_from {B} comp (key : string) (f : string * PyVal -> Res B) (l : list B) : Prop :=
  exists json_ports d, py_get J_PORTS comp = Ok json_ports
    /\ ports_dict json_ports key = Ok d /\ Forall2 (fun p c => f p = Ok c) d l.

Lemma made_from_elem {B} comp key f (l : list B) c :
  made_from comp key f l -> c ∈ l -> exists name v, declared comp key name v /\ f (name, v) = Ok c.
Proof.
  intros (P & d & HP & Hd & Hf) Hc. destruct (Forall2_elem_r _ _ _ _ Hf Hc) as ([n v] & Hin & E).
  exists n, v. split; [by exists P, d|done].
Qed.

Lemma made_from_declared {B} comp key f (l : list B) name v :
  made_from comp key f l -> declared comp key name v -> exists c, c ∈ l /\ f (name, v) = Ok c.
Proof.
  intros (P & d & HP & Hd & Hf) (P' & d' & HP' & Hd' & Hin).
  assert (P' = P) as -> by congruence. assert (d' = d) as -> by congruence.
  destruct (Forall2_elem_l _ _ _ _ Hf Hin) as (c & Hc & E). eauto.
Qed.

Lemma convert_made comp actor args locals locals' c :
  convert comp actor args locals = (locals', Ok c) ->
  made_from comp J_PORTS_SUBS (parse_pub_sub locals') (conf_subs c)
  /\ made_from comp J_PORTS_PUBS (parse_pub_sub locals') (conf_pubs c)
  /\ made_from comp J_PORTS_REQS (parse_req_rep locals') (conf_reqs c)
  /\ made_from comp J_PORTS_REPS (parse_req_rep locals') (conf_reps c)
  /\ made_from comp J_PORTS_TIMS parse_tim (conf_tims c)
  /\ conf_inss c = [] /\ conf_qrys c = [] /\ conf_anss c = [].
Proof.
  unfold convert. destruct (ParseLocals actor locals) as [ls r].
  intros [= <- H]. apply bind_Ok in H as (_ & _ & H). unfold convert_ports in H.
  apply bind_Ok in H as (ps & Hps & H). apply bind_Ok in H as (P & HP & H).
  apply bind_Ok in H as (dp & Hdp & H). apply bind_Ok in H as (ds & Hds & H).
  apply bind_Ok in H as (dq & Hdq & H). apply bind_Ok in H as (dr & Hdr & H).
  apply bind_Ok in H as (dt & Hdt & H).
  apply bind_Ok in H as (ss & Hss & H). apply bind_Ok in H as (pp & Hpp & H).
  apply bind_Ok in H as (qq & Hqq & H). apply bind_Ok in H as (rr & Hrr & H).
  apply bind_Ok in H as (tt & Htt & H). injection H as <-. cbn.
  apply traverse_Ok in Hss, Hpp. apply traverse_Ok in Hqq, Hrr. apply traverse_Ok in Htt.
  split_and!; [by exists P, ds|by exists P, dp|by exists P, dq|by exists P, dr|by exists P, dt|done..].
Qed.

Lemma parse_pub_sub_Ok locals p c :
  parse_pub_sub locals p = Ok c -> port_name c = p.1 /\ is_timed c = false
    /\ is_local c = bool_decide (message_type c ∈ locals).
Proof.
  unfold parse_pub_sub. intros H. apply bind_Ok in H as (d & _ & H).
  apply bind_Ok in H as (v & _ & H). apply bind_Ok in H as (t & _ & H). by injection H as <-.
Qed.

Lemma parse_req_rep_Ok locals p c :
  parse_req_rep locals p = Ok c -> port_name (rr_config c) = p.1 /\ is_timed (rr_config c) = false
    /\ message_type (rr_config c) = req_type c +:+ "#" +:+ rep_type c
    /\ is_local (rr_config c) = bool_decide (req_type c ∈ locals) && bool_decide (rep_type c ∈ locals).
Proof.
  unfold parse_req_rep. intros H. apply bind_Ok in H as (v & _ & H).
  apply bind_Ok in H as (q & _ & H). apply bind_Ok in H as (w & _ & H).
  apply bind_Ok in H as (r & _ & H). by injection H as <-.
Qed.

Lemma parse_tim_Ok p c :
  parse_tim p = Ok c -> port_name (tim_config c) = p.1
    /\ exists v, py_item J_PORT_PERIOD p.2 = Ok v /\ cast_ulong v = Ok (period c).
Proof.
  unfold parse_tim. intros H. apply bind_Ok in H as (v & Hv & H).
  apply bind_Ok in H as (n & Hn & H). injection H as <-. split; [done|by exists v].
Qed.

(** The dictionary of the model in which the ports of a type are declared. *)
Definition key_of (t : PortTypes) : option string :=
  match t with
  | Publisher => Some J_PORTS_PUBS
  | Subscriber => Some J_PORTS_SUBS
  | Request => Some J_PORTS_REQS
  | Response => Some J_PORTS_REPS
  | Timer => Some J_PORTS_TIMS
  | Inside | Answer | Query => None
  end.

Lemma elem_of_plain t t' name b l :
  (t, name, b) ∈ map (plain t') l <-> t = t' /\ b = false /\ name ∈ l.
Proof.
  rewrite list_elem_of_fmap. unfold plain. split; [by intros (x & [= -> -> ->] & Hx)|].
  intros (-> & -> & Hx). by exists name.
Qed.

Lemma made_names comp key {B} (f : string * PyVal -> Res B) (nm : B -> string) l name :
  made_from comp key f l -> (forall p x, f p = Ok x -> nm x = p.1) ->
  name ∈ nm <$> l <-> exists v, declared comp key name v.
Proof.
  intros Hm Hnm. rewrite list_elem_of_fmap. split.
  - intros (x & -> & Hx). destruct (made_from_elem _ _ _ _ _ Hm Hx) as (n & v & Hd & E).
    exists v. by rewrite (Hnm _ _ E).
  - intros (v & Hd). destruct (made_from_declared _ _ _ _ _ _ Hm Hd) as (x & Hx & E).
    exists x. by rewrite (Hnm _ _ E).
Qed.

Lemma made_timers comp l t name b :
  made_from comp J_PORTS_TIMS parse_tim l ->
  (t, name, b) ∈ map (fun t => (Timer, t.1, negb (t.2 =? 0)))
                   ((fun t => (port_name (tim_config t), period t)) <$> l) <->
  t = Timer /\ exists v, declared comp J_PORTS_TIMS name v /\ exists w n,
    py_item J_PORT_PERIOD v = Ok w /\ cast_ulong w = Ok n /\ b = negb (n =? 0).
Proof.
  intros Hm. rewrite list_elem_of_fmap. split.
  - intros (x & [= -> -> ->] & (y & -> & Hy)%list_elem_of_fmap). split; [done|].
    destruct (made_from_elem _ _ _ _ _ Hm Hy) as (n & v & Hd & E).
    destruct (parse_tim_Ok _ _ E) as (En & w & Hw & Hc). simpl in *. exists v. rewrite En.
    split; [done|by exists w, (period y)].
  - intros (-> & v & Hd & w & n & Hw & Hc & ->).
    destruct (made_from_declared _ _ _ _ _ _ Hm Hd) as (x & Hx & E).
    destruct (parse_tim_Ok _ _ E) as (En & w' & Hw' & Hc'). simpl in *.
    exists (name, period x). split; [simpl; congruence|]. rewrite <- En.
    by apply (list_elem_of_fmap_2 (fun t => (port_name (tim_config t), period t))).
Qed.

(** C30. From the model to the thread: the ports that the component's thread creates
    are exactly those that the model declares under [pubs], [subs], [reqs],
    [reps] and [tims], each under its own name, and only a timer with a period
    is started at once; inside, query and answer ports are never created. *)
Theorem convert_plan comp actor args locals locals' c t name b :
  convert comp actor args locals = (locals', Ok c) ->
  (t, name, b) ∈ port_plan (ports_of c) <->
  exists key v, key_of t = Some key /\ declared comp key name v /\
    (if decide (t = Timer) then
       exists w n, py_item J_PORT_PERIOD v = Ok w /\ cast_ulong w = Ok n /\ b = negb (n =? 0)
     else b = false).
Proof.
  intros (Hs & Hp & Hq & Hr & Ht & Hi & Hy & Ha)%convert_made.
  unfold port_plan, ports_of. cbn [inss tims pubs reps anss reqs qrys subs].
  rewrite Hi, Hy, Ha, !elem_of_app, !elem_of_plain, made_timers by done.
  rewrite (made_names _ _ _ port_name _ _ Hs), (made_names _ _ _ port_name _ _ Hp),
    (made_names _ _ _ (fun r => port_name (rr_config r)) _ _ Hq),
    (made_names _ _ _ (fun r => port_name (rr_config r)) _ _ Hr);
    try (intros p x E; by apply parse_pub_sub_Ok in E as [? _]);
    try (intros p x E; by apply parse_req_rep_Ok in E as [? _]).
  destruct t; cbn [key_of]; rewrite ?decide_True, ?decide_False by done; set_unfold; naive_solver.
Qed.

(** ** Arguments *)

Lemma ParseArgs_other args m m' name :
  ParseArgs args m = Ok m' -> name ∉ args.*1 -> m' !! name = m !! name.
Proof.
  revert m. induction args as [|[k v] args IH]; intros m H Hn; [by injection H as <-|].
  apply not_elem_of_cons in Hn as [Hk Hn]. simpl in H. apply bind_Ok in H as (t & _ & H).
  rewrite (IH _ H Hn). destruct t; [|done]. unfold addParam. by apply lookup_insert_ne.
Qed.

Lemma ParseArgs_lookup args m m' name v s :
  ParseArgs args m = Ok m' -> NoDup args.*1 -> (name, v) ∈ args -> arg_text v = Ok (Some s) ->
  exists p, getParam name m' = Some p /\ m_paramValue p = s.
Proof.
  revert m. induction args as [|[k w] args IH]; intros m H Hnd Hin Hv; [by apply elem_of_nil in Hin|].
  simpl in H. apply bind_Ok in H as (t & Ht & H). apply NoDup_cons in Hnd as [Hk Hnd].
  apply elem_of_cons in Hin as [[= <- <-]|Hin]; [|by eapply IH].
  assert (t = Some s) as -> by congruence. simpl in Hk.
    unfold getParam. rewrite (ParseArgs_other _ _ _ _ H Hk).
  unfold addParam. rewrite lookup_insert_eq. eexists. split; [done|].
  case_bool_decide as Hs; [done|]. simpl. destruct (decide (s = "")) as [->|]; [done|by destruct Hs].
Qed.

(** The arguments of a component: a text is read back as it was written, a
    whole number that an [int] can hold as that number; but a truth value is
    written as the digit 0 or 1, which the reader of truth values does not
    accept, so that [True] is read as false. *)
Theorem arguments_read args m name v i :
  ParseArgs args ∅ = Ok m -> NoDup args.*1 -> (name, v) ∈ args ->
  match v with
  | PyStr s => exists p, getParam name m = Some p /\ m_paramValue p = s
  | PyInt z => 0 <= z -> exists p, getParam name m = Some p /\ getValueAsInt i p = (true, z)
  | PyBool _ => exists p, getParam name m = Some p /\ getValueAsBool p = false
  | _ => True
  end.
Proof.
  intros H Hnd Hin.
  assert (exists t, arg_text v = Ok t) as [t Ht].
  { clear Hnd. revert H Hin. generalize (∅ : Params). induction args as [|[k w] args IH]; intros m0 H Hin;
      [by apply elem_of_nil in Hin|]. simpl in H. apply bind_Ok in H as (t & Ht & H).
    apply elem_of_cons in Hin as [[= <- <-]|Hin]; [by exists t|by eapply IH]. }
  destruct v as [s|z|x|b|d|l|]; try done.
  - by eapply ParseArgs_lookup.
  - intros Hz. simpl in Ht. unfold cast_int in Ht. simpl in Ht.
    case_bool_decide as Hr; [|done].
    destruct (ParseArgs_lookup _ _ _ _ _ (int_to_string z) H Hnd Hin) as (p & Hp & E).
    { simpl. unfold cast_int. simpl. by rewrite bool_decide_eq_true_2. }
    exists p. split; [done|]. unfold getValueAsInt. rewrite E. unfold int_to_string.
    rewrite (proj2 (Z.ltb_ge _ _) Hz). unfold in_s in Hr. by rewrite stoi_to_string by lia.
  - destruct (ParseArgs_lookup _ _ _ _ _ (if b then "1" else "0") H Hnd Hin) as (p & Hp & E); [by destruct b|].
    exists p. split; [done|]. unfold getValueAsBool. rewrite E. by destruct b.
Qed.

(** ** A concrete model *)

Definition py_type (t : string) : PyVal := PyDict [("type", PyStr t)].
Definition py_pair (q r : string) : PyVal := PyDict [("req_type", PyStr q); ("rep_type", PyStr r)].

Definition demo_model : PyDictionary :=
  [("ports", PyDict
     [("pubs", PyDict [("ready", py_type "SensorReady")]); ("subs", PyDict []);
      ("reqs", PyDict []); ("reps", PyDict [("ask", py_pair "Query" "Value")]);
      ("tims", PyDict [("clock", PyDict [("period", PyInt 500)])]);
      ("qrys", PyDict [("later", py_pair "Query" "Value")])])].
Definition demo_actor : PyDictionary := [("locals", PyList [py_type "SensorReady"])].
Definition demo_args : PyDictionary := [("rate", PyInt 20); ("verbose", PyBool true); ("gain", PyFloat (double_of_Z 3))].

Definition demo_conf_of : gset string * Res ComponentConf := convert demo_model demo_actor demo_args ∅.

Lemma convert_plan_witness :
  match demo_conf_of with
  | (_, Ok c) => (Timer, "clock", true) ∈ port_plan (ports_of c)
  | _ => False
  end.
Proof.
  destruct demo_conf_of as [ls [c| |]] eqn:E; [|by vm_compute in E..].
  apply (convert_plan demo_model demo_actor demo_args ∅ ls c Timer "clock" true E).
  exists "tims", (PyDict [("period", PyInt 500)]). split; [reflexivity|]. split.
  - eexists _, _. split; [reflexivity|]. split; [reflexivity|]. apply list_elem_of_singleton. reflexivity.
  - exists (PyInt 500), 500. split_and!; reflexivity.
Defined.

Lemma arguments_read_witness :
  match ParseArgs demo_args ∅ with
  | Ok m => exists p, getParam "verbose" m = Some p /\ getValueAsBool p = false
  | _ => False
  end.
Proof.
  destruct (ParseArgs demo_args ∅) as [m| |] eqn:E; [|by vm_compute in E..].
  apply (arguments_read demo_args m "verbose" (PyBool true) 0 E).
  - apply (bool_decide_unpack _). by vm_compute.
  - right. left.
Defined.

(** Values that are written as [std::to_string] writes them. *)
Example floats_as_text :
  float_to_string (float_of_double (double_of_Z 3)) = "3.000000"
  /\ float_to_string (float_of_double (S754_finite false 7205759403792794 (-56))) = "0.100000"
  /\ float_to_string (float_of_double (S754_finite true 5 (-1))) = "-2.500000"
  /\ int_to_string (-42) = "-42".
Proof. by vm_compute. Qed.
